(* ===== verification/_CoqProject ===== *)
-Q . S2P
Prelude.v
Types.v
OrderPool.v
IdIndexMap.v
IdIndexMapFacts.v
Bitset.v
ContainerTheorems.v
BookCore.v
BookSpec.v
BookSpecFacts.v
BookRep.v
BookTrades.v
BookInterface.v
SelfTrade.v
OrderBookVector.v
VectorRefinement.v
OrderBookMap.v
MapRefinement.v
OrderBookArray.v
ArrayRefinement.v
Books.v
BookTheorems.v
RiskManager.v
MatchingEngine.v
EngineFacts.v
EngineTheorems.v
Typing.v
LockfreeQueue.v
LockfreeAccess.v
OrderGateway.v
Text.v
Double.v
Replay.v
ReplayRun.v
ReplayFigures.v
BookPrint.v
Demo.v
Logger.v
Fairness.v
LoggerFair.v
ConsoleStream.v
MtDemo.v
MtFair.v
ThreadAffinity.v
Main.v
