(* ===== verification/Prelude.v ===== *)
(** * LightningLOB: a verification of the limit order book and its services

    The program (C++, include/lightninglob/ and src/ of the repository) matches
    buy and sell orders.  A client's request goes through a gateway of
    lock-free queues to the matching engine, which assigns ids, applies risk
    checks and hands the order to the symbol's order book; the book matches it
    against resting orders, reports the trades back to the engine, and rests or
    discards the remainder.  Three order books with one interface exist, built on
    a sorted vector, a [std::map] and an array indexed by price.  Around them
    are a CSV loader and replay, an asynchronous logger and a command-line
    demo.

    ** Files, in dependency order

    - Prelude.v: undefined behaviour as [option], machine integers, vectors,
      shared tactics and lemmas.
    - Types.v: types.hpp and order.hpp (enums, requests, orders, trades,
      reports).
    - OrderPool.v: order_pool.hpp, the node pool, its free list and the
      intrusive FIFO list of a price level.
    - IdIndexMap.v, IdIndexMapFacts.v: id_index_map.hpp, the open-addressing
      map from order ids to pool handles, with backward-shift deletion.
    - Bitset.v: bitset_utils.hpp.  ContainerTheorems.v states what the three
      containers promise.
    - BookCore.v: the part that the three books have in common in
      order_book_vector.cpp, order_book_map.cpp and order_book_array.cpp (the
      matching loop over one level, self-trade prevention, reports).
    - BookSpec.v, BookSpecFacts.v, BookTrades.v: the abstract order book
      ([abook]: two lists of price levels, each a list of orders) and what
      follows from it: price-time priority, conservation, no crossed book.
      BookRep.v relates the pool-backed levels to it.  BookInterface.v is the
      contract ([BookOps], [BookLaws]) between a book and its clients, and
      lifts it to whole workloads; SelfTrade.v: who trades with whom over a
      workload of the abstract book.
    - OrderBookVector.v, OrderBookMap.v, OrderBookArray.v: the three books;
      VectorRefinement.v, MapRefinement.v, ArrayRefinement.v: their operations
      against the abstract book; Books.v: the instances of the contract;
      BookTheorems.v: the theorems on books.
    - RiskManager.v: risk_manager.hpp and risk_manager.cpp.
    - MatchingEngine.v: matching_engine.hpp, for any book with the contract;
      EngineFacts.v: the specification of the engine over abstract books and
      the simulation; EngineTheorems.v: the theorems; Typing.v: the ranges of
      the C++ types of the interface, which the engine keeps to.
    - LockfreeQueue.v: lockfree_queue.hpp, the ring on one thread and the
      protocol of its two threads as a step relation; LockfreeAccess.v: the same
      accesses as functions, for the threads that use a ring among other
      things; OrderGateway.v: order_gateway.hpp.
    - Text.v: characters, decimal numbers, padding; Double.v: the
      floating-point operations in use and how their results are printed;
      Replay.v: replay.cpp; ReplayRun.v: the replay of replay.hpp;
      ReplayFigures.v: the accuracy of its figures; BookPrint.v: the books'
      [print].
    - Demo.v: main.cpp, its replay mode, scripted walkthrough and choice of
      mode.
    - Logger.v: logger.hpp and logger.cpp, the caller's thread and the worker;
      Fairness.v: a rule for termination under a fair scheduler; LoggerFair.v:
      its use for [flush] and the destructor; ConsoleStream.v: the calls of
      Demo.v's modes on the logger, and the console output.
    - MtDemo.v: the threads of main.cpp's multi-threaded mode, with the lanes of
      the gateway between them; MtFair.v: they come to an end.
    - ThreadAffinity.v: thread_affinity.hpp; Main.v: the multi-threaded mode as a
      whole and [main].

    ** How the code is modelled

    An operation is a function from the object's state (a record with the
    members of the class) to [option] of its result and the new state; [None]
    is undefined behaviour: an index out of range, a signed overflow, a failed
    assertion, a loop that does not end.  Exceptions are values ([ctor_error],
    [LoadError]).  Signed 64-bit arithmetic is checked, unsigned arithmetic
    wraps.  The steady clock is a parameter [now_ns]: its [n]-th reading is
    [now_ns n], and the number of readings is part of the state ([World]), as
    is the log of the trades given to the callback.  Threads take one
    memory access at a time, in any interleaving.  An atomic variable is its
    modification order, the list of its values; a load gives any of them that
    is not older than what its thread has seen of the variable (the position is
    an argument of the step), a store with release carries what its thread has
    done or seen, and an acquire load gets it.  A schedule is an infinite
    sequence of turns, fair when every thread gets infinitely many; that a store
    becomes visible after a finite time ([visible] of Fairness.v) is what the
    language standard asks of an implementation.  OrderGateway.v has the
    gateway's calls made by one thread; their interleaving is in MtDemo.v.
    Doubles are mantissas of 53 bits with an unbounded
    exponent, and every operation is rounded to nearest, ties to even; that the
    exponents stay within the format is proved.  The operating system, the
    random generators and the files are parameters of Main.v.

    ** What the theorems show

    - Containers: the id map is a finite map, the bitset a set of indices, a
      level with its pool a FIFO queue with quantities.
    - Books: every workload of calls on each of the three books is defined and
      gives the answers, trades and depth of the abstract book; so the three
      agree with each other.  On top of that: trades happen at the maker's
      price in price-time order, with exactly the resting orders that the
      self-trade policy leaves open and each used up before the next, quantity
      is conserved, the book is never crossed, no participant trades with
      itself under a prevention policy, not even through amended orders,
      fill-or-kill is all or nothing without one, IOC and market orders never rest,
      an added order can be cancelled without trace, amending down keeps
      priority, a reset book is as new.
    - Engine and risk: the engine refines its specification for every book
      with the contract; positions are the signed sum of the trades and add up
      to zero; rejected orders leave everything alone; rate and position
      limits hold; within the budget below, arguments of their machine types
      give results of theirs.
    - Concurrency, for every interleaving of memory accesses and every stale
      load: the ring is a FIFO between its two threads, without data races and
      wait-free; the logger writes what it accepted, in order, [flush] and the
      destructor wait for all of it, and what is written is visible to the
      caller afterwards; the console shows a mode's messages and its own output
      in the order of the program; the multi-threaded demo hands every order to
      the engine exactly once.  Under every fair schedule in which stores become
      visible, [flush], the destructor, the modes that log and the
      multi-threaded demo come to an end.  Fairness is what main.cpp's test for
      a second core is there for: on one core a real-time matching thread would
      never let the producers run.  The gateway delivers every lane in order and
      starves none.
    - Text: the CSV loader reads back what the documented format can say and
      rejects the first bad field otherwise; replay statistics count the
      engine's reports; the printed throughput and elapsed time are those of
      exact arithmetic up to a relative error of [2 ^ -50] and the last digit;
      printed tables can be read back.
    - Program: every command line ends in a defined way, with the exit status
      and the output that its mode calls for: no thread of any mode gets stuck,
      and every fair schedule in which stores become visible reaches the end.

    ** Bounds and fuel

    Workloads have a budget, so that no signed sum can overflow: the
    quantities of a book's calls add up to at most [int64_max]
    ([workload_ok]), those of an engine's to half of it
    ([engine_workload_ok]), and there are fewer calls than pool handles
    ([2 ^ 32 - 1]).  Capacity hints are at most [2 ^ 62] and a map has at most
    [2 ^ 40] entries, beyond which its capacity computation would wrap.
    Loops that do not recurse on data carry fuel: probing a table its number
    of slots, the shift of a deletion likewise, a level's drain the number of pool
    nodes plus two, matching across levels the number of levels plus two, the
    CSV loops the length of the text plus one or two.  The refinement theorems show that it suffices: they
    give [Some] result.

    ** Not modelled

    Memory reservation (which would throw for a depth or a capacity beyond the
    address space) and the hash tables of [std::unordered_map], neither with
    any other effect on what the program computes; sleeping and yielding, the
    algorithm of the random generator (only the bounds of the distributions
    matter), and the tests, benchmarks and scripts.  The formatted numbers, [std::map],
    [std::getline] and the like are modelled from the language standard. *)

(** ** Shared vocabulary

    The undefined-behaviour monad, machine-width integers, [std::vector]
    accesses, and the generic lemmas on lists and options that several
    components use. *)

From Stdlib Require Export ZArith NArith Lia.
From stdpp Require Export base numbers option list gmap sorting.

(** * Undefined behaviour

    A C++ expression that may be undefined (an index out of range, a signed
    overflow, a failed [assert], a loop that never leaves) is modelled by an
    [option]: [None] is the undefined outcome.  The bind notations are
    stdpp's. *)

Declare Scope lob_scope.
Delimit Scope lob_scope with lob.
Open Scope lob_scope.

(** A failed [assert] is an undefined outcome: the theorems show that no
    assertion of the library fails. *)
Definition assert_ (b : bool) : option unit := if b then Some tt else None.

(** * Machine integers *)

(** Signed 64-bit arithmetic ([Price], [Quantity]) is checked, because
    overflow is undefined in C++. *)
Definition int64_max : Z := 9223372036854775807.
Definition int64_min : Z := -9223372036854775808.

Definition in_int64 (z : Z) : bool := (int64_min <=? z)%Z && (z <=? int64_max)%Z.

Definition chk64 (z : Z) : option Z := if in_int64 z then Some z else None.

Definition add64 (a b : Z) : option Z := chk64 (a + b).
Definition sub64 (a b : Z) : option Z := chk64 (a - b).

(** Unsigned arithmetic wraps. *)
Definition two32 : N := 4294967296.
Definition two64 : N := 18446744073709551616.

Definition wrap32 (n : N) : N := (n mod two32)%N.
Definition wrap64 (n : N) : N := (n mod two64)%N.

Definition inc32 (n : N) : N := wrap32 (n + 1).
Definition dec32 (n : N) : N := wrap32 (n + (two32 - 1)).
Definition inc64 (n : N) : N := wrap64 (n + 1).
Definition dec64 (n : N) : N := wrap64 (n + (two64 - 1)).

(** [std::countr_zero] on 64-bit words. *)
Fixpoint pos_ctz (p : positive) : N :=
  match p with xO q => N.succ (pos_ctz q) | _ => 0 end.

Definition countr_zero (w : N) : N := match w with N0 => 64 | Npos p => pos_ctz p end.

(** * Vectors: [v[i]] with an unsigned index, undefined out of range. *)

Definition vget {A} (l : list A) (i : N) : option A := l !! N.to_nat i.

Definition vset {A} (l : list A) (i : N) (x : A) : option (list A) :=
  if (i <? N.of_nat (length l))%N then Some (<[N.to_nat i := x]> l) else None.

Definition vsize {A} (l : list A) : N := N.of_nat (length l).

#[global] Arguments vget : simpl never.
#[global] Arguments vset : simpl never.
#[global] Arguments add64 : simpl never.
#[global] Arguments sub64 : simpl never.
#[global] Arguments inc32 : simpl never.
#[global] Arguments dec32 : simpl never.
#[global] Arguments inc64 : simpl never.
#[global] Arguments dec64 : simpl never.
#[global] Arguments wrap32 : simpl never.
#[global] Arguments wrap64 : simpl never.

(** * Tactics *)

(** Split a successful [option] computation in the hypotheses. *)
Ltac inv_opt :=
  repeat match goal with
  | H : mbind _ _ = Some _ |- _ => apply bind_Some in H; destruct H as (? & ? & H)
  | H : Some _ = Some _ |- _ => injection H as H
  | H : (_, _) = (_, _) |- _ => injection H; clear H; intros
  | H : Some _ = None |- _ => discriminate H
  | H : None = Some _ |- _ => discriminate H
  end.

(** Turn the boolean comparisons of the code into propositions. *)
Ltac breflect :=
  repeat match goal with
  | H : context [Z.leb ?a ?b] |- _ => destruct (Z.leb_spec a b)
  | H : context [Z.ltb ?a ?b] |- _ => destruct (Z.ltb_spec a b)
  | H : context [Z.eqb ?a ?b] |- _ => destruct (Z.eqb_spec a b)
  | H : context [N.leb ?a ?b] |- _ => destruct (N.leb_spec a b)
  | H : context [N.ltb ?a ?b] |- _ => destruct (N.ltb_spec a b)
  | H : context [N.eqb ?a ?b] |- _ => destruct (N.eqb_spec a b)
  | |- context [Z.leb ?a ?b] => destruct (Z.leb_spec a b)
  | |- context [Z.ltb ?a ?b] => destruct (Z.ltb_spec a b)
  | |- context [Z.eqb ?a ?b] => destruct (Z.eqb_spec a b)
  | |- context [N.leb ?a ?b] => destruct (N.leb_spec a b)
  | |- context [N.ltb ?a ?b] => destruct (N.ltb_spec a b)
  | |- context [N.eqb ?a ?b] => destruct (N.eqb_spec a b)
  end.

(** * Integer lemmas *)

Lemma in_int64_spec z : in_int64 z = true <-> (int64_min <= z <= int64_max)%Z.
Proof. unfold in_int64. rewrite andb_true_iff, !Z.leb_le. done. Qed.

Lemma chk64_ok z : (int64_min <= z <= int64_max)%Z -> chk64 z = Some z.
Proof. intros H. unfold chk64. by rewrite (proj2 (in_int64_spec z) H). Qed.

Lemma add64_ok a b : (int64_min <= a + b <= int64_max)%Z -> add64 a b = Some (a + b)%Z.
Proof. apply chk64_ok. Qed.

Lemma sub64_ok a b : (int64_min <= a - b <= int64_max)%Z -> sub64 a b = Some (a - b)%Z.
Proof. apply chk64_ok. Qed.

Lemma wrap32_small n : (n < two32)%N -> wrap32 n = n.
Proof. apply N.mod_small. Qed.

Lemma inc32_small n : (n + 1 < two32)%N -> inc32 n = (n + 1)%N.
Proof. apply wrap32_small. Qed.

Lemma dec32_pos n : (0 < n < two32)%N -> dec32 n = (n - 1)%N.
Proof.
  intros H. unfold dec32, wrap32.
  replace (n + (two32 - 1))%N with ((n - 1) + 1 * two32)%N by (unfold two32 in *; lia).
  rewrite N.Div0.mod_add. apply N.mod_small. lia.
Qed.

Lemma wrap64_small n : (n < two64)%N -> wrap64 n = n.
Proof. apply N.mod_small. Qed.

Lemma inc64_small n : (n + 1 < two64)%N -> inc64 n = (n + 1)%N.
Proof. apply wrap64_small. Qed.

Lemma dec64_pos n : (0 < n < two64)%N -> dec64 n = (n - 1)%N.
Proof.
  intros H. unfold dec64, wrap64.
  replace (n + (two64 - 1))%N with ((n - 1) + 1 * two64)%N by (unfold two64 in *; lia).
  rewrite N.Div0.mod_add. apply N.mod_small. lia.
Qed.

(** * Vector lemmas *)

Section vectors.
Context {A : Type}.
Implicit Types (l : list A) (i j : N) (x : A).

Lemma vget_lt l i x : vget l i = Some x -> (i < vsize l)%N.
Proof. unfold vget, vsize. intros H%lookup_lt_Some. lia. Qed.

Lemma vget_is_Some l i : (i < vsize l)%N -> exists x, vget l i = Some x.
Proof. unfold vget, vsize. intros H. apply lookup_lt_is_Some. lia. Qed.

Lemma vset_ok l i x : (i < vsize l)%N -> vset l i x = Some (<[N.to_nat i := x]> l).
Proof. unfold vset, vsize. intros H. by rewrite (proj2 (N.ltb_lt _ _) H). Qed.

Lemma vset_Some l i x l' :
  vset l i x = Some l' -> (i < vsize l)%N /\ l' = <[N.to_nat i := x]> l.
Proof. unfold vset, vsize. destruct (N.ltb_spec i (N.of_nat (length l))); naive_solver. Qed.

Lemma vget_insert_eq l i x : (i < vsize l)%N -> vget (<[N.to_nat i := x]> l) i = Some x.
Proof. unfold vget, vsize. intros H. apply list_lookup_insert_eq. lia. Qed.

Lemma vget_insert_ne l i j x : i <> j -> vget (<[N.to_nat i := x]> l) j = vget l j.
Proof. unfold vget. intros H. apply list_lookup_insert_ne. lia. Qed.

Lemma vsize_insert l i x : vsize (<[N.to_nat i := x]> l) = vsize l.
Proof. unfold vsize. by rewrite length_insert. Qed.
End vectors.

(** * List lemmas *)

Lemma NoDup_app_disjoint {A} (l1 l2 : list A) x :
  NoDup (l1 ++ l2) -> x ∈ l1 -> x ∈ l2 -> False.
Proof. intros (_ & H & _)%NoDup_app. naive_solver. Qed.

Lemma list_split_lookup {A} (l : list A) k x :
  l !! k = Some x -> l = take k l ++ x :: drop (S k) l.
Proof. intros H. by rewrite take_drop_middle. Qed.

Lemma take_min_length {A} n (l : list A) : take (Nat.min n (length l)) l = take n l.
Proof.
  destruct (Nat.le_gt_cases n (length l)) as [H|H]; [by rewrite Nat.min_l|].
  rewrite Nat.min_r by lia. rewrite firstn_all. symmetry. apply take_ge. lia.
Qed.

Create Rewrite HintDb lob_len.
#[export] Hint Rewrite @length_insert @length_app @length_fmap : lob_len.
