(* ===== verification/Types.v ===== *)
(** The value types of the engine: include/lightninglob/types.hpp and
    include/lightninglob/order.hpp.

    [Price] and [Quantity] ([std::int64_t]) are [Z]; the unsigned types
    ([OrderId], [Timestamp], [SymbolId], [ParticipantId], pool handles) are
    [N].  Record fields carry a one- or two-letter prefix, since Rocq
    projections share one name space. *)

From Stdlib Require Import String.
From S2P Require Import Prelude.

Abbreviation OrderId := N (only parsing).
Abbreviation Price := Z (only parsing).
Abbreviation Quantity := Z (only parsing).
Abbreviation Timestamp := N (only parsing).
Abbreviation SymbolId := N (only parsing).
Abbreviation ParticipantId := N (only parsing).

(** * Enumerations *)

Inductive Side := Buy | Sell.
Inductive OrderType := Limit | Market.
Inductive TimeInForce := GTC | IOC | FOK.

Inductive OrderStatus := New | PartiallyFilled | Filled | Cancelled | Rejected.

Inductive RejectReason :=
| RNone
| InvalidQuantity
| InvalidPrice
| PriceOutOfRange
| UnknownSymbol
| DuplicateOrderId
| UnknownOrder
| RiskMaxOrderSize
| RiskMaxPosition
| RiskRateLimited.

Inductive SelfTradePrevention := STPNone | CancelResting | CancelIncoming | CancelBoth.

#[export] Instance Side_eq_dec : EqDecision Side.
Proof. solve_decision. Defined.
#[export] Instance OrderType_eq_dec : EqDecision OrderType.
Proof. solve_decision. Defined.
#[export] Instance TimeInForce_eq_dec : EqDecision TimeInForce.
Proof. solve_decision. Defined.
#[export] Instance OrderStatus_eq_dec : EqDecision OrderStatus.
Proof. solve_decision. Defined.
#[export] Instance RejectReason_eq_dec : EqDecision RejectReason.
Proof. solve_decision. Defined.
#[export] Instance SelfTradePrevention_eq_dec : EqDecision SelfTradePrevention.
Proof. solve_decision. Defined.

(** The [to_string] overloads of types.hpp. *)

Definition side_to_string (side : Side) : string :=
  if decide (side = Buy) then "BUY" else "SELL".

Definition type_to_string (type : OrderType) : string :=
  if decide (type = Limit) then "LIMIT" else "MARKET".

Definition tif_to_string (tif : TimeInForce) : string :=
  match tif with GTC => "GTC" | IOC => "IOC" | FOK => "FOK" end.

Definition status_to_string (status : OrderStatus) : string :=
  match status with
  | New => "NEW"
  | PartiallyFilled => "PARTIALLY_FILLED"
  | Filled => "FILLED"
  | Cancelled => "CANCELLED"
  | Rejected => "REJECTED"
  end.

Definition reason_to_string (reason : RejectReason) : string :=
  match reason with
  | RNone => "NONE"
  | InvalidQuantity => "INVALID_QUANTITY"
  | InvalidPrice => "INVALID_PRICE"
  | PriceOutOfRange => "PRICE_OUT_OF_RANGE"
  | UnknownSymbol => "UNKNOWN_SYMBOL"
  | DuplicateOrderId => "DUPLICATE_ORDER_ID"
  | UnknownOrder => "UNKNOWN_ORDER"
  | RiskMaxOrderSize => "RISK_MAX_ORDER_SIZE"
  | RiskMaxPosition => "RISK_MAX_POSITION"
  | RiskRateLimited => "RISK_RATE_LIMITED"
  end.

(** * Sentinels *)

Definition kInvalidOrderId : OrderId := 0.
Definition kMarketOrderPrice : Price := 0.
Definition kNullIndex : N := 4294967295.
Definition kNoParticipant : ParticipantId := 0.

(** * order.hpp *)

Record OrderRequest := mkRequest {
  rq_client_order_id : OrderId;
  rq_symbol : SymbolId;
  rq_participant_id : ParticipantId;
  rq_side : Side;
  rq_type : OrderType;
  rq_price : Price;
  rq_quantity : Quantity;
  rq_time_in_force : TimeInForce
}.

Record Order := mkOrder {
  o_id : OrderId;
  o_price : Price;
  o_quantity : Quantity;
  o_remaining_quantity : Quantity;
  o_timestamp : Timestamp;
  o_symbol : SymbolId;
  o_participant_id : ParticipantId;
  o_side : Side;
  o_type : OrderType;
  o_time_in_force : TimeInForce
}.

Definition rests_in_book (o : Order) : bool :=
  bool_decide (o_type o = Limit) && bool_decide (o_time_in_force o = GTC).

Record Trade := mkTrade {
  t_taker_order_id : OrderId;
  t_maker_order_id : OrderId;
  t_symbol : SymbolId;
  t_price : Price;
  t_quantity : Quantity;
  t_timestamp : Timestamp;
  t_taker_side : Side;
  t_taker_participant_id : ParticipantId;
  t_maker_participant_id : ParticipantId
}.

Record ExecutionReport := mkReport {
  er_order_id : OrderId;
  er_status : OrderStatus;
  er_filled_quantity : Quantity;
  er_remaining_quantity : Quantity;
  er_reject_reason : RejectReason
}.

Definition accepted (r : ExecutionReport) : bool := negb (bool_decide (er_status r = Rejected)).

Record PriceLevelView := mkView {
  v_price : Price;
  v_total_quantity : Quantity;
  v_order_count : N
}.

(** Assignments to single fields of an [Order]. *)

Definition set_remaining (q : Quantity) (o : Order) : Order :=
  mkOrder (o_id o) (o_price o) (o_quantity o) q (o_timestamp o) (o_symbol o)
    (o_participant_id o) (o_side o) (o_type o) (o_time_in_force o).

Definition opposite (s : Side) : Side := match s with Buy => Sell | Sell => Buy end.

(** The executable environment: [now_ns] reads are numbered, and the trade
    callback's invocations are recorded in order. *)
Record World := mkWorld {
  w_reads : nat;
  w_trades : list Trade
}.

(** * Basic facts *)

Lemma remaining_set_remaining q o : o_remaining_quantity (set_remaining q o) = q.
Proof. done. Qed.

Lemma set_remaining_id o : set_remaining (o_remaining_quantity o) o = o.
Proof. by destruct o. Qed.

Lemma set_remaining_twice q q' o : set_remaining q (set_remaining q' o) = set_remaining q o.
Proof. done. Qed.

#[export] Hint Rewrite set_remaining_twice remaining_set_remaining : lob_len.
