(* ===== verification/OrderPool.v ===== *)
(** include/lightninglob/order_pool.hpp: the pool of order nodes, and the
    intrusive FIFO list of a price level threaded through it by handles.

    [nodes_] is the backing vector and [free_list_] the stack of released
    handles (the vector's back is the head of the list).  Every handle that
    the code dereferences is looked up with [pool_at], which is undefined out
    of range.  The second half states what a level's handles represent
    ([level_links]) and how each operation changes it. *)

From S2P Require Import Prelude Types.

Record OrderNode := mkNode {
  n_order : Order;
  n_prev : N;
  n_next : N
}.

Record PriceLevel := mkLevel {
  l_price : Price;
  l_total_quantity : Quantity;
  l_order_count : N;
  l_head : N;
  l_tail : N
}.

(** [PriceLevel{}]. *)
Definition default_level : PriceLevel := mkLevel 0 0 0 kNullIndex kNullIndex.

Definition level_empty (lv : PriceLevel) : bool := (l_order_count lv =? 0)%N.

Definition clear_orders (lv : PriceLevel) : PriceLevel :=
  mkLevel (l_price lv) 0 0 kNullIndex kNullIndex.

Definition set_price (p : Price) (lv : PriceLevel) : PriceLevel :=
  mkLevel p (l_total_quantity lv) (l_order_count lv) (l_head lv) (l_tail lv).

Definition set_total (q : Quantity) (lv : PriceLevel) : PriceLevel :=
  mkLevel (l_price lv) q (l_order_count lv) (l_head lv) (l_tail lv).

Record OrderPool := mkPool {
  nodes_ : list OrderNode;
  free_list_ : list N
}.

Definition new_pool : OrderPool := mkPool [] [].

(** [pool[idx]], read and written. *)
Definition pool_at (p : OrderPool) (idx : N) : option OrderNode := vget (nodes_ p) idx.

Definition pool_put (p : OrderPool) (idx : N) (n : OrderNode) : option OrderPool :=
  ns ← vset (nodes_ p) idx n; Some (mkPool ns (free_list_ p)).

Definition acquire (p : OrderPool) (order : Order) : option (N * OrderPool) :=
  match free_list_ p with
  | idx :: fl =>
      ns ← vset (nodes_ p) idx (mkNode order kNullIndex kNullIndex);
      Some (idx, mkPool ns fl)
  | [] =>
      let idx := wrap32 (vsize (nodes_ p)) in
      Some (idx, mkPool (nodes_ p ++ [mkNode order kNullIndex kNullIndex]) [])
  end.

Definition release (p : OrderPool) (idx : N) : option OrderPool :=
  _ ← assert_ (idx <? vsize (nodes_ p))%N;
  Some (mkPool (nodes_ p) (idx :: free_list_ p)).

Definition pool_reset (p : OrderPool) : OrderPool := mkPool [] [].

Definition live_count (p : OrderPool) : N := (vsize (nodes_ p) - vsize (free_list_ p))%N.

(** * The intrusive FIFO list of a level *)

Definition level_push_back (lv : PriceLevel) (p : OrderPool) (idx : N)
    : option (PriceLevel * OrderPool) :=
  node ← pool_at p idx;
  p1 ← pool_put p idx (mkNode (n_order node) (l_tail lv) kNullIndex);
  '(head, p2) ←
    (if (l_tail lv =? kNullIndex)%N then Some (idx, p1)
     else
       t ← pool_at p1 (l_tail lv);
       p2 ← pool_put p1 (l_tail lv) (mkNode (n_order t) (n_prev t) idx);
       Some (l_head lv, p2));
  total ← add64 (l_total_quantity lv) (o_remaining_quantity (n_order node));
  Some (mkLevel (l_price lv) total (inc32 (l_order_count lv)) head idx, p2).

Definition level_unlink (lv : PriceLevel) (p : OrderPool) (idx : N)
    : option (PriceLevel * OrderPool) :=
  node ← pool_at p idx;
  '(head, p1) ←
    (if (n_prev node =? kNullIndex)%N then Some (n_next node, p)
     else
       q ← pool_at p (n_prev node);
       p1 ← pool_put p (n_prev node) (mkNode (n_order q) (n_prev q) (n_next node));
       Some (l_head lv, p1));
  node1 ← pool_at p1 idx;
  '(tail, p2) ←
    (if (n_next node1 =? kNullIndex)%N then Some (n_prev node1, p1)
     else
       q ← pool_at p1 (n_next node1);
       p2 ← pool_put p1 (n_next node1) (mkNode (n_order q) (n_prev node1) (n_next q));
       Some (l_tail lv, p2));
  Some (mkLevel (l_price lv) (l_total_quantity lv) (dec32 (l_order_count lv)) head tail, p2).

Definition level_reduce_quantity (lv : PriceLevel) (p : OrderPool) (idx : N) (qty : Quantity)
    : option (PriceLevel * OrderPool) :=
  node ← pool_at p idx;
  rem ← sub64 (o_remaining_quantity (n_order node)) qty;
  p1 ← pool_put p idx (mkNode (set_remaining rem (n_order node)) (n_prev node) (n_next node));
  total ← sub64 (l_total_quantity lv) qty;
  Some (set_total total lv, p1).

#[global] Arguments pool_at : simpl never.
#[global] Arguments pool_put : simpl never.
#[global] Arguments acquire : simpl never.
#[global] Arguments release : simpl never.
#[global] Arguments level_push_back : simpl never.
#[global] Arguments level_unlink : simpl never.
#[global] Arguments level_reduce_quantity : simpl never.

(** * What the handles represent

    The cells of a level are its orders in FIFO order, each with the handle of
    its node.  [dseg] says that the nodes of the cells are chained both ways
    between the handles [prv] and [nxt]. *)

Abbreviation cells := (list (N * Order)).

Definition hd_idx (nxt : N) (cs : cells) : N :=
  match cs with [] => nxt | (i, _) :: _ => i end.

Fixpoint last_idx (prv : N) (cs : cells) : N :=
  match cs with [] => prv | (i, _) :: cs' => last_idx i cs' end.

Fixpoint dseg (ns : list OrderNode) (prv : N) (cs : cells) (nxt : N) : Prop :=
  match cs with
  | [] => True
  | (i, o) :: cs' =>
      i <> kNullIndex /\ vget ns i = Some (mkNode o prv (hd_idx nxt cs')) /\ dseg ns i cs' nxt
  end.

Fixpoint sum_remaining (os : list Order) : Z :=
  match os with [] => 0 | o :: os' => o_remaining_quantity o + sum_remaining os' end.

(** Head, tail, links and count of a level; the aggregate quantity is stated
    apart because [level_unlink] leaves it to its caller. *)
Record level_links (ns : list OrderNode) (lv : PriceLevel) (cs : cells) : Prop := {
  links_seg : dseg ns kNullIndex cs kNullIndex;
  links_head : l_head lv = hd_idx kNullIndex cs;
  links_tail : l_tail lv = last_idx kNullIndex cs;
  links_count : l_order_count lv = N.of_nat (length cs)
}.

Definition level_total (lv : PriceLevel) (cs : cells) : Prop :=
  l_total_quantity lv = sum_remaining cs.*2.

(** The handles in use and the free list partition the nodes, and no node has
    the null handle. *)
Record pool_inv (p : OrderPool) (hs : list N) : Prop := {
  pool_part : hs ++ free_list_ p ≡ₚ N.of_nat <$> seq 0 (length (nodes_ p));
  pool_bound : (vsize (nodes_ p) <= kNullIndex)%N
}.

(** Nodes outside [hs] are unchanged. *)
Definition same_outside (hs : list N) (ns ns' : list OrderNode) : Prop :=
  length ns' = length ns /\ forall j, j ∉ hs -> vget ns' j = vget ns j.

(** * Segments *)

Lemma hd_idx_app nxt cs1 cs2 : hd_idx nxt (cs1 ++ cs2) = hd_idx (hd_idx nxt cs2) cs1.
Proof. by destruct cs1 as [|[]]. Qed.

Lemma last_idx_app prv cs1 cs2 : last_idx prv (cs1 ++ cs2) = last_idx (last_idx prv cs1) cs2.
Proof. revert prv. induction cs1 as [|[i o] cs1 IH]; intros prv; simpl; auto. Qed.

Lemma dseg_app ns prv cs1 cs2 nxt :
  dseg ns prv (cs1 ++ cs2) nxt <->
  dseg ns prv cs1 (hd_idx nxt cs2) /\ dseg ns (last_idx prv cs1) cs2 nxt.
Proof.
  revert prv. induction cs1 as [|[i o] cs1 IH]; intros prv; simpl; [tauto|].
  rewrite IH, hd_idx_app. tauto.
Qed.

Lemma dseg_frame ns ns' prv cs nxt :
  (forall j, j ∈ cs.*1 -> vget ns' j = vget ns j) -> dseg ns prv cs nxt -> dseg ns' prv cs nxt.
Proof.
  revert prv. induction cs as [|[i o] cs IH]; intros prv Hf; simpl in *; [done|].
  intros (Hi & Hg & Hs). split_and!; [done| |].
  - rewrite Hf; [done|set_solver].
  - apply IH; [|done]. intros j Hj. apply Hf. set_solver.
Qed.

Lemma dseg_not_null ns prv cs nxt i : dseg ns prv cs nxt -> i ∈ cs.*1 -> i <> kNullIndex.
Proof.
  revert prv. induction cs as [|[j o] cs IH]; intros prv; simpl; [set_solver|].
  intros (Hi & _ & Hs) [->|Hin]%elem_of_cons; eauto.
Qed.

Lemma dseg_hd_null ns prv cs : dseg ns prv cs kNullIndex -> hd_idx kNullIndex cs = kNullIndex -> cs = [].
Proof. destruct cs as [|[i o] cs]; simpl; naive_solver. Qed.

Lemma dseg_last_null ns cs nxt : dseg ns kNullIndex cs nxt -> last_idx kNullIndex cs = kNullIndex -> cs = [].
Proof.
  destruct cs as [|[i o] cs _] using rev_ind; [done|].
  rewrite dseg_app, last_idx_app. simpl. naive_solver.
Qed.

(** A cell's node, with its two links, at any position of the level. *)
Lemma dseg_lookup ns prv cs1 i o cs2 nxt :
  dseg ns prv (cs1 ++ (i, o) :: cs2) nxt ->
  vget ns i = Some (mkNode o (last_idx prv cs1) (hd_idx nxt cs2)).
Proof. rewrite dseg_app. simpl. naive_solver. Qed.

Lemma dseg_cell ns prv cs nxt i o :
  dseg ns prv cs nxt -> (i, o) ∈ cs -> exists pr nx, vget ns i = Some (mkNode o pr nx).
Proof. intros Hs (cs1 & cs2 & ->)%list_elem_of_split. eapply dseg_lookup in Hs. eauto. Qed.

(** Relinking the last node of a segment, and the first. *)
Lemma dseg_set_next ns prv cs nxt nxt' :
  NoDup cs.*1 -> dseg ns prv cs nxt -> cs <> [] ->
  exists o pr, vget ns (last_idx prv cs) = Some (mkNode o pr nxt) /\
    dseg (<[N.to_nat (last_idx prv cs) := mkNode o pr nxt']> ns) prv cs nxt'.
Proof.
  destruct cs as [|[i o] cs _] using rev_ind; [done|]. intros Hnd Hs _.
  rewrite last_idx_app. simpl. rewrite dseg_app in Hs. simpl in Hs.
  destruct Hs as (Hs & Hi & Hg & _). exists o, (last_idx prv cs). split; [done|].
  rewrite dseg_app. simpl. split_and!; [| done | | done].
  - eapply dseg_frame; [|exact Hs]. intros j Hj. apply vget_insert_ne. intros ->.
    rewrite fmap_app in Hnd. eapply NoDup_app_disjoint; [exact Hnd|exact Hj|simpl; set_solver].
  - apply vget_insert_eq. by eapply vget_lt.
Qed.

Lemma dseg_set_prev ns prv prv' cs nxt :
  NoDup cs.*1 -> dseg ns prv cs nxt -> cs <> [] ->
  exists o nx, vget ns (hd_idx nxt cs) = Some (mkNode o prv nx) /\
    dseg (<[N.to_nat (hd_idx nxt cs) := mkNode o prv' nx]> ns) prv' cs nxt.
Proof.
  destruct cs as [|[i o] cs]; [done|]. simpl. intros [Hni Hnd]%NoDup_cons (Hi & Hg & Hs) _.
  exists o, (hd_idx nxt cs). split_and!; [done|done| |].
  - apply vget_insert_eq. by eapply vget_lt.
  - eapply dseg_frame; [|exact Hs]. intros j Hj. apply vget_insert_ne. intros ->. done.
Qed.

(** * The pool *)

Lemma pool_inv_lt p hs i : pool_inv p hs -> i ∈ hs -> (i < vsize (nodes_ p))%N.
Proof.
  intros [Hp _] Hi. assert (Hin : i ∈ N.of_nat <$> seq 0 (length (nodes_ p))).
  { rewrite <- Hp. set_solver. }
  apply list_elem_of_fmap in Hin as (k & -> & Hk%elem_of_seq). unfold vsize. lia.
Qed.

Lemma pool_inv_NoDup p hs : pool_inv p hs -> NoDup (hs ++ free_list_ p).
Proof.
  intros [Hp _]. rewrite Hp. apply NoDup_fmap; [intros a b; lia|apply NoDup_seq].
Qed.

Lemma pool_inv_perm p hs hs' : hs ≡ₚ hs' -> pool_inv p hs -> pool_inv p hs'.
Proof. intros Hp [H1 H2]. split; [|done]. by rewrite <- Hp. Qed.

Lemma pool_inv_length p hs : pool_inv p hs ->
  length hs + length (free_list_ p) = length (nodes_ p).
Proof. intros [Hp _]. apply Permutation_length in Hp. by rewrite length_app, length_fmap, length_seq in Hp. Qed.

Lemma pool_inv_size p hs : pool_inv p hs -> (N.of_nat (length hs) <= kNullIndex)%N.
Proof.
  intros H. pose proof (pool_inv_length _ _ H). destruct H as [_ Hb]. unfold vsize in Hb. lia.
Qed.

Lemma pool_inv_nodes p p' hs :
  length (nodes_ p') = length (nodes_ p) -> free_list_ p' = free_list_ p ->
  pool_inv p hs -> pool_inv p' hs.
Proof. unfold vsize. intros Hl Hf [H1 H2]. split; rewrite ?Hl, ?Hf; [done|]. unfold vsize in *. by rewrite Hl. Qed.

Lemma new_pool_inv : pool_inv new_pool [].
Proof. split; done. Qed.

Lemma acquire_spec p hs o :
  pool_inv p hs -> (N.of_nat (length hs) < kNullIndex)%N ->
  exists i p', acquire p o = Some (i, p') /\ i ∉ hs /\ i <> kNullIndex /\
    vget (nodes_ p') i = Some (mkNode o kNullIndex kNullIndex) /\
    (forall j, j ∈ hs -> vget (nodes_ p') j = vget (nodes_ p) j) /\
    pool_inv p' (i :: hs).
Proof.
  intros Hinv Hlen. pose proof (pool_inv_NoDup _ _ Hinv) as Hnd.
  pose proof (pool_inv_length _ _ Hinv) as Hl.
  destruct p as [ns fl]. unfold acquire. simpl in *. destruct fl as [|i fl].
  - assert (Hw : wrap32 (vsize ns) = vsize ns).
    { apply wrap32_small. unfold vsize, two32, kNullIndex in *. simpl in *. lia. }
    exists (vsize ns), (mkPool (ns ++ [mkNode o kNullIndex kNullIndex]) []).
    rewrite Hw. split_and!; [done|..].
    + intros Hin%(pool_inv_lt _ _ _ Hinv). simpl in Hin. lia.
    + unfold vsize. simpl in *. lia.
    + unfold vget, vsize. simpl. rewrite Nat2N.id. apply list_lookup_middle. done.
    + intros j Hj%(pool_inv_lt _ _ _ Hinv). unfold vget, vsize in *. simpl in *.
      apply lookup_app_l. lia.
    + destruct Hinv as [Hp Hb]. simpl in *. split; simpl; rewrite ?app_nil_r in *.
      * rewrite length_app, seq_app, fmap_app, <- Hp. simpl. by rewrite Permutation_app_comm.
      * unfold vsize in *. rewrite length_app. simpl in *. lia.
  - assert (Hi : (i < vsize ns)%N).
    { apply (pool_inv_lt (mkPool ns fl) (i :: hs)); [|set_solver].
      destruct Hinv as [Hp Hb]. split; simpl in *; [|done]. rewrite <- Hp. by rewrite Permutation_middle. }
    assert (Hni : i ∉ hs).
    { intros Hin. eapply NoDup_app_disjoint; [exact Hnd|exact Hin|set_solver]. }
    exists i, (mkPool (<[N.to_nat i := mkNode o kNullIndex kNullIndex]> ns) fl).
    rewrite vset_ok by done. simpl. split_and!; [done|done| |by apply vget_insert_eq| |].
    + destruct Hinv as [_ Hb]. simpl in Hb. lia.
    + intros j Hj. apply vget_insert_ne. intros ->. done.
    + destruct Hinv as [Hp Hb]. split; simpl in *.
      * rewrite length_insert, <- Hp. by rewrite Permutation_middle.
      * by rewrite vsize_insert.
Qed.

Lemma release_spec p i hs :
  pool_inv p (i :: hs) ->
  exists p', release p i = Some p' /\ nodes_ p' = nodes_ p /\ pool_inv p' hs.
Proof.
  intros Hinv. assert (Hi : (i < vsize (nodes_ p))%N) by (eapply pool_inv_lt; [done|set_solver]).
  exists (mkPool (nodes_ p) (i :: free_list_ p)). unfold release, assert_.
  rewrite (proj2 (N.ltb_lt _ _) Hi). split_and!; [done|done|].
  destruct Hinv as [Hp Hb]. split; simpl in *; [|done]. rewrite <- Hp. by rewrite Permutation_middle.
Qed.

(** * The level operations *)

Lemma same_outside_refl hs ns : same_outside hs ns ns.
Proof. done. Qed.

Lemma same_outside_trans hs ns1 ns2 ns3 :
  same_outside hs ns1 ns2 -> same_outside hs ns2 ns3 -> same_outside hs ns1 ns3.
Proof. intros [H1 H2] [H3 H4]. split; [congruence|]. intros j Hj. by rewrite H4, H2. Qed.

Lemma same_outside_sub hs hs' ns ns' : hs ⊆ hs' -> same_outside hs ns ns' -> same_outside hs' ns ns'.
Proof. intros Hsub [H1 H2]. split; [done|]. intros j Hj. apply H2. set_solver. Qed.

Lemma same_outside_insert hs ns i n : i ∈ hs -> same_outside hs ns (<[N.to_nat i := n]> ns).
Proof. intros Hi. split; [apply length_insert|]. intros j Hj. apply vget_insert_ne. intros ->. done. Qed.

Lemma same_outside_frame hs ns ns' prv cs nxt :
  same_outside hs ns ns' -> (forall j, j ∈ cs.*1 -> j ∉ hs) -> dseg ns prv cs nxt -> dseg ns' prv cs nxt.
Proof. intros [_ H] Hd. apply dseg_frame. eauto. Qed.

Lemma links_frame hs ns ns' lv cs :
  same_outside hs ns ns' -> (forall j, j ∈ cs.*1 -> j ∉ hs) -> level_links ns lv cs -> level_links ns' lv cs.
Proof. intros H Hd []. split; try done. by eapply same_outside_frame. Qed.

Lemma pool_put_ok p i n :
  (i < vsize (nodes_ p))%N -> pool_put p i n = Some (mkPool (<[N.to_nat i := n]> (nodes_ p)) (free_list_ p)).
Proof. intros H. unfold pool_put. by rewrite vset_ok. Qed.

Lemma sum_remaining_app os1 os2 : sum_remaining (os1 ++ os2) = (sum_remaining os1 + sum_remaining os2)%Z.
Proof. induction os1 as [|o os1 IH]; simpl; lia. Qed.

Lemma level_push_back_spec p lv cs i o pr nx :
  level_links (nodes_ p) lv cs -> level_total lv cs -> NoDup cs.*1 -> i ∉ cs.*1 -> i <> kNullIndex ->
  vget (nodes_ p) i = Some (mkNode o pr nx) ->
  (N.of_nat (length cs) + 1 < two32)%N ->
  (int64_min <= sum_remaining cs.*2 + o_remaining_quantity o <= int64_max)%Z ->
  exists lv' p', level_push_back lv p i = Some (lv', p') /\ l_price lv' = l_price lv /\
    level_links (nodes_ p') lv' (cs ++ [(i, o)]) /\ level_total lv' (cs ++ [(i, o)]) /\
    same_outside (i :: cs.*1) (nodes_ p) (nodes_ p') /\ free_list_ p' = free_list_ p.
Proof.
  intros [Hseg Hh Ht Hc] Htot Hnd Hni Hi Hg Hlen Hsum.
  destruct p as [ns fl]. simpl in *. unfold level_push_back, pool_at. simpl. rewrite Hg. simpl.
  pose proof (vget_lt _ _ _ Hg) as Hlt. rewrite pool_put_ok by done. simpl.
  set (ns1 := <[N.to_nat i := _]> ns).
  assert (Hso1 : same_outside (i :: cs.*1) ns ns1) by (apply same_outside_insert; set_solver).
  assert (Hseg1 : dseg ns1 kNullIndex cs kNullIndex).
  { eapply dseg_frame; [|exact Hseg]. intros j Hj. apply vget_insert_ne. intros ->. done. }
  unfold level_total in *. rewrite Htot, add64_ok by done.
  assert (Hcount : inc32 (l_order_count lv) = N.of_nat (length (cs ++ [(i, o)]))).
  { rewrite Hc, inc32_small, length_app by done. simpl. lia. }
  assert (Hsum' : (sum_remaining cs.*2 + o_remaining_quantity o)%Z = sum_remaining (cs ++ [(i, o)]).*2).
  { rewrite fmap_app, sum_remaining_app. simpl. lia. }
  destruct (N.eqb_spec (l_tail lv) kNullIndex) as [Hnull|Hnn]; simpl.
  - assert (cs = []) as -> by (eapply dseg_last_null; [exact Hseg|congruence]).
    eexists _, _. split; [reflexivity|]. simpl. split_and!; [done| |done|done|done].
    split; simpl; [|done|done|done]. split_and!; [done| |done].
    unfold ns1. rewrite vget_insert_eq by done. by rewrite Ht.
  - assert (Hne : cs <> []) by (intros ->; done).
    destruct (dseg_set_next ns1 _ cs _ i Hnd Hseg1 Hne) as (ot & pt & Hgt & Hseg2).
    rewrite Ht in *. rewrite Hgt. simpl. pose proof (vget_lt _ _ _ Hgt) as Hltt.
    rewrite pool_put_ok by done. simpl.
    assert (Hin : last_idx kNullIndex cs ∈ cs.*1).
    { destruct cs as [|[a b] cs' _] using rev_ind; [done|]. rewrite last_idx_app, fmap_app. set_solver. }
    eexists _, _. split; [reflexivity|]. simpl. split_and!; [done| |done| |done].
    + split; simpl; [|by destruct cs as [|[]]|by rewrite last_idx_app|done].
      apply dseg_app. split; [done|]. simpl. split_and!; [done| |done].
      rewrite vget_insert_ne by (intros Heq; rewrite Heq in *; done).
      unfold ns1. by rewrite vget_insert_eq, Ht.
    + eapply same_outside_trans; [exact Hso1|]. apply same_outside_insert. set_solver.
Qed.

(** The left neighbour of an unlinked node, or the head, comes to point to its
    right neighbour. *)
Lemma unlink_left ns fl cs1 i o cs2 (h : N) :
  let prv := last_idx kNullIndex cs1 in
  let nxt := hd_idx kNullIndex cs2 in
  NoDup cs1.*1 -> i ∉ cs1.*1 -> (forall x, x ∈ cs1.*1 -> x ∉ i :: cs2.*1) ->
  dseg ns kNullIndex cs1 i -> dseg ns i cs2 kNullIndex -> vget ns i = Some (mkNode o prv nxt) -> h = hd_idx i cs1 ->
  exists head ns1,
    (if (prv =? kNullIndex)%N then Some (nxt, mkPool ns fl)
     else q ← vget ns prv; p1 ← pool_put (mkPool ns fl) prv (mkNode (n_order q) (n_prev q) nxt); Some (h, p1)) = Some (head, mkPool ns1 fl) /\
    head = hd_idx kNullIndex (cs1 ++ cs2) /\ dseg ns1 kNullIndex cs1 nxt /\ dseg ns1 i cs2 kNullIndex /\
    vget ns1 i = Some (mkNode o prv nxt) /\ same_outside (cs1.*1 ++ cs2.*1) ns ns1.
Proof.
  intros prv nxt Hnd1 Hni1 Hdis Hs1 Hs2 Hg Hh.
  destruct (N.eqb_spec prv kNullIndex) as [Hnull|Hnn].
  - assert (cs1 = []) as -> by (eapply dseg_last_null; [exact Hs1|done]).
    eexists _, _. split; [reflexivity|]. split_and!; try done.
  - assert (Hne : cs1 <> []) by (intros ->; done).
    destruct (dseg_set_next ns _ cs1 _ nxt Hnd1 Hs1 Hne) as (oq & pq & Hgq & Hsq). fold prv in Hgq, Hsq.
    assert (Hin : prv ∈ cs1.*1).
    { unfold prv. destruct cs1 as [|[a b] c _] using rev_ind; [done|]. rewrite last_idx_app, fmap_app. set_solver. }
    rewrite Hgq. simpl. rewrite pool_put_ok by (by eapply vget_lt). simpl.
    eexists _, _. split; [reflexivity|]. split_and!; [| done | | |].
    + rewrite Hh. by destruct cs1 as [|[]].
    + eapply dseg_frame; [|exact Hs2]. intros j Hj. apply vget_insert_ne. intros ->.
      eapply Hdis; [exact Hin|set_solver].
    + rewrite vget_insert_ne; [done|]. intros ->. done.
    + apply same_outside_insert. set_solver.
Qed.

Lemma level_unlink_spec p lv cs1 i o cs2 :
  level_links (nodes_ p) lv (cs1 ++ (i, o) :: cs2) -> NoDup (cs1 ++ (i, o) :: cs2).*1 ->
  (N.of_nat (length (cs1 ++ (i, o) :: cs2)) < two32)%N ->
  exists lv' p', level_unlink lv p i = Some (lv', p') /\ l_price lv' = l_price lv /\
    l_total_quantity lv' = l_total_quantity lv /\
    level_links (nodes_ p') lv' (cs1 ++ cs2) /\
    same_outside (cs1 ++ cs2).*1 (nodes_ p) (nodes_ p') /\ free_list_ p' = free_list_ p.
Proof.
  intros [Hseg Hh Ht Hc] Hnd Hlen. destruct p as [ns fl]. simpl in *.
  rewrite fmap_app in Hnd. simpl in Hnd. rewrite fmap_app.
  pose proof Hnd as (Hnd1 & Hdis & [Hni2 Hnd2]%NoDup_cons)%NoDup_app.
  assert (Hni1 : i ∉ cs1.*1) by (intros Hin; eapply Hdis; [exact Hin|set_solver]).
  pose proof (dseg_lookup _ _ _ _ _ _ _ Hseg) as Hg.
  pose proof Hseg as [Hs1 (Hi & _ & Hs2)]%dseg_app. simpl in Hs1, Hs2.
  unfold level_unlink, pool_at. simpl. rewrite Hg. simpl.
  set (prv := last_idx kNullIndex cs1) in *. set (nxt := hd_idx kNullIndex cs2) in *.
  assert (Hcnt : dec32 (l_order_count lv) = N.of_nat (length (cs1 ++ cs2))).
  { rewrite Hc, dec32_pos by (rewrite length_app in *; simpl in *; lia).
    rewrite !length_app. simpl. lia. }
  destruct (unlink_left ns fl cs1 i o cs2 (l_head lv) Hnd1 Hni1 Hdis Hs1 Hs2 Hg) as (head & ns1 & Hleft & -> & Hl1 & Hl2 & Hgi & Hso); [rewrite Hh; by destruct cs1 as [|[]]|].
  fold prv nxt in Hleft, Hl1, Hgi. rewrite Hleft. simpl. rewrite Hgi. simpl.
  (* relink the right neighbour *)
  destruct (N.eqb_spec nxt kNullIndex) as [Hnull|Hnn]; simpl.
  - assert (cs2 = []) as -> by (eapply dseg_hd_null; [exact Hl2|done]).
    eexists _, _. split; [reflexivity|]. simpl. rewrite app_nil_r in *.
    split_and!; [done|done|split; simpl; done|by rewrite app_nil_r|done].
  - assert (Hne : cs2 <> []) by (intros ->; done).
    destruct (dseg_set_prev ns1 i prv cs2 kNullIndex Hnd2 Hl2 Hne) as (oq & nq & Hgq & Hsq). fold nxt in Hgq, Hsq.
    assert (Hin : nxt ∈ cs2.*1) by (unfold nxt; destruct cs2 as [|[]]; [done|set_solver]).
    rewrite Hgq. simpl. rewrite pool_put_ok by (by eapply vget_lt). simpl.
    eexists _, _. split; [reflexivity|]. simpl. split_and!; [done|done| | |done].
    + split; simpl; [|done| |done].
      * apply dseg_app. split; [|done]. eapply dseg_frame; [|exact Hl1].
        intros j Hj. apply vget_insert_ne. intros ->. eapply Hdis; [exact Hj|set_solver].
      * rewrite Ht, !last_idx_app. simpl. destruct cs2 as [|[]]; done.
    + eapply same_outside_trans; [exact Hso|]. apply same_outside_insert. set_solver.
Qed.

Lemma level_reduce_spec p lv cs1 i o cs2 q :
  level_links (nodes_ p) lv (cs1 ++ (i, o) :: cs2) -> level_total lv (cs1 ++ (i, o) :: cs2) ->
  NoDup (cs1 ++ (i, o) :: cs2).*1 ->
  (int64_min <= o_remaining_quantity o - q <= int64_max)%Z ->
  (int64_min <= l_total_quantity lv - q <= int64_max)%Z ->
  exists lv' p', level_reduce_quantity lv p i q = Some (lv', p') /\ l_price lv' = l_price lv /\
    level_links (nodes_ p') lv' (cs1 ++ (i, set_remaining (o_remaining_quantity o - q) o) :: cs2) /\
    level_total lv' (cs1 ++ (i, set_remaining (o_remaining_quantity o - q) o) :: cs2) /\
    same_outside [i] (nodes_ p) (nodes_ p') /\ free_list_ p' = free_list_ p.
Proof.
  intros [Hseg Hh Ht Hc] Htot Hnd Hr1 Hr2. destruct p as [ns fl]. simpl in *.
  pose proof (dseg_lookup _ _ _ _ _ _ _ Hseg) as Hg.
  unfold level_reduce_quantity, pool_at. simpl. rewrite Hg. simpl. rewrite (sub64_ok (o_remaining_quantity o)) by done. simpl.
  rewrite pool_put_ok by (by eapply vget_lt). simpl. rewrite sub64_ok by done. simpl.
  rewrite fmap_app in Hnd. simpl in Hnd. apply NoDup_app in Hnd as (Hnd1 & Hdis & [Hni2 Hnd2]%NoDup_cons).
  eexists _, _. split; [reflexivity|]. simpl. split_and!; [done| | | |done].
  - split; simpl; [| rewrite Hh; by destruct cs1 as [|[]]
      | rewrite Ht, !last_idx_app; done | rewrite Hc, !length_app; done].
    apply dseg_app in Hseg as [Hs1 (Hi & _ & Hs2)]. apply dseg_app. simpl in *.
    assert (Hfr : forall j, j ∈ cs1.*1 \/ j ∈ cs2.*1 -> j <> i).
    { intros j [Hj|Hj] ->; [eapply Hdis; [exact Hj|set_solver]|done]. }
    split_and!; [|done| |].
    + eapply dseg_frame; [|exact Hs1]. intros j Hj. apply vget_insert_ne. intros ->. eapply Hfr; eauto.
    + apply vget_insert_eq. by eapply vget_lt.
    + eapply dseg_frame; [|exact Hs2]. intros j Hj. apply vget_insert_ne. intros ->. eapply Hfr; eauto.
  - unfold level_total in *. simpl. rewrite Htot, !fmap_app, !sum_remaining_app. simpl. lia.
  - apply same_outside_insert. set_solver.
Qed.

(** The price of a level is never written by these operations. *)
Ltac level_price_tac :=
  intros; inv_opt;
  repeat (match goal with x : _ * _ |- _ => destruct x | H : (if ?b then _ else _) = Some _ |- _ => destruct b end; inv_opt);
  subst; try done.

Lemma level_push_back_price lv p i lv' p' : level_push_back lv p i = Some (lv', p') -> l_price lv' = l_price lv.
Proof. unfold level_push_back. level_price_tac. Qed.

Lemma level_unlink_price lv p i lv' p' : level_unlink lv p i = Some (lv', p') -> l_price lv' = l_price lv.
Proof. unfold level_unlink. level_price_tac. Qed.

Lemma level_reduce_price lv p i q lv' p' : level_reduce_quantity lv p i q = Some (lv', p') -> l_price lv' = l_price lv.
Proof. unfold level_reduce_quantity. level_price_tac. Qed.
