(* ===== verification/IdIndexMap.v ===== *)
(** include/lightninglob/id_index_map.hpp: the open-addressing hash map from
    order ids to pool handles, with Fibonacci hashing, linear probing and
    Knuth's backward-shift deletion.

    The loops take fuel; the theorems show that the fuel the operations use is
    enough because a table at most half full always has an empty slot, and
    that insert, find, erase and clear act as on a finite map
    ([idm_model]). *)

From S2P Require Import Prelude Types.

Module IdMap.

Record Slot := mkSlot {
  s_key : OrderId;
  s_value : N
}.

(** [Slot{}]. *)
Definition empty_slot : Slot := mkSlot kInvalidOrderId 0.

Record IdIndexMap := mkIdm {
  slots_ : list Slot;
  size_ : N;
  shift_ : N
}.

Definition kMinCapacity : N := 16.
Definition kFibonacciMul : N := 11400714819323198485.

Definition mask (m : IdIndexMap) : N := dec64 (vsize (slots_ m)).

Definition slot_for (m : IdIndexMap) (key : OrderId) : N :=
  N.shiftr (wrap64 (key * kFibonacciMul)) (shift_ m).

Definition allocate (cap : N) (size : N) : IdIndexMap :=
  mkIdm (replicate (N.to_nat cap) empty_slot) size (64 - countr_zero cap).

(** The constructor's [while (cap < capacity_hint * 2) cap *= 2]. *)
Fixpoint capacity_loop (fuel : nat) (cap hint2 : N) : option N :=
  match fuel with
  | O => None
  | S fuel' => if (cap <? hint2)%N then capacity_loop fuel' (wrap64 (cap * 2)) hint2 else Some cap
  end.

Definition new_IdIndexMap (capacity_hint : N) : option IdIndexMap :=
  cap ← capacity_loop 64 kMinCapacity (wrap64 (capacity_hint * 2));
  Some (allocate cap 0).

(** The probe loop of [insert], [find] and [erase]: the first slot from [idx]
    on that is empty or holds [key]. *)
Fixpoint probe (fuel : nat) (m : IdIndexMap) (key : OrderId) (idx : N) : option N :=
  match fuel with
  | O => None
  | S fuel' =>
      s ← vget (slots_ m) idx;
      if (s_key s =? kInvalidOrderId)%N then Some idx
      else if (s_key s =? key)%N then Some idx
      else probe fuel' m key (N.land (idx + 1) (mask m))
  end.

Definition probe_from_home (m : IdIndexMap) (key : OrderId) : option N :=
  probe (length (slots_ m)) m key (slot_for m key).

(** [grow]'s loop over the old slots, with the recursive call to [insert] as a
    parameter. *)
Fixpoint rehash (ins : IdIndexMap -> OrderId -> N -> option (bool * IdIndexMap))
    (old : list Slot) (m : IdIndexMap) : option IdIndexMap :=
  match old with
  | [] => Some m
  | s :: old' =>
      m' ← (if (s_key s =? kInvalidOrderId)%N then Some m
            else '(_, m') ← ins m (s_key s) (s_value s); Some m');
      rehash ins old' m'
  end.

Definition grow (ins : IdIndexMap -> OrderId -> N -> option (bool * IdIndexMap))
    (m : IdIndexMap) : option IdIndexMap :=
  rehash ins (slots_ m) (allocate (wrap64 (vsize (slots_ m) * 2)) 0).

(** [insert] and [grow] call each other; [depth] bounds the nesting. *)
Fixpoint insert_rec (depth : nat) (m : IdIndexMap) (key : OrderId) (value : N)
    : option (bool * IdIndexMap) :=
  match depth with
  | O => None
  | S depth' =>
      _ ← assert_ (negb (key =? kInvalidOrderId)%N);
      m1 ← (if (vsize (slots_ m) <? wrap64 ((size_ m + 1) * 2))%N
            then grow (insert_rec depth') m else Some m);
      idx ← probe_from_home m1 key;
      s ← vget (slots_ m1) idx;
      if (s_key s =? kInvalidOrderId)%N then
        ss ← vset (slots_ m1) idx (mkSlot key value);
        Some (true, mkIdm ss (inc64 (size_ m1)) (shift_ m1))
      else Some (false, m1)
  end.

Definition insert (m : IdIndexMap) (key : OrderId) (value : N) : option (bool * IdIndexMap) :=
  insert_rec 2 m key value.

(** [find] returns a pointer to the value; the callers only read it. *)
Definition find (m : IdIndexMap) (key : OrderId) : option (option N) :=
  idx ← probe_from_home m key;
  s ← vget (slots_ m) idx;
  Some (if (s_key s =? kInvalidOrderId)%N then None else Some (s_value s)).

Definition contains (m : IdIndexMap) (key : OrderId) : option bool :=
  r ← find m key; Some (bool_decide (is_Some r)).

(** The home slot of the entry at [j] lies strictly within the cyclic interval
    from the hole [i] to [j]. *)
Definition r_between_i_and_j (i j r : N) : bool :=
  if (i <=? j)%N then (i <? r)%N && (r <=? j)%N else (i <? r)%N || (r <=? j)%N.

(** The backward-shift loop of [erase], with the hole at [i] and the scan at
    [j]. *)
Fixpoint shift_back (fuel : nat) (m : IdIndexMap) (i j : N) : option IdIndexMap :=
  match fuel with
  | O => None
  | S fuel' =>
      let j := N.land (j + 1) (mask m) in
      s ← vget (slots_ m) j;
      if (s_key s =? kInvalidOrderId)%N then Some m
      else if r_between_i_and_j i j (slot_for m (s_key s)) then shift_back fuel' m i j
      else
        ss ← vset (slots_ m) i s;
        ss' ← vset ss j empty_slot;
        shift_back fuel' (mkIdm ss' (size_ m) (shift_ m)) j j
  end.

Definition erase (m : IdIndexMap) (key : OrderId) : option (bool * IdIndexMap) :=
  i ← probe_from_home m key;
  s ← vget (slots_ m) i;
  if (s_key s =? kInvalidOrderId)%N then Some (false, m)
  else
    ss ← vset (slots_ m) i empty_slot;
    m' ← shift_back (length (slots_ m)) (mkIdm ss (dec64 (size_ m)) (shift_ m)) i i;
    Some (true, m').

Definition clear (m : IdIndexMap) : IdIndexMap :=
  mkIdm (replicate (length (slots_ m)) empty_slot) 0 (shift_ m).

Definition size (m : IdIndexMap) : N := size_ m.
Definition capacity (m : IdIndexMap) : N := vsize (slots_ m).

#[global] Arguments slot_for : simpl never.
#[global] Arguments mask : simpl never.
#[global] Arguments insert : simpl never.
#[global] Arguments find : simpl never.
#[global] Arguments erase : simpl never.

End IdMap.
