(* ===== verification/IdIndexMapFacts.v ===== *)
(** Correctness of the order-id hash map (IdIndexMap.v).

    The slot vector is read as a periodic function on [Z] ([slot_at]), so that
    a probe sequence that wraps around the table is an interval.  The table
    invariant [table_ok] says that every entry is reachable from its home slot
    without crossing an empty slot; [erase]'s backward shift is proved with
    that invariant weakened at the hole.  The interface used by the order
    books is the last section: [idm_model] and one lemma per operation. *)

From Stdlib Require Import Wf_nat.
From S2P Require Import Prelude Types IdIndexMap.
Import IdMap.

Abbreviation nonempty s := (s_key s <> kInvalidOrderId).

(** The entries of a table. *)
Definition entries (l : list Slot) : list (N * N) :=
  (fun s => (s_key s, s_value s)) <$> filter (fun s => nonempty s) l.

Lemma entries_cons s l :
  entries (s :: l) = if decide (nonempty s) then (s_key s, s_value s) :: entries l else entries l.
Proof. unfold entries. rewrite filter_cons. by case_decide. Qed.

Section periodic.
Implicit Types (l : list Slot) (z d : Z) (s : Slot).
Open Scope Z_scope.

Definition cap l : Z := Z.of_nat (length l).

Definition slot_at l z : Slot := default empty_slot (l !! Z.to_nat (z mod cap l)).

Definition key_at l z : N := s_key (slot_at l z).

Lemma slot_at_mod l z : slot_at l (z mod cap l) = slot_at l z.
Proof. unfold slot_at. by rewrite Zmod_mod. Qed.

Lemma slot_at_eqm l z z' : z mod cap l = z' mod cap l -> slot_at l z = slot_at l z'.
Proof. unfold slot_at. by intros ->. Qed.

Lemma vget_slot_at l (i : N) :
  Z.of_N i < cap l -> vget l i = Some (slot_at l (Z.of_N i)).
Proof.
  intros H. unfold vget, slot_at, cap in *. rewrite Z.mod_small by lia.
  replace (Z.to_nat (Z.of_N i)) with (N.to_nat i) by lia.
  destruct (lookup_lt_is_Some_2 l (N.to_nat i)) as [s ->]; [lia|done].
Qed.

Lemma slot_at_insert l (i : N) s z :
  Z.of_N i < cap l ->
  slot_at (<[N.to_nat i := s]> l) z = if decide (z mod cap l = Z.of_N i) then s else slot_at l z.
Proof.
  intros H. unfold slot_at, cap in *. rewrite length_insert.
  pose proof (Z.mod_pos_bound z (Z.of_nat (length l)) ltac:(lia)) as Hb.
  set (r := z mod Z.of_nat (length l)) in *. clearbody r. case_decide as Hd.
  - rewrite Hd. replace (Z.to_nat (Z.of_N i)) with (N.to_nat i) by lia.
    rewrite list_lookup_insert_eq by lia. done.
  - rewrite list_lookup_insert_ne by lia. done.
Qed.

(** Two positions less than a period apart are the same slot only if equal. *)
Lemma mod_window a b c : 0 < c -> a mod c = b mod c -> Z.abs (a - b) < c -> a = b.
Proof.
  intros Hc Hm Ha. pose proof (Z.div_mod a c ltac:(lia)) as H1.
  pose proof (Z.div_mod b c ltac:(lia)) as H2. rewrite Hm in H1.
  generalize dependent (a / c). generalize dependent (b / c). generalize dependent (b mod c).
  intros r _ qb H2 qa H1. assert (qa = qb) by nia. nia.
Qed.

Lemma entries_insert_empty l (i : N) s :
  Z.of_N i < cap l -> key_at l (Z.of_N i) = kInvalidOrderId -> nonempty s ->
  entries (<[N.to_nat i := s]> l) ≡ₚ (s_key s, s_value s) :: entries l.
Proof.
  intros Hi Hk Hs. pose proof (vget_slot_at l i Hi) as Hv. unfold vget, key_at in *.
  rewrite insert_take_drop by (by eapply lookup_lt_Some). apply list_split_lookup in Hv. unfold entries.
  rewrite Hv at 3. rewrite !filter_app, !fmap_app, !filter_cons.
  rewrite decide_True by done. rewrite (decide_False (P := nonempty _)) by naive_solver.
  simpl. by rewrite Permutation_middle.
Qed.

Lemma entries_insert_hole l (i : N) :
  Z.of_N i < cap l -> key_at l (Z.of_N i) <> kInvalidOrderId ->
  entries l ≡ₚ (key_at l (Z.of_N i), s_value (slot_at l (Z.of_N i)))
               :: entries (<[N.to_nat i := empty_slot]> l).
Proof.
  intros Hi Hk. pose proof (vget_slot_at l i Hi) as Hv. unfold vget, key_at in *.
  rewrite insert_take_drop by (by eapply lookup_lt_Some). apply list_split_lookup in Hv. unfold entries.
  rewrite Hv at 1. rewrite !filter_app, !fmap_app, !filter_cons.
  rewrite decide_True by done. rewrite (decide_False (P := nonempty empty_slot)) by naive_solver.
  simpl. by rewrite Permutation_middle.
Qed.

Lemma elem_of_entries l k v :
  (k, v) ∈ entries l <->
  exists z, 0 <= z < cap l /\ slot_at l z = mkSlot k v /\ k <> kInvalidOrderId.
Proof.
  unfold entries. rewrite list_elem_of_fmap. setoid_rewrite list_elem_of_filter. split.
  - intros ([k' v'] & [= -> ->] & Hs & (i & Hi)%list_elem_of_lookup). simpl in *.
    pose proof (lookup_lt_Some _ _ _ Hi). exists (Z.of_nat i). unfold cap, slot_at.
    rewrite Z.mod_small by (unfold cap; lia). rewrite Nat2Z.id, Hi. split; [lia|done].
  - intros (z & Hz & Hs & Hk). exists (mkSlot k v). split_and!; [done|done|].
    unfold slot_at, cap in *. rewrite Z.mod_small in Hs by lia.
    destruct (lookup_lt_is_Some_2 l (Z.to_nat z)) as [s Hl]; [lia|]. rewrite Hl in Hs. simpl in Hs.
    subst s. apply list_elem_of_lookup. eauto.
Qed.

Lemma entries_key_nonzero l k v : (k, v) ∈ entries l -> k <> kInvalidOrderId.
Proof. rewrite elem_of_entries. naive_solver. Qed.

(** A table with fewer entries than slots has an empty slot in every window. *)
Lemma empty_slot_exists l :
  Z.of_nat (length (entries l)) < cap l -> exists z, 0 <= z < cap l /\ key_at l z = kInvalidOrderId.
Proof.
  intros H. destruct (decide (Exists (fun s => s_key s = kInvalidOrderId) l)) as [He|He].
  - apply Exists_exists in He as (s & (i & Hi)%list_elem_of_lookup & Hs).
    pose proof (lookup_lt_Some _ _ _ Hi). exists (Z.of_nat i). unfold cap, key_at, slot_at.
    rewrite Z.mod_small by (unfold cap; lia). rewrite Nat2Z.id, Hi. split; [lia|done].
  - exfalso. apply not_Exists_Forall in He; [|apply _].
    unfold entries, cap in H. rewrite length_fmap in H. clear -He H.
    induction l as [|s l IH]; simpl in *; [lia|]. apply Forall_cons in He as [Hs Hl].
    rewrite filter_cons, decide_True in H by done. simpl in H. apply IH; first [lia|done].
Qed.

Lemma empty_slot_in_window l w :
  Z.of_nat (length (entries l)) < cap l ->
  exists z, w <= z < w + cap l /\ key_at l z = kInvalidOrderId.
Proof.
  intros H. destruct (empty_slot_exists l H) as (z & Hz & Hk).
  exists (w + (z - w) mod cap l).
  pose proof (Z.mod_pos_bound (z - w) (cap l) ltac:(lia)). split; [lia|].
  rewrite <- Hk. unfold key_at. f_equal. apply slot_at_eqm.
  rewrite Zplus_mod_idemp_r. f_equal. lia.
Qed.

End periodic.

(** * The table invariant *)

Record table_shape (m : IdIndexMap) (k : N) : Prop := {
  shape_k : (4 <= k <= 63)%N;
  shape_length : Z.of_nat (length (slots_ m)) = (2 ^ Z.of_N k)%Z;
  shape_shift : shift_ m = (64 - k)%N
}.

(** Home slot of a key, and the distance of position [z] from the home of the
    key it holds. *)
Definition home (m : IdIndexMap) (key : N) : Z := Z.of_N (slot_for m key).
Definition dist (m : IdIndexMap) (z : Z) : Z :=
  ((z - home m (key_at (slots_ m) z)) mod cap (slots_ m))%Z.

(** Position [z] is reachable: no empty slot between its home and itself. *)
Definition reachable (m : IdIndexMap) (z : Z) : Prop :=
  forall d, (0 <= d <= dist m z)%Z -> key_at (slots_ m) (z - d) <> kInvalidOrderId.

Record table_ok (m : IdIndexMap) : Prop := {
  table_k : exists k, table_shape m k;
  table_size : size_ m = N.of_nat (length (entries (slots_ m)));
  table_load : (2 * Z.of_nat (length (entries (slots_ m))) <= cap (slots_ m))%Z;
  table_keys : NoDup (entries (slots_ m)).*1;
  table_path : forall z, key_at (slots_ m) z <> kInvalidOrderId -> reachable m z
}.

Section shape.
Context (m : IdIndexMap) (k : N) (Hsh : table_shape m k).
Open Scope Z_scope.

Lemma cap_pow2 : cap (slots_ m) = 2 ^ Z.of_N k.
Proof. apply Hsh. Qed.

Lemma cap_range : 16 <= cap (slots_ m) <= 2 ^ 63.
Proof.
  rewrite cap_pow2. pose proof (shape_k _ _ Hsh). split.
  - change 16 with (2 ^ 4). apply Z.pow_le_mono_r; lia.
  - apply Z.pow_le_mono_r; lia.
Qed.

Lemma mask_spec : mask m = N.ones k.
Proof.
  pose proof cap_range as Hc. unfold mask, cap in *. rewrite dec64_pos by (unfold vsize, two64; lia).
  unfold vsize. rewrite N.ones_equiv. apply N2Z.inj.
  rewrite N2Z.inj_sub by lia. rewrite N2Z.inj_pred by (apply N.neq_0_lt_0, N.pow_nonzero; lia).
  rewrite N2Z.inj_pow, nat_N_Z, (shape_length _ _ Hsh). lia.
Qed.

Lemma next_idx (i : N) : Z.of_N (N.land (i + 1) (mask m)) = (Z.of_N i + 1) mod cap (slots_ m).
Proof. rewrite mask_spec, N.land_ones, cap_pow2, N2Z.inj_mod, N2Z.inj_add, N2Z.inj_pow. done. Qed.

Lemma home_range key : 0 <= home m key < cap (slots_ m).
Proof.
  unfold home, slot_for. split; [lia|]. pose proof (shape_k _ _ Hsh) as Hk.
  rewrite (shape_shift _ _ Hsh), cap_pow2, N.shiftr_div_pow2.
  rewrite N2Z.inj_div, N2Z.inj_pow, N2Z.inj_sub by lia. unfold wrap64.
  rewrite N2Z.inj_mod. apply Z.div_lt_upper_bound; [apply Z.pow_pos_nonneg; lia|].
  rewrite <- Z.pow_add_r by lia. replace (Z.of_N 64 - Z.of_N k + Z.of_N k) with 64 by lia.
  apply Z.mod_pos_bound. done.
Qed.

Lemma home_shape m' key : shift_ m' = shift_ m -> home m' key = home m key.
Proof. unfold home, slot_for. by intros ->. Qed.

(** The first position from [w] on that is empty or holds [key]. *)
Lemma first_stop key w :
  Z.of_nat (length (entries (slots_ m))) < cap (slots_ m) ->
  exists n : nat, Z.of_nat n < cap (slots_ m) /\
    (forall d, 0 <= d < Z.of_nat n ->
       key_at (slots_ m) (w + d) <> kInvalidOrderId /\ key_at (slots_ m) (w + d) <> key) /\
    (key_at (slots_ m) (w + Z.of_nat n) = kInvalidOrderId \/ key_at (slots_ m) (w + Z.of_nat n) = key).
Proof.
  intros Hl. destruct (empty_slot_in_window _ w Hl) as (z & Hz & Hk).
  set (P := fun n : nat => key_at (slots_ m) (w + Z.of_nat n) = kInvalidOrderId \/
                           key_at (slots_ m) (w + Z.of_nat n) = key).
  assert (Hex : P (Z.to_nat (z - w))).
  { left. rewrite Z2Nat.id by lia. rewrite <- Hk. f_equal. lia. }
  assert (Hdec : forall n, {P n} + {~ P n}).
  { intros n. unfold P. destruct (decide (key_at (slots_ m) (w + Z.of_nat n) = kInvalidOrderId));
      [left; by left|]. destruct (decide (key_at (slots_ m) (w + Z.of_nat n) = key));
      [left; by right|right; tauto]. }
  destruct (dec_inh_nat_subset_has_unique_least_element P (fun n => match Hdec n with left p => or_introl p | right p => or_intror p end)
              (ex_intro _ _ Hex)) as (n & [Hn Hmin] & _).
  exists n. pose proof (Hmin _ Hex). split_and!; [lia| |done].
  intros d Hd. destruct (Hdec (Z.to_nat d)) as [HP|HP].
  - apply Hmin in HP. lia.
  - unfold P in HP. rewrite Z2Nat.id in HP by lia. tauto.
Qed.

Lemma probe_runs key (n fuel : nat) (i : N) :
  (n < fuel)%nat -> Z.of_N i < cap (slots_ m) ->
  (forall d, 0 <= d < Z.of_nat n ->
     key_at (slots_ m) (Z.of_N i + d) <> kInvalidOrderId /\ key_at (slots_ m) (Z.of_N i + d) <> key) ->
  (key_at (slots_ m) (Z.of_N i + Z.of_nat n) = kInvalidOrderId \/
   key_at (slots_ m) (Z.of_N i + Z.of_nat n) = key) ->
  exists j, probe fuel m key i = Some j /\ Z.of_N j < cap (slots_ m) /\
    Z.of_N j = (Z.of_N i + Z.of_nat n) mod cap (slots_ m).
Proof.
  revert fuel i. induction n as [|n IH]; intros [|fuel] i Hf Hi Hd Hs; try lia; simpl.
  - rewrite vget_slot_at by done. simpl. rewrite Z.add_0_r in Hs. unfold key_at in Hs.
    exists i. rewrite Z.mod_small by lia. split; [|lia].
    destruct (N.eqb_spec (s_key (slot_at (slots_ m) (Z.of_N i))) kInvalidOrderId); [done|].
    destruct Hs as [Hs|Hs]; [done|]. by rewrite Hs, N.eqb_refl.
  - rewrite vget_slot_at by done. simpl.
    destruct (Hd 0 ltac:(lia)) as [H0 H1]. rewrite Z.add_0_r in H0, H1. unfold key_at in H0, H1.
    rewrite (proj2 (N.eqb_neq _ _) H0), (proj2 (N.eqb_neq _ _) H1).
    pose proof (next_idx i) as Hn. pose proof cap_range as Hc.
    pose proof (Z.mod_pos_bound (Z.of_N i + 1) (cap (slots_ m)) ltac:(lia)) as Hb.
    set (i' := N.land (i + 1) (mask m)) in *.
    assert (Hshift : forall d, slot_at (slots_ m) (Z.of_N i' + d) = slot_at (slots_ m) (Z.of_N i + (d + 1))).
    { intros d. apply slot_at_eqm. rewrite Hn, Zplus_mod_idemp_l. f_equal. lia. }
    destruct (IH fuel i') as (j & Hp & Hj & Hjm); [lia|lia| | |].
    + intros d Hd'. unfold key_at. rewrite Hshift. apply Hd. lia.
    + unfold key_at. rewrite Hshift. replace (Z.of_nat n + 1) with (Z.of_nat (S n)) by lia. done.
    + exists j. split_and!; [done|done|]. rewrite Hjm, Hn, Zplus_mod_idemp_l. f_equal. lia.
Qed.

(** Probing from the home slot stops, at the first slot that is empty or holds
    the key. *)
Lemma probe_from_home_spec key :
  Z.of_nat (length (entries (slots_ m))) < cap (slots_ m) ->
  exists j n, probe_from_home m key = Some j /\ Z.of_N j < cap (slots_ m) /\ 0 <= n < cap (slots_ m) /\
    Z.of_N j = (home m key + n) mod cap (slots_ m) /\
    (forall d, 0 <= d < n ->
       key_at (slots_ m) (home m key + d) <> kInvalidOrderId /\ key_at (slots_ m) (home m key + d) <> key) /\
    (key_at (slots_ m) (Z.of_N j) = kInvalidOrderId \/ key_at (slots_ m) (Z.of_N j) = key).
Proof.
  intros Hl. destruct (first_stop key (home m key) Hl) as (n & Hn & Hd & Hs).
  pose proof (home_range key) as Hh.
  destruct (probe_runs key n (length (slots_ m)) (slot_for m key)) as (j & Hp & Hj & Hjm).
  - unfold cap in Hn. lia.
  - apply Hh.
  - exact Hd.
  - exact Hs.
  - exists j, (Z.of_nat n). split_and!; [done|done|lia|done|done| |].
    + intros d Hd'. by apply Hd.
    + unfold key_at. rewrite Hjm, slot_at_mod. exact Hs.
Qed.
End shape.

Lemma table_room m : table_ok m -> (Z.of_nat (length (entries (slots_ m))) < cap (slots_ m))%Z.
Proof. intros [[k Hk] _ Hl _ _]. pose proof (cap_range m k Hk). lia. Qed.

Section lookup.
Context (m : IdIndexMap) (Hok : table_ok m).
Open Scope Z_scope.

(** What a probe from the home slot finds. *)
Lemma probe_decides key :
  exists j, probe_from_home m key = Some j /\ Z.of_N j < cap (slots_ m) /\
   ((key_at (slots_ m) (Z.of_N j) = key /\ key <> kInvalidOrderId) \/
    (key_at (slots_ m) (Z.of_N j) = kInvalidOrderId /\ key ∉ (entries (slots_ m)).*1 /\
     exists n, 0 <= n < cap (slots_ m) /\ Z.of_N j = (home m key + n) mod cap (slots_ m) /\
       forall d, 0 <= d < n -> key_at (slots_ m) (home m key + d) <> kInvalidOrderId)).
Proof.
  destruct Hok as [[k Hk] _ _ _ Hpath].
  destruct (probe_from_home_spec m k Hk key (table_room m Hok)) as (j & n & Hp & Hj & Hn & Hjm & Hd & Hs).
  exists j. split_and!; [done|done|].
  destruct (decide (key_at (slots_ m) (Z.of_N j) = kInvalidOrderId)) as [He|He]; [right|left; naive_solver].
  split_and!; [done| |exists n; naive_solver].
  intros ([k' v] & -> & (z & Hz & Hsl & Hk0)%elem_of_entries)%list_elem_of_fmap. simpl in *.
  pose proof (cap_range m k Hk) as Hc.
  assert (Hkz : key_at (slots_ m) z = k') by (unfold key_at; by rewrite Hsl).
  set (e := dist m z). assert (Hes : e = dist m z) by done. unfold dist in Hes. rewrite Hkz in Hes.
  pose proof (Z.mod_pos_bound (z - home m k') (cap (slots_ m)) ltac:(lia)) as Hb. rewrite <- Hes in Hb.
  assert (Hat : forall y, key_at (slots_ m) (home m k' + y) = key_at (slots_ m) (z - (e - y))).
  { intros y. unfold key_at. f_equal. apply slot_at_eqm.
    replace (z - (e - y)) with (z + y - e) by lia. rewrite Hes, Zminus_mod_idemp_r. f_equal. lia. }
  destruct (Z.lt_ge_cases e n) as [Hlt|Hge].
  - apply (Hd e); [lia|]. rewrite Hat, Z.sub_diag, Z.sub_0_r. done.
  - apply (Hpath z) with (d := e - n).
    + by rewrite Hkz.
    + fold e. lia.
    + rewrite <- Hat, <- He. unfold key_at. by rewrite Hjm, slot_at_mod.
Qed.

(** Filling the empty slot that the probe for a fresh key found. *)
Lemma fill_slot_ok key v j n :
  key <> kInvalidOrderId -> key ∉ (entries (slots_ m)).*1 ->
  Z.of_N j < cap (slots_ m) -> key_at (slots_ m) (Z.of_N j) = kInvalidOrderId ->
  0 <= n < cap (slots_ m) -> Z.of_N j = (home m key + n) mod cap (slots_ m) ->
  (forall d, 0 <= d < n -> key_at (slots_ m) (home m key + d) <> kInvalidOrderId) ->
  2 * (Z.of_nat (length (entries (slots_ m))) + 1) <= cap (slots_ m) ->
  let m' := mkIdm (<[N.to_nat j := mkSlot key v]> (slots_ m)) (inc64 (size_ m)) (shift_ m) in
  table_ok m' /\ entries (slots_ m') ≡ₚ (key, v) :: entries (slots_ m) /\ cap (slots_ m') = cap (slots_ m).
Proof.
  intros Hk0 Hfresh Hj Hje Hn Hjm Hfull Hload m'.
  pose proof Hok as [[k Hk] Hsz Hl Hnd Hpath]. pose proof (cap_range m k Hk) as Hc.
  assert (Hperm : entries (slots_ m') ≡ₚ (key, v) :: entries (slots_ m)) by (by apply entries_insert_empty).
  assert (Hcap : cap (slots_ m') = cap (slots_ m)) by (unfold cap; simpl; by rewrite length_insert).
  assert (Hat : forall z, slot_at (slots_ m') z =
    if decide (z mod cap (slots_ m) = Z.of_N j) then mkSlot key v else slot_at (slots_ m) z).
  { intros z. by apply slot_at_insert. }
  assert (Hmono : forall z, key_at (slots_ m) z <> kInvalidOrderId -> key_at (slots_ m') z <> kInvalidOrderId).
  { intros z Hz. unfold key_at. rewrite Hat. by case_decide. }
  split_and!; [|done|done]. split.
  - exists k. destruct Hk as [H1 H2 H3]. split; [done| |done]. simpl. by rewrite length_insert.
  - rewrite Hperm. simpl. rewrite Hsz, inc64_small by (unfold two64; lia). lia.
  - rewrite Hperm, Hcap. simpl. lia.
  - rewrite Hperm. simpl. by constructor.
  - intros z Hz d Hd. destruct (decide (z mod cap (slots_ m) = Z.of_N j)) as [Hzj|Hzj].
    + assert (Hkz : key_at (slots_ m') z = key) by (unfold key_at; rewrite Hat, decide_True; done).
      unfold dist in Hd. rewrite Hkz, Hcap, (home_shape m m' key) in Hd by done.
      assert (Hdn : (z - home m key) mod cap (slots_ m) = n).
      { rewrite <- Zminus_mod_idemp_l, Hzj, Hjm, Zminus_mod_idemp_l.
        replace (home m key + n - home m key) with n by lia. apply Z.mod_small. lia. }
      rewrite Hdn in Hd. destruct (decide (d = 0)) as [->|Hd0]; [by rewrite Z.sub_0_r|].
      apply Hmono. assert (Heq : key_at (slots_ m) (z - d) = key_at (slots_ m) (home m key + (n - d))).
      { unfold key_at. f_equal. apply slot_at_eqm. rewrite <- Zminus_mod_idemp_l, Hzj, Hjm, Zminus_mod_idemp_l.
        f_equal. lia. }
      rewrite Heq. apply Hfull. lia.
    + assert (Hkz : key_at (slots_ m') z = key_at (slots_ m) z).
      { unfold key_at. by rewrite Hat, decide_False. }
      unfold dist in Hd. rewrite Hcap, Hkz, (home_shape m m') in Hd by done.
      apply Hmono, (Hpath z); [by rewrite <- Hkz|done].
Qed.
End lookup.

(** * Backward-shift deletion *)

Section backward_shift.
Open Scope Z_scope.

(** The test in the loop, in unrolled positions: the home of the entry at [J]
    lies beyond the hole [I]. *)
Lemma r_between_spec (c I J : Z) (i j r : N) :
  0 < c -> Z.of_N i = I mod c -> Z.of_N j = J mod c -> Z.of_N r < c -> I < J < I + c ->
  r_between_i_and_j i j r = bool_decide ((J - Z.of_N r) mod c < J - I).
Proof.
  intros Hc Hi Hj Hr HIJ.
  pose proof (Z.div_mod I c ltac:(lia)) as HI. pose proof (Z.div_mod J c ltac:(lia)) as HJ.
  pose proof (Z.mod_pos_bound I c ltac:(lia)) as Hbi. pose proof (Z.mod_pos_bound J c ltac:(lia)) as Hbj.
  rewrite <- Hi in *. rewrite <- Hj in *. clear Hi Hj.
  generalize dependent (I / c). generalize dependent (J / c). intros qj HJ qi HI.
  assert (Hd : (J - Z.of_N r) mod c =
    if decide (Z.of_N r <= Z.of_N j) then Z.of_N j - Z.of_N r else Z.of_N j - Z.of_N r + c).
  { case_decide.
    - symmetry. apply (Z.mod_unique _ _ qj); lia.
    - symmetry. apply (Z.mod_unique _ _ (qj - 1)); lia. }
  assert (Hq : (qj = qi /\ (i < j)%N) \/ (qj = qi + 1 /\ (j < i)%N)).
  { assert (qj = qi \/ qj = qi + 1) as [->| ->] by nia; [left|right]; nia. }
  rewrite Hd. unfold r_between_i_and_j. apply Bool.eq_iff_eq_true. rewrite bool_decide_eq_true.
  destruct Hq as [[-> Hq]|[-> Hq]];
    destruct (N.leb_spec i j); destruct (N.ltb_spec i r); destruct (N.leb_spec r j);
    case_decide; simpl; split; intros HH; try done; try discriminate HH; nia.
Qed.

(** The invariant of the loop: a hole at [I]; the entries between [I] and the
    scan position [J] do not need it; the paths of the entries beyond [J] may
    cross it and nothing else that is empty. *)
Record hole_inv (m : IdIndexMap) (I J E : Z) : Prop := {
  hole_shape : exists k, table_shape m k;
  hole_window : I <= J < E /\ E < I + cap (slots_ m);
  hole_empty : key_at (slots_ m) I = kInvalidOrderId;
  hole_stop : key_at (slots_ m) E = kInvalidOrderId;
  hole_between : forall z, I < z <= J -> key_at (slots_ m) z <> kInvalidOrderId /\ dist m z < z - I;
  hole_beyond : forall z d, J < z < I + cap (slots_ m) -> key_at (slots_ m) z <> kInvalidOrderId ->
    0 <= d <= dist m z -> key_at (slots_ m) (z - d) <> kInvalidOrderId \/ z - d = I
}.

Definition paths_ok (m : IdIndexMap) : Prop :=
  forall z, key_at (slots_ m) z <> kInvalidOrderId -> reachable m z.

Lemma dist_range m k z : table_shape m k -> 0 <= dist m z < cap (slots_ m).
Proof. intros Hk. pose proof (cap_range m k Hk). apply Z.mod_pos_bound. lia. Qed.

Lemma dist_eqm m z z' : z mod cap (slots_ m) = z' mod cap (slots_ m) -> dist m z = dist m z'.
Proof.
  intros H. unfold dist, key_at. rewrite (slot_at_eqm _ z z') by done.
  by rewrite <- Zminus_mod_idemp_l, H, Zminus_mod_idemp_l.
Qed.

(** Every position has a representative in the window of a hole. *)
Lemma window_rep c I z : 0 < c -> exists z', I <= z' < I + c /\ z' mod c = z mod c.
Proof.
  intros Hc. exists (I + (z - I) mod c). pose proof (Z.mod_pos_bound (z - I) c ltac:(lia)).
  split; [lia|]. rewrite Zplus_mod_idemp_r. f_equal. lia.
Qed.

Lemma hole_done m I J E :
  hole_inv m I J E -> key_at (slots_ m) (J + 1) = kInvalidOrderId -> paths_ok m.
Proof.
  intros [[k Hk] Hw He Hs Hb Hf] HJ z Hz d Hd.
  pose proof (cap_range m k Hk) as Hc.
  destruct (window_rep (cap (slots_ m)) I z ltac:(lia)) as (z' & Hz' & Heq).
  rewrite <- (dist_eqm m _ _ Heq) in Hd.
  assert (Hkz : forall y, key_at (slots_ m) (z - y) = key_at (slots_ m) (z' - y)).
  { intros y. unfold key_at. f_equal. apply slot_at_eqm. by rewrite <- Zminus_mod_idemp_l, <- Heq, Zminus_mod_idemp_l. }
  pose proof (Hkz 0) as H0. rewrite !Z.sub_0_r in H0. rewrite H0 in Hz. rewrite Hkz.
  destruct (decide (z' = I)) as [->|Hni]; [done|].
  destruct (Z.le_gt_cases z' J) as [Hle|Hgt].
  - destruct (Hb z' ltac:(lia)) as [_ Hdist]. apply Hb. lia.
  - destruct (decide (z' = J + 1)) as [->|Hnj]; [done|].
    destruct (Hf z' d ltac:(lia) Hz Hd) as [|HI]; [done|exfalso].
    destruct (Hf z' (z' - (J + 1)) ltac:(lia) Hz ltac:(lia)) as [Hx|Hx]; [|lia].
    apply Hx. by replace (z' - (z' - (J + 1))) with (J + 1) by lia.
Qed.

Lemma hole_skip m I J E :
  hole_inv m I J E -> key_at (slots_ m) (J + 1) <> kInvalidOrderId ->
  dist m (J + 1) < J + 1 - I -> hole_inv m I (J + 1) E.
Proof.
  intros [Hk Hw He Hs Hb Hf] HJ Hd. split; try done.
  - assert (J + 1 <> E) by (intros Heq; rewrite Heq in HJ; done). lia.
  - intros z Hz. destruct (decide (z = J + 1)) as [->|]; [done|]. apply Hb. lia.
  - intros z d Hz. apply Hf. lia.
Qed.

(** Moving the entry at [J + 1] into the hole. *)
Definition moved (m : IdIndexMap) (i j : N) : IdIndexMap :=
  mkIdm (<[N.to_nat j := empty_slot]> (<[N.to_nat i := slot_at (slots_ m) (Z.of_N j)]> (slots_ m)))
    (size_ m) (shift_ m).

Section move.
Context (m : IdIndexMap) (k : N) (I J : Z) (i j : N).
Context (Hk : table_shape m k) (HIJ : I < J < I + cap (slots_ m)).
Context (Hi : Z.of_N i = I mod cap (slots_ m)) (Hj : Z.of_N j = J mod cap (slots_ m)).

Lemma moved_cap : cap (slots_ (moved m i j)) = cap (slots_ m).
Proof. unfold cap. simpl. by rewrite !length_insert. Qed.

Lemma moved_bounds : Z.of_N i < cap (slots_ m) /\ Z.of_N j < cap (slots_ m).
Proof.
  pose proof (cap_range m k Hk). rewrite Hi, Hj.
  split; apply Z.mod_pos_bound; lia.
Qed.

Lemma moved_at z : J - cap (slots_ m) < z < J + cap (slots_ m) ->
  slot_at (slots_ (moved m i j)) z =
  if decide (z = J) then empty_slot
  else if decide (z = I \/ z = I + cap (slots_ m)) then slot_at (slots_ m) J
  else slot_at (slots_ m) z.
Proof.
  intros Hz. destruct moved_bounds as [Hbi Hbj]. pose proof (cap_range m k Hk) as Hc.
  unfold moved. cbn [slots_]. rewrite slot_at_insert.
  2: { unfold cap. rewrite length_insert. done. }
  replace (cap (<[N.to_nat i := _]> (slots_ m))) with (cap (slots_ m))
    by (unfold cap; by rewrite length_insert).
  rewrite slot_at_insert by done. rewrite Hi, Hj.
  rewrite slot_at_mod.
  destruct (decide (z = J)) as [->|HzJ]; [by rewrite decide_True|].
  rewrite decide_False by (intros Hm; apply HzJ; eapply mod_window; [|exact Hm|]; lia).
  destruct (decide (z = I \/ z = I + cap (slots_ m))) as [[->| ->]|Hn].
  - by rewrite decide_True.
  - rewrite decide_True; [done|]. replace (I + cap (slots_ m)) with (I + 1 * cap (slots_ m)) by lia.
    apply Z.mod_add. lia.
  - rewrite decide_False; [done|]. intros Hm.
    destruct (Z.lt_ge_cases z (I + cap (slots_ m))) as [Hlt|Hge].
    + destruct (Z.lt_ge_cases (I - cap (slots_ m)) z) as [Hlt'|Hge'].
      * apply Hn. left. eapply mod_window; [|exact Hm|]; lia.
      * lia.
    + apply Hn. right. eapply (mod_window _ _ (cap (slots_ m))); [lia| |lia].
      rewrite Hm. symmetry. replace (I + cap (slots_ m)) with (I + 1 * cap (slots_ m)) by lia.
      apply Z.mod_add. lia.
Qed.

Lemma moved_dist z : key_at (slots_ (moved m i j)) z = key_at (slots_ m) z ->
  dist (moved m i j) z = dist m z.
Proof. intros Hz. unfold dist. by rewrite moved_cap, Hz. Qed.

Lemma moved_entries : key_at (slots_ m) I = kInvalidOrderId -> key_at (slots_ m) J <> kInvalidOrderId ->
  entries (slots_ (moved m i j)) ≡ₚ entries (slots_ m).
Proof.
  intros HI HJ. destruct moved_bounds as [Hbi Hbj]. pose proof (cap_range m k Hk) as Hc.
  unfold moved. cbn [slots_]. set (l1 := <[N.to_nat i := _]> (slots_ m)).
  assert (Hsj : slot_at (slots_ m) (Z.of_N j) = slot_at (slots_ m) J) by (by rewrite Hj, slot_at_mod).
  assert (Hl1 : entries l1 ≡ₚ (key_at (slots_ m) J, s_value (slot_at (slots_ m) J)) :: entries (slots_ m)).
  { unfold l1. rewrite Hsj. apply entries_insert_empty; [done| |done].
    unfold key_at. by rewrite Hi, slot_at_mod. }
  assert (Hneq : i <> j).
  { intros ->. assert (I = J); [|lia]. apply (mod_window _ _ (cap (slots_ m))); lia. }
  assert (Hl1j : slot_at l1 (Z.of_N j) = slot_at (slots_ m) J).
  { unfold l1. rewrite slot_at_insert by done. rewrite decide_False; [done|].
    rewrite Z.mod_small by lia. lia. }
  assert (Hcap1 : cap l1 = cap (slots_ m)) by (unfold l1, cap; by rewrite length_insert).
  pose proof (entries_insert_hole l1 j ltac:(by rewrite Hcap1)) as Hh. unfold key_at in Hh.
  rewrite Hl1j in Hh. specialize (Hh HJ). rewrite Hl1 in Hh. symmetry in Hh.
  by apply Permutation_cons_inv in Hh.
Qed.
End move.

(** The moved entry is as much closer to its home as it has moved. *)
Lemma moved_home_dist m k I J i j : table_shape m k -> I <= J + 1 -> J + 1 - I <= dist m (J + 1) ->
  key_at (slots_ (moved m i j)) (I + cap (slots_ m)) = key_at (slots_ m) (J + 1) ->
  dist (moved m i j) (I + cap (slots_ m)) = dist m (J + 1) - (J + 1 - I).
Proof.
  intros Hk HIJ Hd Hkey. pose proof (cap_range m k Hk) as Hc. pose proof (dist_range m k (J + 1) Hk) as HdJ.
  unfold dist at 1. rewrite moved_cap, Hkey, (home_shape m) by done.
  set (h := home m _). assert (HJd : dist m (J + 1) = (J + 1 - h) mod cap (slots_ m)) by done.
  pose proof (Z.div_mod (J + 1 - h) (cap (slots_ m)) ltac:(lia)) as Hdm. rewrite <- HJd in Hdm.
  symmetry. apply (Z.mod_unique _ _ ((J + 1 - h) / cap (slots_ m) + 1)); lia.
Qed.

(** Every entry's way from its home stays full, the new hole apart. *)
Lemma hole_move_path m k I J E i j :
  table_shape m k -> hole_inv m I J E -> key_at (slots_ m) (J + 1) <> kInvalidOrderId ->
  J + 1 - I <= dist m (J + 1) ->
  Z.of_N i = I mod cap (slots_ m) -> Z.of_N j = (J + 1) mod cap (slots_ m) ->
  forall z d, J + 1 < z < J + 1 + cap (slots_ m) -> key_at (slots_ (moved m i j)) z <> kInvalidOrderId ->
    0 <= d <= dist (moved m i j) z -> key_at (slots_ (moved m i j)) (z - d) <> kInvalidOrderId \/ z - d = J + 1.
Proof.
  intros Hk [_ Hw He Hs Hb Hf] HJ Hd Hi Hj. pose proof (cap_range m k Hk) as Hc.
  assert (HE : J + 1 <> E) by (intros Heq; rewrite Heq in HJ; done).
  assert (HIJ : I < J + 1 < I + cap (slots_ m)) by lia.
  pose proof (moved_at m k I (J + 1) i j Hk HIJ Hi Hj) as Hat.
  assert (Hsame : forall z, I < z < I + cap (slots_ m) -> z <> J + 1 ->
    key_at (slots_ (moved m i j)) z = key_at (slots_ m) z).
  { intros z Hz Hne. unfold key_at. rewrite Hat by lia. rewrite !decide_False by lia. done. }
  intros z d Hz Hkz Hdz.
  pose proof (dist_range m k (J + 1) Hk) as HdJ.
  destruct (Z.lt_trichotomy z (I + cap (slots_ m))) as [Hlt|[->|Hgt]].
  - rewrite Hsame in Hkz by lia. rewrite moved_dist in Hdz by (apply Hsame; lia).
    pose proof (dist_range m k z Hk).
    destruct (decide (z - d = J + 1)) as [|Hnj]; [by right|left].
    unfold key_at. rewrite Hat by lia. rewrite decide_False by lia. case_decide; [done|].
    destruct (Hf z d ltac:(lia) Hkz Hdz); [done|tauto].
  - left. assert (Hkey : key_at (slots_ (moved m i j)) (I + cap (slots_ m)) = key_at (slots_ m) (J + 1)).
    { unfold key_at. rewrite Hat by lia. rewrite decide_False by lia. rewrite decide_True by lia. done. }
    pose proof (moved_home_dist m k I J i j Hk ltac:(lia) Hd Hkey) as Hdist.
    rewrite Hdist in Hdz. unfold key_at. rewrite Hat by lia.
    destruct (decide (d = 0)) as [->|Hd0].
    { rewrite decide_False by lia. rewrite decide_True by lia. done. }
    rewrite !decide_False by lia.
    destruct (Hf (J + 1) (d + (J + 1 - I)) ltac:(lia) HJ ltac:(lia)) as [Hx|Hx]; [|lia].
    intros Hy. apply Hx. rewrite <- Hy. unfold key_at. f_equal. apply slot_at_eqm.
    replace (I + cap (slots_ m) - d) with (J + 1 - (d + (J + 1 - I)) + 1 * cap (slots_ m)) by lia.
    symmetry. apply Z.mod_add. lia.
  - left. set (y := z - cap (slots_ m)). assert (Hy : z mod cap (slots_ m) = y mod cap (slots_ m)).
    { unfold y. replace z with (z - cap (slots_ m) + 1 * cap (slots_ m)) at 1 by lia. apply Z.mod_add. lia. }
    assert (Hyr : I < y <= J) by (unfold y; lia). destruct (Hb y Hyr) as [Hyk Hyd].
    assert (Heq : key_at (slots_ (moved m i j)) z = key_at (slots_ m) y).
    { unfold key_at. rewrite Hat by lia. rewrite !decide_False by lia. f_equal. by apply slot_at_eqm. }
    assert (Hdist : dist (moved m i j) z = dist m y).
    { rewrite moved_dist; [by apply dist_eqm|]. rewrite Heq. unfold key_at. f_equal. symmetry. by apply slot_at_eqm. }
    rewrite Hdist in Hdz. destruct (Hb (y - d) ltac:(lia)) as [Hyk' _].
    unfold key_at. rewrite Hat by lia. rewrite !decide_False by lia.
    intros Hz0. apply Hyk'. rewrite <- Hz0. unfold key_at. f_equal. apply slot_at_eqm.
    by rewrite <- Zminus_mod_idemp_l, <- Hy, Zminus_mod_idemp_l.
Qed.

Lemma hole_move m I J E i j :
  hole_inv m I J E -> key_at (slots_ m) (J + 1) <> kInvalidOrderId ->
  J + 1 - I <= dist m (J + 1) ->
  Z.of_N i = I mod cap (slots_ m) -> Z.of_N j = (J + 1) mod cap (slots_ m) ->
  hole_inv (moved m i j) (J + 1) (J + 1) E.
Proof.
  intros [[k Hk] Hw He Hs Hb Hf] HJ Hd Hi Hj. pose proof (cap_range m k Hk) as Hc.
  assert (HE : J + 1 <> E) by (intros Heq; rewrite Heq in HJ; done).
  assert (HIJ : I < J + 1 < I + cap (slots_ m)) by lia.
  pose proof (moved_at m k I (J + 1) i j Hk HIJ Hi Hj) as Hat.
  assert (Hsame : forall z, I < z < I + cap (slots_ m) -> z <> J + 1 ->
    key_at (slots_ (moved m i j)) z = key_at (slots_ m) z).
  { intros z Hz Hne. unfold key_at. rewrite Hat by lia. rewrite !decide_False by lia. done. }
  split.
  - exists k. destruct Hk as [H1 H2 H3]. split; [done| |done]. simpl. by rewrite !length_insert.
  - rewrite moved_cap. lia.
  - unfold key_at. rewrite Hat by lia. by rewrite decide_True.
  - rewrite Hsame by lia. done.
  - intros z Hz. lia.
  - rewrite moved_cap. eapply hole_move_path; try done. by split; [exists k|..].
Qed.

Lemma shift_back_spec fuel m I J E i j :
  hole_inv m I J E -> E - J <= Z.of_nat fuel ->
  Z.of_N i = I mod cap (slots_ m) -> Z.of_N j = J mod cap (slots_ m) ->
  exists m', shift_back fuel m i j = Some m' /\ paths_ok m' /\
    entries (slots_ m') ≡ₚ entries (slots_ m) /\ length (slots_ m') = length (slots_ m) /\
    size_ m' = size_ m /\ shift_ m' = shift_ m.
Proof.
  revert m I J i j. induction fuel as [|fuel IH]; intros m I J i j Hinv Hfuel Hi Hj.
  { destruct Hinv as [_ Hw _ _ _ _]. lia. }
  pose proof Hinv as [[k Hk] Hw He _ _ _]. pose proof (cap_range m k Hk) as Hc.
  cbn [shift_back]. set (j' := N.land (j + 1) (mask m)).
  assert (Hj' : Z.of_N j' = (J + 1) mod cap (slots_ m)).
  { unfold j'. rewrite (next_idx m k Hk), Hj, Zplus_mod_idemp_l. done. }
  pose proof (Z.mod_pos_bound (J + 1) (cap (slots_ m)) ltac:(lia)) as Hjb.
  pose proof (Z.mod_pos_bound I (cap (slots_ m)) ltac:(lia)) as Hib.
  rewrite vget_slot_at by lia. simpl.
  assert (Hsj : slot_at (slots_ m) (Z.of_N j') = slot_at (slots_ m) (J + 1)) by (by rewrite Hj', slot_at_mod).
  rewrite Hsj. destruct (N.eqb_spec (s_key (slot_at (slots_ m) (J + 1))) kInvalidOrderId) as [Hz|Hz].
  { exists m. split_and!; try done. eapply hole_done; [exact Hinv|done]. }
  assert (HE : J + 1 <> E).
  { intros Heq. apply Hz. change (key_at (slots_ m) (J + 1) = kInvalidOrderId). rewrite Heq. apply Hinv. }
  rewrite (r_between_spec (cap (slots_ m)) I (J + 1)); [|lia|done|done|apply (home_range m k Hk)|lia].
  change (Z.of_N (slot_for m (s_key (slot_at (slots_ m) (J + 1))))) with (home m (key_at (slots_ m) (J + 1))).
  change ((J + 1 - home m (key_at (slots_ m) (J + 1))) mod cap (slots_ m)) with (dist m (J + 1)).
  case_bool_decide as Hd.
  - apply (IH m I (J + 1)); [|lia|done|done]. by apply hole_skip.
  - rewrite vset_ok by (unfold vsize, cap in *; lia). simpl.
    rewrite vset_ok by (rewrite vsize_insert; unfold vsize, cap in *; lia). simpl.
    rewrite <- Hsj. fold (moved m i j').
    pose proof (hole_move m I J E i j' Hinv Hz ltac:(lia) Hi Hj') as Hinv'.
    destruct (IH _ _ _ j' j' Hinv') as (m' & Hm' & Hp & Hent & Hlen & Hsz & Hsh);
      [lia|by rewrite moved_cap|by rewrite moved_cap|].
    exists m'. split_and!; [done|done| | |done|done].
    + rewrite Hent. eapply (moved_entries m k I (J + 1)); [done|lia|done|done|done|done].
    + rewrite Hlen. simpl. by rewrite !length_insert.
Qed.
End backward_shift.

(** * The interface: the table as a finite map *)

Definition idm_model (m : IdIndexMap) : gmap N N := list_to_map (entries (slots_ m)).

Lemma model_lookup m k v : table_ok m -> idm_model m !! k = Some v <-> (k, v) ∈ entries (slots_ m).
Proof. intros Hok. symmetry. apply elem_of_list_to_map, Hok. Qed.

Lemma model_lookup_None m k : idm_model m !! k = None <-> k ∉ (entries (slots_ m)).*1.
Proof. symmetry. apply not_elem_of_list_to_map. Qed.

Lemma model_size m : table_ok m -> N.of_nat (base.size (idm_model m)) = size_ m.
Proof. intros Hok. unfold idm_model. rewrite map_size_list_to_map by apply Hok. symmetry. apply Hok. Qed.

Lemma model_perm m l :
  table_ok m -> entries (slots_ m) ≡ₚ l -> idm_model m = list_to_map l.
Proof. intros Hok Hp. apply list_to_map_proper; [apply Hok|done]. Qed.

Lemma slot_entry m (j : N) :
  (Z.of_N j < cap (slots_ m))%Z -> key_at (slots_ m) (Z.of_N j) <> kInvalidOrderId ->
  (key_at (slots_ m) (Z.of_N j), s_value (slot_at (slots_ m) (Z.of_N j))) ∈ entries (slots_ m).
Proof.
  intros Hj Hk. apply elem_of_entries. exists (Z.of_N j). split_and!; [lia|done| |done].
  unfold key_at. by destruct (slot_at _ _).
Qed.

Lemma find_model m key : table_ok m -> find m key = Some (idm_model m !! key).
Proof.
  intros Hok. unfold find. destruct (probe_decides m Hok key) as (j & -> & Hj & Hc). simpl.
  rewrite vget_slot_at by done. simpl.
  change (s_key (slot_at (slots_ m) (Z.of_N j))) with (key_at (slots_ m) (Z.of_N j)).
  destruct Hc as [[Hk Hk0]|(Hk & Hfresh & _)]; rewrite Hk.
  - rewrite (proj2 (N.eqb_neq _ _) Hk0). f_equal. symmetry. apply model_lookup; [done|].
    rewrite <- Hk at 1. apply slot_entry; [done|by rewrite Hk].
  - rewrite N.eqb_refl. f_equal. symmetry. by apply model_lookup_None.
Qed.

Lemma contains_model m key : table_ok m -> contains m key = Some (bool_decide (is_Some (idm_model m !! key))).
Proof. intros Hok. unfold contains. by rewrite find_model. Qed.

Lemma needs_no_growth m :
  table_ok m -> (2 * (Z.of_nat (length (entries (slots_ m))) + 1) <= cap (slots_ m))%Z ->
  (vsize (slots_ m) <? wrap64 ((size_ m + 1) * 2))%N = false.
Proof.
  intros [[k Hk] Hs _ _ _] H. pose proof (cap_range m k Hk).
  rewrite wrap64_small by (rewrite Hs; unfold two64; lia).
  apply N.ltb_ge. rewrite Hs. unfold vsize, cap in *. lia.
Qed.

(** [insert] when the table has room. *)
Lemma insert_rec_room depth m key v :
  table_ok m -> key <> kInvalidOrderId ->
  (2 * (Z.of_nat (length (entries (slots_ m))) + 1) <= cap (slots_ m))%Z ->
  exists m', insert_rec (S depth) m key v = Some (bool_decide (idm_model m !! key = None), m') /\
    table_ok m' /\ cap (slots_ m') = cap (slots_ m) /\
    if bool_decide (idm_model m !! key = None) then entries (slots_ m') ≡ₚ (key, v) :: entries (slots_ m)
    else m' = m.
Proof.
  intros Hok Hk0 Hroom. cbn [insert_rec]. rewrite (proj2 (N.eqb_neq _ _) Hk0). simpl.
  pose proof Hok as [[k Hk] Hsz _ _ _]. pose proof (cap_range m k Hk) as Hc.
  rewrite needs_no_growth by done. simpl.
  destruct (probe_decides m Hok key) as (j & -> & Hj & Hcase). simpl.
  rewrite vget_slot_at by done. simpl.
  change (s_key (slot_at (slots_ m) (Z.of_N j))) with (key_at (slots_ m) (Z.of_N j)).
  destruct Hcase as [[Hkj _]|(Hkj & Hfresh & n & Hn & Hjm & Hfull)]; rewrite Hkj.
  - rewrite (proj2 (N.eqb_neq _ _) Hk0). rewrite bool_decide_eq_false_2.
    2: { rewrite (proj2 (model_lookup m key (s_value (slot_at (slots_ m) (Z.of_N j))) Hok)); [done|].
         rewrite <- Hkj at 1. apply slot_entry; [done|by rewrite Hkj]. }
    exists m. done.
  - rewrite N.eqb_refl. rewrite bool_decide_eq_true_2 by (by apply model_lookup_None).
    rewrite vset_ok by (unfold vsize, cap in *; lia). simpl.
    destruct (fill_slot_ok m Hok key v j n Hk0 Hfresh Hj Hkj Hn Hjm Hfull Hroom) as (Hok' & Hp & Hcap).
    eexists. split_and!; [done|done|done|done].
Qed.

Lemma countr_zero_pow2 k : countr_zero (2 ^ k) = k.
Proof.
  induction k as [|k IH] using N.peano_ind; [done|]. rewrite N.pow_succ_r'.
  assert (H : (2 ^ k)%N <> 0%N) by (apply N.pow_nonzero; done).
  destruct (2 ^ k)%N as [|p]; [done|]. change (N.succ (pos_ctz p) = N.succ k). f_equal. exact IH.
Qed.

Lemma allocate_ok k :
  (4 <= k <= 63)%N ->
  table_ok (allocate (2 ^ k) 0) /\ entries (slots_ (allocate (2 ^ k) 0)) = [] /\
  cap (slots_ (allocate (2 ^ k) 0)) = (2 ^ Z.of_N k)%Z.
Proof.
  intros Hk. assert (Hent : entries (slots_ (allocate (2 ^ k) 0)) = []).
  { unfold entries, allocate. simpl. induction (N.to_nat (2 ^ k)) as [|n IH]; [done|].
    simpl. rewrite filter_cons, decide_False by naive_solver. done. }
  assert (Hcap : cap (slots_ (allocate (2 ^ k) 0)) = (2 ^ Z.of_N k)%Z).
  { unfold cap, allocate. simpl. rewrite length_replicate, N_nat_Z, N2Z.inj_pow. done. }
  split_and!; [|done|done]. split; rewrite ?Hent.
  - exists k. split; [done|done|]. unfold allocate. simpl. rewrite countr_zero_pow2. done.
  - done.
  - rewrite Hcap. cbn [length]. pose proof (Z.pow_nonneg 2 (Z.of_N k)). lia.
  - apply NoDup_nil_2.
  - intros z Hz. exfalso. apply Hz. unfold key_at, slot_at, allocate. simpl.
    destruct (replicate _ _ !! _) as [s|] eqn:Hs; [|done]. apply lookup_replicate in Hs as [-> _]. done.
Qed.

(** [grow] rehashes every entry without growing again. *)
Lemma rehash_spec depth old m :
  table_ok m -> NoDup (entries old).*1 -> (forall x, x ∈ (entries old).*1 -> x ∉ (entries (slots_ m)).*1) ->
  (2 * (Z.of_nat (length (entries (slots_ m)) + length (entries old))) <= cap (slots_ m))%Z ->
  exists m', rehash (insert_rec (S depth)) old m = Some m' /\ table_ok m' /\
    cap (slots_ m') = cap (slots_ m) /\ entries (slots_ m') ≡ₚ entries old ++ entries (slots_ m).
Proof.
  pose proof (insert_rec_room depth) as Hins. generalize dependent (insert_rec (S depth)).
  intros ins Hins. revert m. induction old as [|s old IH]; intros m Hok Hnd Hdis Hroom; simpl; [eauto|].
  rewrite entries_cons in *. destruct (N.eqb_spec (s_key s) kInvalidOrderId) as [Hz|Hz].
  - rewrite decide_False in * by naive_solver. cbn [mbind option_bind]. by apply IH.
  - rewrite decide_True in * by done. rewrite fmap_cons in *. cbn [length fst] in *.
    apply NoDup_cons in Hnd as [Hni Hnd].
    destruct (Hins m (s_key s) (s_value s) Hok Hz ltac:(lia)) as (m1 & Hm1 & Hok1 & Hcap1 & Hp).
    rewrite Hm1. simpl. rewrite bool_decide_eq_true_2 in Hp by (apply model_lookup_None, Hdis; left).
    destruct (IH m1 Hok1 Hnd) as (m' & Hm' & Hok' & Hcap' & Hp').
    + intros x Hx. rewrite Hp. simpl. apply not_elem_of_cons. split; [naive_solver|]. apply Hdis. right. done.
    + rewrite Hp, Hcap1. simpl. lia.
    + exists m'. split_and!; [done|done|lia|]. rewrite Hp', Hp. by rewrite Permutation_middle.
Qed.

Lemma grow_spec depth m :
  table_ok m -> (cap (slots_ m) < 2 ^ 62)%Z ->
  exists m', grow (insert_rec (S depth)) m = Some m' /\ table_ok m' /\
    cap (slots_ m') = (2 * cap (slots_ m))%Z /\ entries (slots_ m') ≡ₚ entries (slots_ m).
Proof.
  intros Hok Hsmall. pose proof Hok as [[k Hk] _ Hl Hnd _]. unfold grow.
  pose proof (cap_range m k Hk) as Hc. pose proof (cap_pow2 m k Hk) as Hp2.
  assert (Hk62 : (Z.of_N k < 62)%Z) by (rewrite Hp2 in Hsmall; by apply Z.pow_lt_mono_r_iff in Hsmall).
  assert (Hcap2 : wrap64 (vsize (slots_ m) * 2) = (2 ^ (k + 1))%N).
  { rewrite wrap64_small by (unfold vsize, two64, cap in *; lia). apply N2Z.inj.
    rewrite N2Z.inj_pow, N2Z.inj_add, Z.pow_add_r by lia. unfold vsize, cap in *. lia. }
  rewrite Hcap2. pose proof (shape_k _ _ Hk) as Hkr.
  destruct (allocate_ok (k + 1) ltac:(lia)) as (Hok0 & He0 & Hc0).
  assert (Hcap0 : cap (slots_ (allocate (2 ^ (k + 1)) 0)) = (2 * cap (slots_ m))%Z).
  { rewrite Hc0, N2Z.inj_add, Z.pow_add_r by lia. lia. }
  destruct (rehash_spec depth (slots_ m) _ Hok0 Hnd) as (m' & Hm' & Hok' & Hcap' & Hent).
  - rewrite He0. intros x _. simpl. apply not_elem_of_nil.
  - rewrite He0, Hcap0. simpl. lia.
  - exists m'. split_and!; [done|done|lia|]. rewrite Hent, He0, app_nil_r. done.
Qed.

(** The largest number of entries for which the operations are specified; a
    book holds fewer orders than it has pool handles (2^32 - 1). *)
Definition max_entries : N := 2 ^ 40.

Lemma insert_rec_grow depth m key v m1 :
  table_ok m -> table_ok m1 ->
  (cap (slots_ m) < 2 * (Z.of_nat (length (entries (slots_ m))) + 1))%Z ->
  (2 * (Z.of_nat (length (entries (slots_ m1))) + 1) <= cap (slots_ m1))%Z ->
  grow (insert_rec depth) m = Some m1 ->
  insert_rec (S depth) m key v = insert_rec (S depth) m1 key v.
Proof.
  intros Hok Hok1 Hfull Hroom Hg. cbn [insert_rec]. rewrite Hg, (needs_no_growth m1) by done.
  pose proof Hok as [[k Hk] Hs Hl _ _]. pose proof (cap_range m k Hk).
  rewrite (wrap64_small ((size_ m + 1) * 2)) by (rewrite Hs; unfold two64; lia).
  rewrite (proj2 (N.ltb_lt _ _)) by (rewrite Hs; unfold vsize, cap in *; lia). done.
Qed.

Lemma insert_model m key v :
  table_ok m -> key <> kInvalidOrderId -> (size_ m < max_entries)%N ->
  exists m', insert m key v = Some (bool_decide (idm_model m !! key = None), m') /\ table_ok m' /\
    idm_model m' = if bool_decide (idm_model m !! key = None) then <[key := v]> (idm_model m) else idm_model m.
Proof.
  intros Hok Hk0 Hsz. assert (Hfin : forall m1 m', table_ok m1 -> table_ok m' ->
      entries (slots_ m1) ≡ₚ entries (slots_ m) ->
      (if bool_decide (idm_model m1 !! key = None) then entries (slots_ m') ≡ₚ (key, v) :: entries (slots_ m1)
       else m' = m1) ->
      idm_model m1 = idm_model m /\
      idm_model m' = if bool_decide (idm_model m !! key = None) then <[key := v]> (idm_model m) else idm_model m).
  { intros m1 m' Hok1 Hok' Hp Hd. pose proof (model_perm m1 _ Hok1 Hp) as Hm1. fold (idm_model m) in Hm1.
    rewrite Hm1 in Hd. split; [done|]. case_bool_decide; [|by subst].
    rewrite (model_perm m' _ Hok' Hd). simpl. by rewrite <- Hm1. }
  pose proof Hok as [[k Hk] Hs Hl _ _]. pose proof (cap_range m k Hk) as Hc. unfold max_entries in Hsz.
  destruct (Z.le_gt_cases (2 * (Z.of_nat (length (entries (slots_ m))) + 1)) (cap (slots_ m))) as [Hroom|Hfull].
  - destruct (insert_rec_room 1 m key v Hok Hk0 Hroom) as (m' & Hm' & Hok' & _ & Hd).
    exists m'. destruct (Hfin m m' Hok Hok' ltac:(done) Hd) as [_ Hmod]. done.
  - destruct (grow_spec 0 m Hok ltac:(lia)) as (m1 & Hm1 & Hok1 & Hcap1 & Hp1).
    assert (Hroom : (2 * (Z.of_nat (length (entries (slots_ m1))) + 1) <= cap (slots_ m1))%Z)
      by (rewrite Hp1; lia).
    unfold insert. rewrite (insert_rec_grow 1 m key v m1) by (done || lia).
    destruct (insert_rec_room 1 m1 key v Hok1 Hk0 Hroom) as (m' & Hm' & Hok' & _ & Hd).
    destruct (Hfin m1 m' Hok1 Hok' Hp1 Hd) as [Heq Hmod]. rewrite Heq in Hm'. exists m'. done.
Qed.

(** The hole that an erased entry leaves: the shift may start from it. *)
Lemma hole_start m k i size E : table_ok m -> table_shape m k -> (Z.of_N i < cap (slots_ m))%Z ->
  (Z.of_N i < E < Z.of_N i + cap (slots_ m))%Z -> key_at (slots_ m) E = kInvalidOrderId ->
  let m0 := mkIdm (<[N.to_nat i := empty_slot]> (slots_ m)) size (shift_ m) in
  table_shape m0 k /\ hole_inv m0 (Z.of_N i) (Z.of_N i) E.
Proof.
  intros Hok Hsh Hi HE HkE. pose proof Hok as [_ _ _ _ Hpath]. pose proof (cap_range m k Hsh) as Hc.
  set (ss := <[N.to_nat i := empty_slot]> (slots_ m)). intros m0.
  assert (Hcap : cap (slots_ m0) = cap (slots_ m)) by (unfold cap; simpl; unfold ss; by rewrite length_insert).
  assert (Hsh0 : table_shape m0 k).
  { destruct Hsh as [H1 H2 H3]. split; [done| |done]. simpl. unfold ss. by rewrite length_insert. }
  assert (Hat : forall z, (Z.of_N i - cap (slots_ m) < z < Z.of_N i + cap (slots_ m))%Z ->
    key_at ss z = if decide (z = Z.of_N i) then kInvalidOrderId else key_at (slots_ m) z).
  { intros z Hz. unfold key_at, ss. rewrite slot_at_insert by done.
    destruct (decide (z = Z.of_N i)) as [->|Hne].
    - rewrite Z.mod_small by lia. by rewrite decide_True.
    - rewrite decide_False; [done|]. intros Hm. apply Hne. apply (mod_window _ _ (cap (slots_ m))); [lia| |lia].
      rewrite Hm, Z.mod_small; lia. }
  split; [done|].
  split; rewrite ?Hcap; simpl.
  - eauto.
  - lia.
  - rewrite Hat by lia. by rewrite decide_True.
  - rewrite Hat by lia. rewrite decide_False by lia. done.
  - intros z Hz. lia.
  - intros z d Hz Hkz Hd. rewrite Hat, decide_False in Hkz by lia.
    assert (Hdist : dist m0 z = dist m z).
    { unfold dist. rewrite Hcap, (home_shape m) by done. simpl. rewrite Hat by lia. by rewrite decide_False by lia. }
    rewrite Hdist in Hd. pose proof (dist_range m k z Hsh).
    destruct (decide ((z - d)%Z = Z.of_N i)) as [->|Hne]; [by right|left].
    rewrite Hat by lia. rewrite decide_False by done. by apply (Hpath z).
Qed.

Lemma erase_model m key :
  table_ok m ->
  exists m', erase m key = Some (bool_decide (is_Some (idm_model m !! key)), m') /\ table_ok m' /\
    idm_model m' = delete key (idm_model m).
Proof.
  intros Hok. unfold erase. destruct (probe_decides m Hok key) as (i & -> & Hi & Hcase). simpl.
  rewrite vget_slot_at by done. simpl.
  change (s_key (slot_at (slots_ m) (Z.of_N i))) with (key_at (slots_ m) (Z.of_N i)).
  destruct Hcase as [[Hk Hk0]|(Hk & Hfresh & _)]; rewrite Hk; cycle 1.
  { rewrite N.eqb_refl. apply model_lookup_None in Hfresh. exists m.
    rewrite Hfresh, bool_decide_eq_false_2 by (by intros [? ?]). by rewrite delete_id. }
  rewrite (proj2 (N.eqb_neq _ _) Hk0). pose proof Hok as [[k Hsh] Hsz Hl Hnd Hpath].
  pose proof (cap_range m k Hsh) as Hc. rewrite vset_ok by (unfold vsize, cap in *; lia). simpl.
  pose proof (slot_entry m i Hi ltac:(by rewrite Hk)) as Hin. rewrite Hk in Hin.
  pose proof (entries_insert_hole (slots_ m) i Hi ltac:(by rewrite Hk)) as Hp. rewrite Hk in Hp.
  set (ss := <[N.to_nat i := empty_slot]> (slots_ m)) in *.
  set (m0 := mkIdm ss (dec64 (size_ m)) (shift_ m)).
  assert (Hcap : cap (slots_ m0) = cap (slots_ m)) by (unfold cap; simpl; unfold ss; by rewrite length_insert).
  destruct (empty_slot_in_window (slots_ m) (Z.of_N i) (table_room m Hok)) as (E & HE & HkE).
  assert (HEi : E <> Z.of_N i) by (intros ->; congruence).
  destruct (hole_start m k i (dec64 (size_ m)) E Hok Hsh Hi) as [Hsh0 Hinv]; [lia|done|]. fold ss m0 in Hsh0, Hinv.
  destruct (shift_back_spec (length (slots_ m)) m0 _ _ E i i Hinv) as (m' & Hm' & Hp' & Hent & Hlen & Hs' & Hsh');
    [unfold cap in *; lia|rewrite Hcap, Z.mod_small; lia|rewrite Hcap, Z.mod_small; lia|].
  rewrite Hm'. simpl. exists m'.
  assert (Hent' : entries (slots_ m) ≡ₚ (key, s_value (slot_at (slots_ m) (Z.of_N i))) :: entries (slots_ m'))
    by (by rewrite Hent).
  assert (Hnd' : NoDup (entries (slots_ m')).*1 /\ key ∉ (entries (slots_ m')).*1).
  { rewrite Hent' in Hnd. simpl in Hnd. apply NoDup_cons in Hnd. tauto. }
  assert (Hlen' : length (entries (slots_ m)) = S (length (entries (slots_ m')))) by (by rewrite Hent').
  split_and!.
  - rewrite bool_decide_eq_true_2; [done|]. eexists. by apply model_lookup.
  - split; [| | |tauto|done].
    + exists k. destruct Hsh0 as [H1 H2 H3]. split; [done| |by rewrite Hsh']. by rewrite Hlen.
    + rewrite Hs'. simpl. rewrite dec64_pos by (rewrite Hsz; unfold two64; lia). rewrite Hsz. lia.
    + unfold cap in *. rewrite Hlen, Hcap. lia.
  - rewrite (model_perm m _ Hok Hent'). simpl. rewrite delete_insert_id; [done|].
    apply not_elem_of_list_to_map. tauto.
Qed.

Lemma clear_model m : table_ok m -> table_ok (clear m) /\ idm_model (clear m) = ∅.
Proof.
  intros [[k Hk] _ _ _ _]. pose proof Hk as [Hk1 Hk2 Hk3].
  destruct (allocate_ok k Hk1) as (Hok & He & _).
  assert (Heq : clear m = allocate (2 ^ k) 0).
  { unfold clear, allocate. f_equal; [f_equal|].
    - apply Nat2Z.inj. rewrite Hk2, N_nat_Z, N2Z.inj_pow. done.
    - rewrite countr_zero_pow2. done. }
  rewrite Heq. split; [done|]. unfold idm_model. by rewrite He.
Qed.

(** The constructor's loop ends with a power of two, at least twice the
    hint. *)
Lemma capacity_loop_spec fuel k hint2 :
  (4 <= k)%N -> (63 < k + N.of_nat fuel)%N -> (k <= 63)%N -> (hint2 <= 2 ^ 63)%N ->
  exists k', capacity_loop fuel (2 ^ k) hint2 = Some (2 ^ k')%N /\ (4 <= k' <= 63)%N /\ (hint2 <= 2 ^ k')%N.
Proof.
  revert k. induction fuel as [|fuel IH]; intros k Hk Hf Hk63 Hh; [lia|]. simpl.
  destruct (N.ltb_spec (2 ^ k) hint2) as [Hlt|Hge]; [|exists k; split_and!; [done|lia|lia|done]].
  assert (Hk' : (k < 63)%N) by (apply (N.pow_lt_mono_r_iff 2); lia).
  assert (Heq : (2 ^ k * 2)%N = (2 ^ (k + 1))%N) by (rewrite N.pow_add_r; done).
  rewrite Heq, wrap64_small.
  - apply IH; lia.
  - change two64 with (2 ^ 64)%N. apply N.pow_lt_mono_r; lia.
Qed.

Lemma new_IdIndexMap_ok hint :
  (hint <= 2 ^ 62)%N ->
  exists m, new_IdIndexMap hint = Some m /\ table_ok m /\ idm_model m = ∅ /\ (hint * 2 <= capacity m)%N.
Proof.
  intros Hh. unfold new_IdIndexMap. rewrite wrap64_small by (unfold two64; lia).
  destruct (capacity_loop_spec 64 4 (hint * 2)) as (k & Hc & Hk & Hge); [lia|lia|lia|lia|].
  change kMinCapacity with (2 ^ 4)%N. rewrite Hc. simpl.
  destruct (allocate_ok k Hk) as (Hok & He & Hcap).
  exists (allocate (2 ^ k) 0). split_and!; [done|done|by unfold idm_model; rewrite He|].
  unfold capacity, cap, vsize in *. lia.
Qed.
