(* ===== verification/Bitset.v ===== *)
(** include/lightninglob/bitset_utils.hpp: the dynamic bitset behind the price
    ladder, with its word-at-a-time scans.  Words are 64-bit values in [N];
    every operation is related to membership, [bs_mem]. *)

From S2P Require Import Prelude.

Definition kBitsPerWord : N := 64.

Record Bitset := mkBitset {
  num_bits_ : N;
  words_ : list N
}.

(** 64-bit word operations: [~w] and [w << k] with [k < 64]. *)
Definition ones64 : N := 18446744073709551615.
Definition not64 (w : N) : N := N.lxor w ones64.
Definition shl64 (w k : N) : N := wrap64 (N.shiftl w k).

(** [std::popcount] and [std::countl_zero]. *)
Fixpoint popcount_pos (p : positive) : N :=
  match p with xH => 1 | xO p' => popcount_pos p' | xI p' => popcount_pos p' + 1 end.
Definition popcount (w : N) : N := match w with N0 => 0 | Npos p => popcount_pos p end.

Definition countl_zero64 (w : N) : N := match w with N0 => 64 | _ => 63 - N.log2 w end.

Definition new_bitset (num_bits : N) : Bitset :=
  mkBitset num_bits (replicate (N.to_nat (wrap64 (num_bits + kBitsPerWord - 1) / kBitsPerWord)) 0%N).

Definition bs_size (b : Bitset) : N := num_bits_ b.

Definition bs_set (b : Bitset) (index : N) : option Bitset :=
  _ ← assert_ (index <? num_bits_ b)%N;
  w ← vget (words_ b) (index / kBitsPerWord);
  ws ← vset (words_ b) (index / kBitsPerWord) (N.lor w (shl64 1 (index mod kBitsPerWord)));
  Some (mkBitset (num_bits_ b) ws).

Definition bs_clear (b : Bitset) (index : N) : option Bitset :=
  _ ← assert_ (index <? num_bits_ b)%N;
  w ← vget (words_ b) (index / kBitsPerWord);
  ws ← vset (words_ b) (index / kBitsPerWord) (N.land w (not64 (shl64 1 (index mod kBitsPerWord))));
  Some (mkBitset (num_bits_ b) ws).

Definition bs_test (b : Bitset) (index : N) : option bool :=
  _ ← assert_ (index <? num_bits_ b)%N;
  w ← vget (words_ b) (index / kBitsPerWord);
  Some (negb (N.land w (shl64 1 (index mod kBitsPerWord)) =? 0)%N).

Definition bs_count (b : Bitset) : N :=
  foldl (fun total w => (total + popcount w)%N) 0%N (words_ b).

(** The scanning loop; the outer [option] is undefined behaviour, the inner
    one the result. *)
Fixpoint next_loop (fuel : nat) (b : Bitset) (word_idx word : N) : option (option N) :=
  match fuel with
  | O => None
  | S fuel' =>
      if negb (word =? 0)%N then
        let pos := (word_idx * kBitsPerWord + countr_zero word)%N in
        Some (if (pos <? num_bits_ b)%N then Some pos else None)
      else
        let word_idx1 := (word_idx + 1)%N in
        if (vsize (words_ b) <=? word_idx1)%N then Some None
        else
          word1 ← vget (words_ b) word_idx1;
          next_loop fuel' b word_idx1 word1
  end.

Definition find_next_set (b : Bitset) (from : N) : option (option N) :=
  if (num_bits_ b <=? from)%N then Some None
  else
    let word_idx := (from / kBitsPerWord)%N in
    let bit_off := (from mod kBitsPerWord)%N in
    w ← vget (words_ b) word_idx;
    next_loop (length (words_ b)) b word_idx (N.land w (shl64 ones64 bit_off)).

Fixpoint prev_loop (fuel : nat) (b : Bitset) (word_idx word : N) : option (option N) :=
  match fuel with
  | O => None
  | S fuel' =>
      if negb (word =? 0)%N then
        let highest_bit := (kBitsPerWord - 1 - countl_zero64 word)%N in
        Some (Some (word_idx * kBitsPerWord + highest_bit)%N)
      else if (word_idx =? 0)%N then Some None
      else
        let word_idx1 := (word_idx - 1)%N in
        word1 ← vget (words_ b) word_idx1;
        prev_loop fuel' b word_idx1 word1
  end.

Definition find_prev_set (b : Bitset) (from : N) : option (option N) :=
  if (vsize (words_ b) =? 0)%N || (num_bits_ b <=? from)%N then Some None
  else
    let word_idx := (from / kBitsPerWord)%N in
    let bit_off := (from mod kBitsPerWord)%N in
    let mask := if (bit_off =? kBitsPerWord - 1)%N then ones64 else (shl64 1 (bit_off + 1) - 1)%N in
    w ← vget (words_ b) word_idx;
    prev_loop (length (words_ b)) b word_idx (N.land w mask).

#[global] Arguments bs_set : simpl never.
#[global] Arguments bs_clear : simpl never.
#[global] Arguments bs_test : simpl never.
#[global] Arguments find_next_set : simpl never.
#[global] Arguments find_prev_set : simpl never.

(** * Membership *)

Definition bs_mem (b : Bitset) (i : N) : bool :=
  match vget (words_ b) (i / kBitsPerWord) with
  | Some w => N.testbit w (i mod kBitsPerWord)
  | None => false
  end.

(** Words of 64 bits, enough of them, and no bit beyond the size. *)
Record bitset_ok (b : Bitset) : Prop := {
  bs_words : vsize (words_ b) = ((num_bits_ b + 63) / 64)%N;
  bs_width : Forall (fun w => (w < two64)%N) (words_ b);
  bs_bound : forall i, bs_mem b i = true -> (i < num_bits_ b)%N
}.

(** * Facts on words *)

Local Open Scope N_scope.
#[local] Ltac Zify.zify_post_hook ::= Z.to_euclidean_division_equations.

Lemma testbit_small w k n : (w < 2 ^ n)%N -> (n <= k)%N -> N.testbit w k = false.
Proof.
  intros Hw Hk. destruct (N.eq_dec w 0) as [->|Hz]; [apply N.bits_0|].
  apply N.bits_above_log2. apply N.log2_lt_pow2 in Hw; lia.
Qed.

Lemma shl64_testbit w k i : (i < 64)%N -> N.testbit (shl64 w k) i = (k <=? i)%N && N.testbit w (i - k).
Proof.
  intros Hi. unfold shl64, wrap64. change two64 with (2 ^ 64)%N.
  rewrite N.mod_pow2_bits_low by done. destruct (N.leb_spec k i).
  - by rewrite N.shiftl_spec_high'.
  - by rewrite N.shiftl_spec_low.
Qed.

Lemma one_testbit i : N.testbit 1 i = (i =? 0)%N.
Proof. destruct i; [done|]. by destruct p. Qed.

Lemma bit64_testbit k i : (i < 64)%N -> N.testbit (shl64 1 k) i = (i =? k)%N.
Proof.
  intros Hi. rewrite shl64_testbit, one_testbit by done.
  destruct (N.leb_spec k i), (N.eqb_spec (i - k) 0), (N.eqb_spec i k); try done; lia.
Qed.

Lemma ones64_testbit i : (i < 64)%N -> N.testbit ones64 i = true.
Proof. change ones64 with (N.ones 64). intros. by apply N.ones_spec_low. Qed.

Lemma not64_testbit w i : (i < 64)%N -> N.testbit (not64 w) i = negb (N.testbit w i).
Proof. intros. unfold not64. rewrite N.lxor_spec, ones64_testbit by done. apply xorb_true_r. Qed.

Lemma wrap64_lt n : (wrap64 n < two64)%N.
Proof. by apply N.mod_lt. Qed.

(** A word is zero when it has no bit below 64. *)
Lemma word_zero w : (w < two64)%N -> (forall i, (i < 64)%N -> N.testbit w i = false) -> w = 0%N.
Proof.
  intros Hw H. apply N.bits_inj. intros i. rewrite N.bits_0.
  destruct (N.lt_ge_cases i 64) as [Hi|Hi]; [by apply H|]. by eapply (testbit_small _ _ 64).
Qed.

Lemma land_lt w m : (w < two64)%N -> (N.land w m < two64)%N.
Proof.
  intros Hw. change two64 with (2 ^ 64)%N in *. destruct (N.eq_dec (N.land w m) 0) as [->|Hz]; [done|].
  apply N.log2_lt_pow2; [lia|]. pose proof (N.log2_land w m).
  destruct (N.eq_dec w 0) as [->|Hw0]; [done|]. apply N.log2_lt_pow2 in Hw; lia.
Qed.

Lemma lor_lt w m : (w < two64)%N -> (m < two64)%N -> (N.lor w m < two64)%N.
Proof.
  intros Hw Hm. change two64 with (2 ^ 64)%N in *. destruct (N.eq_dec (N.lor w m) 0) as [->|Hz]; [done|].
  apply N.log2_lt_pow2; [lia|]. rewrite N.log2_lor.
  destruct (N.eq_dec w 0) as [->|?], (N.eq_dec m 0) as [->|?]; simpl; try done;
    repeat match goal with H : (_ < 2 ^ 64)%N |- _ => apply N.log2_lt_pow2 in H; [|lia] end; lia.
Qed.

Lemma pos_ctz_spec p :
  N.testbit (Npos p) (pos_ctz p) = true /\ (forall j, (j < pos_ctz p)%N -> N.testbit (Npos p) j = false).
Proof.
  induction p as [p IH|p [IH1 IH2]|]; simpl pos_ctz; [split; [done|lia]| |split; [done|lia]].
  change (N.pos p~0) with (2 * N.pos p)%N. split.
  - by rewrite N.double_bits_succ.
  - intros j Hj. destruct (N.eq_dec j 0) as [->|Hz]; [apply N.testbit_even_0|].
    replace j with (N.succ (j - 1)) by lia. rewrite N.double_bits_succ. apply IH2. lia.
Qed.

Lemma countr_zero_spec w : w <> 0%N ->
  N.testbit w (countr_zero w) = true /\ (forall j, (j < countr_zero w)%N -> N.testbit w j = false).
Proof. destruct w as [|p]; [done|]. intros _. apply pos_ctz_spec. Qed.

Lemma countl_zero64_spec w : w <> 0%N -> (w < two64)%N ->
  let hi := (kBitsPerWord - 1 - countl_zero64 w)%N in
  (hi < 64)%N /\ N.testbit w hi = true /\ (forall j, (hi < j)%N -> N.testbit w j = false).
Proof.
  intros Hz Hw. assert (Hl : (N.log2 w < 64)%N) by (apply N.log2_lt_pow2; [lia|done]).
  assert (Hhi : (kBitsPerWord - 1 - countl_zero64 w)%N = N.log2 w).
  { unfold countl_zero64, kBitsPerWord. destruct w; [done|]. lia. }
  cbv zeta. rewrite Hhi. split_and!; [done|by apply N.bit_log2|]. intros j Hj. by apply N.bits_above_log2.
Qed.

(** * Facts on bitsets *)

Lemma index_split i : i = i / 64 * 64 + i mod 64 /\ i mod 64 < 64.
Proof. pose proof (N.div_mod i 64 ltac:(done)). pose proof (N.mod_lt i 64 ltac:(done)). lia. Qed.

Lemma index_inj i j : i / 64 = j / 64 -> i mod 64 = j mod 64 -> i = j.
Proof. intros H1 H2. pose proof (index_split i). pose proof (index_split j). lia. Qed.

(** The word of an index in range. *)
Lemma bs_word b i : bitset_ok b -> i < num_bits_ b ->
  exists w, vget (words_ b) (i / kBitsPerWord) = Some w /\ w < two64 /\ bs_mem b i = N.testbit w (i mod 64).
Proof.
  intros [Hl Hw _] Hi. unfold kBitsPerWord. destruct (vget_is_Some (words_ b) (i / 64)) as [w Hg].
  { rewrite Hl. apply N.div_lt_upper_bound; [done|].
    pose proof (N.div_mod (num_bits_ b + 63) 64 ltac:(done)). pose proof (N.mod_lt (num_bits_ b + 63) 64 ltac:(done)). lia. }
  exists w. split_and!; [done| |by unfold bs_mem, kBitsPerWord; rewrite Hg]. by eapply (Forall_lookup_1 _ _ _ _ Hw).
Qed.

Lemma bs_test_spec b i : bitset_ok b -> i < num_bits_ b -> bs_test b i = Some (bs_mem b i).
Proof.
  intros Hok Hi. destruct (bs_word b i Hok Hi) as (w & Hg & Hw & Hm). unfold bs_test.
  rewrite (proj2 (N.ltb_lt _ _) Hi). cbn [assert_ mbind option_bind]. rewrite Hg. cbn [mbind option_bind]. f_equal.
  rewrite Hm. pose proof (index_split i) as [_ Hb]. unfold kBitsPerWord.
  assert (Hbit : forall k, (k < 64)%N -> N.testbit (N.land w (shl64 1 (i mod 64))) k = N.testbit w k && (k =? i mod 64))
    by (intros k Hk; by rewrite N.land_spec, bit64_testbit).
  destruct (N.testbit w (i mod 64)) eqn:Ht.
  - destruct (N.eqb_spec (N.land w (shl64 1 (i mod 64))) 0) as [Hz|]; [|done].
    specialize (Hbit _ Hb). by rewrite Hz, N.bits_0, Ht, N.eqb_refl in Hbit.
  - rewrite (word_zero (N.land w (shl64 1 (i mod 64)))); [done|by apply land_lt|].
    intros k Hk. rewrite Hbit by done. destruct (N.eqb_spec k (i mod 64)) as [->|]; [by rewrite Ht|apply andb_false_r].
Qed.

(** Writing the word of an index. *)
Lemma bs_write b i f : bitset_ok b -> i < num_bits_ b ->
  (forall w, w < two64 -> f w < two64) ->
  (forall w k, w < two64 -> k < 64 -> k <> i mod 64 -> N.testbit (f w) k = N.testbit w k) ->
  exists w ws, vget (words_ b) (i / kBitsPerWord) = Some w /\ w < two64 /\
    vset (words_ b) (i / kBitsPerWord) (f w) = Some ws /\ bitset_ok (mkBitset (num_bits_ b) ws) /\
    forall j, bs_mem (mkBitset (num_bits_ b) ws) j = if (j =? i) then N.testbit (f w) (i mod 64) else bs_mem b j.
Proof.
  intros Hok Hi Hlt Hother. destruct (bs_word b i Hok Hi) as (w & Hg & Hw & Hm). pose proof Hok as [Hl Hwd Hbd].
  pose proof (vget_lt _ _ _ Hg) as Hlen. exists w, (<[N.to_nat (i / kBitsPerWord) := f w]> (words_ b)).
  assert (Hmem : forall j, bs_mem (mkBitset (num_bits_ b) (<[N.to_nat (i / kBitsPerWord) := f w]> (words_ b))) j =
    if j =? i then N.testbit (f w) (i mod 64) else bs_mem b j).
  { intros j. unfold bs_mem, kBitsPerWord in *. simpl. destruct (N.eq_dec (j / 64) (i / 64)) as [He|Hne].
    - rewrite He, vget_insert_eq, Hg by done. destruct (N.eqb_spec j i) as [->|Hji]; [done|].
      apply Hother; [done|apply index_split|]. intros Hmod. by apply Hji, index_inj.
    - rewrite vget_insert_ne by congruence. destruct (N.eqb_spec j i) as [->|]; [done|done]. }
  split_and!; [done|done|by apply vset_ok| |exact Hmem]. split; simpl.
  - by rewrite vsize_insert.
  - apply Forall_insert; auto.
  - intros j. rewrite Hmem. destruct (N.eqb_spec j i) as [->|]; [done|apply Hbd].
Qed.

Lemma bs_set_spec b i : bitset_ok b -> i < num_bits_ b ->
  exists b', bs_set b i = Some b' /\ bitset_ok b' /\ num_bits_ b' = num_bits_ b /\
    forall j, bs_mem b' j = (j =? i) || bs_mem b j.
Proof.
  intros Hok Hi. pose proof (index_split i) as [_ Hb].
  destruct (bs_write b i (fun w => N.lor w (shl64 1 (i mod 64))) Hok Hi) as (w & ws & Hg & Hw & Hs & Hok' & Hm).
  { intros w Hw. apply lor_lt; [done|apply wrap64_lt]. }
  { intros w k _ Hk Hne. rewrite N.lor_spec, bit64_testbit by done. by rewrite (proj2 (N.eqb_neq _ _) Hne), orb_false_r. }
  unfold bs_set. rewrite (proj2 (N.ltb_lt _ _) Hi). cbn [assert_ mbind option_bind]. rewrite Hg.
  cbn [mbind option_bind]. unfold kBitsPerWord in *. rewrite Hs. cbn [mbind option_bind]. eexists. split_and!; try done.
  intros j. rewrite Hm. destruct (N.eqb_spec j i); [|done].
  by rewrite N.lor_spec, bit64_testbit, N.eqb_refl, orb_true_r.
Qed.

Lemma bs_clear_spec b i : bitset_ok b -> i < num_bits_ b ->
  exists b', bs_clear b i = Some b' /\ bitset_ok b' /\ num_bits_ b' = num_bits_ b /\
    forall j, bs_mem b' j = negb (j =? i) && bs_mem b j.
Proof.
  intros Hok Hi. pose proof (index_split i) as [_ Hb].
  destruct (bs_write b i (fun w => N.land w (not64 (shl64 1 (i mod 64)))) Hok Hi) as (w & ws & Hg & Hw & Hs & Hok' & Hm).
  { intros w Hw. by apply land_lt. }
  { intros w k _ Hk Hne. rewrite N.land_spec, not64_testbit, bit64_testbit by done.
    by rewrite (proj2 (N.eqb_neq _ _) Hne), andb_true_r. }
  unfold bs_clear. rewrite (proj2 (N.ltb_lt _ _) Hi). cbn [assert_ mbind option_bind]. rewrite Hg.
  cbn [mbind option_bind]. unfold kBitsPerWord in *. rewrite Hs. cbn [mbind option_bind]. eexists. split_and!; try done.
  intros j. rewrite Hm. destruct (N.eqb_spec j i); [|done].
  by rewrite N.land_spec, not64_testbit, bit64_testbit, N.eqb_refl, andb_false_r.
Qed.

Lemma new_bitset_ok n : n + 63 < two64 -> bitset_ok (new_bitset n) /\ forall i, bs_mem (new_bitset n) i = false.
Proof.
  intros Hn. assert (Hm : forall i, bs_mem (new_bitset n) i = false).
  { intros i. unfold bs_mem, new_bitset. simpl. destruct (vget _ _) as [w|] eqn:Hg; [|done].
    unfold vget in Hg. apply lookup_replicate in Hg as [-> _]. apply N.bits_0. }
  split; [|done]. split; simpl; [| |intros i; by rewrite Hm].
  - unfold vsize, kBitsPerWord. rewrite length_replicate, N2Nat.id, wrap64_small by lia. f_equal. lia.
  - apply Forall_replicate. done.
Qed.

(** * The scans *)

Lemma bs_mem_word b k w j : vget (words_ b) k = Some w -> j < 64 -> bs_mem b (k * 64 + j) = N.testbit w j.
Proof.
  intros Hg Hj. unfold bs_mem, kBitsPerWord.
  replace ((k * 64 + j) / 64) with k by (apply (N.div_unique _ 64 k j); lia).
  replace ((k * 64 + j) mod 64) with j by (apply (N.mod_unique _ 64 k j); lia).
  by rewrite Hg.
Qed.

(** What a scan may answer: the nearest member in its direction. *)
Definition is_next (b : Bitset) (from : N) (r : option N) : Prop :=
  match r with
  | Some p => from <= p /\ p < num_bits_ b /\ bs_mem b p = true /\ forall j, from <= j < p -> bs_mem b j = false
  | None => forall j, from <= j -> bs_mem b j = false
  end.

Definition is_prev (b : Bitset) (from : N) (r : option N) : Prop :=
  match r with
  | Some p => p <= from /\ p < num_bits_ b /\ bs_mem b p = true /\ forall j, p < j <= from -> bs_mem b j = false
  | None => forall j, j <= from -> bs_mem b j = false
  end.

Lemma testbit_lt64 w j : w < two64 -> N.testbit w j = true -> j < 64.
Proof.
  intros Hw Ht. destruct (N.lt_ge_cases j 64) as [|Hge]; [done|].
  by rewrite (testbit_small w j 64) in Ht.
Qed.

Lemma next_loop_spec fuel b from k word w :
  bitset_ok b -> vget (words_ b) k = Some w -> word < two64 -> from < (k + 1) * 64 ->
  (forall j, j < 64 -> N.testbit word j = (from <=? k * 64 + j) && N.testbit w j) ->
  (forall j, from <= j < k * 64 -> bs_mem b j = false) ->
  (length (words_ b) <= fuel + N.to_nat k)%nat ->
  exists r, next_loop fuel b k word = Some r /\ is_next b from r.
Proof.
  intros Hok. revert k word w. induction fuel as [|fuel IH]; intros k word w Hg Hwd Hfrom Hw Hlow Hfuel.
  { pose proof (vget_lt _ _ _ Hg). unfold vsize in *. lia. }
  pose proof Hok as [Hl Hwid Hbd]. simpl. destruct (N.eqb_spec word 0) as [->|Hz]; simpl.
  - assert (Hlow' : forall j, from <= j < (k + 1) * 64 -> bs_mem b j = false).
    { intros j Hj. destruct (N.lt_ge_cases j (k * 64)) as [|Hge]; [apply Hlow; lia|].
      replace j with (k * 64 + (j - k * 64)) by lia. rewrite (bs_mem_word b k w) by (done || lia).
      specialize (Hw (j - k * 64) ltac:(lia)). rewrite N.bits_0 in Hw.
      rewrite (proj2 (N.leb_le _ _)) in Hw by lia. by rewrite andb_true_l in Hw. }
    destruct (N.leb_spec (vsize (words_ b)) (k + 1)) as [Hend|Hin].
    + exists None. split; [done|]. intros j Hj. destruct (N.lt_ge_cases j ((k + 1) * 64)); [apply Hlow'; lia|].
      unfold bs_mem. destruct (vget (words_ b) (j / kBitsPerWord)) eqn:Hgj; [|done].
      apply vget_lt in Hgj. pose proof (index_split j). unfold kBitsPerWord in *. lia.
    + destruct (vget_is_Some _ _ Hin) as [w1 Hg1]. rewrite Hg1. simpl.
      apply (IH (k + 1) w1 w1); try done; [by eapply (Forall_lookup_1 _ _ _ _ Hwid)|lia| |lia].
      intros j Hj. by rewrite (proj2 (N.leb_le _ _)) by lia.
  - destruct (countr_zero_spec word Hz) as [Ht Hmin]. pose proof (testbit_lt64 _ _ Hwd Ht) as Hc.
    set (c := countr_zero word) in *. rewrite (Hw c Hc) in Ht. apply andb_true_iff in Ht as [Hge%N.leb_le Ht].
    rewrite <- (bs_mem_word b k w) in Ht by done. pose proof (Hbd _ Ht) as Hlt. unfold kBitsPerWord.
    rewrite (proj2 (N.ltb_lt _ _) Hlt). eexists. split; [reflexivity|]. split_and!; try done.
    intros j Hj. destruct (N.lt_ge_cases j (k * 64)) as [|Hge']; [apply Hlow; lia|].
    replace j with (k * 64 + (j - k * 64)) by lia. rewrite (bs_mem_word b k w) by (done || lia).
    specialize (Hmin (j - k * 64) ltac:(lia)). rewrite Hw, (proj2 (N.leb_le _ _)) in Hmin by lia. done.
Qed.

Lemma find_next_set_spec b from : bitset_ok b -> exists r, find_next_set b from = Some r /\ is_next b from r.
Proof.
  intros Hok. unfold find_next_set. pose proof Hok as [_ _ Hbd]. destruct (N.leb_spec (num_bits_ b) from) as [Hge|Hlt].
  { exists None. split; [done|]. intros j Hj. destruct (bs_mem b j) eqn:Hm; [|done]. apply Hbd in Hm. lia. }
  destruct (bs_word b from Hok Hlt) as (w & Hg & Hw & _). rewrite Hg. cbn [mbind option_bind]. unfold kBitsPerWord in *.
  pose proof (index_split from) as [Hs Hb].
  apply (next_loop_spec _ b from _ _ w); try done; [by apply land_lt|lia| | |lia].
  2: { intros j [H1 H2]. exfalso. revert Hs Hb H1 H2. generalize (from / 64) (from mod 64). lia. }
  intros j Hj. rewrite N.land_spec, shl64_testbit by done.
  destruct (N.leb_spec (from mod 64) j), (N.leb_spec from (from / 64 * 64 + j)); try lia.
  rewrite ones64_testbit; [by rewrite andb_true_r|]. generalize dependent (from mod 64). intros r. lia.
Qed.

Lemma prev_loop_spec fuel b from k word w :
  bitset_ok b -> vget (words_ b) k = Some w -> word < two64 -> k * 64 <= from ->
  (forall j, j < 64 -> N.testbit word j = (k * 64 + j <=? from) && N.testbit w j) ->
  (forall j, (k + 1) * 64 <= j <= from -> bs_mem b j = false) ->
  (N.to_nat k < fuel)%nat ->
  exists r, prev_loop fuel b k word = Some r /\ is_prev b from r.
Proof.
  intros Hok. revert k word w. induction fuel as [|fuel IH]; intros k word w Hg Hwd Hfrom Hw Hhigh Hfuel; [lia|].
  pose proof Hok as [Hl Hwid Hbd]. cbn [prev_loop]. destruct (N.eqb_spec word 0) as [->|Hz]; cbn [negb].
  - assert (Hhigh' : forall j, k * 64 <= j <= from -> bs_mem b j = false).
    { intros j Hj. destruct (N.le_gt_cases ((k + 1) * 64) j) as [|Hge]; [apply Hhigh; lia|].
      replace j with (k * 64 + (j - k * 64)) by lia. rewrite (bs_mem_word b k w) by (done || lia).
      specialize (Hw (j - k * 64) ltac:(lia)). rewrite N.bits_0 in Hw.
      rewrite (proj2 (N.leb_le _ _)) in Hw by lia. by rewrite andb_true_l in Hw. }
    destruct (N.eqb_spec k 0) as [->|Hk].
    + exists None. split; [done|]. intros j Hj. apply Hhigh'. lia.
    + pose proof (vget_lt _ _ _ Hg). destruct (vget_is_Some (words_ b) (k - 1)) as [w1 Hg1]; [lia|].
      rewrite Hg1. cbn [mbind option_bind].
      apply (IH (k - 1) w1 w1); try done; [by eapply (Forall_lookup_1 _ _ _ _ Hwid)|lia| | |lia].
      * intros j Hj. by rewrite (proj2 (N.leb_le _ _)) by lia.
      * intros j Hj. apply Hhigh'. lia.
  - destruct (countl_zero64_spec word Hz Hwd) as (Hc & Ht & Hmax). set (hi := kBitsPerWord - 1 - countl_zero64 word) in *.
    rewrite (Hw hi Hc) in Ht. apply andb_true_iff in Ht as [Hge%N.leb_le Ht].
    rewrite <- (bs_mem_word b k w) in Ht by done. unfold kBitsPerWord at 1.
    eexists. split; [reflexivity|]. split_and!; try done; [by apply Hbd|].
    intros j Hj. destruct (N.le_gt_cases ((k + 1) * 64) j) as [|Hge']; [apply Hhigh; lia|].
    replace j with (k * 64 + (j - k * 64)) by lia. rewrite (bs_mem_word b k w) by (done || lia).
    specialize (Hmax (j - k * 64) ltac:(lia)). rewrite Hw, (proj2 (N.leb_le _ _)) in Hmax by lia. done.
Qed.

(** The mask of the low [k + 1] bits. *)
Lemma low_mask_testbit k i : k < 64 -> i < 64 ->
  N.testbit (if k =? kBitsPerWord - 1 then ones64 else shl64 1 (k + 1) - 1) i = (i <=? k).
Proof.
  intros Hk Hi. unfold kBitsPerWord. destruct (N.eqb_spec k (64 - 1)) as [->|Hne].
  - rewrite ones64_testbit by done. symmetry. apply N.leb_le. lia.
  - unfold shl64. rewrite N.shiftl_1_l. rewrite wrap64_small by (apply (N.pow_lt_mono_r 2 (k + 1) 64); lia).
    rewrite <- N.pred_sub, <- N.ones_equiv. destruct (N.leb_spec i k); [apply N.ones_spec_low|apply N.ones_spec_high]; lia.
Qed.

Lemma find_prev_set_spec b from : bitset_ok b -> from < num_bits_ b ->
  exists r, find_prev_set b from = Some r /\ is_prev b from r.
Proof.
  intros Hok Hlt. unfold find_prev_set. destruct (bs_word b from Hok Hlt) as (w & Hg & Hw & _).
  pose proof (vget_lt _ _ _ Hg) as Hlen. change kBitsPerWord with 64 in Hlen.
  assert (Hne : 0 < vsize (words_ b)) by (eapply N.le_lt_trans; [apply N.le_0_l|exact Hlen]).
  rewrite (proj2 (N.leb_gt _ _) Hlt), (proj2 (N.eqb_neq (vsize (words_ b)) 0)) by lia.
  cbn [orb]. rewrite Hg. cbn [mbind option_bind].
  pose proof (index_split from) as [Hs Hb]. change kBitsPerWord with 64 in Hg.
  apply (prev_loop_spec _ b from _ _ w); try done; [by apply land_lt|unfold kBitsPerWord; lia| | |].
  - intros j Hj. rewrite N.land_spec. change (from mod kBitsPerWord) with (from mod 64).
    rewrite low_mask_testbit by done. rewrite andb_comm. f_equal. unfold kBitsPerWord.
    destruct (N.leb_spec j (from mod 64)), (N.leb_spec (from / 64 * 64 + j) from); try done; lia.
  - intros j [H1 H2]. exfalso. unfold kBitsPerWord in *. revert Hs Hb H1 H2. generalize (from / 64) (from mod 64). lia.
  - unfold vsize, kBitsPerWord in *. lia.
Qed.

(** Beyond the size nothing is looked for. *)
Lemma find_prev_set_beyond b from : num_bits_ b <= from -> find_prev_set b from = Some None.
Proof. intros Hle. unfold find_prev_set. by rewrite (proj2 (N.leb_le _ _) Hle), orb_true_r. Qed.

(** * Counting *)

(** The members, in increasing order. *)
Definition members (b : Bitset) : list N :=
  List.filter (bs_mem b) (N.of_nat <$> seq 0 (N.to_nat (num_bits_ b))).

Lemma elem_of_filterb {A} (f : A -> bool) l x : x ∈ List.filter f l <-> x ∈ l /\ f x = true.
Proof. rewrite !list_elem_of_In. apply filter_In. Qed.

Lemma elem_of_members b i : bitset_ok b -> i ∈ members b <-> bs_mem b i = true.
Proof.
  intros [_ _ Hbd]. unfold members. rewrite elem_of_filterb. split; [by intros [_ ?]|]. intros Hm. split; [|done].
  apply list_elem_of_fmap. exists (N.to_nat i). rewrite elem_of_seq. specialize (Hbd i Hm). lia.
Qed.

(** How many elements of a list satisfy [f]. *)
Definition countb {A} (f : A -> bool) (l : list A) : nat := length (List.filter f l).

Lemma countb_fmap {A B} (g : A -> B) (f : B -> bool) (l : list A) : countb f (g <$> l) = countb (fun x => f (g x)) l.
Proof. unfold countb. induction l as [|x l IH]; [done|]. rewrite fmap_cons. cbn [List.filter].
  by destruct (f (g x)); cbn [length]; rewrite IH.
Qed.

Lemma countb_app {A} (f : A -> bool) l1 l2 : countb f (l1 ++ l2) = (countb f l1 + countb f l2)%nat.
Proof. unfold countb. by rewrite List.filter_app, length_app. Qed.

Lemma countb_ext {A} (f g : A -> bool) (l : list A) : (forall x, x ∈ l -> f x = g x) -> countb f l = countb g l.
Proof. intros Hfg. unfold countb. f_equal. apply filter_ext_in. intros x Hx. by apply Hfg, list_elem_of_In. Qed.

Lemma popcount_step w : popcount w = (if N.testbit w 0 then 1 else 0) + popcount (N.div2 w).
Proof. destruct w as [|[p|p|]]; simpl; lia. Qed.

Lemma popcount_spec n w : w < 2 ^ N.of_nat n ->
  popcount w = N.of_nat (countb (fun i => N.testbit w (N.of_nat i)) (seq 0 n)).
Proof.
  revert w. induction n as [|n IH]; intros w Hw.
  { assert (w = 0) as -> by (simpl in Hw; lia). done. }
  cbn [seq]. change (0%nat :: seq 1 n) with ([0%nat] ++ seq 1 n). rewrite countb_app, popcount_step, IH.
  - rewrite <- fmap_S_seq, countb_fmap.
    rewrite (countb_ext (fun x => N.testbit w (N.of_nat (S x))) (fun x => N.testbit (N.div2 w) (N.of_nat x))).
    + change (countb _ [0%nat]) with (length (if N.testbit w 0 then [0%nat] else [])).
      destruct (N.testbit w 0); cbn [length]; lia.
    + intros x _. rewrite N.div2_spec, N.shiftr_spec'. f_equal. lia.
  - rewrite N.div2_div. apply N.Div0.div_lt_upper_bound. by rewrite <- N.pow_succ_r', <- Nat2N.inj_succ.
Qed.

Definition words_bit (ws : list N) (i : N) : bool :=
  match vget ws (i / 64) with Some w => N.testbit w (i mod 64) | None => false end.

Lemma words_bit_cons w ws (i : nat) :
  words_bit (w :: ws) (N.of_nat (64 + i)) = words_bit ws (N.of_nat i).
Proof.
  unfold words_bit, vget. replace (N.of_nat (64 + i)) with (N.of_nat i + 1 * 64) by lia.
  rewrite N.div_add, N.Div0.mod_add by done. by rewrite N2Nat.inj_add, Nat.add_comm.
Qed.

Lemma count_words ws acc : Forall (fun w => w < two64) ws ->
  foldl (fun total w => total + popcount w) acc ws =
    acc + N.of_nat (countb (fun i => words_bit ws (N.of_nat i)) (seq 0 (64 * length ws))).
Proof.
  intros Hw. revert acc. induction Hw as [|w ws Hw Hws IH]; intros acc; [simpl; unfold countb; simpl; lia|].
  cbn [foldl length]. rewrite IH. replace (64 * S (length ws))%nat with (64 + 64 * length ws)%nat by lia.
  rewrite seq_app, countb_app, (popcount_spec 64 w) by done.
  rewrite (countb_ext (fun i => words_bit (w :: ws) (N.of_nat i)) (fun i => N.testbit w (N.of_nat i)) (seq 0 64)).
  - rewrite (Nat.add_comm 0 64), <- fmap_add_seq, countb_fmap. 
    rewrite (countb_ext (fun i => words_bit (w :: ws) (N.of_nat (64 + i))) (fun i => words_bit ws (N.of_nat i))); [lia|].
    intros i _. apply words_bit_cons.
  - intros i Hi%elem_of_seq. unfold words_bit. rewrite N.div_small, N.mod_small by lia. done.
Qed.

Lemma bs_count_spec b : bitset_ok b -> bs_count b = N.of_nat (length (members b)).
Proof.
  intros Hok. pose proof Hok as [Hl Hw Hbd]. unfold bs_count, members. rewrite count_words, N.add_0_l by done. f_equal.
  fold (countb (bs_mem b) (N.of_nat <$> seq 0 (N.to_nat (num_bits_ b)))). rewrite countb_fmap.
  assert (Hle : (N.to_nat (num_bits_ b) <= 64 * length (words_ b))%nat) by (unfold vsize in Hl; lia).
  replace (64 * length (words_ b))%nat with (N.to_nat (num_bits_ b) + (64 * length (words_ b) - N.to_nat (num_bits_ b)))%nat by lia.
  rewrite seq_app, countb_app, (countb_ext _ (fun _ => false) (seq (0 + _) _)).
  - unfold countb at 2. rewrite filter_false. simpl. rewrite Nat.add_0_r. done.
  - intros i Hi%elem_of_seq. change (words_bit (words_ b) (N.of_nat i)) with (bs_mem b (N.of_nat i)).
    destruct (bs_mem b (N.of_nat i)) eqn:Hm; [|done]. apply Hbd in Hm. lia.
Qed.
