(* ===== verification/ContainerTheorems.v ===== *)
(** The theorems on the containers under the books: the order-id map, the
    bitset and the pool with its intrusive lists, each against the standard
    container it stands for, over any sequence of calls. *)

From S2P Require Import Prelude Types OrderPool IdIndexMap IdIndexMapFacts Bitset.

(** * The order-id map as a finite map *)

Inductive MapCall :=
| MInsert (key : OrderId) (value : N)
| MErase (key : OrderId)
| MFind (key : OrderId)
| MContains (key : OrderId)
| MSize
| MClear.

Inductive MapAnswer := RBool (b : bool) | RFound (v : option N) | RSize (n : N) | RVoid.

Definition idm_step (m : IdMap.IdIndexMap) (c : MapCall) : option (MapAnswer * IdMap.IdIndexMap) :=
  match c with
  | MInsert key value => '(r, m1) ← IdMap.insert m key value; Some (RBool r, m1)
  | MErase key => '(r, m1) ← IdMap.erase m key; Some (RBool r, m1)
  | MFind key => r ← IdMap.find m key; Some (RFound r, m)
  | MContains key => r ← IdMap.contains m key; Some (RBool r, m)
  | MSize => Some (RSize (IdMap.size m), m)
  | MClear => Some (RVoid, IdMap.clear m)
  end.

Fixpoint idm_run (m : IdMap.IdIndexMap) (cs : list MapCall) : option (list MapAnswer) :=
  match cs with
  | [] => Some []
  | c :: cs' => '(r, m1) ← idm_step m c; rs ← idm_run m1 cs'; Some (r :: rs)
  end.

(** The same calls on a finite map. *)
Definition gmap_step (m : gmap N N) (c : MapCall) : MapAnswer * gmap N N :=
  match c with
  | MInsert key value =>
      if bool_decide (m !! key = None) then (RBool true, <[key := value]> m) else (RBool false, m)
  | MErase key => (RBool (bool_decide (is_Some (m !! key))), delete key m)
  | MFind key => (RFound (m !! key), m)
  | MContains key => (RBool (bool_decide (is_Some (m !! key))), m)
  | MSize => (RSize (N.of_nat (base.size m)), m)
  | MClear => (RVoid, ∅)
  end.

Fixpoint gmap_run (m : gmap N N) (cs : list MapCall) : list MapAnswer :=
  match cs with
  | [] => []
  | c :: cs' => let '(r, m1) := gmap_step m c in r :: gmap_run m1 cs'
  end.

(** Only the null id may not be inserted. *)
Definition valid_call (c : MapCall) : bool :=
  match c with MInsert key _ => negb (key =? kInvalidOrderId)%N | _ => true end.

(** * The bitset as a set of numbers *)

Inductive BitCall := BSet (i : N) | BClear (i : N).

Definition bit_index (c : BitCall) : N := match c with BSet i => i | BClear i => i end.

Definition bs_step (b : Bitset) (c : BitCall) : option Bitset :=
  match c with BSet i => bs_set b i | BClear i => bs_clear b i end.

Fixpoint bs_run (b : Bitset) (cs : list BitCall) : option Bitset :=
  match cs with [] => Some b | c :: cs' => b1 ← bs_step b c; bs_run b1 cs' end.

Definition set_step (s : gset N) (c : BitCall) : gset N :=
  match c with BSet i => {[i]} ∪ s | BClear i => s ∖ {[i]} end.

(** The nearest members of a set. *)
Definition least_from (s : gset N) (from : N) (r : option N) : Prop :=
  match r with
  | Some p => p ∈ s /\ (from <= p)%N /\ forall j, j ∈ s -> (from <= j)%N -> (p <= j)%N
  | None => forall j, j ∈ s -> (j < from)%N
  end.

Definition greatest_upto (s : gset N) (from : N) (r : option N) : Prop :=
  match r with
  | Some p => p ∈ s /\ (p <= from)%N /\ forall j, j ∈ s -> (j <= from)%N -> (j <= p)%N
  | None => forall j, j ∈ s -> (from < j)%N
  end.

(** * A level's intrusive list as a queue *)

(** A price level and the pool its orders live in. *)
Record LevelQueue := mkQueue {
  q_level : PriceLevel;
  q_pool : OrderPool
}.

Definition new_queue : LevelQueue := mkQueue default_level new_pool.

(** The handle of the n-th order from the head, by following [next]. *)
Fixpoint nth_handle (p : OrderPool) (idx : N) (n : nat) : option (option N) :=
  if (idx =? kNullIndex)%N then Some None
  else match n with
       | O => Some (Some idx)
       | S n' => node ← pool_at p idx; nth_handle p (n_next node) n'
       end.

Inductive QueueCall := QPush (o : Order) | QRemove (n : nat) | QReduce (n : nat) (q : Quantity).

(** The calls that the books make: [acquire] and [level_push_back] for an order
    that rests; the total's adjustment, [level_unlink] and [release] for a
    cancel; [level_reduce_quantity] by at most the remaining quantity for a
    fill.  A position beyond the queue is no call. *)
Definition queue_step (st : LevelQueue) (c : QueueCall) : option LevelQueue :=
  let lv := q_level st in
  match c with
  | QPush o =>
      '(idx, p1) ← acquire (q_pool st) o;
      '(lv1, p2) ← level_push_back lv p1 idx;
      Some (mkQueue lv1 p2)
  | QRemove n =>
      h ← nth_handle (q_pool st) (l_head lv) n;
      match h with
      | None => Some st
      | Some idx =>
          node ← pool_at (q_pool st) idx;
          total ← sub64 (l_total_quantity lv) (o_remaining_quantity (n_order node));
          '(lv1, p1) ← level_unlink (set_total total lv) (q_pool st) idx;
          p2 ← release p1 idx;
          Some (mkQueue lv1 p2)
      end
  | QReduce n q =>
      h ← nth_handle (q_pool st) (l_head lv) n;
      match h with
      | None => Some st
      | Some idx =>
          node ← pool_at (q_pool st) idx;
          '(lv1, p1) ← level_reduce_quantity lv (q_pool st) idx (Z.min q (o_remaining_quantity (n_order node)));
          Some (mkQueue lv1 p1)
      end
  end.

Fixpoint queue_run (st : LevelQueue) (cs : list QueueCall) : option LevelQueue :=
  match cs with [] => Some st | c :: cs' => st1 ← queue_step st c; queue_run st1 cs' end.

(** The orders met by following [next] from a handle, and [prev]. *)
Fixpoint walk (link : OrderNode -> N) (fuel : nat) (p : OrderPool) (idx : N) : option (list Order) :=
  if (idx =? kNullIndex)%N then Some []
  else match fuel with
       | O => None
       | S fuel' => node ← pool_at p idx; os ← walk link fuel' p (link node); Some (n_order node :: os)
       end.

(** The same calls on a list of orders. *)
Definition fill_order (q : Quantity) (o : Order) : Order :=
  set_remaining (o_remaining_quantity o - Z.min q (o_remaining_quantity o)) o.

Definition list_step (os : list Order) (c : QueueCall) : list Order :=
  match c with
  | QPush o => os ++ [o]
  | QRemove n => delete n os
  | QReduce n q => alter (fill_order q) n os
  end.

Definition pushed (c : QueueCall) : Z := match c with QPush o => o_remaining_quantity o | _ => 0 end.

Definition queue_call_ok (c : QueueCall) : bool :=
  match c with QPush o => (0 <=? o_remaining_quantity o)%Z | QRemove _ => true | QReduce _ q => (0 <=? q)%Z end.

Definition pushed_total (cs : list QueueCall) : Z := foldr (fun c t => (pushed c + t)%Z) 0%Z cs.

(** * Helper lemmas *)

(** ** Queues *)

Lemma dseg_nth_handle ns fl prv cs n :
  dseg ns prv cs kNullIndex -> nth_handle (mkPool ns fl) (hd_idx kNullIndex cs) n = Some (cs.*1 !! n).
Proof.
  revert prv n. induction cs as [|[i o] cs IH]; intros prv n; simpl; [by destruct n|].
  intros (Hi & Hg & Hs). destruct n as [|n]; simpl; rewrite (proj2 (N.eqb_neq _ _) Hi); [done|].
  unfold pool_at. simpl. rewrite Hg. simpl. by eapply IH.
Qed.

Lemma dseg_walk_next ns fl prv cs fuel :
  dseg ns prv cs kNullIndex -> (length cs <= fuel)%nat ->
  walk n_next fuel (mkPool ns fl) (hd_idx kNullIndex cs) = Some cs.*2.
Proof.
  revert prv fuel. induction cs as [|[i o] cs IH]; intros prv fuel; simpl; [by destruct fuel|].
  intros (Hi & Hg & Hs) Hf. destruct fuel as [|fuel]; [simpl in Hf; lia|]. simpl. rewrite (proj2 (N.eqb_neq _ _) Hi).
  unfold pool_at. simpl. rewrite Hg. simpl. rewrite (IH i fuel Hs) by (simpl in Hf; lia). done.
Qed.

Lemma dseg_walk_prev ns fl cs nxt fuel :
  dseg ns kNullIndex cs nxt -> (length cs <= fuel)%nat ->
  walk n_prev fuel (mkPool ns fl) (last_idx kNullIndex cs) = Some (reverse cs.*2).
Proof.
  revert nxt fuel. induction cs as [|[i o] cs IH] using rev_ind; intros nxt fuel; [by destruct fuel|].
  rewrite dseg_app, last_idx_app, length_app. simpl. intros (Hs & Hi & Hg & _) Hf. destruct fuel as [|fuel]; [lia|].
  simpl. rewrite (proj2 (N.eqb_neq _ _) Hi). unfold pool_at. simpl. rewrite Hg. simpl.
  rewrite (IH _ fuel Hs) by lia. simpl. by rewrite fmap_app, reverse_app.
Qed.

(** The queue holds the orders of [cs], none negative, at most [t] in all and
    at most [n] of them. *)
Record queue_rep (t : Z) (n : nat) (st : LevelQueue) (cs : cells) : Prop := {
  queue_links : level_links (nodes_ (q_pool st)) (q_level st) cs;
  queue_total : level_total (q_level st) cs;
  queue_pool : pool_inv (q_pool st) cs.*1;
  queue_nonneg : Forall (fun o => (0 <= o_remaining_quantity o)%Z) cs.*2;
  queue_sum : (sum_remaining cs.*2 <= t)%Z;
  queue_size : (length cs <= n)%nat
}.

Lemma sum_nonneg os : Forall (fun o => (0 <= o_remaining_quantity o)%Z) os -> (0 <= sum_remaining os)%Z.
Proof. induction 1; simpl; lia. Qed.

Lemma queue_NoDup t n st cs : queue_rep t n st cs -> NoDup cs.*1.
Proof. intros H. by destruct (proj1 (NoDup_app _ _) (pool_inv_NoDup _ _ (queue_pool _ _ _ _ H))) as [? _]. Qed.

Lemma queue_push t n st cs o :
  queue_rep t n st cs -> (0 <= o_remaining_quantity o)%Z -> (t + o_remaining_quantity o <= int64_max)%Z ->
  (N.of_nat (S n) < kNullIndex)%N ->
  exists st' i, queue_step st (QPush o) = Some st' /\ queue_rep (t + o_remaining_quantity o) (S n) st' (cs ++ [(i, o)]).
Proof.
  intros Hq Ho Ht Hn. pose proof (queue_NoDup _ _ _ _ Hq) as Hnd. destruct Hq as [Hl Htot Hp Hpos Hs Hsz].
  pose proof (sum_nonneg _ Hpos). destruct st as [lv p]. simpl in *.
  destruct (acquire_spec p cs.*1 o Hp) as (i & p1 & -> & Hi & Hi0 & Hg & Hsame & Hp1); [rewrite length_fmap; lia|].
  assert (Hl1 : level_links (nodes_ p1) lv cs).
  { destruct Hl. split; try done. by eapply dseg_frame. }
  cbn [mbind option_bind]. unfold kNullIndex in Hn.
  destruct (level_push_back_spec p1 lv cs i o kNullIndex kNullIndex Hl1 Htot Hnd Hi Hi0 Hg)
    as (lv' & p2 & -> & _ & Hl2 & Ht2 & [Hlen2 _] & Hf2); [unfold two32; lia|unfold int64_min; lia|].
  cbn [mbind option_bind]. exists (mkQueue lv' p2), i. split; [done|]. split; cbn [q_level q_pool]; try done.
  - eapply pool_inv_perm, pool_inv_nodes; [|exact Hlen2|exact Hf2|exact Hp1].
    rewrite fmap_app. simpl. by rewrite Permutation_app_comm.
  - rewrite fmap_app. apply Forall_app. split; [done|]. by repeat constructor.
  - rewrite fmap_app, sum_remaining_app. simpl. lia.
  - rewrite length_app. simpl. lia.
Qed.

(** The cell at a position of the queue, and what the step reads there. *)
Lemma queue_cell t n st cs k :
  queue_rep t n st cs ->
  nth_handle (q_pool st) (l_head (q_level st)) k = Some (cs.*1 !! k) /\
  forall i o, cs !! k = Some (i, o) -> exists pr nx, pool_at (q_pool st) i = Some (mkNode o pr nx).
Proof.
  intros [[Hs Hh _ _] _ _ _ _ _]. destruct st as [lv [ns fl]]. simpl in *. rewrite Hh. split; [by eapply dseg_nth_handle|].
  intros i o Hk. eapply dseg_cell; [exact Hs|]. by eapply list_elem_of_lookup_2.
Qed.

Lemma delete_out {A} k (l : list A) : l !! k = None -> delete k l = l.
Proof.
  revert k. induction l as [|x l IH]; intros [|k]; simpl; try done. intros Hk. f_equal. by apply IH.
Qed.

Lemma alter_out {A} (f : A -> A) k (l : list A) : l !! k = None -> alter f k l = l.
Proof.
  revert k. induction l as [|x l IH]; intros [|k]; simpl; try done. intros Hk. f_equal. by apply IH.
Qed.

Lemma queue_remove t n st cs k :
  queue_rep t n st cs -> (t <= int64_max)%Z -> (N.of_nat n < kNullIndex)%N ->
  exists st', queue_step st (QRemove k) = Some st' /\ queue_rep t n st' (delete k cs).
Proof.
  intros Hq Ht Hn. pose proof (queue_NoDup _ _ _ _ Hq) as Hnd. destruct (queue_cell t n st cs k Hq) as [Hh Hc].
  unfold queue_step. rewrite Hh, list_lookup_fmap. cbn [mbind option_bind].
  destruct (cs !! k) as [[i o]|] eqn:Hk; cbn [fmap option_fmap option_map fst]; cycle 1.
  { exists st. split; [done|]. by rewrite delete_out. }
  destruct (Hc i o eq_refl) as (pr & nx & Hat). rewrite Hat. cbn [mbind option_bind n_order]. clear Hh Hc Hat.
  apply list_elem_of_split_length in Hk as (cs1 & cs2 & -> & ->). rewrite delete_middle.
  destruct Hq as [Hl Htot Hp Hpos Hs Hsz]. unfold level_total in Htot. destruct st as [lv p]. cbn [q_level q_pool] in *.
  rewrite fmap_app, fmap_cons in Hpos, Htot, Hs. rewrite fmap_app, fmap_cons in Hp. cbn [fst snd] in *. rewrite sum_remaining_app in Htot, Hs. simpl in Htot, Hs.
  apply Forall_app in Hpos as [Hp1 [Ho Hp2]%Forall_cons]. pose proof (sum_nonneg _ Hp1). pose proof (sum_nonneg _ Hp2).
  rewrite sub64_ok by (unfold int64_min; lia). cbn [mbind option_bind].
  destruct (level_unlink_spec p (set_total (l_total_quantity lv - o_remaining_quantity o) lv) cs1 i o cs2)
    as (lv' & p1 & -> & _ & Ht1 & Hl1 & [Hlen1 _] & Hf1); [by destruct Hl|done|unfold two32, kNullIndex in *; lia|].
  cbn [mbind option_bind]. destruct (release_spec p1 i (cs1 ++ cs2).*1) as (p2 & -> & Hn2 & Hp3).
  { eapply pool_inv_perm, pool_inv_nodes; [|exact Hlen1|exact Hf1|exact Hp]. rewrite fmap_app. by rewrite Permutation_middle. }
  exists (mkQueue lv' p2). split; [done|]. rewrite !length_app in *. simpl in Hsz. split; cbn [q_level q_pool].
  - by rewrite Hn2.
  - unfold level_total. rewrite Ht1, fmap_app, sum_remaining_app. simpl. lia.
  - done.
  - rewrite fmap_app. by apply Forall_app.
  - rewrite fmap_app, sum_remaining_app. lia.
  - rewrite length_app. lia.
Qed.

Lemma queue_reduce t n st cs k q :
  queue_rep t n st cs -> (0 <= q)%Z -> (t <= int64_max)%Z ->
  exists st', queue_step st (QReduce k q) = Some st' /\
    queue_rep t n st' (alter (fun x => (x.1, fill_order q x.2)) k cs).
Proof.
  intros Hq Hq0 Ht. pose proof (queue_NoDup _ _ _ _ Hq) as Hnd. destruct (queue_cell t n st cs k Hq) as [Hh Hc].
  unfold queue_step. rewrite Hh, list_lookup_fmap. cbn [mbind option_bind].
  destruct (cs !! k) as [[i o]|] eqn:Hk; cbn [fmap option_fmap option_map fst]; cycle 1.
  { exists st. split; [done|]. by rewrite alter_out. }
  destruct (Hc i o eq_refl) as (pr & nx & Hat). rewrite Hat. cbn [mbind option_bind n_order]. clear Hh Hc Hat.
  apply list_elem_of_split_length in Hk as (cs1 & cs2 & -> & ->). rewrite alter_app_r_alt, Nat.sub_diag by done.
  change (alter _ 0%nat ((i, o) :: cs2)) with ((i, fill_order q o) :: cs2).
  destruct Hq as [Hl Htot Hp Hpos Hs Hsz]. pose proof Htot as Htot'. unfold level_total in Htot'. destruct st as [lv p].
  cbn [q_level q_pool] in *. rewrite fmap_app, fmap_cons in Hpos, Htot', Hs. cbn [fst snd] in *.
  rewrite sum_remaining_app in Htot', Hs. simpl in Htot', Hs.
  apply Forall_app in Hpos as [Hp1 [Ho Hp2]%Forall_cons]. pose proof (sum_nonneg _ Hp1). pose proof (sum_nonneg _ Hp2).
  destruct (level_reduce_spec p lv cs1 i o cs2 (Z.min q (o_remaining_quantity o)) Hl Htot Hnd)
    as (lv' & p1 & -> & _ & Hl1 & Ht1 & [Hlen1 _] & Hf1); [unfold int64_min; lia|unfold int64_min; lia|].
  cbn [mbind option_bind]. exists (mkQueue lv' p1). split; [done|]. unfold fill_order in *.
  split; cbn [q_level q_pool]; try done.
  - eapply pool_inv_nodes; [exact Hlen1|exact Hf1|]. by rewrite fmap_app, fmap_cons in Hp |- *.
  - rewrite fmap_app. apply Forall_app. split; [done|]. simpl. constructor; [|done]. simpl. lia.
  - rewrite fmap_app, sum_remaining_app. cbn [fmap list_fmap sum_remaining snd set_remaining o_remaining_quantity]. lia.
  - by rewrite length_app in Hsz |- *.
Qed.

Lemma fmap_delete_snd k (cs : cells) : (delete k cs).*2 = delete k cs.*2.
Proof. revert k. induction cs as [|x cs IH]; intros [|k]; simpl; try done. by rewrite IH. Qed.

Lemma fmap_alter_snd f k (cs : cells) : (alter (fun x => (x.1, f x.2)) k cs).*2 = alter f k cs.*2.
Proof.
  revert k. induction cs as [|x cs IH]; intros [|k]; try done. cbn [fmap list_fmap] in *. simpl. f_equal. apply IH.
Qed.

Lemma queue_step_rep t n st cs c :
  queue_rep t n st cs -> queue_call_ok c = true -> (t + pushed c <= int64_max)%Z -> (N.of_nat (S n) < kNullIndex)%N ->
  exists st' cs', queue_step st c = Some st' /\ queue_rep (t + pushed c) (S n) st' cs' /\ cs'.*2 = list_step cs.*2 c.
Proof.
  intros Hq Hc Ht Hn.
  assert (Hweak : forall st' cs', queue_rep t n st' cs' -> queue_rep (t + 0) (S n) st' cs').
  { intros st' cs' []. split; try done; lia. }
  destruct c as [o|k|k q]; cbn [pushed queue_call_ok list_step] in *.
  - apply Z.leb_le in Hc. destruct (queue_push t n st cs o Hq Hc Ht Hn) as (st' & i & Hst & Hr).
    exists st', (cs ++ [(i, o)]). split_and!; try done. by rewrite fmap_app.
  - destruct (queue_remove t n st cs k Hq) as (st' & Hst & Hr); [lia|lia|]. exists st', (delete k cs).
    split_and!; [done|by apply Hweak|apply fmap_delete_snd].
  - apply Z.leb_le in Hc. destruct (queue_reduce t n st cs k q Hq Hc) as (st' & Hst & Hr); [lia|].
    eexists st', _. split_and!; [done|by apply Hweak|apply fmap_alter_snd].
Qed.

Lemma queue_run_rep t n st cells calls :
  queue_rep t n st cells -> forallb queue_call_ok calls = true -> (t + pushed_total calls <= int64_max)%Z ->
  (N.of_nat (n + length calls) < kNullIndex)%N ->
  exists st' cells', queue_run st calls = Some st' /\ queue_rep (t + pushed_total calls) (n + length calls) st' cells' /\
    cells'.*2 = foldl list_step cells.*2 calls.
Proof.
  revert t n st cells. induction calls as [|c calls IH]; intros t n st cells Hq Hok Ht Hn; simpl in *.
  { exists st, cells. by rewrite Z.add_0_r, Nat.add_0_r. }
  apply andb_true_iff in Hok as [Hc Hok].
  assert (Hpos : (0 <= pushed_total calls)%Z).
  { clear -Hok. induction calls as [|c calls IH]; simpl in *; [lia|]. apply andb_true_iff in Hok as [Hc Hok].
    specialize (IH Hok). destruct c; simpl in *; [apply Z.leb_le in Hc|..]; lia. }
  fold (pushed_total calls) in *.
  destruct (queue_step_rep t n st cells c Hq Hc) as (st1 & cs1 & -> & Hq1 & Hs1); [lia|lia|]. cbn [mbind option_bind].
  destruct (IH _ _ st1 cs1 Hq1 Hok) as (st' & cs' & Hrun & Hq' & Hs'); [lia|lia|].
  exists st', cs'. rewrite Hs', Hs1. split_and!; try done.
  by rewrite Z.add_assoc, Nat.add_succ_r.
Qed.

(** ** The order-id map *)

Lemma idm_step_model m c :
  table_ok m -> valid_call c = true -> (IdMap.size_ m < max_entries)%N ->
  exists m', idm_step m c = Some ((gmap_step (idm_model m) c).1, m') /\ table_ok m' /\
    idm_model m' = (gmap_step (idm_model m) c).2 /\ (IdMap.size_ m' <= IdMap.size_ m + 1)%N.
Proof.
  intros Hok Hv Hs.
  assert (Hsz : forall m' s, table_ok m' -> idm_model m' = s ->
    (N.of_nat (base.size s) <= N.of_nat (base.size (idm_model m)) + 1)%N -> (IdMap.size_ m' <= IdMap.size_ m + 1)%N).
  { intros m' s Hm' <- Hle. by rewrite !model_size in Hle. }
  destruct c as [k v|k|k|k| |]; simpl in *.
  - apply negb_true_iff, N.eqb_neq in Hv. destruct (insert_model m k v Hok Hv Hs) as (m' & -> & Hok' & Hm'). simpl.
    exists m'. case_bool_decide as Hn; split_and!; try done; (eapply Hsz; [done|exact Hm'|]).
    + rewrite map_size_insert_None by done. lia.
    + lia.
  - destruct (erase_model m k Hok) as (m' & -> & Hok' & Hm'). simpl. exists m'. split_and!; try done.
    eapply Hsz; [done|exact Hm'|]. rewrite map_size_delete. destruct (idm_model m !! k); unfold id; lia.
  - rewrite find_model by done. simpl. exists m. split_and!; try done. lia.
  - rewrite contains_model by done. simpl. exists m. split_and!; try done. lia.
  - exists m. unfold IdMap.size. rewrite <- model_size by done. split_and!; try done. lia.
  - destruct (clear_model m Hok) as [Hok' Hm']. exists (IdMap.clear m). split_and!; try done. simpl. lia.
Qed.

Lemma idm_run_model cs m n :
  table_ok m -> forallb valid_call cs = true -> (IdMap.size_ m <= n)%N -> (n + N.of_nat (length cs) <= max_entries)%N ->
  idm_run m cs = Some (gmap_run (idm_model m) cs).
Proof.
  revert m n. induction cs as [|c cs IH]; intros m n Hok Hv Hn Hlen; [done|].
  cbn [forallb] in Hv. apply andb_true_iff in Hv as [Hc Hv]. cbn [length] in Hlen.
  destruct (idm_step_model m c Hok Hc) as (m' & Hst & Hok' & Hm' & Hsz); [lia|]. simpl. rewrite Hst. simpl.
  rewrite (IH m' (n + 1)%N) by (done || lia). simpl. rewrite Hm'. by destruct (gmap_step _ c).
Qed.

(** ** The bitset *)

(** A bitset that holds exactly the members of [s]. *)
Definition bits_of (b : Bitset) (s : gset N) : Prop := bitset_ok b /\ forall i, bs_mem b i = true <-> i ∈ s.

Lemma bits_of_step b s c : bits_of b s -> (bit_index c < num_bits_ b)%N ->
  exists b', bs_step b c = Some b' /\ bits_of b' (set_step s c) /\ num_bits_ b' = num_bits_ b.
Proof.
  intros [Hok Hm] Hi. destruct c as [i|i]; simpl in *.
  - destruct (bs_set_spec b i Hok Hi) as (b' & Hb & Hok' & Hn & Hm'). exists b'. split_and!; try done. split; [done|].
    intros j. by rewrite Hm', orb_true_iff, N.eqb_eq, Hm, elem_of_union, elem_of_singleton.
  - destruct (bs_clear_spec b i Hok Hi) as (b' & Hb & Hok' & Hn & Hm'). exists b'. split_and!; try done. split; [done|].
    intros j. rewrite Hm', andb_true_iff, negb_true_iff, N.eqb_neq, Hm, elem_of_difference, elem_of_singleton. tauto.
Qed.

Lemma bits_of_run b s cs : bits_of b s -> Forall (fun c => bit_index c < num_bits_ b)%N cs ->
  exists b', bs_run b cs = Some b' /\ bits_of b' (foldl set_step s cs) /\ num_bits_ b' = num_bits_ b.
Proof.
  intros Hb Hcs. revert b s Hb Hcs. induction cs as [|c cs IH]; intros b s Hb Hcs; [by exists b|].
  apply Forall_cons in Hcs as [Hc Hcs]. destruct (bits_of_step b s c Hb Hc) as (b1 & Hst & Hb1 & Hn). simpl. rewrite Hst.
  destruct (IH b1 (set_step s c) Hb1) as (b' & Hrun & Hb' & Hn'); [by rewrite Hn|]. exists b'. split_and!; try done. congruence.
Qed.

Lemma bits_of_false b s i : bits_of b s -> bs_mem b i = false <-> i ∉ s.
Proof. intros [_ Hm]. rewrite <- Hm. by destruct (bs_mem b i). Qed.

Lemma bits_of_next b s from r : bits_of b s -> is_next b from r -> least_from s from r.
Proof.
  intros Hb. pose proof Hb as [_ Hm]. destruct r as [p|]; simpl.
  - intros (H1 & _ & H2 & H3). rewrite <- Hm. split_and!; try done. intros j Hj Hfj. apply N.le_ngt. intros Hlt.
    apply (proj1 (bits_of_false b s j Hb)); [apply H3; lia|done].
  - intros H j Hj. apply N.lt_nge. intros Hle. apply (proj1 (bits_of_false b s j Hb)); [by apply H|done].
Qed.

Lemma bits_of_prev b s from r : bits_of b s -> is_prev b from r -> greatest_upto s from r.
Proof.
  intros Hb. pose proof Hb as [_ Hm]. destruct r as [p|]; simpl.
  - intros (H1 & _ & H2 & H3). rewrite <- Hm. split_and!; try done. intros j Hj Hfj. apply N.le_ngt. intros Hlt.
    apply (proj1 (bits_of_false b s j Hb)); [apply H3; lia|done].
  - intros H j Hj. apply N.lt_nge. intros Hle. apply (proj1 (bits_of_false b s j Hb)); [by apply H|done].
Qed.

Lemma members_NoDup b : NoDup (members b).
Proof.
  unfold members. apply NoDup_ListNoDup, List.NoDup_filter, NoDup_ListNoDup, NoDup_fmap; [intros ??; lia|apply NoDup_seq].
Qed.

Lemma bits_of_count b s : bits_of b s -> bs_count b = N.of_nat (base.size s).
Proof.
  intros [Hok Hm]. rewrite bs_count_spec by done. f_equal.
  replace s with (list_to_set (members b) : gset N); [by rewrite size_list_to_set by apply members_NoDup|].
  apply set_eq. intros i. by rewrite elem_of_list_to_set, elem_of_members.
Qed.

(** * Theorems *)

(** C19. The order-id map is a finite map: any sequence of [insert], [erase],
    [find], [contains], [size] and [clear] calls on a new table, with fewer
    than 2^40 calls and no null key inserted, terminates, is defined, and gives
    the answers of a finite map, through any collisions, growth and
    backward shifts. *)
Theorem id_index_map_is_finite_map hint cs :
  (hint <= 2 ^ 62)%N -> forallb valid_call cs = true -> (N.of_nat (length cs) <= max_entries)%N ->
  exists m, IdMap.new_IdIndexMap hint = Some m /\ idm_run m cs = Some (gmap_run ∅ cs).
Proof.
  intros Hh Hv Hlen. destruct (new_IdIndexMap_ok hint Hh) as (m & Hm & Hok & He & _). exists m. split; [done|].
  rewrite <- He. apply (idm_run_model cs m 0%N); try done.
  rewrite <- model_size, He, map_size_empty by done. done.
Qed.

(** C20. The bitset is a set of numbers below its size: after any sequence of
    [set] and [clear], [test] and [count] are membership and cardinality,
    [find_next_set] finds the nearest member at or after any index, and
    [find_prev_set] the nearest member at or before any index below the size;
    from an index at or above the size it finds nothing, whatever the set
    holds. *)
Theorem bitset_is_set n cs :
  (n + 63 < two64)%N -> Forall (fun c => bit_index c < n)%N cs ->
  exists b, bs_run (new_bitset n) cs = Some b /\
    let s := foldl set_step ∅ cs in
    (forall i, (i < n)%N -> bs_test b i = Some (bool_decide (i ∈ s))) /\
    bs_count b = N.of_nat (base.size s) /\
    (forall from, exists r, find_next_set b from = Some r /\ least_from s from r) /\
    (forall from, (from < n)%N -> exists r, find_prev_set b from = Some r /\ greatest_upto s from r) /\
    (forall from, (n <= from)%N -> find_prev_set b from = Some None).
Proof.
  intros Hn Hcs. destruct (new_bitset_ok n Hn) as [Hok Hm].
  destruct (bits_of_run (new_bitset n) ∅ cs) as (b & Hrun & Hb & Hsz); [|done|].
  { split; [done|]. intros i. rewrite Hm. split; [done|]. by intros ?%elem_of_empty. }
  exists b. split; [done|]. cbv zeta. change (num_bits_ (new_bitset n)) with n in Hsz. pose proof Hb as [Hok' Hmem]. split_and!.
  - intros i Hi. rewrite bs_test_spec by (rewrite ?Hsz; done). f_equal. apply eq_bool_prop_intro. rewrite bool_decide_spec.
    rewrite <- Hmem. by destruct (bs_mem b i).
  - by apply bits_of_count.
  - intros from. destruct (find_next_set_spec b from Hok') as (r & Hr & Hnx). exists r. split; [done|]. by eapply bits_of_next.
  - intros from Hf. destruct (find_prev_set_spec b from Hok') as (r & Hr & Hpv); [by rewrite Hsz|].
    exists r. split; [done|]. by eapply bits_of_prev.
  - intros from Hf. apply find_prev_set_beyond. by rewrite Hsz.
Qed.

(** C27. A price level is a FIFO queue: after any sequence of rests, cancels and
    fills on a level of a new pool, following [next] from the head gives the
    orders of the corresponding list, [prev] from the tail gives them in
    reverse, and the level's count and total quantity are the list's. *)
Theorem level_is_fifo calls :
  forallb queue_call_ok calls = true -> (pushed_total calls <= int64_max)%Z -> (N.of_nat (length calls) < kNullIndex)%N ->
  exists st, queue_run new_queue calls = Some st /\
    let os := foldl list_step [] calls in
    walk n_next (length calls) (q_pool st) (l_head (q_level st)) = Some os /\
    walk n_prev (length calls) (q_pool st) (l_tail (q_level st)) = Some (reverse os) /\
    l_order_count (q_level st) = N.of_nat (length os) /\ l_total_quantity (q_level st) = sum_remaining os /\
    live_count (q_pool st) = N.of_nat (length os).
Proof.
  intros Hok Ht Hn. destruct (queue_run_rep 0 0 new_queue [] calls) as (st & cs & Hrun & Hq & Hs); [|done|done|done|].
  { by split. }
  exists st. split; [done|]. cbv zeta. change [].*2 with (@nil Order) in Hs. rewrite <- Hs. destruct Hq as [[Hd Hh Htl Hc] Htot Hp _ _ Hsz].
  destruct st as [lv [ns fl]]. simpl in *. rewrite Hh, Htl, Hc, length_fmap. split_and!.
  - by eapply dseg_walk_next.
  - by eapply dseg_walk_prev.
  - done.
  - exact Htot.
  - apply pool_inv_length in Hp. simpl in Hp. rewrite length_fmap in Hp. unfold live_count, vsize. simpl. lia.
Qed.

(** * Concrete calls *)

Definition colliding_calls : list MapCall :=
  (fun k => MInsert (N.of_nat (S k)) (N.of_nat k)) <$> seq 0 20.

Definition map_calls : list MapCall :=
  colliding_calls ++ [MErase 7; MErase 7; MFind 8; MInsert 8 1; MContains 7; MSize; MClear; MFind 8].

Lemma id_index_map_is_finite_map_witness :
  exists m, IdMap.new_IdIndexMap 4 = Some m /\ idm_run m map_calls = Some (gmap_run ∅ map_calls).
Proof. apply (id_index_map_is_finite_map 4 map_calls); vm_compute; done. Defined.

Lemma bitset_is_set_witness :
  exists b, bs_run (new_bitset 130) [BSet 3; BSet 127; BSet 64; BClear 64] = Some b /\
    let s := foldl set_step ∅ [BSet 3; BSet 127; BSet 64; BClear 64] in
    (forall i, (i < 130)%N -> bs_test b i = Some (bool_decide (i ∈ s))) /\
    bs_count b = N.of_nat (base.size s) /\
    (forall from, exists r, find_next_set b from = Some r /\ least_from s from r) /\
    (forall from, (from < 130)%N -> exists r, find_prev_set b from = Some r /\ greatest_upto s from r) /\
    (forall from, (130 <= from)%N -> find_prev_set b from = Some None).
Proof. apply (bitset_is_set 130); [done|]. repeat constructor. Defined.

Definition resting (id : OrderId) (q : Quantity) : Order := mkOrder id 100 q q 0 1 0 Sell Limit GTC.

Definition queue_calls : list QueueCall :=
  [QPush (resting 1 5); QPush (resting 2 6); QPush (resting 3 7); QReduce 0 2; QRemove 1; QPush (resting 4 1); QRemove 9].

Lemma level_is_fifo_witness :
  exists st, queue_run new_queue queue_calls = Some st /\
    let os := foldl list_step [] queue_calls in
    walk n_next 7 (q_pool st) (l_head (q_level st)) = Some os /\
    walk n_prev 7 (q_pool st) (l_tail (q_level st)) = Some (reverse os) /\
    l_order_count (q_level st) = N.of_nat (length os) /\ l_total_quantity (q_level st) = sum_remaining os /\
    live_count (q_pool st) = N.of_nat (length os).
Proof. apply (level_is_fifo queue_calls); vm_compute; done. Defined.
