(* ===== verification/BookCore.v ===== *)
(** The part that the three order books share: the pool, the order-id map, the
    trade callback, and the loop that matches an incoming order against the
    FIFO queue of one price level.

    The loop is written out three times in the sources (order_book_map.cpp,
    order_book_vector.cpp, and as [drain_level] in order_book_array.cpp), with
    the same statements; [drain_loop] is that text, and the books call it with
    the price they print on trades.  [fill] is the same matching on a plain
    list of orders, and [drain_level_spec] the refinement between the two. *)

From S2P Require Import Prelude Types OrderPool IdIndexMap IdIndexMapFacts.

(** What a book is configured with: its symbol, whether a trade callback is
    installed, and the self-trade prevention policy. *)
Record Config := mkConfig {
  symbol_ : SymbolId;
  trade_callback_ : bool;
  stp_policy_ : SelfTradePrevention
}.

(** The members all three books have. *)
Record BookCore := mkCore {
  config_ : Config;
  pool_ : OrderPool;
  id_index_ : IdMap.IdIndexMap
}.

Definition set_pool (p : OrderPool) (c : BookCore) : BookCore := mkCore (config_ c) p (id_index_ c).

Definition set_ids (m : IdMap.IdIndexMap) (c : BookCore) : BookCore := mkCore (config_ c) (pool_ c) m.

(** The members that the books' constructors initialise: [pool_] and
    [id_index_] from the capacity hint. *)
Definition new_core (symbol : SymbolId) (order_capacity_hint : N) (stp : SelfTradePrevention)
    : option BookCore :=
  ids ← IdMap.new_IdIndexMap order_capacity_hint;
  Some (mkCore (mkConfig symbol false stp) new_pool ids).

Definition core_set_callback (c : BookCore) : BookCore :=
  mkCore (mkConfig (symbol_ (config_ c)) true (stp_policy_ (config_ c))) (pool_ c) (id_index_ c).

Definition core_reset (c : BookCore) : BookCore :=
  mkCore (config_ c) (pool_reset (pool_ c)) (IdMap.clear (id_index_ c)).

Definition self_trade (stp : SelfTradePrevention) (taker maker : Order) : bool :=
  negb (bool_decide (stp = STPNone)) &&
  negb (o_participant_id taker =? kNoParticipant)%N &&
  (o_participant_id taker =? o_participant_id maker)%N.

Definition cancels_resting (stp : SelfTradePrevention) : bool :=
  bool_decide (stp = CancelResting) || bool_decide (stp = CancelBoth).

Definition cancels_incoming (stp : SelfTradePrevention) : bool :=
  bool_decide (stp = CancelIncoming) || bool_decide (stp = CancelBoth).

(** [level_unlink(level, pool_, idx); id_index_.erase(id); pool_.release(idx)]. *)
Definition remove_maker (lv : PriceLevel) (c : BookCore) (idx : N) (id : OrderId)
    : option (PriceLevel * BookCore) :=
  '(lv1, p1) ← level_unlink lv (pool_ c) idx;
  '(_, ids1) ← IdMap.erase (id_index_ c) id;
  p2 ← release p1 idx;
  Some (lv1, set_ids ids1 (set_pool p2 c)).

#[global] Arguments remove_maker : simpl never.

(** The order a book has under an id, read the way [cancel_order] and
    [amend_order] read it: the id map, then the pool. *)
Definition order_by_id (c : BookCore) (id : OrderId) : option Order :=
  found ← IdMap.find (id_index_ c) id;
  idx ← found;
  node ← pool_at (pool_ c) idx;
  Some (n_order node).

Section matching.
(** The steady clock: the value of its n-th reading. *)
Context (now_ns : nat -> Timestamp).

(** [if (trade_callback_) trade_callback_(Trade{...})]. *)
Definition emit (cfg : Config) (taker maker : Order) (price : Price) (qty : Quantity) (w : World) : World :=
  if trade_callback_ cfg then
    mkWorld (S (w_reads w))
      (w_trades w ++
        [mkTrade (o_id taker) (o_id maker) (symbol_ cfg) price qty (now_ns (w_reads w)) (o_side taker)
           (o_participant_id taker) (o_participant_id maker)])
  else w.

Fixpoint drain_loop (fuel : nat) (price : Price) (taker : Order) (lv : PriceLevel) (c : BookCore) (w : World)
    : option (bool * Order * PriceLevel * BookCore * World) :=
  match fuel with
  | O => None
  | S fuel' =>
      if (l_head lv =? kNullIndex)%N || (o_remaining_quantity taker <=? 0)%Z
      then Some (false, taker, lv, c, w)
      else
        let maker_idx := l_head lv in
        node ← pool_at (pool_ c) maker_idx;
        let maker := n_order node in
        if self_trade (stp_policy_ (config_ c)) taker maker then
          '(lv1, c1) ←
            (if cancels_resting (stp_policy_ (config_ c)) then
               total ← sub64 (l_total_quantity lv) (o_remaining_quantity maker);
               remove_maker (set_total total lv) c maker_idx (o_id maker)
             else Some (lv, c));
          if cancels_incoming (stp_policy_ (config_ c)) then Some (true, taker, lv1, c1, w)
          else drain_loop fuel' price taker lv1 c1 w
        else
          let trade_qty := Z.min (o_remaining_quantity taker) (o_remaining_quantity maker) in
          rem ← sub64 (o_remaining_quantity taker) trade_qty;
          let taker1 := set_remaining rem taker in
          '(lv1, p1) ← level_reduce_quantity lv (pool_ c) maker_idx trade_qty;
          let c1 := set_pool p1 c in
          let w1 := emit (config_ c) taker maker price trade_qty w in
          node1 ← pool_at p1 maker_idx;
          '(lv2, c2) ←
            (if (o_remaining_quantity (n_order node1) =? 0)%Z
             then remove_maker lv1 c1 maker_idx (o_id maker)
             else Some (lv1, c1));
          drain_loop fuel' price taker1 lv2 c2 w1
  end.

(** Every round removes a queued order or exhausts the taker. *)
Definition drain_level (price : Price) (taker : Order) (lv : PriceLevel) (c : BookCore) (w : World)
    : option (bool * Order * PriceLevel * BookCore * World) :=
  drain_loop (S (S (length (nodes_ (pool_ c))))) price taker lv c w.

(** * Matching on a plain queue

    The specification, with its own words for the two helpers above. *)

(** Self-trade prevention is on, and the two orders are of the same known
    participant. *)
Definition prevented (stp : SelfTradePrevention) (taker maker : Order) : bool :=
  bool_decide (stp <> STPNone /\ o_participant_id taker <> kNoParticipant /\ o_participant_id maker = o_participant_id taker).

(** The callback is given the trade, with the next reading of the clock. *)
Definition record_trade (cfg : Config) (taker maker : Order) (price : Price) (qty : Quantity) (w : World) : World :=
  let trade := {|
    t_taker_order_id := o_id taker; t_maker_order_id := o_id maker; t_symbol := symbol_ cfg;
    t_price := price; t_quantity := qty; t_timestamp := now_ns (w_reads w); t_taker_side := o_side taker;
    t_taker_participant_id := o_participant_id taker; t_maker_participant_id := o_participant_id maker |} in
  if trade_callback_ cfg then mkWorld (S (w_reads w)) (w_trades w ++ [trade]) else w.

Fixpoint fill (cfg : Config) (price : Price) (taker : Order) (queue : list Order) (w : World)
    : bool * Order * list Order * World :=
  match queue with
  | [] => (false, taker, [], w)
  | maker :: rest =>
      if (o_remaining_quantity taker <=? 0)%Z then (false, taker, queue, w)
      else if prevented (stp_policy_ cfg) taker maker then
        match stp_policy_ cfg with
        | CancelIncoming => (true, taker, queue, w)
        | CancelBoth => (true, taker, rest, w)
        | _ => fill cfg price taker rest w
        end
      else
        let qty := Z.min (o_remaining_quantity taker) (o_remaining_quantity maker) in
        let taker1 := set_remaining (o_remaining_quantity taker - qty) taker in
        let w1 := record_trade cfg taker maker price qty w in
        if (o_remaining_quantity maker - qty =? 0)%Z then fill cfg price taker1 rest w1
        else (false, taker1, set_remaining (o_remaining_quantity maker - qty) maker :: rest, w1)
  end.

End matching.

Lemma self_trade_prevented stp taker maker : self_trade stp taker maker = prevented stp taker maker.
Proof.
  unfold self_trade, prevented. repeat case_bool_decide; destruct (N.eqb_spec (o_participant_id taker) kNoParticipant),
    (N.eqb_spec (o_participant_id taker) (o_participant_id maker)); simpl; naive_solver.
Qed.

Lemma emit_records now_ns cfg taker maker price qty w : emit now_ns cfg taker maker price qty w = record_trade now_ns cfg taker maker price qty w.
Proof. done. Qed.

(** No round of the loop writes the price of the level. *)
Lemma remove_maker_price lv c i id lv' c' : remove_maker lv c i id = Some (lv', c') -> l_price lv' = l_price lv.
Proof.
  unfold remove_maker. intros H. inv_opt. destruct x as [lv1 p1]. inv_opt. destruct x as [e ids]. inv_opt. subst.
  by eapply level_unlink_price.
Qed.

Lemma drain_loop_price now_ns fuel price taker lv c w k t lv' c' w' :
  drain_loop now_ns fuel price taker lv c w = Some (k, t, lv', c', w') -> l_price lv' = l_price lv.
Proof.
  revert taker lv c w. induction fuel as [|fuel IH]; intros taker lv c w H; [done|]. simpl in H.
  destruct (_ || _); [inv_opt; by subst|]. inv_opt. destruct (self_trade _ _ _).
  - inv_opt. destruct x0 as [lv1 c1].
    assert (Hp : l_price lv1 = l_price lv).
    { destruct (cancels_resting _); inv_opt; [|by subst]. by erewrite remove_maker_price by done. }
    destruct (cancels_incoming _); [inv_opt; by subst|]. rewrite <- Hp. by eapply IH.
  - inv_opt. destruct x1 as [lv1 p1]. inv_opt. destruct x2 as [lv2 c2].
    assert (Hp : l_price lv2 = l_price lv).
    { apply level_reduce_price in H2. destruct (_ =? 0)%Z; inv_opt; [|by subst].
      by erewrite remove_maker_price by done. }
    rewrite <- Hp. by eapply IH.
Qed.

Lemma drain_level_price now_ns price taker lv c w k t lv' c' w' :
  drain_level now_ns price taker lv c w = Some (k, t, lv', c', w') -> l_price lv' = l_price lv.
Proof. apply drain_loop_price. Qed.

(** * The representation of the shared part *)

Definition id_entry (x : N * Order) : N * N := (o_id x.2, x.1).

(** The pool and the id map hold exactly the cells [cs] of the book. *)
Record core_rep (c : BookCore) (cs : cells) : Prop := {
  core_pool : pool_inv (pool_ c) cs.*1;
  core_table : table_ok (id_index_ c);
  core_ids : idm_model (id_index_ c) = list_to_map (id_entry <$> cs);
  core_ids_nodup : NoDup (o_id <$> cs.*2);
  core_ids_valid : Forall (fun o => o_id o <> kInvalidOrderId) cs.*2
}.

(** The configuration of a book never changes. *)
Definition same_config (c c' : BookCore) : Prop := config_ c' = config_ c.

Definition nodes_of (c : BookCore) : list OrderNode := nodes_ (pool_ c).

(** Quantities that the arithmetic of a level can hold. *)
Definition positive_orders (os : list Order) : Prop := Forall (fun o => (0 < o_remaining_quantity o)%Z) os.

Lemma id_entry_keys cs : (id_entry <$> cs).*1 = o_id <$> cs.*2.
Proof. rewrite <- !list_fmap_compose. done. Qed.

Lemma core_rep_perm c cs cs' : cs ≡ₚ cs' -> core_rep c cs -> core_rep c cs'.
Proof.
  intros Hp [H1 H2 H3 H4 H5]. split.
  - eapply pool_inv_perm; [|done]. by rewrite Hp.
  - done.
  - rewrite H3. apply list_to_map_proper; [by rewrite id_entry_keys|by rewrite Hp].
  - by rewrite <- Hp.
  - by rewrite <- Hp.
Qed.

Lemma core_rep_handles c cs : core_rep c cs -> NoDup cs.*1.
Proof. intros [H _ _ _ _]. apply pool_inv_NoDup in H. by apply NoDup_app in H as (? & _ & _). Qed.

Lemma core_rep_lookup c cs i o : core_rep c cs -> (i, o) ∈ cs -> idm_model (id_index_ c) !! o_id o = Some i.
Proof.
  intros [_ _ Hm Hnd _] Hin. rewrite Hm. apply elem_of_list_to_map; [by rewrite id_entry_keys|].
  apply list_elem_of_fmap. by exists (i, o).
Qed.

Lemma core_rep_lookup_inv c cs id i :
  core_rep c cs -> idm_model (id_index_ c) !! id = Some i -> exists o, (i, o) ∈ cs /\ o_id o = id.
Proof.
  intros [_ _ Hm Hnd _]. rewrite Hm. intros Hin%elem_of_list_to_map; [|by rewrite id_entry_keys].
  apply list_elem_of_fmap in Hin as ([i' o] & [= -> ->] & Hin). eauto.
Qed.

Lemma core_rep_size c cs : core_rep c cs -> IdMap.size_ (id_index_ c) = N.of_nat (length cs).
Proof.
  intros [_ Ht Hm Hnd _]. rewrite <- model_size, Hm by done.
  rewrite map_size_list_to_map by (by rewrite id_entry_keys). by rewrite length_fmap.
Qed.

(** Only the quantity of a cell changed. *)
Lemma core_rep_update c p i o o' cs :
  core_rep c ((i, o) :: cs) -> o_id o' = o_id o ->
  length (nodes_ p) = length (nodes_of c) -> free_list_ p = free_list_ (pool_ c) ->
  core_rep (set_pool p c) ((i, o') :: cs).
Proof.
  intros [H1 H2 H3 H4 H5] Hid Hl Hf. split; simpl in *.
  - by eapply pool_inv_nodes.
  - done.
  - rewrite H3. unfold id_entry. simpl. by rewrite Hid.
  - by rewrite Hid.
  - apply Forall_cons in H5 as [? ?]. constructor; [by rewrite Hid|done].
Qed.

(** A new order enters the pool and the id map. *)
Lemma core_rep_add c cs p i o :
  core_rep c cs -> pool_inv p (i :: cs.*1) -> o_id o ∉ o_id <$> cs.*2 -> o_id o <> kInvalidOrderId ->
  exists ids, IdMap.insert (id_index_ c) (o_id o) i = Some (true, ids) /\
    core_rep (set_ids ids (set_pool p c)) ((i, o) :: cs).
Proof.
  intros Hc Hp Hni Hid0. pose proof (core_rep_size _ _ Hc) as Hsz. pose proof (pool_inv_size _ _ (core_pool _ _ Hc)) as Hb.
  rewrite length_fmap in Hb. destruct Hc as [_ Ht Hm Hnd Hv].
  assert (Hnone : idm_model (id_index_ c) !! o_id o = None).
  { rewrite Hm. apply not_elem_of_list_to_map. by rewrite id_entry_keys. }
  destruct (insert_model (id_index_ c) (o_id o) i Ht Hid0) as (ids & Hins & Ht' & Hm').
  { rewrite Hsz. unfold max_entries, kNullIndex in *. lia. }
  rewrite bool_decide_eq_true_2 in Hins, Hm' by done. exists ids. split; [done|]. split; simpl; try done.
  - by rewrite Hm', Hm.
  - by constructor.
  - by constructor.
Qed.

(** [remove_maker] at any position of a level. *)
Lemma remove_maker_spec lv c cs1 i o cs2 others :
  level_links (nodes_of c) lv (cs1 ++ (i, o) :: cs2) -> core_rep c (cs1 ++ (i, o) :: cs2 ++ others) ->
  exists lv' c', remove_maker lv c i (o_id o) = Some (lv', c') /\
    l_price lv' = l_price lv /\ l_total_quantity lv' = l_total_quantity lv /\
    level_links (nodes_of c') lv' (cs1 ++ cs2) /\ core_rep c' (cs1 ++ cs2 ++ others) /\
    same_outside (cs1 ++ cs2).*1 (nodes_of c) (nodes_of c') /\ same_config c c'.
Proof.
  intros Hl Hc. unfold remove_maker.
  pose proof (core_rep_handles _ _ Hc) as Hnd.
  assert (Hnd1 : NoDup (cs1 ++ (i, o) :: cs2).*1).
  { rewrite app_comm_cons, app_assoc, fmap_app in Hnd. by apply NoDup_app in Hnd as (? & _ & _). }
  assert (Hlen : (N.of_nat (length (cs1 ++ (i, o) :: cs2)) < two32)%N).
  { pose proof (pool_inv_size _ _ (core_pool _ _ Hc)) as Hs.
    rewrite length_fmap, !length_app in Hs. simpl in Hs. rewrite length_app in *.
    simpl. unfold kNullIndex, two32 in *. lia. }
  destruct (level_unlink_spec (pool_ c) lv cs1 i o cs2 Hl Hnd1 Hlen)
    as (lv' & p1 & -> & Hpr & Htot & Hlinks & Hso & Hfree). simpl.
  destruct (erase_model (id_index_ c) (o_id o) (core_table _ _ Hc)) as (ids1 & -> & Ht1 & Hm1). simpl.
  assert (Hperm : cs1 ++ (i, o) :: cs2 ++ others ≡ₚ (i, o) :: cs1 ++ cs2 ++ others)
    by (symmetry; apply Permutation_middle).
  pose proof (core_rep_perm _ _ _ Hperm Hc) as [Hp Ht Hm Hn Hv]. simpl in *.
  assert (Hp1 : pool_inv p1 (i :: (cs1 ++ cs2 ++ others).*1)).
  { eapply pool_inv_nodes; [apply Hso|done|exact Hp]. }
  destruct (release_spec p1 i _ Hp1) as (p2 & -> & Hnodes & Hp2). simpl.
  eexists _, _. split; [reflexivity|]. unfold nodes_of in *. simpl. rewrite Hnodes.
  apply NoDup_cons in Hn as [Hni Hn]. apply Forall_cons in Hv as [_ Hv].
  split_and!; try done. split; simpl; try done.
  rewrite Hm1, Hm. unfold id_entry at 1. simpl. rewrite delete_insert_id; [done|].
  apply not_elem_of_list_to_map. by rewrite id_entry_keys.
Qed.

Lemma remove_maker_head lv c i o cs others :
  level_links (nodes_of c) lv ((i, o) :: cs) -> core_rep c ((i, o) :: cs ++ others) ->
  exists lv' c', remove_maker lv c i (o_id o) = Some (lv', c') /\
    l_price lv' = l_price lv /\ l_total_quantity lv' = l_total_quantity lv /\
    level_links (nodes_of c') lv' cs /\ core_rep c' (cs ++ others) /\
    same_outside cs.*1 (nodes_of c) (nodes_of c') /\ same_config c c'.
Proof. apply (remove_maker_spec lv c [] i o cs others). Qed.

Lemma same_config_refl c : same_config c c.
Proof. done. Qed.

Lemma same_config_trans c1 c2 c3 : same_config c1 c2 -> same_config c2 c3 -> same_config c1 c3.
Proof. unfold same_config. congruence. Qed.

Lemma sum_remaining_nonneg os : positive_orders os -> (0 <= sum_remaining os)%Z.
Proof. induction 1; simpl; lia. Qed.

Lemma links_set_total ns lv cs t : level_links ns lv cs -> level_links ns (set_total t lv) cs.
Proof. intros []. by split. Qed.

Section refinement.
Context (now_ns : nat -> Timestamp).

(** The loop stops at once when the taker is exhausted or the queue empty. *)
Lemma drain_loop_stop fuel price taker lv c w :
  (0 < fuel)%nat -> l_head lv = kNullIndex \/ (o_remaining_quantity taker <= 0)%Z ->
  drain_loop now_ns fuel price taker lv c w = Some (false, taker, lv, c, w).
Proof.
  intros Hf Hs. destruct fuel; [lia|]. simpl.
  destruct (N.eqb_spec (l_head lv) kNullIndex); [done|].
  destruct (Z.leb_spec (o_remaining_quantity taker) 0); [done|]. naive_solver lia.
Qed.

Definition drain_post (price : Price) (taker : Order) (lv : PriceLevel) (c : BookCore) (w : World) (cs others : cells)
    (r : option (bool * Order * PriceLevel * BookCore * World)) : Prop :=
  exists killed taker' lv' c' w' cs', r = Some (killed, taker', lv', c', w') /\
    fill now_ns (config_ c) price taker cs.*2 w = (killed, taker', cs'.*2, w') /\
    l_price lv' = l_price lv /\ level_links (nodes_of c') lv' cs' /\ level_total lv' cs' /\
    core_rep c' (cs' ++ others) /\ same_outside cs.*1 (nodes_of c) (nodes_of c') /\ same_config c c'.

(** A round that ended with the head [(i, o)] unlinked, then the rest. *)
Lemma drain_post_step price taker taker1 lv lv1 c c1 w w1 x cs others r :
  fill now_ns (config_ c) price taker (x :: cs).*2 w = fill now_ns (config_ c) price taker1 cs.*2 w1 ->
  l_price lv1 = l_price lv -> same_outside (x :: cs).*1 (nodes_of c) (nodes_of c1) -> same_config c c1 ->
  drain_post price taker1 lv1 c1 w1 cs others r -> drain_post price taker lv c w (x :: cs) others r.
Proof.
  intros Hf Hp Hso Hcfg (k & t' & lv' & c' & w' & cs' & -> & Hfill & Hpr & Hl & Ht & Hc & Hso' & Hcfg').
  exists k, t', lv', c', w', cs'. split_and!; try done.
  - by rewrite Hf, <- Hfill, Hcfg.
  - congruence.
  - eapply same_outside_trans; [exact Hso|]. eapply same_outside_sub; [|exact Hso']. set_solver.
  - by eapply same_config_trans.
Qed.

(** What a round of the loop relies on. *)
Record drain_pre (taker : Order) (lv : PriceLevel) (c : BookCore) (cs others : cells) : Prop := {
  dp_links : level_links (nodes_of c) lv cs;
  dp_total : level_total lv cs;
  dp_core : core_rep c (cs ++ others);
  dp_positive : positive_orders cs.*2;
  dp_sum : (sum_remaining cs.*2 <= int64_max)%Z;
  dp_taker : (0 <= o_remaining_quantity taker <= int64_max)%Z
}.

(** The loop does what [fill] does on the queue [cs]. *)
Definition drains (price : Price) (cs others : cells) : Prop := forall fuel taker lv c w,
  drain_pre taker lv c cs others -> (length cs + 2 <= fuel)%nat ->
  drain_post price taker lv c w cs others (drain_loop now_ns fuel price taker lv c w).

(** Enter a round with the maker [(i, o)] at the head of the queue. *)
Ltac enter_round Hpre Hz :=
  destruct Hpre as [Hl Ht Hc Hpos Hsum Htk]; pose proof Hl as [Hseg Hhd _ _]; simpl in Hseg, Hhd; destruct Hseg as (Hi & Hg & _);
  unfold level_total in Ht; rewrite fmap_cons in Hpos, Hsum, Ht; cbn [sum_remaining snd] in Hsum, Ht;
  apply Forall_cons in Hpos as [Hpo Hpos]; cbn [snd] in Hpo; pose proof (sum_remaining_nonneg _ Hpos) as Hnn;
  cbn [drain_loop]; rewrite Hhd, (proj2 (N.eqb_neq _ _) Hi), (proj2 (Z.leb_gt _ _) Hz); cbn [orb];
  match type of Hg with vget (nodes_of ?c) ?i = Some ?n => change (pool_at (pool_ c) i = Some n) in Hg end;
  rewrite Hg; cbn [mbind option_bind n_order].

(** A round in which self-trade prevention steps in. *)
Lemma drain_prevented fuel price taker lv c w i o cs others :
  drains price cs others -> drain_pre taker lv c ((i, o) :: cs) others -> (0 < o_remaining_quantity taker)%Z ->
  self_trade (stp_policy_ (config_ c)) taker o = true -> (length cs + 2 <= fuel)%nat ->
  drain_post price taker lv c w ((i, o) :: cs) others (drain_loop now_ns (S fuel) price taker lv c w).
Proof.
  intros IH Hpre Hz Hst Hf. enter_round Hpre Hz. rewrite Hst. rewrite self_trade_prevented in Hst.
  assert (Hnone : stp_policy_ (config_ c) <> STPNone) by (intros Hn; by rewrite Hn in Hst).
  destruct (cancels_resting (stp_policy_ (config_ c))) eqn:Hcr.
  - rewrite sub64_ok by (rewrite Ht; unfold int64_min, int64_max in *; lia). cbn [mbind option_bind].
    destruct (remove_maker_head (set_total (l_total_quantity lv - o_remaining_quantity o) lv) c i o cs others
                ltac:(by apply links_set_total) Hc)
      as (lv1 & c1 & -> & Hpr1 & Htot1 & Hl1 & Hc1 & Hso1 & Hcfg1). cbn [mbind option_bind].
    assert (Ht1 : level_total lv1 cs) by (unfold level_total; rewrite Htot1; simpl; lia).
    assert (Hso : same_outside ((i, o) :: cs).*1 (nodes_of c) (nodes_of c1))
      by (eapply same_outside_sub; [|exact Hso1]; set_solver).
    destruct (cancels_incoming (stp_policy_ (config_ c))) eqn:Hci.
    + assert (Hboth : stp_policy_ (config_ c) = CancelBoth) by (by destruct (stp_policy_ (config_ c))).
      eexists true, taker, lv1, c1, w, cs. split; [done|]. simpl.
      rewrite (proj2 (Z.leb_gt _ _) Hz), Hst, Hboth. split_and!; done.
    + assert (Hres : stp_policy_ (config_ c) = CancelResting) by (by destruct (stp_policy_ (config_ c))).
      eapply (drain_post_step price taker taker lv lv1 c c1 w w); [|done|done|done|].
      { simpl. by rewrite (proj2 (Z.leb_gt _ _) Hz), Hst, Hres. }
      apply IH; [split; try done; lia|lia].
  - assert (Hinc : stp_policy_ (config_ c) = CancelIncoming) by (by destruct (stp_policy_ (config_ c))).
    rewrite Hinc. cbn [mbind option_bind]. eexists true, taker, lv, c, w, ((i, o) :: cs). split; [done|]. simpl.
    rewrite (proj2 (Z.leb_gt _ _) Hz), Hst, Hinc. split_and!; done.
Qed.

(** A round that trades. *)
Lemma drain_traded fuel price taker lv c w i o cs others :
  drains price cs others -> drain_pre taker lv c ((i, o) :: cs) others -> (0 < o_remaining_quantity taker)%Z ->
  self_trade (stp_policy_ (config_ c)) taker o = false -> (length cs + 2 <= fuel)%nat ->
  drain_post price taker lv c w ((i, o) :: cs) others (drain_loop now_ns (S fuel) price taker lv c w).
Proof.
  intros IH Hpre Hz Hst Hf. enter_round Hpre Hz. rewrite Hst. rewrite self_trade_prevented in Hst.
  rewrite emit_records. set (qty := Z.min (o_remaining_quantity taker) (o_remaining_quantity o)).
  assert (Hq : (0 < qty <= o_remaining_quantity taker /\ qty <= o_remaining_quantity o)%Z) by lia.
  rewrite (sub64_ok (o_remaining_quantity taker)) by (unfold int64_min, int64_max in *; lia).
  cbn [mbind option_bind].
  assert (Hndc : NoDup ((i, o) :: cs).*1).
  { pose proof (core_rep_handles _ _ Hc) as Hnd. rewrite fmap_app in Hnd. by apply NoDup_app in Hnd as (? & _ & _). }
  destruct (level_reduce_spec (pool_ c) lv [] i o cs qty Hl Ht Hndc)
    as (lv1 & p1 & -> & Hpr1 & Hl1 & Ht1 & Hso1 & Hfr1); [unfold int64_min, int64_max in *; lia|
      rewrite Ht; unfold int64_min, int64_max in *; lia|].
  cbn [mbind option_bind app] in *. set (o' := set_remaining (o_remaining_quantity o - qty) o) in *.
  pose proof (links_seg _ _ _ Hl1) as Hseg1. simpl in Hseg1. destruct Hseg1 as (_ & Hg1 & _).
  change (pool_at p1 i = Some (mkNode o' kNullIndex (hd_idx kNullIndex cs))) in Hg1.
  rewrite Hg1. cbn [mbind option_bind n_order].
  pose proof (core_rep_update c p1 i o o' (cs ++ others) Hc eq_refl (proj1 Hso1) Hfr1) as Hc1.
  assert (Hso : same_outside ((i, o) :: cs).*1 (nodes_of c) (nodes_of (set_pool p1 c)))
    by (eapply same_outside_sub; [|exact Hso1]; set_solver).
  change (o_remaining_quantity o') with (o_remaining_quantity o - qty)%Z.
  destruct (Z.eqb_spec (o_remaining_quantity o - qty) 0) as [Hzero|Hpart].
  - destruct (remove_maker_head lv1 (set_pool p1 c) i o' cs others Hl1 Hc1)
      as (lv2 & c2 & Hrm & Hpr2 & Htot2 & Hl2 & Hc2 & Hso2 & Hcfg2).
    change (o_id o') with (o_id o) in Hrm. rewrite Hrm. cbn [mbind option_bind].
    eapply (drain_post_step price taker (set_remaining (o_remaining_quantity taker - qty) taker) lv lv2 c c2 w
              (record_trade now_ns (config_ c) taker o price qty w)).
    + simpl. rewrite (proj2 (Z.leb_gt _ _) Hz), Hst. fold qty. by rewrite (proj2 (Z.eqb_eq _ _) Hzero).
    + congruence.
    + eapply same_outside_trans; [exact Hso|]. eapply same_outside_sub; [|exact Hso2]. set_solver.
    + exact Hcfg2.
    + apply IH; [split; try done|lia].
      * unfold level_total in *. rewrite Htot2, Ht1, fmap_cons. cbn [sum_remaining snd]. change (o_remaining_quantity o') with (o_remaining_quantity o - qty)%Z. lia.
      * lia.
      * simpl. lia.
  - cbn [mbind option_bind]. rewrite drain_loop_stop; [|lia|right; simpl; lia].
    eexists _, _, lv1, (set_pool p1 c), _, ((i, o') :: cs). split; [reflexivity|]. simpl.
    rewrite (proj2 (Z.leb_gt _ _) Hz), Hst. fold qty. rewrite (proj2 (Z.eqb_neq _ _) Hpart).
    split_and!; done.
Qed.

Lemma drain_loop_spec price cs others : drains price cs others.
Proof.
  induction cs as [|[i o] cs IH]; intros fuel taker lv c w Hpre Hf.
  { rewrite drain_loop_stop; [|lia|left; apply (links_head _ _ _ (dp_links _ _ _ _ _ Hpre))].
    destruct Hpre. by eexists false, taker, lv, c, w, []. }
  destruct (Z.leb_spec (o_remaining_quantity taker) 0) as [Hz|Hz].
  { rewrite drain_loop_stop; [|lia|by right]. destruct Hpre.
    eexists false, taker, lv, c, w, ((i, o) :: cs). simpl. rewrite (proj2 (Z.leb_le _ _) Hz). split_and!; done. }
  destruct fuel as [|fuel]; [simpl in Hf; lia|]. simpl in Hf.
  destruct (self_trade (stp_policy_ (config_ c)) taker o) eqn:Hst; [apply drain_prevented|apply drain_traded]; try done; lia.
Qed.

Lemma drain_level_spec price taker lv c w cs others :
  level_links (nodes_of c) lv cs -> level_total lv cs -> core_rep c (cs ++ others) ->
  positive_orders cs.*2 -> (sum_remaining cs.*2 <= int64_max)%Z ->
  (0 <= o_remaining_quantity taker <= int64_max)%Z ->
  drain_post price taker lv c w cs others (drain_level now_ns price taker lv c w).
Proof.
  intros Hl Ht Hc Hpos Hsum Htk. apply drain_loop_spec; [by split|].
  pose proof (pool_inv_length _ _ (core_pool _ _ Hc)) as Hlen.
  rewrite length_fmap, length_app in Hlen. lia.
Qed.

(** An empty level has no order left and is as freshly cleared. *)
Lemma links_empty ns lv cs : level_links ns lv cs -> level_total lv cs ->
  level_empty lv = bool_decide (cs = []) /\
  (cs = [] -> lv = set_price (l_price lv) default_level).
Proof.
  intros [_ Hh Ht Hc] Htot. unfold level_empty. rewrite Hc. split.
  - destruct cs; [done|]. rewrite bool_decide_eq_false_2 by done. by apply N.eqb_neq.
  - intros ->. unfold level_total in Htot. destruct lv. simpl in *. by subst.
Qed.
End refinement.

#[global] Arguments drain_level : simpl never.
