(* ===== verification/BookSpec.v ===== *)
(** The abstract order book: what the three implementations promise.

    A side of the book is a list of price levels, best first; a level is a
    price and the FIFO queue of the orders resting at it.  There is no pool, no
    hash map and no cached aggregate.  The operations below are the contract
    of [add_order], [cancel_order], [amend_order] and [reset] on every branch,
    rejections included; [in_range] is the price check that only
    [OrderBookArray] makes (the other two books accept every price). *)

From S2P Require Import Prelude Types OrderPool BookCore.

Abbreviation level := (Z * list Order)%type.

Record abook := mkABook {
  a_bids : list level;
  a_asks : list level
}.

Definition empty_abook : abook := mkABook [] [].

Definition side_of (s : Side) (a : abook) : list level :=
  match s with Buy => a_bids a | Sell => a_asks a end.

Definition set_side (s : Side) (ls : list level) (a : abook) : abook :=
  match s with Buy => mkABook ls (a_asks a) | Sell => mkABook (a_bids a) ls end.

(** [before s p p']: on side [s], price [p] has strict priority over [p']. *)
Definition before (s : Side) (p p' : Price) : bool :=
  match s with Buy => (p' <? p)%Z | Sell => (p <? p')%Z end.

(** A taker accepts to trade at price [p]: always for a market order, within
    the limit otherwise. *)
Definition acceptable (taker : Order) (p : Price) : bool :=
  bool_decide (o_type taker = Market) ||
  match o_side taker with
  | Buy => (p <=? o_price taker)%Z
  | Sell => (o_price taker <=? p)%Z
  end.

Definition level_orders (ls : list level) : list Order := mjoin ls.*2.

Definition orders (a : abook) : list Order := level_orders (a_bids a) ++ level_orders (a_asks a).

Definition find_order (id : OrderId) (os : list Order) : option Order :=
  head (filter (fun o => o_id o = id) os).

(** The quantity resting at the prices a taker accepts, best level first. *)
Fixpoint available (taker : Order) (ls : list level) : Z :=
  match ls with
  | [] => 0
  | (p, q) :: ls' => if acceptable taker p then sum_remaining q + available taker ls' else 0
  end.

(** Resting an order at the tail of its level, the level created in its place
    when there is none. *)
Fixpoint insert_order (s : Side) (o : Order) (ls : list level) : list level :=
  match ls with
  | [] => [(o_price o, [o])]
  | (p, q) :: ls' =>
      if (p =? o_price o)%Z then (p, q ++ [o]) :: ls'
      else if before s p (o_price o) then (p, q) :: insert_order s o ls'
      else (o_price o, [o]) :: ls
  end.

Definition keep_level (p : Price) (q : list Order) : list level :=
  match q with [] => [] | _ => [(p, q)] end.

(** Removing an order, and its level with the last order. *)
Definition remove_order (id : OrderId) (ls : list level) : list level :=
  ls ≫= (fun l : level => keep_level l.1 (filter (fun o => o_id o <> id) l.2)).

Definition update_order (id : OrderId) (f : Order -> Order) (ls : list level) : list level :=
  (fun l : level => (l.1, (fun o => if decide (o_id o = id) then f o else o) <$> l.2)) <$> ls.

Section operations.
Context (now_ns : nat -> Timestamp) (cfg : Config) (in_range : Price -> bool).

(** Matching a taker against the levels of the opposite side, best first. *)
Fixpoint sweep (taker : Order) (ls : list level) (w : World) : bool * Order * list level * World :=
  match ls with
  | [] => (false, taker, [], w)
  | (p, q) :: ls' =>
      if (o_remaining_quantity taker <=? 0)%Z || negb (acceptable taker p) then (false, taker, ls, w)
      else
        let '(killed, taker1, q1, w1) := fill now_ns cfg p taker q w in
        if killed then (true, taker1, keep_level p q1 ++ ls', w1)
        else match q1 with
             | [] => sweep taker1 ls' w1
             | _ => (false, taker1, (p, q1) :: ls', w1)
             end
  end.

Definition reject (id : OrderId) (r : RejectReason) : ExecutionReport := mkReport id Rejected 0 0 r.

(** Only good-till-cancelled limit orders come to rest. *)
Definition may_rest (o : Order) : bool := bool_decide (o_type o = Limit /\ o_time_in_force o = GTC).

(** What happens to a taker once it has been matched. *)
Definition settle (o taker : Order) (killed : bool) (a : abook) : ExecutionReport * abook :=
  let filled := (o_quantity o - o_remaining_quantity taker)%Z in
  if (o_remaining_quantity taker =? 0)%Z then (mkReport (o_id o) Filled filled 0 RNone, a)
  else if negb killed && may_rest o then
    (mkReport (o_id o) (if (0 <? filled)%Z then PartiallyFilled else New) filled
       (o_remaining_quantity taker) RNone,
     set_side (o_side o) (insert_order (o_side o) taker (side_of (o_side o) a)) a)
  else (mkReport (o_id o) Cancelled filled 0 RNone, a).

Definition spec_add (a : abook) (o : Order) (w : World) : ExecutionReport * abook * World :=
  if (o_quantity o <=? 0)%Z then (reject (o_id o) InvalidQuantity, a, w)
  else if bool_decide (o_type o = Limit) && (o_price o <=? 0)%Z then (reject (o_id o) InvalidPrice, a, w)
  else if bool_decide (o_type o = Limit) && negb (in_range (o_price o)) then
    (reject (o_id o) PriceOutOfRange, a, w)
  else if negb (o_id o =? kInvalidOrderId)%N && bool_decide (o_id o ∈ o_id <$> orders a) then
    (reject (o_id o) DuplicateOrderId, a, w)
  else if bool_decide (o_time_in_force o = FOK) &&
          (available o (side_of (opposite (o_side o)) a) <? o_quantity o)%Z then
    (mkReport (o_id o) Cancelled 0 0 RNone, a, w)
  else
    let opp := opposite (o_side o) in
    let '(killed, taker, ls, w1) := sweep (set_remaining (o_quantity o) o) (side_of opp a) w in
    let '(report, a1) := settle o taker killed (set_side opp ls a) in
    (report, a1, w1).

Definition spec_cancel (a : abook) (id : OrderId) : bool * abook :=
  match find_order id (orders a) with
  | None => (false, a)
  | Some o => (true, set_side (o_side o) (remove_order id (side_of (o_side o) a)) a)
  end.

(** The replacement submitted by an amend that loses time priority. *)
Definition replacement (o : Order) (new_quantity : Quantity) (price : Price) (ts : Timestamp) : Order :=
  mkOrder (o_id o) price new_quantity new_quantity ts (o_symbol o) (o_participant_id o) (o_side o)
    (o_type o) (o_time_in_force o).

Definition spec_amend (a : abook) (id : OrderId) (new_quantity : Quantity) (new_price : option Price) (w : World)
    : ExecutionReport * abook * World :=
  match find_order id (orders a) with
  | None => (reject id UnknownOrder, a, w)
  | Some o =>
      if (new_quantity <=? 0)%Z then (reject id InvalidQuantity, a, w)
      else if negb (default true (in_range <$> new_price)) then (reject id PriceOutOfRange, a, w)
      else
        let price := default (o_price o) new_price in
        if (price =? o_price o)%Z && (new_quantity <=? o_remaining_quantity o)%Z then
          (mkReport id New 0 new_quantity RNone,
           set_side (o_side o) (update_order id (set_remaining new_quantity) (side_of (o_side o) a)) a, w)
        else
          spec_add (spec_cancel a id).2 (replacement o new_quantity price (now_ns (w_reads w)))
            (mkWorld (S (w_reads w)) (w_trades w))
  end.
End operations.

Lemma may_rest_eq o : may_rest o = rests_in_book o.
Proof. unfold may_rest, rests_in_book. repeat case_bool_decide; naive_solver. Qed.

(** Observations. *)
Definition best (s : Side) (a : abook) : option Price := head (side_of s a).*1.

Definition depth (s : Side) (n : nat) (a : abook) : list PriceLevelView :=
  take n ((fun l : level => mkView l.1 (sum_remaining l.2) (N.of_nat (length l.2))) <$> side_of s a).

(** * Well-formed books *)

Definition resting_ok (s : Side) (p : Price) (o : Order) : Prop :=
  o_price o = p /\ o_side o = s /\ (0 < o_remaining_quantity o)%Z /\ rests_in_book o = true /\
  o_id o <> kInvalidOrderId.

Definition level_ok (s : Side) (l : level) : Prop :=
  l.2 <> [] /\ (0 < l.1)%Z /\ Forall (resting_ok s l.1) l.2.

(** Levels strictly ordered by price, none empty, and the side's quantity
    within [Quantity]. *)
Record side_ok (s : Side) (ls : list level) : Prop := {
  side_sorted : StronglySorted (fun p p' => before s p p' = true) ls.*1;
  side_levels : Forall (level_ok s) ls;
  side_total : (sum_remaining (level_orders ls) <= int64_max)%Z
}.

(** The best bid is below the best ask. *)
Definition uncrossed (a : abook) : Prop :=
  forall b k, best Buy a = Some b -> best Sell a = Some k -> (b < k)%Z.

Record abook_ok (a : abook) : Prop := {
  abook_sides : forall s, side_ok s (side_of s a);
  abook_ids : NoDup (o_id <$> orders a);
  abook_uncrossed : uncrossed a
}.

(** * What a caller must respect

    Order ids are not the null id, and the quantities resting on one side of
    the book plus the new one fit a [Quantity]; fewer orders rest than there
    are pool handles. *)
Record add_pre (a : abook) (o : Order) : Prop := {
  pre_id : o_id o <> kInvalidOrderId;
  pre_total : (sum_remaining (level_orders (side_of (o_side o) a)) + o_quantity o <= int64_max)%Z;
  pre_room : (N.of_nat (length (orders a)) < kNullIndex)%N
}.

Record amend_pre (a : abook) (id : OrderId) (new_quantity : Quantity) : Prop := {
  pre_amend_total : forall o, find_order id (orders a) = Some o ->
    (sum_remaining (level_orders (side_of (o_side o) a)) + new_quantity <= int64_max)%Z;
  pre_amend_room : (N.of_nat (length (orders a)) < kNullIndex)%N
}.
