(* ===== verification/BookSpecFacts.v ===== *)
(** Facts about the abstract order book (BookSpec.v): what matching leaves of a
    queue and of a side, and that every operation keeps the book well formed
    ([abook_ok]). *)

From S2P Require Import Prelude Types OrderPool BookCore BookSpec.

(** * What matching leaves of a queue

    Matching consumes a prefix, and may reduce the first order that stays. *)
Definition leftover (q q' : list Order) : Prop :=
  exists pre, q = pre ++ q' \/
    exists m r rest, q = pre ++ m :: rest /\ q' = set_remaining r m :: rest /\
      (0 < r < o_remaining_quantity m)%Z.

Lemma leftover_refl q : leftover q q.
Proof. exists []. by left. Qed.

Lemma leftover_nil q : leftover q [].
Proof. exists q. left. by rewrite app_nil_r. Qed.

Lemma leftover_skip pre q q' : leftover q q' -> leftover (pre ++ q) q'.
Proof.
  intros (l & [->|(m & r & rest & -> & -> & H)]); exists (pre ++ l).
  - left. by rewrite app_assoc.
  - right. exists m, r, rest. by rewrite app_assoc.
Qed.

Lemma leftover_cons m q q' : leftover q q' -> leftover (m :: q) q'.
Proof. apply (leftover_skip [m]). Qed.

Lemma leftover_app q q' tl : leftover q q' -> leftover (q ++ tl) (q' ++ tl).
Proof.
  intros (l & [->|(m & r & rest & -> & -> & H)]); exists l.
  - left. by rewrite app_assoc.
  - right. exists m, r, (rest ++ tl). by rewrite <- app_assoc.
Qed.

Lemma leftover_ids q q' : leftover q q' -> (o_id <$> q') `sublist_of` (o_id <$> q).
Proof.
  intros (l & [->|(m & r & rest & -> & -> & H)]); rewrite fmap_app.
  - by apply sublist_inserts_l.
  - rewrite !fmap_cons. by apply sublist_inserts_l.
Qed.

Lemma leftover_positive q q' : leftover q q' -> positive_orders q -> positive_orders q'.
Proof.
  unfold positive_orders. intros (l & [->|(m & r & rest & -> & -> & H)]); rewrite Forall_app; [tauto|].
  rewrite !Forall_cons. simpl. naive_solver lia.
Qed.

Lemma leftover_sum q q' : leftover q q' -> positive_orders q -> (sum_remaining q' <= sum_remaining q)%Z.
Proof.
  unfold positive_orders. intros (l & [->|(m & r & rest & -> & -> & H)]); rewrite Forall_app, sum_remaining_app;
    intros [Hl%sum_remaining_nonneg Hr]; simpl; lia.
Qed.

Lemma leftover_Forall (P : Order -> Prop) q q' :
  (forall m r, P m -> (0 < r)%Z -> P (set_remaining r m)) -> leftover q q' -> Forall P q -> Forall P q'.
Proof.
  intros HP (l & [->|(m & r & rest & -> & -> & H)]); rewrite Forall_app; [tauto|].
  rewrite !Forall_cons. naive_solver lia.
Qed.

Lemma resting_ok_set s p m r : resting_ok s p m -> (0 < r)%Z -> resting_ok s p (set_remaining r m).
Proof. unfold resting_ok. naive_solver. Qed.

(** The same for the levels of a side. *)
Definition levels_leftover (ls ls' : list level) : Prop :=
  exists pre, ls = pre ++ ls' \/
    exists p q q' rest, ls = pre ++ (p, q) :: rest /\ ls' = (p, q') :: rest /\ leftover q q' /\ q' <> [].

Lemma levels_leftover_refl ls : levels_leftover ls ls.
Proof. exists []. by left. Qed.

Lemma levels_leftover_cons l ls ls' : levels_leftover ls ls' -> levels_leftover (l :: ls) ls'.
Proof.
  intros (pre & [->|(p & q & q' & rest & -> & -> & H)]); exists (l :: pre); [by left|].
  right. by exists p, q, q', rest.
Qed.

Lemma level_orders_app ls1 ls2 : level_orders (ls1 ++ ls2) = level_orders ls1 ++ level_orders ls2.
Proof. unfold level_orders. by rewrite fmap_app, join_app. Qed.

Lemma level_orders_cons p q ls : level_orders ((p, q) :: ls) = q ++ level_orders ls.
Proof. done. Qed.

Lemma levels_leftover_orders ls ls' :
  levels_leftover ls ls' -> leftover (level_orders ls) (level_orders ls').
Proof.
  intros (pre & [->|(p & q & q' & rest & -> & -> & H & _)]); rewrite level_orders_app; apply leftover_skip.
  - apply leftover_refl.
  - rewrite !level_orders_cons. by apply leftover_app.
Qed.

Section matching.
Context (now_ns : nat -> Timestamp) (cfg : Config).

(** * One queue *)

Record fill_spec (p : Price) (taker : Order) (q : list Order) (w : World)
    (killed : bool) (taker' : Order) (q' : list Order) (w' : World) : Prop := {
  fill_taker : taker' = set_remaining (o_remaining_quantity taker') taker;
  fill_range : (0 <= o_remaining_quantity taker' <= o_remaining_quantity taker)%Z;
  fill_left : leftover q q';
  fill_exhausted : killed = false -> q' <> [] -> o_remaining_quantity taker' = 0%Z;
  fill_killed : killed = true -> (0 < o_remaining_quantity taker')%Z
}.

Lemma fill_facts p taker q w killed taker' q' w' :
  positive_orders q -> (0 <= o_remaining_quantity taker)%Z ->
  fill now_ns cfg p taker q w = (killed, taker', q', w') ->
  fill_spec p taker q w killed taker' q' w'.
Proof.
  intros Hpos. revert taker w. induction Hpos as [|m q Hm Hpos IH]; intros taker w Htk; simpl.
  { intros [= <- <- <- <-]. split; try done; [by rewrite set_remaining_id|apply leftover_refl]. }
  destruct (Z.leb_spec (o_remaining_quantity taker) 0) as [Hz|Hz].
  { intros [= <- <- <- <-]. split; try done; [by rewrite set_remaining_id|apply leftover_refl|lia]. }
  destruct (prevented (stp_policy_ cfg) taker m) eqn:Hst.
  - destruct (stp_policy_ cfg) eqn:Hp.
    + done.
    + intros Hf. apply IH in Hf; [|done]. destruct Hf. split; try done. by apply leftover_cons.
    + intros [= <- <- <- <-]. split; try done; [by rewrite set_remaining_id|apply leftover_refl].
    + intros [= <- <- <- <-]. split; try done; [by rewrite set_remaining_id|].
      apply leftover_cons, leftover_refl.
  - set (qty := Z.min _ _). assert (Hq : (0 < qty)%Z) by lia.
    destruct (Z.eqb_spec (o_remaining_quantity m - qty) 0) as [Hzero|Hpart].
    + intros Hf. apply IH in Hf; [|simpl; lia]. destruct Hf as [H1 H2 H3 H4 H5]. simpl in *.
      split; try done; [lia|by apply leftover_cons].
    + intros [= <- <- <- <-]. split; simpl; try done; [lia| |lia].
      exists []. right. exists m, (o_remaining_quantity m - qty)%Z, q. split_and!; try done; lia.
Qed.

(** * One side *)

Record sweep_spec (taker : Order) (ls : list level)
    (killed : bool) (taker' : Order) (ls' : list level) : Prop := {
  sweep_taker : taker' = set_remaining (o_remaining_quantity taker') taker;
  sweep_range : (0 <= o_remaining_quantity taker' <= o_remaining_quantity taker)%Z;
  sweep_left : levels_leftover ls ls';
  sweep_stop : killed = false -> (0 < o_remaining_quantity taker')%Z ->
    match ls' with [] => True | l :: _ => acceptable taker l.1 = false end;
  sweep_killed : killed = true -> (0 < o_remaining_quantity taker')%Z
}.

Lemma acceptable_set_remaining r taker p : acceptable (set_remaining r taker) p = acceptable taker p.
Proof. done. Qed.

Lemma sweep_facts taker ls w killed taker' ls' w' :
  positive_orders (level_orders ls) -> (0 <= o_remaining_quantity taker)%Z ->
  sweep now_ns cfg taker ls w = (killed, taker', ls', w') ->
  sweep_spec taker ls killed taker' ls'.
Proof.
  revert taker w. induction ls as [|[p q] ls IH]; intros taker w Hpos Htk; simpl.
  { intros [= <- <- <- <-]. split; try done; [by rewrite set_remaining_id|apply levels_leftover_refl]. }
  destruct (Z.leb_spec (o_remaining_quantity taker) 0) as [Hz|Hz]; simpl.
  { intros [= <- <- <- <-]. split; try done; [by rewrite set_remaining_id|apply levels_leftover_refl|lia]. }
  destruct (acceptable taker p) eqn:Hacc; simpl.
  2: { intros [= <- <- <- <-]. split; try done; [by rewrite set_remaining_id|apply levels_leftover_refl]. }
  apply Forall_app in Hpos as [Hq Hls].
  destruct (fill now_ns cfg p taker q w) as [[[k1 t1] q1] w1] eqn:Hf.
  apply fill_facts in Hf as [F1 F2 F3 F4 F5]; [|done|done].
  destruct k1.
  - intros [= <- <- <- <-]. split; try done.
    destruct q1 as [|m q1]; simpl; [apply levels_leftover_cons, levels_leftover_refl|].
    exists []. right. by exists p, q, (m :: q1), ls.
  - destruct q1 as [|m q1].
    + intros Hs. apply IH in Hs as [S1 S2 S3 S4 S5]; [|done|lia]. split; try done.
      * by rewrite S1 at 1; rewrite F1 at 1.
      * lia.
      * by apply levels_leftover_cons.
      * intros Hk Hr. specialize (S4 Hk Hr). destruct ls' as [|l ls']; [done|].
        by rewrite F1, acceptable_set_remaining in S4.
    + intros [= <- <- <- <-]. assert (F0 : o_remaining_quantity t1 = 0%Z) by (by apply F4).
      split; try done; [|lia]. exists []. right. by exists p, q, (m :: q1), ls.
Qed.
End matching.

(** * Well-formedness of one side *)

Lemma before_trans s p1 p2 p3 : before s p1 p2 = true -> before s p2 p3 = true -> before s p1 p3 = true.
Proof. destruct s; simpl; rewrite !Z.ltb_lt; lia. Qed.

Lemma before_irrefl s p : before s p p = false.
Proof. destruct s; simpl; apply Z.ltb_irrefl. Qed.

Lemma before_total s p p' : before s p p' = false -> p <> p' -> before s p' p = true.
Proof. destruct s; simpl; rewrite Z.ltb_ge, Z.ltb_lt; lia. Qed.

Lemma before_asym s p p' : before s p p' = true -> before s p' p = false.
Proof. destruct s; simpl; rewrite Z.ltb_ge, Z.ltb_lt; lia. Qed.

Lemma before_opposite s p p' : before (opposite s) p p' = before s p' p.
Proof. by destruct s. Qed.

Lemma level_ok_positive s ls : Forall (level_ok s) ls -> positive_orders (level_orders ls).
Proof.
  induction 1 as [|[p q] ls (_ & _ & Hq) _ IH]; [by constructor|]. rewrite level_orders_cons.
  apply Forall_app. split; [|done]. eapply Forall_impl; [exact Hq|]. unfold resting_ok. naive_solver.
Qed.

Lemma side_ok_positive s ls : side_ok s ls -> positive_orders (level_orders ls).
Proof. intros H. eapply level_ok_positive, H. Qed.

Lemma side_ok_nil s : side_ok s [].
Proof. split; [constructor|constructor|done]. Qed.

Lemma StronglySorted_suffix {A} (R : A -> A -> Prop) l1 l2 : StronglySorted R (l1 ++ l2) -> StronglySorted R l2.
Proof. induction l1 as [|x l1 IH]; simpl; [done|]. intros H. inversion H. auto. Qed.

Lemma side_ok_leftover s ls ls' : levels_leftover ls ls' -> side_ok s ls -> side_ok s ls'.
Proof.
  intros Hl [H1 H2 H3]. pose proof (leftover_sum _ _ (levels_leftover_orders _ _ Hl) (level_ok_positive s ls H2)).
  split; [| |lia]; destruct Hl as (pre & [->|(p & q & q' & rest & -> & -> & Hl & Hne)]).
  - rewrite fmap_app in H1. by eapply StronglySorted_suffix.
  - rewrite fmap_app in H1. by eapply StronglySorted_suffix in H1.
  - by apply Forall_app in H2 as [_ ?].
  - apply Forall_app in H2 as [_ H2]. apply Forall_cons in H2 as [(Hn & Hp & Hq) H2].
    constructor; [|done]. split_and!; [done|done|]. simpl in *.
    eapply leftover_Forall; [|exact Hl|exact Hq]. intros m r. apply resting_ok_set.
Qed.

Lemma levels_leftover_best ls ls' s p :
  levels_leftover ls ls' -> StronglySorted (fun p p' => before s p p' = true) ls.*1 -> head ls'.*1 = Some p ->
  exists p0, head ls.*1 = Some p0 /\ before s p p0 = false.
Proof.
  intros Hl Hs Hh.
  assert (Hsuf : exists pre tl, ls.*1 = pre ++ p :: tl).
  { destruct Hl as (pre & [->|(p' & q & q' & rest & -> & -> & _)]); exists pre.*1; rewrite fmap_app.
    - destruct ls'.*1 as [|x tl]; simpl in Hh; naive_solver.
    - simpl in Hh. naive_solver. }
  destruct Hsuf as (pre & tl & Heq). rewrite Heq in *. destruct pre as [|x pre]; simpl in *.
  - exists p. split; [done|]. apply before_irrefl.
  - exists x. split; [done|]. apply before_asym. inversion Hs as [|? ? _ Hall]; subst.
    apply Forall_app in Hall as [_ Hall]. by apply Forall_cons in Hall as [? _].
Qed.

(** ** Resting an order *)

Lemma insert_order_orders s o ls : level_orders (insert_order s o ls) ≡ₚ o :: level_orders ls.
Proof.
  induction ls as [|[p q] ls IH]; simpl; [done|]. repeat case_match; rewrite !level_orders_cons.
  - rewrite <- app_assoc. simpl. by rewrite <- Permutation_middle.
  - rewrite IH. by rewrite <- Permutation_middle.
  - done.
Qed.

Lemma insert_order_keys s o ls x : x ∈ (insert_order s o ls).*1 -> x = o_price o \/ x ∈ ls.*1.
Proof.
  induction ls as [|[p q] ls IH]; simpl; [set_solver|]. repeat case_match; simpl; set_solver.
Qed.

Lemma insert_order_sorted s o ls :
  StronglySorted (fun p p' => before s p p' = true) ls.*1 ->
  StronglySorted (fun p p' => before s p p' = true) (insert_order s o ls).*1.
Proof.
  induction ls as [|[p q] ls IH]; simpl; intros Hs; [by repeat constructor|].
  inversion Hs as [|? ? Hs' Hall]; subst.
  destruct (Z.eqb_spec p (o_price o)) as [->|Hne]; [done|].
  destruct (before s p (o_price o)) eqn:Hb; simpl.
  - constructor; [by apply IH|]. apply Forall_forall. intros x [->|Hx]%insert_order_keys; [done|].
    by eapply Forall_forall in Hall.
  - pose proof (before_total _ _ _ Hb Hne) as Hb'. constructor; [done|]. constructor; [done|].
    eapply Forall_impl; [exact Hall|]. simpl. intros x. by apply before_trans.
Qed.

Lemma insert_order_levels s o ls :
  resting_ok s (o_price o) o -> (0 < o_price o)%Z -> Forall (level_ok s) ls ->
  Forall (level_ok s) (insert_order s o ls).
Proof.
  intros Ho Hp. induction 1 as [|[p q] ls (Hn & Hp' & Hq) Hls IH]; simpl.
  - constructor; [|done]. split_and!; [done|done|by constructor].
  - destruct (Z.eqb_spec p (o_price o)) as [->|Hne]; [|destruct (before s p (o_price o))].
    + constructor; [|done]. split_and!; [by destruct q|done|]. simpl in *.
      apply Forall_app. split; [done|by constructor].
    + constructor; [by split_and!|done].
    + constructor; [split_and!; [done|done|by constructor]|]. constructor; [by split_and!|done].
Qed.

Lemma insert_order_ok s o ls :
  resting_ok s (o_price o) o -> (0 < o_price o)%Z ->
  (sum_remaining (level_orders ls) + o_remaining_quantity o <= int64_max)%Z ->
  side_ok s ls -> side_ok s (insert_order s o ls).
Proof.
  intros Ho Hp Hsum [H1 H2 H3]. split; [by apply insert_order_sorted|by apply insert_order_levels|].
  assert (Hperm : forall l1 l2 : list Order, l1 ≡ₚ l2 -> sum_remaining l1 = sum_remaining l2)
    by (induction 1; simpl; lia).
  rewrite (Hperm _ _ (insert_order_orders s o ls)). simpl. lia.
Qed.

Lemma insert_order_best s o ls p :
  head (insert_order s o ls).*1 = Some p -> p = o_price o \/ head ls.*1 = Some p.
Proof. destruct ls as [|[p' q] ls]; simpl; repeat case_match; simpl; naive_solver. Qed.

(** ** Removing an order *)

Lemma remove_order_cons id p q ls :
  remove_order id ((p, q) :: ls) = keep_level p (filter (fun o => o_id o <> id) q) ++ remove_order id ls.
Proof. done. Qed.

Lemma keep_level_orders p q : level_orders (keep_level p q) = q.
Proof. destruct q; unfold level_orders; simpl; [done|]. by rewrite app_nil_r. Qed.

Lemma remove_order_orders id ls :
  level_orders (remove_order id ls) = filter (fun o => o_id o <> id) (level_orders ls).
Proof.
  induction ls as [|[p q] ls IH]; [done|]. rewrite remove_order_cons, level_orders_app, level_orders_cons.
  by rewrite keep_level_orders, IH, filter_app.
Qed.

Lemma remove_order_keys id ls : (remove_order id ls).*1 `sublist_of` ls.*1.
Proof.
  induction ls as [|[p q] ls IH]; [done|]. rewrite remove_order_cons, fmap_app, fmap_cons.
  destruct (filter _ q); simpl; [by apply sublist_cons|by apply sublist_skip].
Qed.

Lemma sublist_Forall {A} (P : A -> Prop) l l' : l' `sublist_of` l -> Forall P l -> Forall P l'.
Proof. rewrite !Forall_forall. intros Hs H x Hx. apply H. by eapply elem_of_sublist. Qed.

Lemma sublist_sorted {A} (R : A -> A -> Prop) l l' : l' `sublist_of` l -> StronglySorted R l -> StronglySorted R l'.
Proof.
  induction 1 as [|x l1 l2 Hs IH|x l1 l2 Hs IH]; intros H; [done| |]; inversion H as [|? ? H1 H2]; subst; [|auto].
  constructor; [auto|]. by eapply sublist_Forall.
Qed.

Lemma sum_remaining_sublist l l' : l' `sublist_of` l -> positive_orders l -> (sum_remaining l' <= sum_remaining l)%Z.
Proof.
  induction 1 as [|x l1 l2 Hs IH|x l1 l2 Hs IH]; intros H; simpl; [done| |]; apply Forall_cons in H as [? H];
    specialize (IH H); lia.
Qed.

Lemma filter_sublist {A} (P : A -> Prop) `{!forall x, Decision (P x)} (l : list A) : filter P l `sublist_of` l.
Proof.
  induction l as [|x l IH]; [done|]. rewrite filter_cons. case_decide; [by apply sublist_skip|by apply sublist_cons].
Qed.

Lemma remove_order_ok s id ls : side_ok s ls -> side_ok s (remove_order id ls).
Proof.
  intros [H1 H2 H3]. split.
  - eapply sublist_sorted; [apply remove_order_keys|done].
  - clear H1 H3. induction H2 as [|[p q] ls (Hn & Hp & Hq) Hls IH]; [constructor|].
    rewrite remove_order_cons. apply Forall_app. split; [|done]. simpl in *.
    assert (Hf : Forall (resting_ok s p) (filter (fun o => o_id o <> id) q))
      by (eapply sublist_Forall; [apply filter_sublist|done]).
    destruct (filter _ q) as [|m q'] eqn:E; simpl; [done|]. constructor; [|done]. by split_and!.
  - rewrite remove_order_orders.
    pose proof (sum_remaining_sublist _ _ (filter_sublist (fun o => o_id o <> id) (level_orders ls))
                  (level_ok_positive s ls H2)). lia.
Qed.

(** ** Reducing an order in place *)

Lemma update_order_keys id f ls : (update_order id f ls).*1 = ls.*1.
Proof. unfold update_order. rewrite <- list_fmap_compose. by apply list_fmap_ext. Qed.

Lemma update_order_orders id f ls :
  level_orders (update_order id f ls) = (fun o => if decide (o_id o = id) then f o else o) <$> level_orders ls.
Proof.
  induction ls as [|[p q] ls IH]; [done|].
  change (update_order id f ((p, q) :: ls)) with
    ((p, (fun o => if decide (o_id o = id) then f o else o) <$> q) :: update_order id f ls).
  by rewrite !level_orders_cons, IH, fmap_app.
Qed.

Lemma update_order_ids id f ls :
  (forall o, o_id (f o) = o_id o) -> o_id <$> level_orders (update_order id f ls) = o_id <$> level_orders ls.
Proof.
  intros Hf. rewrite update_order_orders, <- list_fmap_compose. apply list_fmap_ext.
  intros _ o _. simpl. case_decide; [apply Hf|done].
Qed.

Lemma sum_remaining_update id r os :
  (forall o, o ∈ os -> o_id o = id -> (r <= o_remaining_quantity o)%Z) ->
  (sum_remaining ((fun o => if decide (o_id o = id) then set_remaining r o else o) <$> os) <= sum_remaining os)%Z.
Proof.
  induction os as [|o os IH]; intros Hle; [done|].
  rewrite fmap_cons. cbn [sum_remaining]. assert (IH' := IH ltac:(intros; apply Hle; [by right|done])).
  case_decide; [|lia]. cbn [o_remaining_quantity set_remaining]. pose proof (Hle o ltac:(by left) ltac:(done)). lia.
Qed.

Lemma update_order_ok s id r ls :
  (0 < r)%Z -> (forall o, o ∈ level_orders ls -> o_id o = id -> (r <= o_remaining_quantity o)%Z) ->
  side_ok s ls -> side_ok s (update_order id (set_remaining r) ls).
Proof.
  intros Hr Hle [H1 H2 H3]. split.
  - by rewrite update_order_keys.
  - unfold update_order. apply Forall_fmap. eapply Forall_impl; [exact H2|].
    intros [p q] (Hn & Hp & Hq). simpl in *. split_and!; [by destruct q|done|]. simpl. apply Forall_fmap.
    eapply Forall_impl; [exact Hq|]. intros o Ho. simpl. case_decide; [by apply resting_ok_set|done].
  - enough (sum_remaining (level_orders (update_order id (set_remaining r) ls)) <= sum_remaining (level_orders ls))%Z
      by lia.
    rewrite update_order_orders. by apply sum_remaining_update.
Qed.

(** * Well-formedness of the book *)

Lemma side_of_set_same s ls a : side_of s (set_side s ls a) = ls.
Proof. by destruct s. Qed.

Lemma side_of_set_other s s' ls a : s <> s' -> side_of s (set_side s' ls a) = side_of s a.
Proof. by destruct s, s'. Qed.

Lemma side_of_set_opp s ls a : side_of s (set_side (opposite s) ls a) = side_of s a.
Proof. by destruct s. Qed.

Lemma side_of_opp_set s ls a : side_of (opposite s) (set_side s ls a) = side_of (opposite s) a.
Proof. by destruct s. Qed.

Lemma set_side_id s a : set_side s (side_of s a) a = a.
Proof. by destruct s, a. Qed.

Lemma orders_sides s a : orders a ≡ₚ level_orders (side_of s a) ++ level_orders (side_of (opposite s) a).
Proof. destruct s; [done|]. apply Permutation_app_comm. Qed.

Lemma orders_set_side s ls a :
  orders (set_side s ls a) ≡ₚ level_orders ls ++ level_orders (side_of (opposite s) a).
Proof. rewrite (orders_sides s), side_of_set_same, side_of_opp_set. done. Qed.

(** [uncrossed] seen from either side. *)
Lemma uncrossed_sides s a :
  uncrossed a <-> forall p p', best s a = Some p -> best (opposite s) a = Some p' -> before s p' p = true.
Proof.
  unfold uncrossed. destruct s; simpl; setoid_rewrite Z.ltb_lt; naive_solver.
Qed.

Lemma abook_ok_intro s a :
  side_ok s (side_of s a) -> side_ok (opposite s) (side_of (opposite s) a) ->
  NoDup (o_id <$> level_orders (side_of s a) ++ level_orders (side_of (opposite s) a)) ->
  (forall p p', best s a = Some p -> best (opposite s) a = Some p' -> before s p' p = true) ->
  abook_ok a.
Proof.
  intros H1 H2 H3 H4. split.
  - intros s'. destruct s, s'; done.
  - by rewrite (orders_sides s).
  - by apply (uncrossed_sides s).
Qed.

Lemma abook_ok_elim s a :
  abook_ok a ->
  side_ok s (side_of s a) /\ side_ok (opposite s) (side_of (opposite s) a) /\
  NoDup (o_id <$> level_orders (side_of s a) ++ level_orders (side_of (opposite s) a)) /\
  (forall p p', best s a = Some p -> best (opposite s) a = Some p' -> before s p' p = true).
Proof.
  intros [H1 H2 H3]. split_and!; [apply H1|apply H1| |by apply (uncrossed_sides s)].
  by rewrite <- (orders_sides s).
Qed.

(** Shrinking one side keeps the book well formed. *)
Lemma abook_ok_shrink s ls a :
  abook_ok a -> side_ok s ls -> (o_id <$> level_orders ls) `sublist_of` (o_id <$> level_orders (side_of s a)) ->
  (forall p, head ls.*1 = Some p -> exists p0, best s a = Some p0 /\ before s p p0 = false) ->
  abook_ok (set_side s ls a).
Proof.
  intros Hok Hls Hsub Hbest. destruct (abook_ok_elim s a Hok) as (H1 & H2 & H3 & H4).
  apply (abook_ok_intro s); unfold best; rewrite ?side_of_set_same, ?side_of_opp_set; try done.
  - rewrite fmap_app in *. eapply sublist_NoDup; [exact H3|]. by apply sublist_app.
  - intros p p' Hp Hp'. destruct (Hbest p Hp) as (p0 & Hp0 & Hb). specialize (H4 p0 p' Hp0 Hp').
    destruct (Z.eq_dec p p0) as [->|Hne]; [done|]. eapply before_trans; [exact H4|].
    by apply before_total.
Qed.

Lemma abook_ok_leftover s ls a :
  abook_ok a -> levels_leftover (side_of s a) ls -> abook_ok (set_side s ls a).
Proof.
  intros Hok Hl. pose proof (abook_sides _ Hok s) as Hs. apply abook_ok_shrink; [done| | |].
  - by eapply side_ok_leftover.
  - by apply leftover_ids, levels_leftover_orders.
  - intros p Hp. eapply levels_leftover_best; [exact Hl|apply Hs|done].
Qed.

Lemma head_sublist_before s (l l' : list Z) p :
  l' `sublist_of` l -> StronglySorted (fun p p' => before s p p' = true) l -> head l' = Some p ->
  exists p0, head l = Some p0 /\ before s p p0 = false.
Proof.
  intros Hsub Hs Hh. destruct l' as [|x l']; [done|]. injection Hh as ->.
  destruct l as [|y l]; [by apply sublist_nil_r in Hsub|]. exists y. split; [done|].
  inversion Hs as [|? ? _ Hall]; subst.
  assert (Hin : p ∈ y :: l) by (eapply elem_of_sublist; [|exact Hsub]; left).
  apply elem_of_cons in Hin as [->|Hin]; [apply before_irrefl|].
  apply before_asym. by eapply Forall_forall in Hall.
Qed.

Lemma filter_ids_sublist id os : (o_id <$> filter (fun o => o_id o <> id) os) `sublist_of` (o_id <$> os).
Proof. apply fmap_sublist, filter_sublist. Qed.

Lemma abook_ok_remove s id a : abook_ok a -> abook_ok (set_side s (remove_order id (side_of s a)) a).
Proof.
  intros Hok. pose proof (abook_sides _ Hok s) as Hs. apply abook_ok_shrink; [done| | |].
  - by apply remove_order_ok.
  - rewrite remove_order_orders. apply filter_ids_sublist.
  - intros p Hp. eapply head_sublist_before; [apply remove_order_keys|apply Hs|done].
Qed.

Lemma spec_cancel_ok a id : abook_ok a -> abook_ok (spec_cancel a id).2.
Proof. intros Hok. unfold spec_cancel. case_match; simpl; [by apply abook_ok_remove|done]. Qed.

(** Resting what is left of a taker on its own side. *)
Lemma abook_ok_rest s o a :
  abook_ok a -> resting_ok s (o_price o) o -> (0 < o_price o)%Z -> o_id o ∉ o_id <$> orders a ->
  (sum_remaining (level_orders (side_of s a)) + o_remaining_quantity o <= int64_max)%Z ->
  (forall p', best (opposite s) a = Some p' -> before s p' (o_price o) = true) ->
  abook_ok (set_side s (insert_order s o (side_of s a)) a).
Proof.
  intros Hok Ho Hp Hid Hsum Hb. destruct (abook_ok_elim s a Hok) as (H1 & H2 & H3 & H4).
  apply (abook_ok_intro s); unfold best; rewrite ?side_of_set_same, ?side_of_opp_set.
  - by apply insert_order_ok.
  - done.
  - rewrite insert_order_orders. simpl. rewrite (orders_sides s) in Hid. by constructor.
  - intros p p' [->|Hp0]%insert_order_best Hp'; auto.
Qed.

Lemma find_order_Some id os o : find_order id os = Some o -> o ∈ os /\ o_id o = id.
Proof. unfold find_order. intros H%head_Some_elem_of%list_elem_of_filter. naive_solver. Qed.

Lemma find_order_None id os : find_order id os = None <-> id ∉ o_id <$> os.
Proof.
  unfold find_order. rewrite head_None. split.
  - intros H (o & -> & Ho)%list_elem_of_fmap.
    assert (Hin : o ∈ filter (fun o' => o_id o' = o_id o) os) by (by apply list_elem_of_filter).
    rewrite H in Hin. by apply elem_of_nil in Hin.
  - intros H. apply elem_of_nil_inv. intros o (Hid & Ho)%list_elem_of_filter. apply H. subst id.
    by apply list_elem_of_fmap_2.
Qed.

Lemma ids_inj (os : list Order) o o' :
  NoDup (o_id <$> os) -> o ∈ os -> o' ∈ os -> o_id o = o_id o' -> o = o'.
Proof.
  intros Hnd (i & Hi)%list_elem_of_lookup (j & Hj)%list_elem_of_lookup Heq.
  assert (i = j) as ->; [|congruence].
  eapply NoDup_lookup; [exact Hnd| |]; rewrite list_lookup_fmap; [by rewrite Hi|by rewrite Hj; simpl; rewrite Heq].
Qed.

Lemma find_order_unique os o : NoDup (o_id <$> os) -> o ∈ os -> find_order (o_id o) os = Some o.
Proof.
  intros Hnd Ho. destruct (find_order (o_id o) os) as [o'|] eqn:Hf.
  - apply find_order_Some in Hf as [Ho' Hid]. f_equal. by eapply ids_inj.
  - apply find_order_None in Hf. exfalso. by apply Hf, list_elem_of_fmap_2.
Qed.

(** A resting order has the side, price and shape of its level. *)
Lemma side_ok_resting s ls o : side_ok s ls -> o ∈ level_orders ls -> resting_ok s (o_price o) o /\ (0 < o_price o)%Z.
Proof.
  intros [_ H _] Ho. apply list_elem_of_join in Ho as (q & Ho & Hq).
  apply list_elem_of_fmap in Hq as ([p q'] & -> & Hl). simpl in *.
  eapply Forall_forall in H as (_ & Hp & Hq); [|exact Hl]. simpl in *. eapply Forall_forall in Hq; [|exact Ho].
  pose proof Hq as (-> & _). done.
Qed.

Lemma abook_ok_resting a o : abook_ok a -> o ∈ orders a ->
  resting_ok (o_side o) (o_price o) o /\ (0 < o_price o)%Z /\ o ∈ level_orders (side_of (o_side o) a).
Proof.
  intros Hok [Ho|Ho]%elem_of_app; [pose proof (abook_sides _ Hok Buy) as Hs|pose proof (abook_sides _ Hok Sell) as Hs];
    destruct (side_ok_resting _ _ _ Hs Ho) as [Hr Hp]; pose proof Hr as (_ & -> & _); done.
Qed.

Section preservation.
Context (now_ns : nat -> Timestamp) (cfg : Config) (in_range : Price -> bool).

(** [settle] after a sweep that left nothing acceptable. *)
Lemma settle_ok o taker killed a report a' :
  abook_ok a -> taker = set_remaining (o_remaining_quantity taker) o ->
  (0 <= o_remaining_quantity taker)%Z -> o_id o <> kInvalidOrderId ->
  (o_type o = Limit -> (0 < o_price o)%Z) -> o_id o ∉ o_id <$> orders a ->
  (sum_remaining (level_orders (side_of (o_side o) a)) + o_remaining_quantity taker <= int64_max)%Z ->
  (killed = false -> (0 < o_remaining_quantity taker)%Z -> forall p', best (opposite (o_side o)) a = Some p' ->
     acceptable o p' = false) ->
  settle o taker killed a = (report, a') -> abook_ok a'.
Proof.
  intros Hok Htk Hr Hid Hlim Hfresh Hsum Hacc. unfold settle. rewrite may_rest_eq.
  destruct (Z.eqb_spec (o_remaining_quantity taker) 0); [naive_solver|].
  destruct (negb killed && rests_in_book o) eqn:Hrest; [|naive_solver].
  apply andb_true_iff in Hrest as [Hk%negb_true_iff Hrest]. intros [= _ <-].
  pose proof Hrest as [Hl%bool_decide_eq_true _]%andb_true_iff.
  assert (Hpx : o_price taker = o_price o /\ o_id taker = o_id o) by (rewrite Htk; done).
  destruct Hpx as [Hpx Hidt]. apply abook_ok_rest; try done.
  - rewrite Htk. split_and!; try done. simpl. lia.
  - rewrite Hpx. auto.
  - by rewrite Hidt.
  - intros p' Hp'. rewrite Hpx. specialize (Hacc Hk ltac:(lia) p' Hp'). unfold acceptable in Hacc.
    rewrite Hl, bool_decide_eq_false_2 in Hacc by done. simpl in Hacc.
    destruct (o_side o); simpl in *; [apply Z.leb_gt in Hacc|apply Z.leb_gt in Hacc]; apply Z.ltb_lt; lia.
Qed.

Lemma spec_add_ok a o w r a' w' :
  abook_ok a -> o_id o <> kInvalidOrderId ->
  (sum_remaining (level_orders (side_of (o_side o) a)) + o_quantity o <= int64_max)%Z ->
  spec_add now_ns cfg in_range a o w = (r, a', w') -> abook_ok a'.
Proof.
  intros Hok Hid Hsum. unfold spec_add.
  destruct (Z.leb_spec (o_quantity o) 0) as [Hq|Hq]; [by intros [= _ <- _]|].
  destruct (bool_decide (o_type o = Limit) && (o_price o <=? 0)%Z) eqn:Hlim; [by intros [= _ <- _]|].
  destruct (bool_decide (o_type o = Limit) && negb (in_range (o_price o))); [by intros [= _ <- _]|].
  rewrite (proj2 (N.eqb_neq _ _) Hid). simpl.
  destruct (bool_decide_reflect (o_id o ∈ o_id <$> orders a)) as [Hdup|Hdup]; [by intros [= _ <- _]|].
  destruct (bool_decide (o_time_in_force o = FOK) && _); [by intros [= _ <- _]|].
  set (opp := opposite (o_side o)).
  destruct (sweep _ _ _ _ w) as [[[killed taker] ls] w1] eqn:Hs.
  pose proof (abook_sides _ Hok opp) as Hopp.
  apply sweep_facts in Hs as [S1 S2 S3 S4 S5]; [|by eapply side_ok_positive|simpl; lia].
  simpl in S1, S2. rewrite set_remaining_twice in S1.
  destruct (settle o taker killed (set_side opp ls a)) as [report a1] eqn:Hset. intros [= _ <- _].
  eapply settle_ok; [by apply abook_ok_leftover|done|lia|done| | | | |exact Hset].
  - intros Hl. rewrite bool_decide_eq_true_2 in Hlim by done. simpl in Hlim. by apply Z.leb_gt in Hlim.
  - rewrite (orders_set_side opp), fmap_app, elem_of_app. intros [Hin|Hin]; apply Hdup;
      rewrite (orders_sides opp), fmap_app, elem_of_app; [left|by right].
    eapply elem_of_sublist; [exact Hin|]. by apply leftover_ids, levels_leftover_orders.
  - unfold opp. rewrite side_of_set_opp. lia.
  - intros Hk Hr p'. fold opp. unfold best. rewrite side_of_set_same.
    specialize (S4 Hk Hr). destruct ls as [|l ls]; [done|]. simpl. intros [= <-].
    by rewrite acceptable_set_remaining in S4.
Qed.

Lemma spec_amend_ok a id q p w r a' w' :
  abook_ok a ->
  (forall o, find_order id (orders a) = Some o ->
     (sum_remaining (level_orders (side_of (o_side o) a)) + q <= int64_max)%Z) ->
  spec_amend now_ns cfg in_range a id q p w = (r, a', w') -> abook_ok a'.
Proof.
  intros Hok Hsum. unfold spec_amend. destruct (find_order id (orders a)) as [o|] eqn:Hf; [|by intros [= _ <- _]].
  destruct (find_order_Some _ _ _ Hf) as [Ho Hid]. specialize (Hsum o eq_refl).
  destruct (abook_ok_resting a o Hok Ho) as ((_ & _ & Hpos & Hrest & Hid0) & Hp & Hin).
  destruct (Z.leb_spec q 0); [by intros [= _ <- _]|].
  destruct (negb _); [by intros [= _ <- _]|].
  destruct ((default (o_price o) p =? o_price o)%Z && (q <=? o_remaining_quantity o)%Z) eqn:Hdown.
  - apply andb_true_iff in Hdown as [_ Hle%Z.leb_le]. intros [= _ <- _].
    pose proof (abook_sides _ Hok (o_side o)) as Hs. apply abook_ok_shrink; [done| | |].
    + apply update_order_ok; [lia| |done]. intros o' Ho' Hid'.
      enough (o' = o) as -> by done. eapply (ids_inj (orders a)); [apply Hok| |done|congruence].
      rewrite (orders_sides (o_side o)). apply elem_of_app. by left.
    + by rewrite update_order_ids.
    + intros px Hpx. rewrite update_order_keys in Hpx. exists px. split; [done|apply before_irrefl].
  - apply spec_add_ok; [by apply spec_cancel_ok|simpl; done|]. simpl.
    unfold spec_cancel. rewrite Hf. simpl. rewrite side_of_set_same, remove_order_orders.
    pose proof (sum_remaining_sublist _ _ (filter_sublist (fun o' => o_id o' <> id) (level_orders (side_of (o_side o) a)))
                  (side_ok_positive _ _ (abook_sides _ Hok _))). lia.
Qed.
End preservation.

Lemma empty_abook_ok : abook_ok empty_abook.
Proof. split; [intros []; apply side_ok_nil|constructor|done]. Qed.

Lemma sweep_skip now_ns cfg taker ls w :
  match ls with [] => True | l :: _ => acceptable taker l.1 = false end ->
  sweep now_ns cfg taker ls w = (false, taker, ls, w).
Proof. destruct ls as [|[p q] ls]; simpl; [done|]. intros ->. by rewrite orb_true_r. Qed.

Lemma levels_leftover_length s ls a :
  levels_leftover (side_of s a) ls -> (length (orders (set_side s ls a)) <= length (orders a))%nat.
Proof.
  intros Hl%levels_leftover_orders%leftover_ids%sublist_length. rewrite !length_fmap in Hl.
  rewrite (orders_set_side s), (orders_sides s a), !length_app. lia.
Qed.

Lemma settle_config o taker : taker = set_remaining (o_remaining_quantity taker) o ->
  rests_in_book taker = rests_in_book o /\ o_side taker = o_side o /\ o_id taker = o_id o.
Proof. intros ->. done. Qed.

Lemma sum_remaining_elem o os : o ∈ os -> positive_orders os -> (0 < o_remaining_quantity o <= sum_remaining os)%Z.
Proof.
  intros Hin Hp. induction Hp as [|x os Hx Hp IH]; [by apply elem_of_nil in Hin|].
  pose proof (sum_remaining_nonneg _ Hp). apply elem_of_cons in Hin as [->|Hin]; simpl; [lia|].
  specialize (IH Hin). lia.
Qed.

(** Cancelling an order makes room for its replacement. *)
Lemma replacement_pre a id o q p ts :
  abook_ok a -> find_order id (orders a) = Some o -> amend_pre a id q ->
  add_pre (set_side (o_side o) (remove_order id (side_of (o_side o) a)) a) (replacement o q p ts).
Proof.
  intros Hok Hf [Hsum Hroom]. destruct (find_order_Some _ _ _ Hf) as [Ho Hid].
  destruct (abook_ok_resting a o Hok Ho) as ((_ & _ & _ & _ & Hid0) & _ & _). specialize (Hsum o Hf).
  pose proof (filter_sublist (fun o' => o_id o' <> id) (level_orders (side_of (o_side o) a))) as Hsub.
  split; simpl; [done| |].
  - rewrite side_of_set_same, remove_order_orders.
    pose proof (sum_remaining_sublist _ _ Hsub (side_ok_positive _ _ (abook_sides _ Hok _))). lia.
  - rewrite (orders_set_side (o_side o)), length_app, remove_order_orders.
    rewrite (orders_sides (o_side o)), length_app in Hroom. apply sublist_length in Hsub. lia.
Qed.

(** What the code may rely on once an order has been matched: the book that
    remains is well formed and has room for what is left of the order. *)
Record swept (a : abook) (o taker : Order) (ls : list level) : Prop := {
  sw_ok : abook_ok (set_side (opposite (o_side o)) ls a);
  sw_taker : taker = set_remaining (o_remaining_quantity taker) o;
  sw_range : (0 <= o_remaining_quantity taker <= o_quantity o)%Z;
  sw_fresh : o_id o ∉ o_id <$> orders (set_side (opposite (o_side o)) ls a);
  sw_total : (sum_remaining (level_orders (side_of (o_side o) (set_side (opposite (o_side o)) ls a))) +
                o_remaining_quantity taker <= int64_max)%Z;
  sw_room : (N.of_nat (length (orders (set_side (opposite (o_side o)) ls a))) < kNullIndex)%N
}.

Lemma sweep_swept now_ns cfg a o w killed taker ls w1 :
  abook_ok a -> add_pre a o -> (0 < o_quantity o)%Z -> o_id o ∉ o_id <$> orders a ->
  sweep now_ns cfg (set_remaining (o_quantity o) o) (side_of (opposite (o_side o)) a) w = (killed, taker, ls, w1) ->
  swept a o taker ls.
Proof.
  intros Hok [Hid Hsum Hlen] Hq Hfresh Hsw. set (opp := opposite (o_side o)) in *.
  apply sweep_facts in Hsw as [S1 S2 S3 S4 S5]; [|eapply side_ok_positive, Hok|simpl; lia].
  rewrite set_remaining_twice in S1. cbn [o_remaining_quantity set_remaining] in S2. split; fold opp; try done.
  - by apply abook_ok_leftover.
  - rewrite (orders_set_side opp), fmap_app, elem_of_app. intros [Hin|Hin]; apply Hfresh;
      rewrite (orders_sides opp), fmap_app, elem_of_app; [left|by right].
    eapply elem_of_sublist; [exact Hin|]. by apply leftover_ids, levels_leftover_orders.
  - unfold opp. rewrite side_of_set_opp. lia.
  - pose proof (levels_leftover_length opp ls a S3). lia.
Qed.

(** * Budgets: how much an operation may add to the book *)

#[export] Instance sum_remaining_proper : Proper ((≡ₚ) ==> (=)) sum_remaining.
Proof. induction 1; simpl; lia. Qed.

(** At most [t] units in at most [n] orders. *)
Definition within (t : Z) (n : nat) (a : abook) : Prop :=
  (sum_remaining (orders a) <= t)%Z /\ (length (orders a) <= n)%nat.

Lemma abook_positive a : abook_ok a -> positive_orders (orders a).
Proof.
  intros Hok. unfold orders. apply Forall_app.
  split; [apply (side_ok_positive Buy), (abook_sides _ Hok Buy)|apply (side_ok_positive Sell), (abook_sides _ Hok Sell)].
Qed.

Lemma side_total_le s a : abook_ok a -> (sum_remaining (level_orders (side_of s a)) <= sum_remaining (orders a))%Z.
Proof.
  intros Hok. rewrite (orders_sides s), sum_remaining_app.
  pose proof (sum_remaining_nonneg _ (side_ok_positive _ _ (abook_sides _ Hok (opposite s)))). lia.
Qed.

Lemma within_add_pre t n a o : abook_ok a -> within t n a -> o_id o <> kInvalidOrderId ->
  (t + Z.max 0 (o_quantity o) <= int64_max)%Z -> (N.of_nat n < kNullIndex)%N -> add_pre a o.
Proof. intros Hok [H1 H2] Hid Ht Hn. pose proof (side_total_le (o_side o) a Hok). split; [done|lia|lia]. Qed.

Lemma within_amend_pre t n a id q : abook_ok a -> within t n a ->
  (t + Z.max 0 q <= int64_max)%Z -> (N.of_nat n < kNullIndex)%N -> amend_pre a id q.
Proof. intros Hok [H1 H2] Ht Hn. split; [|lia]. intros o _. pose proof (side_total_le (o_side o) a Hok). lia. Qed.

Lemma within_empty t n : (0 <= t)%Z -> within t n empty_abook.
Proof. intros Ht. split; simpl; lia. Qed.

Lemma within_cancel t n a id : abook_ok a -> within t n a -> within t n (spec_cancel a id).2.
Proof.
  intros Hok [H1 H2]. unfold spec_cancel. destruct (find_order id (orders a)) as [o|]; [|done]. cbn [snd].
  pose proof (filter_sublist (fun o' => o_id o' <> id) (level_orders (side_of (o_side o) a))) as Hsub.
  rewrite (orders_sides (o_side o)), sum_remaining_app in H1. rewrite (orders_sides (o_side o)), length_app in H2.
  unfold within. rewrite !(orders_set_side (o_side o)), sum_remaining_app, length_app, remove_order_orders.
  pose proof (sum_remaining_sublist _ _ Hsub (side_ok_positive _ _ (abook_sides _ Hok _))).
  apply sublist_length in Hsub. lia.
Qed.

Section budget.
Context (now_ns : nat -> Timestamp) (cfg : Config) (in_range : Price -> bool).

Lemma within_add t n a o w r a' w' : abook_ok a -> within t n a ->
  spec_add now_ns cfg in_range a o w = (r, a', w') -> within (t + Z.max 0 (o_quantity o)) (S n) a'.
Proof.
  intros Hok Hw. assert (Hself : within (t + Z.max 0 (o_quantity o)) (S n) a) by (destruct Hw; split; lia).
  unfold spec_add. destruct (Z.leb_spec (o_quantity o) 0) as [Hq|Hq]; [by intros [= _ <- _]|].
  destruct (_ && _); [by intros [= _ <- _]|]. destruct (_ && _); [by intros [= _ <- _]|].
  destruct (_ && _); [by intros [= _ <- _]|]. destruct (_ && _); [by intros [= _ <- _]|].
  set (opp := opposite (o_side o)).
  destruct (sweep _ _ _ _ w) as [[[killed taker] ls] w1] eqn:Hs.
  pose proof (side_ok_positive _ _ (abook_sides _ Hok opp)) as Hpos.
  apply sweep_facts in Hs as [S1 S2 S3 _ _]; [|done|simpl; lia]. cbn [o_remaining_quantity set_remaining] in S2.
  assert (H1 : within t n (set_side opp ls a)).
  { destruct Hw as [H1 H2]. pose proof (levels_leftover_length opp ls a S3). split; [|lia].
    rewrite (orders_set_side opp), sum_remaining_app. rewrite (orders_sides opp), sum_remaining_app in H1.
    pose proof (leftover_sum _ _ (levels_leftover_orders _ _ S3) Hpos). lia. }
  unfold settle. rewrite may_rest_eq. destruct (o_remaining_quantity taker =? 0)%Z; [intros [= _ <- _]; destruct H1; split; lia|].
  destruct (negb killed && rests_in_book o); [|intros [= _ <- _]; destruct H1; split; lia].
  intros [= _ <- _]. destruct H1 as [H1 H2]. rewrite (orders_sides (o_side o)) in H1, H2.
  rewrite sum_remaining_app in H1. rewrite length_app in H2.
  unfold within. rewrite (orders_set_side (o_side o)), insert_order_orders. cbn [sum_remaining length app].
  rewrite sum_remaining_app, length_app. lia.
Qed.

Lemma within_amend t n a id q p w r a' w' : abook_ok a -> within t n a ->
  spec_amend now_ns cfg in_range a id q p w = (r, a', w') -> within (t + Z.max 0 q) (S n) a'.
Proof.
  intros Hok Hw. assert (Hself : within (t + Z.max 0 q) (S n) a) by (destruct Hw; split; lia).
  unfold spec_amend. destruct (find_order id (orders a)) as [o|] eqn:Hf; [|by intros [= _ <- _]].
  destruct (Z.leb_spec q 0); [by intros [= _ <- _]|]. destruct (negb _); [by intros [= _ <- _]|].
  destruct ((_ =? _)%Z && (q <=? o_remaining_quantity o)%Z) eqn:Hdown.
  - apply andb_true_iff in Hdown as [_ Hle%Z.leb_le]. intros [= _ <- _].
    destruct (find_order_Some _ _ _ Hf) as [Ho Hid]. destruct Hself as [H1 H2].
    rewrite (orders_sides (o_side o)), sum_remaining_app in H1. rewrite (orders_sides (o_side o)), length_app in H2.
    unfold within. rewrite !(orders_set_side (o_side o)), sum_remaining_app, length_app, update_order_orders, length_fmap.
    split; [|lia]. enough (sum_remaining ((fun o0 => if decide (o_id o0 = id) then set_remaining q o0 else o0) <$>
      level_orders (side_of (o_side o) a)) <= sum_remaining (level_orders (side_of (o_side o) a)))%Z by lia.
    apply sum_remaining_update. intros o' Ho' Hid'. enough (o' = o) as -> by done.
    eapply (ids_inj (orders a)); [apply Hok| |done|congruence]. rewrite (orders_sides (o_side o)). apply elem_of_app. by left.
  - intros Hadd. eapply within_add in Hadd; [exact Hadd|by apply spec_cancel_ok|by apply within_cancel].
Qed.
End budget.
