(* ===== verification/BookRep.v ===== *)
(** How a list of [PriceLevel]s, the pool and the id map represent a side of
    the abstract book: [side_rep] relates the levels, the cells threaded
    through the pool, and the abstract levels.  The lemmas here are about
    lists of levels only, so that they serve every book. *)

From S2P Require Import Prelude Types OrderPool IdIndexMap IdIndexMapFacts BookCore BookSpec BookSpecFacts.

Definition lrep (ns : list OrderNode) (lv : PriceLevel) (cs : cells) (l : level) : Prop :=
  level_links ns lv cs /\ level_total lv cs /\ l = (l_price lv, cs.*2).

Definition side_rep (ns : list OrderNode) (lvs : list PriceLevel) (css : list cells) (ls : list level) : Prop :=
  Forall3 (lrep ns) lvs css ls.

Section side_rep.
Implicit Types (ns : list OrderNode) (lvs : list PriceLevel) (css : list cells) (ls : list level).

Lemma side_rep_orders ns lvs css ls : side_rep ns lvs css ls -> level_orders ls = (mjoin css).*2.
Proof.
  induction 1 as [|lv cs l lvs css ls (_ & _ & ->) _ IH]; [done|].
  rewrite level_orders_cons, IH. simpl. by rewrite fmap_app.
Qed.

Lemma side_rep_keys ns lvs css ls : side_rep ns lvs css ls -> ls.*1 = l_price <$> lvs.
Proof. induction 1 as [|lv cs l lvs css ls (_ & _ & ->) _ IH]; [done|]. rewrite !fmap_cons, IH. done. Qed.

Lemma side_rep_length ns lvs css ls : side_rep ns lvs css ls -> length lvs = length ls.
Proof. intros H. eapply Forall3_length_lr, H. Qed.

Lemma lrep_frame hs ns ns' lv cs l :
  same_outside hs ns ns' -> (forall j, j ∈ cs.*1 -> j ∉ hs) -> lrep ns lv cs l -> lrep ns' lv cs l.
Proof. intros Hso Hd (H1 & H2 & H3). split_and!; [|done|done]. by eapply links_frame. Qed.

Lemma side_rep_frame hs ns ns' lvs css ls :
  same_outside hs ns ns' -> (forall j, j ∈ (mjoin css).*1 -> j ∉ hs) ->
  side_rep ns lvs css ls -> side_rep ns' lvs css ls.
Proof.
  intros Hso Hd Hr. induction Hr as [|lv cs l lvs css ls Hl Hr IH]; [constructor|].
  simpl in Hd. rewrite fmap_app in Hd. constructor.
  - eapply lrep_frame; [exact Hso| |exact Hl]. intros j Hj. apply Hd, elem_of_app. by left.
  - apply IH. intros j Hj. apply Hd, elem_of_app. by right.
Qed.

(** Only the nodes of its cells matter to a side. *)
Lemma side_rep_eq ns ns' lvs css ls :
  (forall j, j ∈ (mjoin css).*1 -> vget ns' j = vget ns j) -> side_rep ns lvs css ls -> side_rep ns' lvs css ls.
Proof.
  intros He Hr. induction Hr as [|lv cs l lvs css ls ([] & Ht & Hp) Hr IH]; [constructor|].
  simpl in He. rewrite fmap_app in He. constructor.
  - split_and!; [split; try done|done|done]. eapply dseg_frame; [|done].
    intros j Hj. apply He, elem_of_app. by left.
  - apply IH. intros j Hj. apply He, elem_of_app. by right.
Qed.

(** Splitting a side at one of its levels. *)
Lemma side_rep_split ns lvs css ls cs :
  side_rep ns lvs css ls -> cs ∈ css ->
  exists lvs1 lv lvs2 css1 css2 ls1 ls2,
    lvs = lvs1 ++ lv :: lvs2 /\ css = css1 ++ cs :: css2 /\ ls = ls1 ++ (l_price lv, cs.*2) :: ls2 /\
    side_rep ns lvs1 css1 ls1 /\ lrep ns lv cs (l_price lv, cs.*2) /\ side_rep ns lvs2 css2 ls2.
Proof.
  intros Hr (css1 & css2 & ->)%list_elem_of_split.
  apply Forall3_app_inv_m in Hr as (lvs1 & lvs2 & ls1 & ls2 & -> & -> & H1 & H2).
  apply Forall3_cons_inv_m in H2 as (lv & lvs2' & l & ls2' & -> & -> & Hl & H2).
  pose proof Hl as (_ & _ & ->).
  exists lvs1, lv, lvs2', css1, css2, ls1, ls2'. done.
Qed.

Lemma side_rep_app ns lvs1 css1 ls1 lvs2 css2 ls2 :
  side_rep ns lvs1 css1 ls1 -> side_rep ns lvs2 css2 ls2 -> side_rep ns (lvs1 ++ lvs2) (css1 ++ css2) (ls1 ++ ls2).
Proof. apply Forall3_app. Qed.
End side_rep.

(** A cell of a book lies in one of its levels. *)
Lemma cell_in_level (css : list cells) (x : N * Order) :
  x ∈ mjoin css -> exists cs cs1 cs2, cs ∈ css /\ cs = cs1 ++ x :: cs2.
Proof.
  intros (cs & Hx & Hcs)%list_elem_of_join. pose proof Hx as (cs1 & cs2 & Heq)%list_elem_of_split. eauto.
Qed.

Lemma mjoin_split {A} (l1 : list (list A)) x l2 : mjoin (l1 ++ x :: l2) = mjoin l1 ++ x ++ mjoin l2.
Proof. rewrite join_app. done. Qed.

Lemma insert_at_middle {A} (l1 : list A) x y l2 : <[length l1 := y]> (l1 ++ x :: l2) = l1 ++ y :: l2.
Proof. rewrite insert_app_r_alt by done. by rewrite Nat.sub_diag. Qed.

(** ** The abstract operations at a given level *)

Lemma remove_order_app id ls1 ls2 : remove_order id (ls1 ++ ls2) = remove_order id ls1 ++ remove_order id ls2.
Proof. unfold remove_order. apply bind_app. Qed.

Lemma filter_ne_id id (os : list Order) : id ∉ o_id <$> os -> filter (fun o => o_id o <> id) os = os.
Proof.
  induction os as [|o os IH]; [done|]. rewrite fmap_cons, not_elem_of_cons. intros [Hne Hni].
  rewrite filter_cons, decide_True by done. by rewrite IH.
Qed.

Lemma remove_order_none s id ls : Forall (level_ok s) ls -> id ∉ o_id <$> level_orders ls -> remove_order id ls = ls.
Proof.
  induction 1 as [|[p q] ls (Hne & _) _ IH]; [done|].
  rewrite level_orders_cons, fmap_app, elem_of_app. intros Hni.
  rewrite remove_order_cons, IH by tauto. rewrite filter_ne_id by tauto. by destruct q.
Qed.

Lemma remove_order_at s id p os1 o os2 ls1 ls2 :
  Forall (level_ok s) (ls1 ++ (p, os1 ++ o :: os2) :: ls2) -> o_id o = id ->
  NoDup (o_id <$> level_orders (ls1 ++ (p, os1 ++ o :: os2) :: ls2)) ->
  remove_order id (ls1 ++ (p, os1 ++ o :: os2) :: ls2) = ls1 ++ keep_level p (os1 ++ os2) ++ ls2.
Proof.
  intros Hok Hid Hnd. apply Forall_app in Hok as [H1 [_ H2]%Forall_cons].
  rewrite level_orders_app, level_orders_cons, !fmap_app, fmap_cons in Hnd.
  apply NoDup_app in Hnd as (_ & Hd1 & Hnd). apply NoDup_app in Hnd as (Hnd & Hd2 & _).
  apply NoDup_app in Hnd as (_ & Hd3 & [Hn4 _]%NoDup_cons). subst id.
  rewrite remove_order_app, remove_order_cons.
  rewrite (remove_order_none s _ ls1), (remove_order_none s _ ls2); try done.
  - rewrite filter_app, filter_cons, decide_False by naive_solver.
    rewrite !filter_ne_id; [done|done|]. intros Hin. eapply Hd3; [exact Hin|left].
  - intros Hin. eapply Hd2; [|exact Hin]. apply elem_of_app. right. left.
  - intros Hin. eapply Hd1; [exact Hin|]. apply elem_of_app. left. apply elem_of_app. right. left.
Qed.

Lemma update_none id f (os : list Order) :
  id ∉ o_id <$> os -> (fun o => if decide (o_id o = id) then f o else o) <$> os = os.
Proof.
  induction os as [|o os IH]; [done|]. rewrite !fmap_cons, not_elem_of_cons. intros [Hne Hni].
  rewrite decide_False by done. by rewrite IH.
Qed.

Lemma update_order_none id f ls : id ∉ o_id <$> level_orders ls -> update_order id f ls = ls.
Proof.
  induction ls as [|[p q] ls IH]; [done|]. rewrite level_orders_cons, fmap_app, elem_of_app. intros Hni.
  change (update_order id f ((p, q) :: ls)) with
    ((p, (fun o => if decide (o_id o = id) then f o else o) <$> q) :: update_order id f ls).
  rewrite IH by tauto. by rewrite update_none by tauto.
Qed.

Lemma update_order_at id f p os1 o os2 ls1 ls2 :
  o_id o = id -> NoDup (o_id <$> level_orders (ls1 ++ (p, os1 ++ o :: os2) :: ls2)) ->
  update_order id f (ls1 ++ (p, os1 ++ o :: os2) :: ls2) = ls1 ++ (p, os1 ++ f o :: os2) :: ls2.
Proof.
  intros Hid Hnd. rewrite level_orders_app, level_orders_cons, !fmap_app, fmap_cons in Hnd.
  apply NoDup_app in Hnd as (_ & Hd1 & Hnd). apply NoDup_app in Hnd as (Hnd & Hd2 & _).
  apply NoDup_app in Hnd as (_ & Hd3 & [Hn4 _]%NoDup_cons). subst id.
  unfold update_order. rewrite fmap_app, fmap_cons. cbn [fst snd].
  fold (update_order (o_id o) f ls1). fold (update_order (o_id o) f ls2).
  rewrite (update_order_none _ _ ls1), (update_order_none _ _ ls2).
  - rewrite fmap_app, fmap_cons, decide_True by done.
    rewrite !update_none; [done|done|]. intros Hin. eapply Hd3; [exact Hin|left].
  - intros Hin. eapply Hd2; [|exact Hin]. apply elem_of_app. right. left.
  - intros Hin. eapply Hd1; [exact Hin|]. apply elem_of_app. left. apply elem_of_app. right. left.
Qed.

(** [insert_order] at the position where the levels before it end. *)
Lemma insert_order_skip s o ls1 ls2 :
  Forall (fun l => before s l.1 (o_price o) = true) ls1 ->
  insert_order s o (ls1 ++ ls2) = ls1 ++ insert_order s o ls2.
Proof.
  induction 1 as [|[p q] ls1 Hb _ IH]; simpl in *; [done|].
  destruct (Z.eqb_spec p (o_price o)) as [->|_]; [by rewrite before_irrefl in Hb|].
  by rewrite Hb, IH.
Qed.

Lemma insert_order_existing s o q ls2 :
  insert_order s o ((o_price o, q) :: ls2) = (o_price o, q ++ [o]) :: ls2.
Proof. simpl. by rewrite Z.eqb_refl. Qed.

Lemma insert_order_new s o ls2 :
  match ls2 with [] => True | l :: _ => l.1 <> o_price o /\ before s l.1 (o_price o) = false end ->
  insert_order s o ls2 = (o_price o, [o]) :: ls2.
Proof.
  destruct ls2 as [|[p q] ls2]; simpl; [done|]. intros [Hne Hb].
  by rewrite (proj2 (Z.eqb_neq _ _) Hne), Hb.
Qed.
