(* ===== verification/BookTrades.v ===== *)
(** What matching emits: the trades of one incoming order.

    [matched] collects, for a list of trades, what a venue has to guarantee:
    each is at the price of a resting order and acceptable to the taker, none
    is a self-trade the policy forbids, their makers come in price-time order,
    and their quantities add up to what the taker lost. *)

From S2P Require Import Prelude Types OrderPool BookCore BookSpec BookSpecFacts BookRep.

Fixpoint traded (ts : list Trade) : Z := match ts with [] => 0 | t :: ts' => t_quantity t + traded ts' end.

Lemma traded_app ts1 ts2 : traded (ts1 ++ ts2) = (traded ts1 + traded ts2)%Z.
Proof. induction ts1 as [|t ts1 IH]; simpl; lia. Qed.

(** A trade between [taker] and a resting order of [makers]. *)
Record trade_ok (cfg : Config) (taker : Order) (makers : list Order) (t : Trade) : Prop := {
  tr_taker : t_taker_order_id t = o_id taker /\ t_taker_side t = o_side taker /\
    t_taker_participant_id t = o_participant_id taker /\ t_symbol t = symbol_ cfg;
  tr_maker : exists m, m ∈ makers /\ t_maker_order_id t = o_id m /\ t_price t = o_price m /\
    t_maker_participant_id t = o_participant_id m /\ (0 < t_quantity t <= o_remaining_quantity m)%Z;
  tr_price : acceptable taker (t_price t) = true;
  tr_self : stp_policy_ cfg <> STPNone -> t_taker_participant_id t <> kNoParticipant ->
    t_taker_participant_id t <> t_maker_participant_id t
}.

Record matched (cfg : Config) (taker taker' : Order) (makers : list Order) (w w' : World) (ts : list Trade) : Prop := {
  mt_log : w_trades w' = w_trades w ++ ts;
  mt_clock : w_reads w' = (w_reads w + length ts)%nat;
  mt_sum : traded ts = (o_remaining_quantity taker - o_remaining_quantity taker')%Z;
  mt_trades : Forall (trade_ok cfg taker makers) ts;
  mt_order : (t_maker_order_id <$> ts) `sublist_of` (o_id <$> makers);
  mt_priority : stp_policy_ cfg = STPNone -> (t_maker_order_id <$> ts) `prefix_of` (o_id <$> makers)
}.

Section facts.
Context (now_ns : nat -> Timestamp) (cfg : Config).
Hypothesis callback : trade_callback_ cfg = true.

Lemma trade_ok_mono taker taker' makers makers' t :
  trade_ok cfg taker makers t -> (forall m, m ∈ makers -> m ∈ makers') ->
  taker = set_remaining (o_remaining_quantity taker) taker' -> trade_ok cfg taker' makers' t.
Proof.
  intros [H1 (m & Hm & Hrest) H3 H4] Hsub Ht. rewrite Ht in *. split; try done. exists m. split; [by apply Hsub|done].
Qed.

Lemma matched_nil taker makers w : matched cfg taker taker makers w w [].
Proof.
  split; simpl; [by rewrite app_nil_r|lia|lia|constructor|apply sublist_nil_l|]. intros _. apply prefix_nil.
Qed.

(** A maker skipped by self-trade prevention. *)
Lemma matched_skip taker taker' m makers w w' ts : stp_policy_ cfg <> STPNone ->
  matched cfg taker taker' makers w w' ts -> matched cfg taker taker' (m :: makers) w w' ts.
Proof.
  intros Hp [H1 H2 H3 H4 H5 H6]. split; try done.
  - eapply Forall_impl; [exact H4|]. intros t Ht.
    eapply trade_ok_mono; [exact Ht|intros; by right|by rewrite set_remaining_id].
  - rewrite fmap_cons. by constructor.
Qed.

Lemma matched_trade taker taker' m makers w w' ts qty :
  let taker1 := set_remaining (o_remaining_quantity taker - qty) taker in
  (0 < qty <= o_remaining_quantity m)%Z -> acceptable taker (o_price m) = true ->
  prevented (stp_policy_ cfg) taker m = false ->
  matched cfg taker1 taker' makers (record_trade now_ns cfg taker m (o_price m) qty w) w' ts ->
  exists t, matched cfg taker taker' (m :: makers) w w' (t :: ts).
Proof.
  intros taker1 Hq Hacc Hself [H1 H2 H3 H4 H5 H6]. unfold record_trade in *. rewrite callback in *. simpl in *.
  exists (mkTrade (o_id taker) (o_id m) (symbol_ cfg) (o_price m) qty (now_ns (w_reads w)) (o_side taker)
           (o_participant_id taker) (o_participant_id m)).
  split; simpl; [by rewrite <- app_assoc in H1|lia|lia| |by constructor|intros Hp; by apply prefix_cons, H6].
  constructor.
  - split; simpl; try done; [exists m; split; [left|done]|]. intros Hp Hn Heq. apply bool_decide_eq_false in Hself. naive_solver.
  - eapply Forall_impl; [exact H4|]. intros t Ht. eapply trade_ok_mono; [exact Ht|intros; by right|]. done.
Qed.

Lemma fill_matched p taker q w killed taker' q' w' :
  Forall (fun m => (0 < o_remaining_quantity m)%Z /\ o_price m = p) q -> acceptable taker p = true ->
  fill now_ns cfg p taker q w = (killed, taker', q', w') -> exists ts, matched cfg taker taker' q w w' ts.
Proof.
  intros Hq Hacc. revert taker w Hacc. induction Hq as [|m q [Hm <-] Hq IH]; intros taker w Hacc; simpl.
  { intros [= <- <- <- <-]. exists []. apply matched_nil. }
  destruct (Z.leb_spec (o_remaining_quantity taker) 0) as [Hz|Hz].
  { intros [= <- <- <- <-]. exists []. apply matched_nil. }
  destruct (prevented (stp_policy_ cfg) taker m) eqn:Hst.
  - assert (Hp : stp_policy_ cfg <> STPNone) by (intros Hp; by rewrite Hp in Hst).
    destruct (stp_policy_ cfg) eqn:Hpol; try done.
    + intros Hf. destruct (IH taker w Hacc Hf) as [ts Hts]. exists ts. apply matched_skip; [congruence|done].
    + intros [= <- <- <- <-]. exists []. apply matched_nil.
    + intros [= <- <- <- <-]. exists []. apply matched_nil.
  - set (qty := Z.min _ _). assert (Hqty : (0 < qty <= o_remaining_quantity m)%Z) by lia.
    destruct (o_remaining_quantity m - qty =? 0)%Z.
    + intros Hf. destruct (IH (set_remaining (o_remaining_quantity taker - qty) taker) _ Hacc Hf) as [ts Hts].
      destruct (matched_trade _ _ _ _ _ _ _ _ Hqty Hacc Hst Hts) as [t Ht]. eauto.
    + intros [= <- <- <- <-]. eapply matched_trade in Hst as [t Ht]; [|exact Hqty|exact Hacc|apply matched_nil]. eauto.
Qed.

Lemma matched_app taker taker1 taker' q ls w w1 w' ts1 ts2 :
  taker1 = set_remaining (o_remaining_quantity taker1) taker ->
  matched cfg taker taker1 q w w1 ts1 -> matched cfg taker1 taker' ls w1 w' ts2 ->
  (stp_policy_ cfg = STPNone -> ts2 <> [] -> t_maker_order_id <$> ts1 = o_id <$> q) ->
  matched cfg taker taker' (q ++ ls) w w' (ts1 ++ ts2).
Proof.
  intros Ht [A1 A2 A3 A4 A5 A6] [B1 B2 B3 B4 B5 B6] Hfull. split.
  - by rewrite B1, A1, app_assoc.
  - rewrite length_app. lia.
  - rewrite traded_app. lia.
  - apply Forall_app. split.
    + eapply Forall_impl; [exact A4|]. intros t Htr.
      eapply trade_ok_mono; [exact Htr|intros m Hm; apply elem_of_app; by left|by rewrite set_remaining_id].
    + eapply Forall_impl; [exact B4|]. intros t Htr.
      eapply trade_ok_mono; [exact Htr|intros m Hm; apply elem_of_app; by right|done].
  - rewrite !fmap_app. by apply sublist_app.
  - intros Hp. rewrite !fmap_app. destruct ts2 as [|t ts2].
    + rewrite fmap_nil, app_nil_r. destruct (A6 Hp) as [k ->]. exists (k ++ (o_id <$> ls)). by rewrite app_assoc.
    + rewrite Hfull by done. apply prefix_app, B6, Hp.
Qed.

(** Without self-trade prevention, a level that is used up traded with all its
    orders. *)
Lemma fill_consumed p taker q w taker' w' : stp_policy_ cfg = STPNone ->
  positive_orders q -> fill now_ns cfg p taker q w = (false, taker', [], w') ->
  exists ts, w_trades w' = w_trades w ++ ts /\ t_maker_order_id <$> ts = o_id <$> q.
Proof.
  intros Hp Hq. revert taker w. induction Hq as [|m q Hm Hq IH]; intros taker w; simpl.
  { intros [= <- <-]. exists []. by rewrite app_nil_r. }
  destruct (o_remaining_quantity taker <=? 0)%Z; [done|]. rewrite Hp.
  cbn [bool_decide]. destruct (o_remaining_quantity m - _ =? 0)%Z; [|done].
  intros (ts & Hlog & Hids)%IH. unfold record_trade in Hlog. rewrite callback in Hlog. simpl in Hlog.
  eexists (_ :: ts). rewrite <- app_assoc in Hlog. split; [exact Hlog|]. rewrite !fmap_cons, Hids. done.
Qed.

Lemma sweep_matched s taker ls w killed taker' ls' w' :
  Forall (level_ok s) ls -> (0 <= o_remaining_quantity taker)%Z ->
  sweep now_ns cfg taker ls w = (killed, taker', ls', w') ->
  exists ts, matched cfg taker taker' (level_orders ls) w w' ts.
Proof.
  intros Hls. revert taker w. induction Hls as [|[p q] ls (_ & _ & Hq) Hls IH]; intros taker w Htk; simpl.
  { intros [= <- <- <- <-]. exists []. apply matched_nil. }
  destruct (Z.leb_spec (o_remaining_quantity taker) 0) as [Hz|Hz]; simpl.
  { intros [= <- <- <- <-]. exists []. apply matched_nil. }
  destruct (acceptable taker p) eqn:Hacc; simpl; [|intros [= <- <- <- <-]; exists []; apply matched_nil].
  rewrite level_orders_cons. destruct (fill now_ns cfg p taker q w) as [[[k1 t1] q1] w1] eqn:Hf. simpl in Hq.
  assert (Hpos : positive_orders q).
  { eapply Forall_impl; [exact Hq|]. intros m (_ & _ & Hm & _). done. }
  pose proof Hf as Hff. apply fill_facts in Hff as [F1 F2 _ _ _]; [|done|lia].
  assert (Hm : exists ts, matched cfg taker t1 q w w1 ts).
  { eapply fill_matched; [|exact Hacc|exact Hf]. eapply Forall_impl; [exact Hq|]. intros m (Hp & _ & Hm & _). done. }
  destruct Hm as [ts1 Hm].
  assert (Hone : matched cfg taker t1 (q ++ level_orders ls) w w1 (ts1 ++ [])).
  { eapply matched_app; [exact F1|exact Hm|apply matched_nil|done]. }
  destruct k1; [intros [= <- <- <- <-]; eauto|]. destruct q1 as [|m1 q1]; [|intros [= <- <- <- <-]; eauto].
  intros Hs. destruct (IH t1 w1 ltac:(lia) Hs) as [ts2 Hm2]. exists (ts1 ++ ts2).
  eapply matched_app; [exact F1|exact Hm|exact Hm2|]. intros Hp _.
  destruct (fill_consumed p taker q w t1 w1 Hp Hpos Hf) as (ts & Hlog & Hids).
  rewrite (mt_log _ _ _ _ _ _ _ Hm) in Hlog. by apply app_inv_head in Hlog as ->.
Qed.
End facts.

(** * Liquidity *)

Lemma available_nonneg taker ls : positive_orders (level_orders ls) -> (0 <= available taker ls)%Z.
Proof.
  intros Hls. induction ls as [|[p q] ls IH]; simpl; [lia|]. rewrite level_orders_cons in Hls.
  apply Forall_app in Hls as [Hq Hls]. pose proof (sum_remaining_nonneg _ Hq). specialize (IH Hls).
  destruct (acceptable taker p); lia.
Qed.

Section liquidity.
Context (now_ns : nat -> Timestamp) (cfg : Config).
Hypothesis no_stp : stp_policy_ cfg = STPNone.

Lemma fill_remaining p taker q w killed taker' q' w' :
  positive_orders q -> (0 <= o_remaining_quantity taker)%Z ->
  fill now_ns cfg p taker q w = (killed, taker', q', w') ->
  killed = false /\ o_remaining_quantity taker' = Z.max 0 (o_remaining_quantity taker - sum_remaining q).
Proof.
  intros Hq. revert taker w. induction Hq as [|m q Hm Hq IH]; intros taker w Htk; simpl.
  { intros [= <- <- <- <-]. lia. }
  pose proof (sum_remaining_nonneg _ Hq).
  destruct (Z.leb_spec (o_remaining_quantity taker) 0); [intros [= <- <- <- <-]; lia|].
  rewrite no_stp. cbn [bool_decide].
  destruct (Z.eqb_spec (o_remaining_quantity m - Z.min (o_remaining_quantity taker) (o_remaining_quantity m)) 0).
  - intros [-> Hr]%IH; [|simpl; lia]. simpl in Hr. lia.
  - intros [= <- <- <- <-]. simpl. lia.
Qed.

Lemma available_set_remaining r taker ls : available (set_remaining r taker) ls = available taker ls.
Proof. induction ls as [|[p q] ls IH]; [done|]. simpl. by rewrite acceptable_set_remaining, IH. Qed.

(** What is left of a taker is what the acceptable levels could not fill. *)
Lemma sweep_remaining taker ls w killed taker' ls' w' :
  positive_orders (level_orders ls) -> (0 <= o_remaining_quantity taker)%Z ->
  sweep now_ns cfg taker ls w = (killed, taker', ls', w') ->
  killed = false /\ o_remaining_quantity taker' = Z.max 0 (o_remaining_quantity taker - available taker ls).
Proof.
  revert taker w. induction ls as [|[p q] ls IH]; intros taker w Hpos Htk; simpl.
  { intros [= <- <- <- <-]. lia. }
  rewrite level_orders_cons in Hpos. apply Forall_app in Hpos as [Hq Hls].
  pose proof (available_nonneg taker ls Hls) as Hav. pose proof (sum_remaining_nonneg _ Hq).
  destruct (Z.leb_spec (o_remaining_quantity taker) 0); simpl; [intros [= <- <- <- <-]; destruct (acceptable taker p); lia|].
  destruct (acceptable taker p); simpl; [|intros [= <- <- <- <-]; lia].
  destruct (fill now_ns cfg p taker q w) as [[[k1 t1] q1] w1] eqn:Hf.
  pose proof Hf as Hf'. apply fill_facts in Hf' as [F1 F2 F3 F4 _]; [|done|lia].
  apply fill_remaining in Hf as [-> Hr]; [|done|lia].
  destruct q1 as [|m1 q1].
  - intros [-> Hr2]%IH; [|done|lia]. assert (Ha : available t1 ls = available taker ls) by (rewrite F1; apply available_set_remaining). lia.
  - intros [= <- <- <- <-]. specialize (F4 eq_refl ltac:(done)). split; [done|]. lia.
Qed.
End liquidity.

(** * Who trades how much

    An order may trade with the orders of the other side, in the order of the
    queue, as long as their prices are acceptable: with all of them, without
    self-trade prevention; with those of other participants, if the policy
    cancels resting orders; with those before the first of its own, if the
    policy cancels the incoming order.  They are used up one after the other. *)

Definition own_order (o m : Order) : Prop := o_participant_id o <> kNoParticipant /\ o_participant_id m = o_participant_id o.

Fixpoint eligible (stp : SelfTradePrevention) (o : Order) (queue : list Order) : list Order :=
  match queue with
  | [] => []
  | m :: rest =>
      if acceptable o (o_price m) then
        if decide (own_order o m) then
          match stp with
          | STPNone => m :: eligible stp o rest
          | CancelResting => eligible stp o rest
          | CancelIncoming | CancelBoth => []
          end
        else m :: eligible stp o rest
      else []
  end.

Fixpoint allocate (q : Quantity) (makers : list Order) : list (OrderId * Quantity) :=
  match makers with
  | [] => []
  | m :: rest =>
      if (q <=? 0)%Z then []
      else let qty := Z.min q (o_remaining_quantity m) in (o_id m, qty) :: allocate (q - qty) rest
  end.

Definition shares (ts : list Trade) : list (OrderId * Quantity) := (fun t => (t_maker_order_id t, t_quantity t)) <$> ts.

Lemma eligible_set_remaining stp r o queue : eligible stp (set_remaining r o) queue = eligible stp o queue.
Proof. induction queue as [|m queue IH]; [done|]. simpl. rewrite IH. done. Qed.

Lemma allocate_none q makers : (q <= 0)%Z -> allocate q makers = [].
Proof. intros Hq. destruct makers; [done|]. simpl. by rewrite (proj2 (Z.leb_le _ _) Hq). Qed.

(** At the head of the queue, for the two outcomes of the prevention test. *)
Lemma eligible_prevented stp o m queue : prevented stp o m = true -> acceptable o (o_price m) = true ->
  eligible stp o (m :: queue) = if decide (stp = CancelResting) then eligible stp o queue else [].
Proof.
  intros (Hs & Hp)%bool_decide_eq_true Ha. simpl. rewrite Ha, decide_True by done. by destruct stp.
Qed.

Lemma eligible_allowed stp o m queue : prevented stp o m = false -> acceptable o (o_price m) = true -> eligible stp o (m :: queue) = m :: eligible stp o queue.
Proof.
  intros Hp%bool_decide_eq_false Ha. simpl. rewrite Ha. case_decide as Ho; [|done]. destruct stp; [done|..]; by destruct Hp.
Qed.

Section shares.
Context (now_ns : nat -> Timestamp) (cfg : Config).
Hypothesis callback : trade_callback_ cfg = true.

(** What is left of a share-out after a level: nothing, or the share-out among
    the orders behind it. *)
Definition rest_shares (killed : bool) (taker : Order) (left : list Order) (behind : list Order) : list (OrderId * Quantity) :=
  if killed then [] else match left with [] => allocate (o_remaining_quantity taker) (eligible (stp_policy_ cfg) taker behind) | _ => [] end.

Lemma fill_shares p taker q w killed taker' q' w' behind :
  Forall (fun m => (0 < o_remaining_quantity m)%Z /\ o_price m = p) q -> acceptable taker p = true ->
  fill now_ns cfg p taker q w = (killed, taker', q', w') ->
  exists ts, w_trades w' = w_trades w ++ ts /\
    allocate (o_remaining_quantity taker) (eligible (stp_policy_ cfg) taker (q ++ behind)) = shares ts ++ rest_shares killed taker' q' behind.
Proof.
  intros Hq Hacc. revert taker w Hacc. induction Hq as [|m q [Hm Hp] Hq IH]; intros taker w Hacc; cbn [fill].
  { intros [= <- <- <- <-]. exists []. by rewrite app_nil_r. }
  destruct (Z.leb_spec (o_remaining_quantity taker) 0) as [Hz|Hz].
  { intros [= <- <- <- <-]. exists []. by rewrite app_nil_r, allocate_none. }
  rewrite <- Hp in Hacc. cbn [app]. destruct (prevented (stp_policy_ cfg) taker m) eqn:Hst.
  - rewrite (eligible_prevented _ _ _ _ Hst Hacc). rewrite Hp in Hacc. destruct (stp_policy_ cfg) eqn:Hpol; try (by apply bool_decide_eq_true in Hst as [? _]);
      [rewrite decide_True by done|rewrite decide_False by done|rewrite decide_False by done].
    + intros Hf. by apply IH.
    + intros [= <- <- <- <-]. exists []. by rewrite app_nil_r.
    + intros [= <- <- <- <-]. exists []. by rewrite app_nil_r.
  - rewrite (eligible_allowed _ _ _ _ Hst Hacc). rewrite Hp in Hacc. cbn [allocate]. rewrite (proj2 (Z.leb_gt _ _) Hz). cbn zeta. set (qty := Z.min _ _).
    unfold record_trade. rewrite callback. cbn zeta. destruct (Z.eqb_spec (o_remaining_quantity m - qty) 0) as [Hzero|Hpart].
    + intros Hf. destruct (IH (set_remaining (o_remaining_quantity taker - qty) taker) _ Hacc Hf) as (ts & Hlog & Hsh). eexists (_ :: ts). rewrite Hlog. cbn [w_trades]. rewrite <- app_assoc. split; [done|].
      rewrite eligible_set_remaining in Hsh. cbn [o_remaining_quantity set_remaining] in Hsh. rewrite Hsh. done.
    + intros [= <- <- <- <-]. eexists [_]. split; [done|]. cbn [rest_shares]. rewrite allocate_none by lia. by rewrite app_nil_r.
Qed.

Lemma sweep_shares s taker ls w killed taker' ls' w' :
  Forall (level_ok s) ls -> (0 <= o_remaining_quantity taker)%Z -> sweep now_ns cfg taker ls w = (killed, taker', ls', w') ->
  exists ts, w_trades w' = w_trades w ++ ts /\ shares ts = allocate (o_remaining_quantity taker) (eligible (stp_policy_ cfg) taker (level_orders ls)).
Proof.
  intros Hls. revert taker w. induction Hls as [|[p q] ls (Hne & _ & Hq) Hls IH]; intros taker w Htk; simpl.
  { intros [= <- <- <- <-]. exists []. by rewrite app_nil_r. }
  rewrite level_orders_cons. simpl in Hne, Hq. destruct (Z.leb_spec (o_remaining_quantity taker) 0) as [Hz|Hz]; simpl.
  { intros [= <- <- <- <-]. exists []. by rewrite app_nil_r, allocate_none. }
  destruct (acceptable taker p) eqn:Hacc; simpl; cycle 1.
  { intros [= <- <- <- <-]. exists []. rewrite app_nil_r. split; [done|]. destruct q as [|m q]; [done|]. apply Forall_cons in Hq as [(Hp & _) _]. simpl. by rewrite Hp, Hacc. }
  destruct (fill now_ns cfg p taker q w) as [[[k1 t1] q1] w1] eqn:Hf.
  assert (Hpos : positive_orders q) by (eapply Forall_impl; [exact Hq|]; by intros m (_ & _ & ? & _)).
  destruct (fill_shares p taker q w k1 t1 q1 w1 (level_orders ls)) as (ts & Hlog & ->); [|done|done|].
  { eapply Forall_impl; [exact Hq|]. by intros m (? & _ & ? & _). }
  apply fill_facts in Hf as [F1 F2 _ _ _]; [|done|lia]. unfold rest_shares.
  destruct k1; [intros [= <- <- <- <-]; exists ts; by rewrite app_nil_r|]. destruct q1 as [|m1 q1]; [|intros [= <- <- <- <-]; exists ts; by rewrite app_nil_r].
  intros Hs. destruct (IH t1 w1 ltac:(lia) Hs) as (ts2 & Hlog2 & Hsh). exists (ts ++ ts2). rewrite Hlog2, Hlog, app_assoc. split; [done|].
  unfold shares in *. by rewrite fmap_app, Hsh.
Qed.

(** Either the order is refused, or it is a fill-or-kill order without enough
    quantity to trade against, or it takes its shares. *)
Lemma spec_add_shares in_range a o w r a' w' : abook_ok a -> spec_add now_ns cfg in_range a o w = (r, a', w') ->
  exists ts, w_trades w' = w_trades w ++ ts /\
    ((ts = [] /\ (er_status r = Rejected \/ (o_time_in_force o = FOK /\ (available o (side_of (opposite (o_side o)) a) < o_quantity o)%Z))) \/
     shares ts = allocate (o_quantity o) (eligible (stp_policy_ cfg) o (level_orders (side_of (opposite (o_side o)) a)))).
Proof.
  intros Hok. unfold spec_add, reject. assert (Hidle : w_trades w = w_trades w ++ []) by (by rewrite app_nil_r).
  destruct (Z.leb_spec (o_quantity o) 0) as [Hq|Hq]; [intros [= <- <- <-]; exists []; auto 10|].
  destruct (_ && _); [intros [= <- <- <-]; exists []; auto 10|].
  destruct (_ && _); [intros [= <- <- <-]; exists []; auto 10|].
  destruct (_ && _); [intros [= <- <- <-]; exists []; auto 10|].
  destruct (_ && _) eqn:Hfok; [apply andb_true_iff in Hfok as [Hf%bool_decide_eq_true Hav%Z.ltb_lt]; intros [= <- <- <-]; exists []; auto 10|].
  destruct (sweep _ _ _ _ w) as [[[killed taker] ls] w1] eqn:Hsw. destruct (settle _ _ _ _) as [report a1]. intros [= <- <- <-].
  apply (sweep_shares (opposite (o_side o))) in Hsw as (ts & Hlog & Hsh); [|apply Hok|simpl; lia]. exists ts. split; [done|]. right.
  by rewrite eligible_set_remaining in Hsh.
Qed.
End shares.

(** * The outcome of [add_order] *)

Record add_outcome (cfg : Config) (a : abook) (o : Order) (w : World) (r : ExecutionReport) (a' : abook) (w' : World)
    (ts : list Trade) : Prop := {
  ao_log : w_trades w' = w_trades w ++ ts;
  ao_filled : er_filled_quantity r = traded ts;
  ao_trades : Forall (trade_ok cfg o (level_orders (side_of (opposite (o_side o)) a))) ts;
  ao_order : (t_maker_order_id <$> ts) `sublist_of` (o_id <$> level_orders (side_of (opposite (o_side o)) a));
  ao_priority : stp_policy_ cfg = STPNone ->
    (t_maker_order_id <$> ts) `prefix_of` (o_id <$> level_orders (side_of (opposite (o_side o)) a));
  ao_status :
    match er_status r with
    | Rejected => ts = [] /\ a' = a /\ er_reject_reason r <> RNone
    | Filled => er_filled_quantity r = o_quantity o /\ o_id o ∉ o_id <$> orders a'
    | Cancelled => (er_filled_quantity r < o_quantity o)%Z /\ o_id o ∉ o_id <$> orders a'
    | _ => find_order (o_id o) (orders a') = Some (set_remaining (er_remaining_quantity r) o) /\
        (er_filled_quantity r + er_remaining_quantity r = o_quantity o)%Z /\ (0 < er_remaining_quantity r)%Z /\
        rests_in_book o = true /\ (er_status r = New <-> ts = [])
    end
}.

(** A call that neither matches nor changes the book. *)
Lemma outcome_idle cfg a o w r : er_filled_quantity r = 0%Z ->
  match er_status r with
  | Rejected => er_reject_reason r <> RNone
  | Cancelled => (0 < o_quantity o)%Z /\ o_id o ∉ o_id <$> orders a
  | _ => False
  end -> add_outcome cfg a o w r a w [].
Proof.
  intros Hf Hs. split; try done; [by rewrite app_nil_r|apply sublist_nil_l|intros _; apply prefix_nil|].
  destruct (er_status r); try done. by rewrite Hf.
Qed.

Lemma traded_zero cfg taker makers ts : Forall (trade_ok cfg taker makers) ts -> (0 <= traded ts)%Z /\ (traded ts = 0%Z <-> ts = []).
Proof.
  induction 1 as [|t ts [_ (m & _ & _ & _ & _ & Hq) _ _] _ [IH _]]; simpl; [done|]. split; [lia|]. split; [intros; exfalso; lia|done].
Qed.

Lemma spec_add_outcome now_ns cfg in_range a o w r a' w' :
  trade_callback_ cfg = true -> abook_ok a -> add_pre a o -> spec_add now_ns cfg in_range a o w = (r, a', w') ->
  exists ts, add_outcome cfg a o w r a' w' ts.
Proof.
  intros Hcb Hok Hpre Hs. pose proof Hpre as [Hid Hsum _].
  pose proof (spec_add_ok now_ns cfg in_range a o w r a' w' Hok Hid Hsum Hs) as Hok'. revert Hs. unfold spec_add, reject.
  destruct (Z.leb_spec (o_quantity o) 0) as [Hq|Hq]; [intros [= <- <- <-]; exists []; by apply outcome_idle|].
  destruct (_ && _); [intros [= <- <- <-]; exists []; by apply outcome_idle|].
  destruct (_ && _); [intros [= <- <- <-]; exists []; by apply outcome_idle|].
  rewrite (proj2 (N.eqb_neq _ _) Hid). cbn [negb andb].
  destruct (bool_decide_reflect (o_id o ∈ o_id <$> orders a)) as [Hdup|Hfresh];
    [intros [= <- <- <-]; exists []; by apply outcome_idle|].
  destruct (_ && _); [intros [= <- <- <-]; exists []; by apply outcome_idle|].
  destruct (sweep _ _ _ _ w) as [[[killed taker] ls] w1] eqn:Hsw.
  destruct (sweep_swept _ _ a o w killed taker ls w1 Hok Hpre Hq Hfresh Hsw) as [_ Htk Hr Hfresh' _ _].
  destruct (sweep_matched now_ns cfg Hcb (opposite (o_side o)) (set_remaining (o_quantity o) o) _ w killed taker ls w1
      (side_levels _ _ (abook_sides _ Hok _)) ltac:(simpl; lia) Hsw)
    as (ts & [M1 M2 M3 M4 M5 M6]). cbn [o_remaining_quantity set_remaining] in M3.
  assert (M4' : Forall (trade_ok cfg o (level_orders (side_of (opposite (o_side o)) a))) ts).
  { eapply Forall_impl; [exact M4|]. intros t Ht. eapply trade_ok_mono; [exact Ht|done|done]. }
  destruct (traded_zero _ _ _ _ M4') as [Hnn Hz].
  unfold settle. rewrite may_rest_eq. destruct (Z.eqb_spec (o_remaining_quantity taker) 0) as [H0|H0].
  { intros [= <- <- <-]. exists ts. split; simpl; try done. split; [lia|done]. }
  destruct (negb killed && rests_in_book o) eqn:Hrest; cycle 1.
  { intros [= <- <- <-]. exists ts. split; simpl; try done. split; [lia|done]. }
  apply andb_true_iff in Hrest as [_ Hrest]. intros [= <- Ha' <-]. exists ts.
  assert (Hfind : find_order (o_id o) (orders a') = Some (set_remaining (o_remaining_quantity taker) o)).
  { rewrite <- Htk. replace (o_id o) with (o_id taker) by (by rewrite Htk). apply find_order_unique; [apply Hok'|].
    rewrite <- Ha', (orders_set_side (o_side o)), insert_order_orders. apply elem_of_app. left. left. }
  split; simpl; try done. destruct (Z.ltb_spec 0 (o_quantity o - o_remaining_quantity taker)).
  - split_and!; try done; [lia|lia|]. split; [done|]. intros ->. simpl in *. lia.
  - split_and!; try done; [lia|lia|]. split; [|done]. intros _. apply Hz. lia.
Qed.

(** A FOK order without self-trade prevention is filled whole or not at all. *)
Lemma spec_add_fok now_ns cfg in_range a o w r a' w' :
  stp_policy_ cfg = STPNone -> o_time_in_force o = FOK -> abook_ok a -> add_pre a o ->
  spec_add now_ns cfg in_range a o w = (r, a', w') ->
  (er_status r = Filled /\ er_filled_quantity r = o_quantity o) \/
  ((er_status r = Cancelled \/ er_status r = Rejected) /\ er_filled_quantity r = 0%Z /\ a' = a /\ w' = w).
Proof.
  intros Hp Hf Hok Hpre. unfold spec_add, reject.
  destruct (Z.leb_spec (o_quantity o) 0) as [Hq|Hq]; [intros [= <- <- <-]; right; eauto|].
  destruct (_ && _); [intros [= <- <- <-]; right; eauto|].
  destruct (_ && _); [intros [= <- <- <-]; right; eauto|].
  destruct (_ && _); [intros [= <- <- <-]; right; eauto|].
  rewrite bool_decide_eq_true_2 by done. cbn [andb].
  destruct (Z.ltb_spec (available o (side_of (opposite (o_side o)) a)) (o_quantity o)) as [Hav|Hav];
    [intros [= <- <- <-]; right; eauto|].
  destruct (sweep _ _ _ _ w) as [[[killed taker] ls] w1] eqn:Hsw.
  apply (sweep_remaining now_ns cfg Hp) in Hsw as [_ Hrem]; [|eapply side_ok_positive, Hok|simpl; lia].
  rewrite available_set_remaining in Hrem. cbn [o_remaining_quantity set_remaining] in Hrem.
  unfold settle. rewrite (proj2 (Z.eqb_eq (o_remaining_quantity taker) 0)) by lia. intros [= <- <- <-]. left. simpl. split; [done|lia].
Qed.

(** Only a resting order reports a remaining quantity. *)
Lemma spec_add_remaining now_ns cfg in_range a o w r a' w' :
  spec_add now_ns cfg in_range a o w = (r, a', w') -> er_status r = Filled \/ er_status r = Cancelled ->
  er_remaining_quantity r = 0%Z.
Proof.
  unfold spec_add, reject, settle. intros Hs Hst. repeat case_match; simplify_eq/=; try done; naive_solver.
Qed.

(** * Adding and cancelling *)

Lemma remove_insert s o ls : Forall (level_ok s) ls -> o_id o ∉ o_id <$> level_orders ls ->
  remove_order (o_id o) (insert_order s o ls) = ls.
Proof.
  intros Hls. induction Hls as [|[p q] ls Hl Hls IH]; intros Hni.
  - cbn [insert_order]. rewrite remove_order_cons, filter_cons, decide_False by naive_solver. done.
  - rewrite level_orders_cons, fmap_app, elem_of_app in Hni. cbn [insert_order].
    pose proof Hl as (Hne & _ & _).
    assert (Hkeep : remove_order (o_id o) ((p, q) :: ls) = (p, q) :: ls).
    { eapply (remove_order_none s); [by constructor|]. rewrite level_orders_cons, fmap_app, elem_of_app. tauto. }
    assert (Hq : filter (fun o' => o_id o' <> o_id o) q = q) by (apply filter_ne_id; tauto).
    destruct (p =? o_price o)%Z; [|destruct (before s p (o_price o))].
    + rewrite remove_order_cons, filter_app, Hq, filter_cons, decide_False, filter_nil, app_nil_r by naive_solver.
      rewrite (remove_order_none s) by tauto. by destruct q.
    + rewrite remove_order_cons, Hq, IH by tauto. by destruct q.
    + rewrite remove_order_cons, filter_cons, decide_False by naive_solver. exact Hkeep.
Qed.

(** Without self-trade prevention a taker that lost nothing changed nothing. *)
Lemma sweep_idle now_ns cfg s taker ls w killed taker' ls' w' : stp_policy_ cfg = STPNone ->
  Forall (level_ok s) ls -> (0 < o_remaining_quantity taker)%Z ->
  sweep now_ns cfg taker ls w = (killed, taker', ls', w') -> o_remaining_quantity taker' = o_remaining_quantity taker ->
  ls' = ls /\ w' = w.
Proof.
  intros Hp Hls Htk Hsw Hr. pose proof (level_ok_positive s ls Hls) as Hpos.
  pose proof Hsw as Hrem. apply (sweep_remaining now_ns cfg Hp) in Hrem as [_ Hrem]; [|done|lia].
  rewrite sweep_skip in Hsw; [by injection Hsw as _ _ -> ->|]. destruct Hls as [|[p q] ls (Hne & _) _]; [done|]. simpl in *.
  destruct (acceptable taker p) eqn:Ha; [|done]. rewrite level_orders_cons in Hpos. apply Forall_app in Hpos as [Hq Hls].
  pose proof (available_nonneg taker ls Hls). destruct Hq as [|m q Hm Hq]; [done|]. simpl in *.
  pose proof (sum_remaining_nonneg _ Hq). lia.
Qed.

Lemma spec_add_cancel now_ns cfg in_range a o w r a' w' :
  stp_policy_ cfg = STPNone -> trade_callback_ cfg = true -> abook_ok a -> add_pre a o ->
  spec_add now_ns cfg in_range a o w = (r, a', w') -> er_status r = New -> spec_cancel a' (o_id o) = (true, a) /\ w' = w.
Proof.
  intros Hp Hcb Hok Hpre Hs Hst. destruct (spec_add_outcome now_ns cfg in_range a o w r a' w' Hcb Hok Hpre Hs) as [ts [_ Hf _ _ _ Hout]].
  rewrite Hst in Hout. destruct Hout as (Hfind & Hsum & _ & _ & [Hts _]). specialize (Hts eq_refl). subst ts. simpl in Hf.
  unfold spec_cancel. rewrite Hfind. cbn [o_side set_remaining]. revert Hs Hst Hf Hsum. unfold spec_add, reject.
  destruct (Z.leb_spec (o_quantity o) 0) as [|Hq]; [intros [= <- <- <-]; done|].
  destruct (_ && _); [intros [= <- <- <-]; done|]. destruct (_ && _); [intros [= <- <- <-]; done|].
  rewrite (proj2 (N.eqb_neq _ _) (pre_id _ _ Hpre)). cbn [negb andb].
  destruct (bool_decide_reflect (o_id o ∈ o_id <$> orders a)) as [Hdup|Hfresh]; [intros [= <- <- <-]; done|].
  destruct (_ && _); [intros [= <- <- <-]; done|].
  destruct (sweep _ _ _ _ w) as [[[killed taker] ls] w1] eqn:Hsw.
  destruct (sweep_swept _ _ a o w killed taker ls w1 Hok Hpre Hq Hfresh Hsw) as [_ Htk _ _ _ _].
  unfold settle. rewrite may_rest_eq. destruct (_ =? 0)%Z; [intros [= <- <- <-]; done|]. destruct (negb killed && _); [|intros [= <- <- <-]; done].
  intros [= <- <- <-] _ Hf Hsum. simpl in Hf.
  destruct (sweep_idle now_ns cfg (opposite (o_side o)) (set_remaining (o_quantity o) o) _ _ _ _ _ _ Hp
      (side_levels _ _ (abook_sides _ Hok _)) ltac:(simpl; lia) Hsw) as [-> ->]; [simpl; lia|].
  rewrite set_side_id, side_of_set_same. split; [|done]. f_equal.
  assert (Hid : o_id o = o_id taker) by (by rewrite Htk). rewrite Hid, remove_insert.
  - destruct a. by destruct (o_side o).
  - apply (abook_sides _ Hok).
  - rewrite <- Hid. intros Hin. apply Hfresh. rewrite (orders_sides (o_side o)), fmap_app. apply elem_of_app. by left.
Qed.

(** What cancelling does to the orders. *)
Lemma cancel_cases a id : abook_ok a ->
  (id ∈ o_id <$> orders a /\ (spec_cancel a id).1 = true /\ id ∉ o_id <$> orders (spec_cancel a id).2 /\
     length (orders a) = S (length (orders (spec_cancel a id).2))) \/
  (id ∉ o_id <$> orders a /\ (spec_cancel a id).1 = false /\ (spec_cancel a id).2 = a).
Proof.
  intros Hok. unfold spec_cancel. destruct (find_order id (orders a)) as [x|] eqn:Hf; [left|right; by rewrite <- find_order_None].
  destruct (find_order_Some _ _ _ Hf) as [Hx <-]. destruct (abook_ok_resting a x Hok Hx) as (_ & _ & Hin). cbn [fst snd].
  pose proof (abook_ids _ Hok) as Hnd. rewrite (orders_sides (o_side x)), fmap_app in Hnd.
  split_and!; [by apply list_elem_of_fmap_2|done| |].
  - rewrite (orders_set_side (o_side x)), fmap_app, elem_of_app, remove_order_orders. intros [Hi|Hi].
    + apply list_elem_of_fmap in Hi as (y & Hy & Hi). apply list_elem_of_filter in Hi as [Hne _]. congruence.
    + eapply NoDup_app_disjoint; [exact Hnd| |exact Hi]. by apply list_elem_of_fmap_2.
  - rewrite (orders_set_side (o_side x)), (orders_sides (o_side x) a), !length_app, remove_order_orders.
    apply NoDup_app in Hnd as (Hnd & _ & _). apply list_elem_of_split in Hin as (l1 & l2 & Heq). rewrite Heq in *.
    rewrite fmap_app, fmap_cons in Hnd. apply NoDup_app in Hnd as (_ & Hd & [Hn2 _]%NoDup_cons).
    rewrite filter_app, filter_cons, decide_False by naive_solver.
    rewrite !filter_ne_id; [rewrite !length_app; simpl; lia|done|]. intros Hi. apply (Hd _ Hi). left.
Qed.

(** * Amending *)

Lemma orders_ids_update s id f a : (forall o, o_id (f o) = o_id o) ->
  o_id <$> orders (set_side s (update_order id f (side_of s a)) a) = o_id <$> orders a.
Proof.
  intros Hf. unfold orders. destruct s; simpl; rewrite !fmap_app; f_equal; by apply update_order_ids.
Qed.

(** A size-down amend keeps every order in its place. *)
Lemma spec_amend_down now_ns cfg in_range a id q np w x : abook_ok a -> find_order id (orders a) = Some x ->
  (0 < q <= o_remaining_quantity x)%Z -> np = None \/ np = Some (o_price x) -> default true (in_range <$> np) = true ->
  exists a', spec_amend now_ns cfg in_range a id q np w = (mkReport id New 0 q RNone, a', w) /\
    o_id <$> orders a' = o_id <$> orders a /\ find_order id (orders a') = Some (set_remaining q x).
Proof.
  intros Hok Hf Hq Hnp Hr. unfold spec_amend. rewrite Hf, (proj2 (Z.leb_gt _ _)), Hr by lia. cbn [negb].
  assert (Hd : default (o_price x) np = o_price x) by (by destruct Hnp as [->| ->]).
  rewrite Hd, Z.eqb_refl, (proj2 (Z.leb_le _ _)) by lia. cbn [andb]. eexists. split; [reflexivity|].
  set (a' := set_side _ _ _).
  assert (Hids : o_id <$> orders a' = o_id <$> orders a) by (by apply orders_ids_update). split; [done|].
  destruct (find_order_Some _ _ _ Hf) as [Hx <-]. destruct (abook_ok_resting a x Hok Hx) as (_ & _ & Hin).
  change (o_id x) with (o_id (set_remaining q x)). apply find_order_unique; [rewrite Hids; apply Hok|].
  unfold a'. rewrite (orders_set_side (o_side x)), update_order_orders. apply elem_of_app. left.
  apply list_elem_of_fmap. exists x. by rewrite decide_True.
Qed.

(** A replacement that is invalid by its price has cost the order its place. *)
Lemma spec_amend_loses now_ns cfg a id q p w x : abook_ok a -> find_order id (orders a) = Some x ->
  (0 < q)%Z -> (p <= 0)%Z ->
  exists w', spec_amend now_ns cfg (fun _ => true) a id q (Some p) w =
    (mkReport id Rejected 0 0 InvalidPrice, (spec_cancel a id).2, w') /\ id ∉ o_id <$> orders (spec_cancel a id).2.
Proof.
  intros Hok Hf Hq Hp. destruct (find_order_Some _ _ _ Hf) as [Hx Hid].
  destruct (abook_ok_resting a x Hok Hx) as ((_ & _ & _ & Hrest & _) & Hpos & _).
  pose proof Hrest as [Hl%bool_decide_eq_true _]%andb_true_iff.
  unfold spec_amend. rewrite Hf, (proj2 (Z.leb_gt q 0)) by lia.
  change (default true ((fun _ => true) <$> Some p)) with true. change (default (o_price x) (Some p)) with p. cbn [negb].
  rewrite (proj2 (Z.eqb_neq p (o_price x))) by lia. cbn [andb]. eexists. split.
  - unfold spec_add, replacement, reject. cbn [o_quantity o_type o_price o_id]. rewrite (proj2 (Z.leb_gt q 0)) by lia.
    rewrite bool_decide_eq_true_2, (proj2 (Z.leb_le p 0)) by done. cbn [andb]. by rewrite Hid.
  - destruct (cancel_cases a id Hok) as [(_ & _ & Hg & _)|(Hn & _)]; [done|]. apply find_order_None in Hn. congruence.
Qed.

(** * Predicates on the resting orders *)

Section keeps.
Context (now_ns : nat -> Timestamp) (cfg : Config) (in_range : Price -> bool).
Context (P : Order -> Prop) (P_set : forall o q, P o -> P (set_remaining q o)).

Definition all_orders (a : abook) : Prop := Forall P (orders a).

Lemma all_orders_sides s a :
  all_orders a <-> Forall P (level_orders (side_of s a)) /\ Forall P (level_orders (side_of (opposite s) a)).
Proof. unfold all_orders. by rewrite (orders_sides s), Forall_app. Qed.

Lemma all_orders_set s ls a : all_orders a -> Forall P (level_orders ls) -> all_orders (set_side s ls a).
Proof.
  intros [_ Ho]%(all_orders_sides s) Hls. apply (all_orders_sides s). by rewrite side_of_set_same, side_of_opp_set.
Qed.

Lemma spec_cancel_keeps a id : all_orders a -> all_orders (spec_cancel a id).2.
Proof.
  intros Ha. unfold spec_cancel. destruct (find_order id (orders a)) as [o|]; [|done]. apply all_orders_set; [done|].
  destruct (proj1 (all_orders_sides (o_side o) a) Ha) as [H' _]. rewrite remove_order_orders.
  eapply sublist_Forall; [apply filter_sublist|exact H'].
Qed.

Lemma spec_add_keeps a o w r a' w' :
  abook_ok a -> all_orders a -> P o -> spec_add now_ns cfg in_range a o w = (r, a', w') -> all_orders a'.
Proof.
  intros Hok Ha Ho. unfold spec_add. destruct (Z.leb_spec (o_quantity o) 0) as [|Hq]; [by intros [= _ <- _]|].
  do 4 (destruct (_ && _); [by intros [= _ <- _]|]).
  destruct (sweep _ _ _ _ w) as [[[killed taker] ls] w1] eqn:Hsw.
  apply sweep_facts in Hsw as [S1 _ S3 _ _]; [|eapply side_ok_positive, Hok|simpl; lia]. rewrite set_remaining_twice in S1.
  assert (H1 : all_orders (set_side (opposite (o_side o)) ls a)).
  { apply all_orders_set; [done|]. eapply leftover_Forall; [|by apply levels_leftover_orders|].
    - intros m q Hm _. by apply P_set.
    - by destruct (proj1 (all_orders_sides (opposite (o_side o)) a) Ha). }
  unfold settle. rewrite may_rest_eq. destruct (o_remaining_quantity taker =? 0)%Z; [by intros [= _ <- _]|].
  destruct (negb killed && rests_in_book o); [|by intros [= _ <- _]].
  intros [= _ <- _]. apply all_orders_set; [done|]. rewrite insert_order_orders. constructor; [rewrite S1; by apply P_set|].
  by destruct (proj1 (all_orders_sides (o_side o) _) H1).
Qed.

Lemma spec_amend_keeps a id q p w r a' w' :
  (forall o price ts, P o -> P (replacement o q price ts)) ->
  abook_ok a -> all_orders a -> spec_amend now_ns cfg in_range a id q p w = (r, a', w') -> all_orders a'.
Proof.
  intros Hrep Hok Ha. unfold spec_amend. destruct (find_order id (orders a)) as [o|] eqn:Hf; [|by intros [= _ <- _]].
  assert (Ho : P o). { apply find_order_Some in Hf as [Ho _]. unfold all_orders in Ha. rewrite Forall_forall in Ha. by apply Ha. }
  destruct (q <=? 0)%Z; [by intros [= _ <- _]|]. destruct (negb _); [by intros [= _ <- _]|].
  destruct (_ && _).
  - intros [= _ <- _]. apply all_orders_set; [done|]. rewrite update_order_orders.
    destruct (proj1 (all_orders_sides (o_side o) a) Ha) as [H' _]. apply Forall_fmap. eapply Forall_impl; [exact H'|].
    intros x Hx. simpl. destruct (decide _); [by apply P_set|done].
  - intros Hs. eapply spec_add_keeps; [| | |exact Hs]; [by apply spec_cancel_ok|by apply spec_cancel_keeps|by apply Hrep].
Qed.
End keeps.
