(* ===== verification/BookInterface.v ===== *)
(** What a limit order book promises to its clients.

    [BookOps] are the operations that [MatchingEngine<BookT>], the tests and
    the benchmarks call on a book, whichever of the three it is; [BookLaws] is
    the contract: the operations implement the abstract book of BookSpec.v.
    A workload is a sequence of calls; [run_refines] lifts the contract to
    every workload whose quantities fit 64 bits in total. *)

From S2P Require Import Prelude Types OrderPool BookCore BookSpec BookSpecFacts.

Class BookOps (B : Type) := {
  bk_config : B -> Config;
  bk_in_range : B -> Price -> bool;
  bk_add : (nat -> Timestamp) -> B -> Order -> World -> option (ExecutionReport * B * World);
  bk_cancel : B -> OrderId -> option (bool * B);
  bk_amend : (nat -> Timestamp) -> B -> OrderId -> Quantity -> option Price -> World ->
    option (ExecutionReport * B * World);
  bk_reset : B -> option B;
  bk_set_callback : B -> B;
  bk_best : Side -> B -> option (option Price);
  bk_depth : Side -> B -> nat -> option (list PriceLevelView);
  bk_count : B -> N
}.

(** Two books configured alike. *)
Definition same_setup {B} `{BookOps B} (b b' : B) : Prop :=
  bk_config b' = bk_config b /\ forall p, bk_in_range b' p = bk_in_range b p.

Class BookLaws (B : Type) `{BookOps B} := {
  bk_rep : B -> abook -> Prop;
  bk_add_law : forall now_ns b a o w r a' w', bk_rep b a -> abook_ok a -> add_pre a o ->
    spec_add now_ns (bk_config b) (bk_in_range b) a o w = (r, a', w') ->
    exists b', bk_add now_ns b o w = Some (r, b', w') /\ bk_rep b' a' /\ same_setup b b';
  bk_cancel_law : forall b a id r a', bk_rep b a -> abook_ok a -> spec_cancel a id = (r, a') ->
    exists b', bk_cancel b id = Some (r, b') /\ bk_rep b' a' /\ same_setup b b';
  bk_amend_law : forall now_ns b a id q p w r a' w', bk_rep b a -> abook_ok a -> amend_pre a id q ->
    spec_amend now_ns (bk_config b) (bk_in_range b) a id q p w = (r, a', w') ->
    exists b', bk_amend now_ns b id q p w = Some (r, b', w') /\ bk_rep b' a' /\ same_setup b b';
  bk_reset_law : forall b a, bk_rep b a ->
    exists b', bk_reset b = Some b' /\ bk_rep b' empty_abook /\ same_setup b b';
  bk_callback_law : forall b a, bk_rep b a -> bk_rep (bk_set_callback b) a /\
    bk_config (bk_set_callback b) = mkConfig (symbol_ (bk_config b)) true (stp_policy_ (bk_config b)) /\
    forall p, bk_in_range (bk_set_callback b) p = bk_in_range b p;
  bk_best_law : forall s b a, bk_rep b a -> bk_best s b = Some (best s a);
  bk_depth_law : forall s b a n, bk_rep b a -> bk_depth s b n = Some (depth s n a);
  bk_count_law : forall b a, bk_rep b a -> bk_count b = N.of_nat (length (orders a))
}.

(** * Workloads *)

Inductive Command :=
| CAdd (o : Order)
| CCancel (id : OrderId)
| CAmend (id : OrderId) (q : Quantity) (p : option Price)
| CReset.

Inductive Answer := AReport (r : ExecutionReport) | ABool (b : bool) | ADone.

Section run.
Context (now_ns : nat -> Timestamp).

Definition step {B} `{BookOps B} (b : B) (c : Command) (w : World) : option (Answer * B * World) :=
  match c with
  | CAdd o => '(r, b1, w1) ← bk_add now_ns b o w; Some (AReport r, b1, w1)
  | CCancel id => '(r, b1) ← bk_cancel b id; Some (ABool r, b1, w)
  | CAmend id q p => '(r, b1, w1) ← bk_amend now_ns b id q p w; Some (AReport r, b1, w1)
  | CReset => b1 ← bk_reset b; Some (ADone, b1, w)
  end.

Fixpoint run {B} `{BookOps B} (b : B) (cs : list Command) (w : World) : option (list Answer * B * World) :=
  match cs with
  | [] => Some ([], b, w)
  | c :: cs' =>
      '(r, b1, w1) ← step b c w;
      '(rs, b2, w2) ← run b1 cs' w1;
      Some (r :: rs, b2, w2)
  end.

(** The same on the abstract book. *)
Definition spec_step (cfg : Config) (in_range : Price -> bool) (a : abook) (c : Command) (w : World)
    : Answer * abook * World :=
  match c with
  | CAdd o => let '(r, a1, w1) := spec_add now_ns cfg in_range a o w in (AReport r, a1, w1)
  | CCancel id => let '(r, a1) := spec_cancel a id in (ABool r, a1, w)
  | CAmend id q p => let '(r, a1, w1) := spec_amend now_ns cfg in_range a id q p w in (AReport r, a1, w1)
  | CReset => (ADone, empty_abook, w)
  end.

Fixpoint spec_run (cfg : Config) (in_range : Price -> bool) (a : abook) (cs : list Command) (w : World)
    : list Answer * abook * World :=
  match cs with
  | [] => ([], a, w)
  | c :: cs' =>
      let '(r, a1, w1) := spec_step cfg in_range a c w in
      let '(rs, a2, w2) := spec_run cfg in_range a1 cs' w1 in
      (r :: rs, a2, w2)
  end.
End run.

(** The quantity that a call may add to the book. *)
Definition cost (c : Command) : Z :=
  match c with CAdd o => Z.max 0 (o_quantity o) | CAmend _ q _ => Z.max 0 q | _ => 0 end.

Fixpoint total_cost (cs : list Command) : Z := match cs with [] => 0 | c :: cs' => cost c + total_cost cs' end.

Definition valid_id (c : Command) : bool :=
  match c with CAdd o => negb (o_id o =? kInvalidOrderId)%N | _ => true end.

(** A workload that the library accepts: no null order id, quantities that fit
    64 bits in total, and fewer calls than pool handles. *)
Definition workload_ok (cs : list Command) : bool :=
  forallb valid_id cs && (total_cost cs <=? int64_max)%Z && (N.of_nat (length cs) <? kNullIndex)%N.

(** * The contract over workloads *)

Lemma cost_nonneg c : (0 <= cost c)%Z.
Proof. destruct c; simpl; lia. Qed.

Lemma total_cost_nonneg cs : (0 <= total_cost cs)%Z.
Proof. induction cs as [|c cs IH]; simpl; [lia|]. pose proof (cost_nonneg c). lia. Qed.

(** A well-formed abstract book within its budget. *)
Definition fits (t : Z) (n : nat) (a : abook) : Prop := abook_ok a /\ within t n a.

Section refinement.
Context (now_ns : nat -> Timestamp).

Lemma spec_step_fits cfg in_range t n a c w r a' w' :
  fits t n a -> valid_id c = true -> (t + cost c <= int64_max)%Z -> (N.of_nat n < kNullIndex)%N ->
  spec_step now_ns cfg in_range a c w = (r, a', w') -> fits (t + cost c) (S n) a'.
Proof.
  intros [Hok Hw] Hid Ht Hn. destruct c as [o|id|id q p|]; simpl in *.
  - apply negb_true_iff, N.eqb_neq in Hid. pose proof (within_add_pre t n a o Hok Hw Hid Ht Hn) as [_ Hs _].
    destruct (spec_add _ _ _ _ _ _) as [[r1 a1] w1] eqn:Ha. intros [= _ <- _].
    split; [by eapply spec_add_ok|by eapply within_add].
  - pose proof (spec_cancel_ok a id Hok) as Hok'. pose proof (within_cancel t n a id Hok Hw) as Hw'.
    destruct (spec_cancel a id) as [r1 a1]. intros [= _ <- _]. cbn [snd] in *. split; [done|]. destruct Hw'. split; lia.
  - pose proof (within_amend_pre t n a id q Hok Hw Ht Hn) as [Hs _].
    destruct (spec_amend _ _ _ _ _ _ _ _) as [[r1 a1] w1] eqn:Ha. intros [= _ <- _].
    split; [by eapply spec_amend_ok|by eapply within_amend].
  - intros [= _ <- _]. split; [apply empty_abook_ok|]. apply within_empty.
    destruct Hw as [Hw _]. pose proof (sum_remaining_nonneg _ (abook_positive _ Hok)). lia.
Qed.

Lemma spec_run_fits cfg in_range t n a cs w rs a' w' :
  fits t n a -> forallb valid_id cs = true -> (t + total_cost cs <= int64_max)%Z ->
  (N.of_nat (n + length cs) < kNullIndex)%N ->
  spec_run now_ns cfg in_range a cs w = (rs, a', w') -> fits (t + total_cost cs) (n + length cs) a'.
Proof.
  revert t n a w rs. induction cs as [|c cs IH]; intros t n a w rs Hf Hid Ht Hn; simpl in *.
  { intros [= _ <- _]. by rewrite Z.add_0_r, Nat.add_0_r. }
  apply andb_true_iff in Hid as [Hc Hid]. pose proof (total_cost_nonneg cs).
  destruct (spec_step _ _ _ _ _ _) as [[r1 a1] w1] eqn:Hs. destruct (spec_run _ _ _ _ _ _) as [[rs1 a2] w2] eqn:Hr.
  intros [= _ <- <-]. eapply spec_step_fits in Hs; [|done|done|lia|lia].
  rewrite Z.add_assoc, Nat.add_succ_r, <- Nat.add_succ_l. eapply IH; [exact Hs|done|lia|lia|exact Hr].
Qed.

(** ** Prices *)

Definition resting_in (f : Price -> bool) (a : abook) : Prop := Forall (fun o => f (o_price o) = true) (orders a).

Lemma resting_in_sides f s a : resting_in f a <->
  Forall (fun o => f (o_price o) = true) (level_orders (side_of s a)) /\
  Forall (fun o => f (o_price o) = true) (level_orders (side_of (opposite s) a)).
Proof. unfold resting_in. by rewrite (orders_sides s), Forall_app. Qed.

Lemma resting_in_set f s ls a : resting_in f a -> Forall (fun o => f (o_price o) = true) (level_orders ls) ->
  resting_in f (set_side s ls a).
Proof.
  intros [_ H]%(resting_in_sides f s) Hls. apply (resting_in_sides f s). by rewrite side_of_set_same, side_of_opp_set.
Qed.

Lemma spec_cancel_resting_in f a id : resting_in f a -> resting_in f (spec_cancel a id).2.
Proof.
  intros H. unfold spec_cancel. destruct (find_order id (orders a)) as [o|]; [|done]. apply resting_in_set; [done|].
  destruct (proj1 (resting_in_sides f (o_side o) a) H) as [H' _]. rewrite remove_order_orders.
  eapply sublist_Forall; [apply filter_sublist|exact H'].
Qed.

Lemma spec_add_prices cfg f a o w r a' w' :
  abook_ok a -> resting_in f a -> (o_type o = Limit -> (0 < o_price o)%Z -> f (o_price o) = true) ->
  spec_add now_ns cfg (fun _ => true) a o w = (r, a', w') ->
  spec_add now_ns cfg f a o w = (r, a', w') /\ resting_in f a'.
Proof.
  intros Hok Ha Hp. unfold spec_add. destruct (Z.leb_spec (o_quantity o) 0) as [|Hq]; [by intros [= <- <- <-]|].
  assert (Hf : bool_decide (o_type o = Limit) && (o_price o <=? 0)%Z = false ->
    bool_decide (o_type o = Limit) && negb (f (o_price o)) = false).
  { case_bool_decide as Ht; [|done]. simpl. intros Hz%Z.leb_gt. by rewrite (Hp Ht Hz). }
  destruct (bool_decide (o_type o = Limit) && (o_price o <=? 0)%Z) eqn:Hlim; [by intros [= <- <- <-]|].
  rewrite Hf by done. cbn [negb]. rewrite andb_false_r. cbv iota. clear Hf.
  destruct (negb (o_id o =? kInvalidOrderId)%N && _); [by intros [= <- <- <-]|].
  destruct (bool_decide (o_time_in_force o = FOK) && _); [by intros [= <- <- <-]|].
  destruct (sweep _ _ _ _ w) as [[[killed taker] ls] w1] eqn:Hsw. intros Heq. split; [done|]. revert Heq.
  apply sweep_facts in Hsw as [S1 _ S3 _ _]; [|eapply side_ok_positive, Hok|simpl; lia]. rewrite set_remaining_twice in S1.
  assert (H1 : resting_in f (set_side (opposite (o_side o)) ls a)).
  { apply resting_in_set; [done|]. eapply leftover_Forall; [|by apply levels_leftover_orders|].
    - done.
    - by destruct (proj1 (resting_in_sides f (opposite (o_side o)) a) Ha). }
  unfold settle. rewrite may_rest_eq. destruct (o_remaining_quantity taker =? 0)%Z; [by intros [= _ <- _]|].
  destruct (negb killed && rests_in_book o) eqn:Hrest; [|by intros [= _ <- _]].
  apply andb_true_iff in Hrest as [_ Hrest]. pose proof Hrest as [Hl%bool_decide_eq_true _]%andb_true_iff.
  rewrite bool_decide_eq_true_2 in Hlim by done. apply Z.leb_gt in Hlim.
  intros [= _ <- _]. apply resting_in_set; [done|]. rewrite insert_order_orders. constructor; [rewrite S1; by apply Hp|].
  by destruct (proj1 (resting_in_sides f (o_side o) _) H1).
Qed.

(** The best price is that of a resting order. *)
Lemma best_bounds f a s p : abook_ok a -> resting_in f a -> best s a = Some p -> (0 < p)%Z /\ f p = true.
Proof.
  intros Hok Hin Hb. pose proof (side_levels _ _ (abook_sides _ Hok s)) as Hl. unfold best in Hb.
  destruct (proj1 (resting_in_sides f s a) Hin) as [Hf _].
  destruct (side_of s a) as [|[p' q] ls]; [done|]. injection Hb as <-. apply Forall_cons in Hl as [(Hne & Hp & Hq) _].
  split; [exact Hp|]. destruct q as [|o q]; [done|]. rewrite level_orders_cons in Hf. apply Forall_app in Hf as [Hf _].
  apply Forall_cons in Hf as [Hf _], Hq as [[Ho _] _]. simpl in Ho. by rewrite <- Ho.
Qed.

(** Prices of the calls that may come to rest satisfy [f]. *)
Definition price_in (f : Price -> bool) (c : Command) : bool :=
  match c with
  | CAdd o => bool_decide (o_type o = Market) || (o_price o <=? 0)%Z || f (o_price o)
  | CAmend _ _ (Some p) => f p
  | _ => true
  end.

Lemma spec_step_prices cfg f a c w r a' w' :
  abook_ok a -> resting_in f a -> price_in f c = true -> spec_step now_ns cfg (fun _ => true) a c w = (r, a', w') ->
  spec_step now_ns cfg f a c w = (r, a', w') /\ resting_in f a'.
Proof.
  intros Hok Ha Hp. destruct c as [o|id|id q p|]; simpl in *.
  - destruct (spec_add _ _ (fun _ => true) _ _ _) as [[r1 a1] w1] eqn:Hs. intros [= <- <- <-].
    destruct (spec_add_prices cfg f a o w r1 a1 w1 Hok Ha) as [-> ?]; [|done|done].
    intros Hl Hz. apply orb_true_iff in Hp as [[Hm%bool_decide_eq_true|Hle%Z.leb_le]%orb_true_iff|]; [congruence|lia|done].
  - pose proof (spec_cancel_resting_in f a id Ha) as Hc. destruct (spec_cancel a id). by intros [= <- <- <-].
  - unfold spec_amend, reject. destruct (find_order id (orders a)) as [o|] eqn:Hf; [|by intros [= <- <- <-]].
    destruct (q <=? 0)%Z; [by intros [= <- <- <-]|].
    assert (Hfo : f (o_price o) = true).
    { apply find_order_Some in Hf as [Ho _]. unfold resting_in in Ha. rewrite Forall_forall in Ha. by apply Ha. }
    replace (default true (f <$> p)) with true by (by destruct p). replace (default true ((fun _ => true) <$> p)) with true by (by destruct p).
    cbn [negb]. destruct (_ && _).
    + intros [= <- <- <-]. split; [done|]. apply resting_in_set; [done|]. rewrite update_order_orders, Forall_fmap.
      destruct (proj1 (resting_in_sides f (o_side o) a) Ha) as [Ha' _]. eapply Forall_impl; [exact Ha'|]. intros x Hx. simpl. by case_decide.
    + destruct (spec_add _ _ (fun _ => true) _ _ _) as [[r1 a1] w1] eqn:Hs. intros [= <- <- <-].
      apply (spec_add_prices cfg f) in Hs as [-> ?]; [done|by apply spec_cancel_ok|by apply spec_cancel_resting_in|].
      intros _ _. simpl. by destruct p.
  - intros [= <- <- <-]. split; [done|]. by constructor.
Qed.

Lemma spec_run_prices cfg f t n a cs w rs a' w' :
  fits t n a -> forallb valid_id cs = true -> (t + total_cost cs <= int64_max)%Z -> (N.of_nat (n + length cs) < kNullIndex)%N ->
  resting_in f a -> forallb (price_in f) cs = true -> spec_run now_ns cfg (fun _ => true) a cs w = (rs, a', w') ->
  spec_run now_ns cfg f a cs w = (rs, a', w') /\ resting_in f a'.
Proof.
  revert t n a w rs. induction cs as [|c cs IH]; intros t n a w rs Hfit Hid Ht Hn Ha Hp; simpl in *.
  { by intros [= <- <- <-]. }
  apply andb_true_iff in Hid as [Hc Hid], Hp as [Hpc Hp]. pose proof (total_cost_nonneg cs).
  destruct (spec_step now_ns cfg (fun _ => true) a c w) as [[r1 a1] w1] eqn:Hs.
  destruct (spec_step_prices cfg f a c w r1 a1 w1) as [-> Ha1]; try done; [apply Hfit|].
  destruct (spec_run now_ns cfg (fun _ => true) a1 cs w1) as [[rs1 a2] w2] eqn:Hr. intros [= <- <- <-].
  eapply spec_step_fits in Hs; [|done|done|lia|lia].
  destruct (IH (t + cost c)%Z (S n) a1 w1 rs1 Hs Hid ltac:(lia) ltac:(lia) Ha1 Hp Hr) as [-> ?]. done.
Qed.

Context {B : Type} `{BookLaws B}.

Lemma same_setup_refl (b : B) : same_setup b b.
Proof. done. Qed.

Lemma same_setup_trans (b1 b2 b3 : B) : same_setup b1 b2 -> same_setup b2 b3 -> same_setup b1 b3.
Proof. intros [H1 H2] [H3 H4]. split; [congruence|]. intros p. by rewrite H4. Qed.

(** The abstract operations depend on [in_range] only through its values. *)
Lemma spec_step_ext cfg f g a c w : (forall p, f p = g p) -> spec_step now_ns cfg f a c w = spec_step now_ns cfg g a c w.
Proof.
  intros Hfg. destruct c as [o|id|id q p|]; simpl; try done.
  - unfold spec_add. by rewrite Hfg.
  - unfold spec_amend, spec_add. destruct (find_order _ _); [|done]. destruct p; simpl; by rewrite !Hfg.
Qed.

Lemma spec_run_ext cfg f g a cs w : (forall p, f p = g p) -> spec_run now_ns cfg f a cs w = spec_run now_ns cfg g a cs w.
Proof.
  intros Hfg. revert a w. induction cs as [|c cs IH]; intros a w; [done|]. simpl. rewrite (spec_step_ext cfg f g) by done.
  destruct (spec_step _ _ _ _ _ _) as [[r1 a1] w1]. by rewrite IH.
Qed.

Lemma step_refines b a t n c w r a' w' :
  bk_rep b a -> fits t n a -> valid_id c = true -> (t + cost c <= int64_max)%Z -> (N.of_nat n < kNullIndex)%N ->
  spec_step now_ns (bk_config b) (bk_in_range b) a c w = (r, a', w') ->
  exists b', step now_ns b c w = Some (r, b', w') /\ bk_rep b' a' /\ same_setup b b'.
Proof.
  intros Hr [Hok Hw] Hid Ht Hn. destruct c as [o|id|id q p|]; simpl in *.
  - apply negb_true_iff, N.eqb_neq in Hid. pose proof (within_add_pre t n a o Hok Hw Hid Ht Hn) as Hpre.
    destruct (spec_add _ _ _ _ _ _) as [[r1 a1] w1] eqn:Ha. intros [= <- <- <-].
    destruct (bk_add_law _ _ _ _ _ _ _ _ Hr Hok Hpre Ha) as (b' & -> & ? & ?). simpl. eauto.
  - destruct (spec_cancel a id) as [r1 a1] eqn:Ha. intros [= <- <- <-].
    destruct (bk_cancel_law _ _ _ _ _ Hr Hok Ha) as (b' & -> & ? & ?). simpl. eauto.
  - pose proof (within_amend_pre t n a id q Hok Hw Ht Hn) as Hpre.
    destruct (spec_amend _ _ _ _ _ _ _ _) as [[r1 a1] w1] eqn:Ha. intros [= <- <- <-].
    destruct (bk_amend_law _ _ _ _ _ _ _ _ _ _ Hr Hok Hpre Ha) as (b' & -> & ? & ?). simpl. eauto.
  - intros [= <- <- <-]. destruct (bk_reset_law _ _ Hr) as (b' & -> & ? & ?). simpl. eauto.
Qed.

(** Every call of a workload within its budget is defined and answers what the
    abstract book answers. *)
Lemma run_refines b a t n cs w rs a' w' :
  bk_rep b a -> fits t n a -> forallb valid_id cs = true -> (t + total_cost cs <= int64_max)%Z ->
  (N.of_nat (n + length cs) < kNullIndex)%N ->
  spec_run now_ns (bk_config b) (bk_in_range b) a cs w = (rs, a', w') ->
  exists b', run now_ns b cs w = Some (rs, b', w') /\ bk_rep b' a' /\ abook_ok a' /\ same_setup b b'.
Proof.
  revert b a t n w rs. induction cs as [|c cs IH]; intros b a t n w rs Hr Hf Hid Ht Hn; simpl in *.
  { intros [= <- <- <-]. exists b. split_and!; try done. apply Hf. }
  apply andb_true_iff in Hid as [Hc Hid]. pose proof (total_cost_nonneg cs).
  destruct (spec_step _ _ _ _ _ _) as [[r1 a1] w1] eqn:Hs. destruct (spec_run _ _ _ _ _ _) as [[rs1 a2] w2] eqn:Hrun.
  intros [= <- <- <-]. pose proof Hs as Hf1. eapply spec_step_fits in Hf1; [|done|done|lia|lia].
  destruct (step_refines b a t n c w r1 a1 w1) as (b1 & -> & Hr1 & Hset1); try done; [lia|lia|].
  pose proof Hset1 as [Hcfg Hrg]. rewrite <- Hcfg in Hrun. rewrite (spec_run_ext _ _ (bk_in_range b1)) in Hrun by (intros; by rewrite Hrg).
  destruct (IH b1 a1 (t + cost c)%Z (S n) w1 rs1 Hr1 Hf1 Hid ltac:(lia) ltac:(lia) Hrun)
    as (b' & Hrun' & Hr' & Hok' & Hset').
  simpl. rewrite Hrun'. simpl. exists b'. split_and!; try done. by eapply same_setup_trans.
Qed.

(** From an empty book. *)
Lemma run_refines_empty b cs w rs a' w' :
  bk_rep b empty_abook -> workload_ok cs = true ->
  spec_run now_ns (bk_config b) (bk_in_range b) empty_abook cs w = (rs, a', w') ->
  exists b', run now_ns b cs w = Some (rs, b', w') /\ bk_rep b' a' /\ abook_ok a' /\ same_setup b b'.
Proof.
  intros Hr [[Hid Ht%Z.leb_le]%andb_true_iff Hn%N.ltb_lt]%andb_true_iff Hs.
  eapply (run_refines b empty_abook 0 0); try done.
  split; [apply empty_abook_ok|by apply within_empty].
Qed.

Lemma workload_app cs cs' : workload_ok (cs ++ cs') = true ->
  forallb valid_id cs = true /\ forallb valid_id cs' = true /\ (total_cost cs + total_cost cs' <= int64_max)%Z /\
  (N.of_nat (length cs + length cs') < kNullIndex)%N.
Proof.
  intros [[Hid Ht%Z.leb_le]%andb_true_iff Hn%N.ltb_lt]%andb_true_iff.
  rewrite forallb_app in Hid. apply andb_true_iff in Hid as [H1 H2]. rewrite length_app in Hn.
  assert (Htc : total_cost (cs ++ cs') = (total_cost cs + total_cost cs')%Z).
  { clear. induction cs as [|c cs IH]; simpl; [done|]. rewrite IH. lia. }
  rewrite Htc in Ht. done.
Qed.

(** The state in which a workload leaves a book, with budget left for [cs']. *)
Lemma reached b0 cs cs' w0 rs b w :
  bk_rep b0 empty_abook -> workload_ok (cs ++ cs') = true -> run now_ns b0 cs w0 = Some (rs, b, w) ->
  exists a, spec_run now_ns (bk_config b0) (bk_in_range b0) empty_abook cs w0 = (rs, a, w) /\
    bk_rep b a /\ same_setup b0 b /\ fits (total_cost cs) (length cs) a.
Proof.
  intros Hr (Hid & _ & Ht & Hn)%workload_app Hrun. pose proof (total_cost_nonneg cs').
  destruct (spec_run now_ns (bk_config b0) (bk_in_range b0) empty_abook cs w0) as [[rs1 a] w1] eqn:Hs.
  assert (Hf0 : fits 0 0 empty_abook) by (split; [apply empty_abook_ok|by apply within_empty]).
  destruct (run_refines b0 empty_abook 0 0 cs w0 rs1 a w1 Hr Hf0 Hid ltac:(lia) ltac:(lia) Hs) as (b1 & Hrun' & Hr' & _ & Hset).
  rewrite Hrun in Hrun'. injection Hrun' as -> -> ->. exists a. split_and!; try done.
  eapply (spec_run_fits _ _ 0 0); [exact Hf0|exact Hid|lia|lia|exact Hs].
Qed.

(** An [add_order] after a workload. *)
Lemma reached_add b0 cs o w0 rs b w :
  bk_rep b0 empty_abook -> workload_ok (cs ++ [CAdd o]) = true -> run now_ns b0 cs w0 = Some (rs, b, w) ->
  exists a r a' b' w', bk_rep b a /\ abook_ok a /\ add_pre a o /\ bk_add now_ns b o w = Some (r, b', w') /\
    spec_add now_ns (bk_config b0) (bk_in_range b0) a o w = (r, a', w') /\ bk_rep b' a' /\ abook_ok a'.
Proof.
  intros Hr Hw Hrun. destruct (reached b0 cs [CAdd o] w0 rs b w Hr Hw Hrun) as (a & _ & Hra & [Hcfg Hrg] & Hok & Hwi).
  apply workload_app in Hw as (_ & Hid & Ht & Hn). simpl in *. rewrite andb_true_r in Hid. apply negb_true_iff, N.eqb_neq in Hid.
  assert (Hpre : add_pre a o) by (eapply within_add_pre; [done|exact Hwi|done|lia|lia]).
  destruct (spec_add now_ns (bk_config b0) (bk_in_range b0) a o w) as [[r a'] w'] eqn:Hs.
  assert (Hs' : spec_add now_ns (bk_config b) (bk_in_range b) a o w = (r, a', w')).
  { pose proof (spec_step_ext (bk_config b0) (bk_in_range b) (bk_in_range b0) a (CAdd o) w Hrg) as He. simpl in He.
    rewrite Hcfg. destruct (spec_add _ _ (bk_in_range b) _ _ _) as [[r2 a2] w2]. rewrite Hs in He. by injection He as -> -> ->. }
  destruct (bk_add_law _ _ _ _ _ _ _ _ Hra Hok Hpre Hs') as (b' & Hb' & Hr' & _).
  exists a, r, a', b', w'. split_and!; try done. eapply spec_add_ok; [exact Hok|done|apply Hpre|exact Hs].
Qed.

(** A [cancel_order] after a workload. *)
Lemma reached_cancel b0 cs id w0 rs b w :
  bk_rep b0 empty_abook -> workload_ok cs = true -> run now_ns b0 cs w0 = Some (rs, b, w) ->
  exists a b', bk_rep b a /\ abook_ok a /\ bk_cancel b id = Some ((spec_cancel a id).1, b') /\
    bk_rep b' (spec_cancel a id).2 /\ abook_ok (spec_cancel a id).2.
Proof.
  intros Hr Hw Hrun. rewrite <- (app_nil_r cs) in Hw.
  destruct (reached b0 cs [] w0 rs b w Hr Hw Hrun) as (a & _ & Hra & _ & Hok & _).
  destruct (bk_cancel_law b a id (spec_cancel a id).1 (spec_cancel a id).2 Hra Hok) as (b' & Hb' & Hr' & _).
  { by destruct (spec_cancel a id). }
  exists a, b'. split_and!; try done. by apply spec_cancel_ok.
Qed.

(** An [amend_order] after a workload. *)
Lemma reached_amend b0 cs id q p w0 rs b w :
  bk_rep b0 empty_abook -> workload_ok (cs ++ [CAmend id q p]) = true -> run now_ns b0 cs w0 = Some (rs, b, w) ->
  exists a r a' b' w', bk_rep b a /\ abook_ok a /\ amend_pre a id q /\ bk_amend now_ns b id q p w = Some (r, b', w') /\
    spec_amend now_ns (bk_config b0) (bk_in_range b0) a id q p w = (r, a', w') /\ bk_rep b' a' /\ abook_ok a'.
Proof.
  intros Hr Hw Hrun. destruct (reached b0 cs [CAmend id q p] w0 rs b w Hr Hw Hrun) as (a & _ & Hra & [Hcfg Hrg] & Hok & Hwi).
  apply workload_app in Hw as (_ & _ & Ht & Hn). simpl in *.
  assert (Hpre : amend_pre a id q) by (eapply within_amend_pre; [done|exact Hwi|lia|lia]).
  destruct (spec_amend now_ns (bk_config b0) (bk_in_range b0) a id q p w) as [[r a'] w'] eqn:Hs.
  assert (Hs' : spec_amend now_ns (bk_config b) (bk_in_range b) a id q p w = (r, a', w')).
  { pose proof (spec_step_ext (bk_config b0) (bk_in_range b) (bk_in_range b0) a (CAmend id q p) w Hrg) as He. simpl in He.
    rewrite Hcfg. destruct (spec_amend _ _ (bk_in_range b) _ _ _ _ _) as [[r2 a2] w2]. rewrite Hs in He. by injection He as -> -> ->. }
  destruct (bk_amend_law _ _ _ _ _ _ _ _ _ _ Hra Hok Hpre Hs') as (b' & Hb' & Hr' & _).
  exists a, r, a', b', w'. split_and!; try done. eapply spec_amend_ok; [exact Hok|apply Hpre|exact Hs].
Qed.
End refinement.

(** What a book shows to its users is what the abstract book shows. *)
Definition shows {B} `{BookOps B} (b : B) (a : abook) : Prop :=
  (forall s, bk_best s b = Some (best s a)) /\ (forall s n, bk_depth s b n = Some (depth s n a)) /\
  bk_count b = N.of_nat (length (orders a)).

Lemma rep_shows {B} `{BookLaws B} (b : B) a : bk_rep b a -> shows b a.
Proof. intros Hr. split_and!; intros; [by apply bk_best_law|by apply bk_depth_law|by apply bk_count_law]. Qed.
