(* ===== verification/SelfTrade.v ===== *)
(** Who trades with whom: over a whole workload of the abstract book, every
    trade is between two orders that were submitted, under the participants that
    they were submitted with, and under self-trade prevention the two are not of
    the same known participant.  Amended orders are covered: the replacement of
    an order keeps its id and its participant. *)

From S2P Require Import Prelude Types OrderPool BookCore BookSpec BookSpecFacts BookTrades BookInterface.

(** An order with this id was submitted by this participant. *)
Definition submitted (cs : list Command) (id : OrderId) (p : ParticipantId) : Prop :=
  exists o, CAdd o ∈ cs /\ o_id o = id /\ o_participant_id o = p.

Section parties.
Context (now_ns : nat -> Timestamp) (cfg : Config) (in_range : Price -> bool).
Hypothesis callback : trade_callback_ cfg = true.
Hypothesis policy : stp_policy_ cfg <> STPNone.
Context (known_as : OrderId -> ParticipantId -> Prop).

Definition identified (o : Order) : Prop := known_as (o_id o) (o_participant_id o).

Definition parties_ok (t : Trade) : Prop :=
  known_as (t_taker_order_id t) (t_taker_participant_id t) /\ known_as (t_maker_order_id t) (t_maker_participant_id t) /\
  (t_taker_participant_id t <> kNoParticipant -> t_maker_participant_id t <> t_taker_participant_id t).

Definition call_identified (c : Command) : Prop := match c with CAdd o => identified o | _ => True end.

Lemma spec_add_parties a o w r a' w' :
  abook_ok a -> add_pre a o -> all_orders identified a -> identified o -> Forall parties_ok (w_trades w) ->
  spec_add now_ns cfg in_range a o w = (r, a', w') -> Forall parties_ok (w_trades w').
Proof.
  intros Hok Hpre Ha Ho Hw Hs. destruct (spec_add_outcome now_ns cfg in_range a o w r a' w' callback Hok Hpre Hs) as [ts [-> _ Htr _ _ _]].
  apply Forall_app. split; [done|]. destruct (proj1 (all_orders_sides identified (opposite (o_side o)) a) Ha) as [Hm _]. rewrite Forall_forall in Hm.
  eapply Forall_impl; [exact Htr|]. intros t [(T1 & _ & T2 & _) (m & Hin & M1 & _ & M2 & _) _ Hself]. unfold parties_ok. rewrite M1, M2, T1. split_and!.
  - by rewrite T2.
  - by apply Hm.
  - intros Hp He. apply (Hself policy Hp). congruence.
Qed.

Lemma spec_amend_parties a id q p w r a' w' :
  abook_ok a -> amend_pre a id q -> all_orders identified a -> Forall parties_ok (w_trades w) ->
  spec_amend now_ns cfg in_range a id q p w = (r, a', w') -> Forall parties_ok (w_trades w').
Proof.
  intros Hok Hpre Ha Hw. unfold spec_amend. destruct (find_order id (orders a)) as [o|] eqn:Hf; [|by intros [= _ _ <-]].
  destruct (q <=? 0)%Z; [by intros [= _ _ <-]|]. destruct (negb _); [by intros [= _ _ <-]|]. destruct (_ && _); [by intros [= _ _ <-]|].
  assert (Ho : identified o) by (apply find_order_Some in Hf as [Ho _]; unfold all_orders in Ha; rewrite Forall_forall in Ha; by apply Ha).
  pose proof (replacement_pre a id o q (default (o_price o) p) (now_ns (w_reads w)) Hok Hf Hpre) as Hpre'.
  pose proof (spec_cancel_keeps identified a id Ha) as Ha'. pose proof (spec_cancel_ok a id Hok) as Hok'. unfold spec_cancel in *. rewrite Hf in *. cbn [snd] in *.
  by apply spec_add_parties.
Qed.

Lemma spec_step_parties t n a c w r a' w' :
  fits t n a -> valid_id c = true -> (t + cost c <= int64_max)%Z -> (N.of_nat n < kNullIndex)%N ->
  all_orders identified a -> call_identified c -> Forall parties_ok (w_trades w) ->
  spec_step now_ns cfg in_range a c w = (r, a', w') -> all_orders identified a' /\ Forall parties_ok (w_trades w').
Proof.
  intros [Hok Hw] Hid Ht Hn Ha Hc Hts. destruct c as [o|id|id q p|]; simpl in *.
  - apply negb_true_iff, N.eqb_neq in Hid. pose proof (within_add_pre t n a o Hok Hw Hid Ht Hn) as Hpre.
    destruct (spec_add _ _ _ _ _ _) as [[r1 a1] w1] eqn:Hs. intros [= _ <- <-].
    split; [by eapply (spec_add_keeps now_ns cfg in_range identified)|by eapply spec_add_parties].
  - pose proof (spec_cancel_keeps identified a id Ha) as Ha'. destruct (spec_cancel a id). by intros [= _ <- <-].
  - pose proof (within_amend_pre t n a id q Hok Hw Ht Hn) as Hpre. destruct (spec_amend _ _ _ _ _ _ _ _) as [[r1 a1] w1] eqn:Hs. intros [= _ <- <-].
    split; [by eapply (spec_amend_keeps now_ns cfg in_range identified)|by eapply spec_amend_parties].
  - intros [= _ <- <-]. split; [by constructor|done].
Qed.

Lemma spec_run_parties t n a cs w rs a' w' :
  fits t n a -> forallb valid_id cs = true -> (t + total_cost cs <= int64_max)%Z -> (N.of_nat (n + length cs) < kNullIndex)%N ->
  all_orders identified a -> Forall call_identified cs -> Forall parties_ok (w_trades w) ->
  spec_run now_ns cfg in_range a cs w = (rs, a', w') -> Forall parties_ok (w_trades w').
Proof.
  revert t n a w rs. induction cs as [|c cs IH]; intros t n a w rs Hf Hid Ht Hn Ha Hcs Hts; simpl in *; [by intros [= _ _ <-]|].
  apply andb_true_iff in Hid as [Hc Hid]. apply Forall_cons in Hcs as [Hci Hcs]. pose proof (total_cost_nonneg cs).
  destruct (spec_step _ _ _ _ _ _) as [[r1 a1] w1] eqn:Hs. destruct (spec_run _ _ _ _ _ _) as [[rs1 a2] w2] eqn:Hr. intros [= _ <- <-].
  destruct (spec_step_parties t n a c w r1 a1 w1) as [Ha1 Hw1]; try done; [lia|lia|].
  eapply spec_step_fits in Hs; [|done|done|lia|lia]. eapply (IH (t + cost c)%Z (S n)); [done|done|lia|lia|done|done|done|exact Hr].
Qed.
End parties.

(** Every trade of a workload from an empty book. *)
Lemma workload_parties now_ns cfg in_range cs w rs a w' :
  trade_callback_ cfg = true -> stp_policy_ cfg <> STPNone -> workload_ok cs = true -> w_trades w = [] ->
  spec_run now_ns cfg in_range empty_abook cs w = (rs, a, w') -> Forall (parties_ok (submitted cs)) (w_trades w').
Proof.
  intros Hcb Hp [[Hid Ht%Z.leb_le]%andb_true_iff Hn%N.ltb_lt]%andb_true_iff Hw Hs.
  apply (spec_run_parties now_ns cfg in_range Hcb Hp (submitted cs) 0 0 empty_abook cs w rs a w'); [|done|done|done|by apply Forall_nil| |by rewrite Hw; apply Forall_nil|exact Hs].
  - split; [apply empty_abook_ok|by apply within_empty].
  - apply Forall_forall. intros [o| | |] Hin; try done. by exists o.
Qed.
