(* ===== verification/OrderBookVector.v ===== *)
(** Approach B: include/lightninglob/order_book_vector.hpp and
    src/order_book_vector.cpp.  Price levels in one sorted vector per side,
    found by binary search.

    Where the source repeats a statement for [bids_] and [asks_] the model
    writes it once with the side as an argument ([levels], [set_levels],
    [find_position]). *)

From S2P Require Import Prelude Types OrderPool IdIndexMap BookCore.

Module Vec.

Record OrderBookVector := mkBook {
  bids_ : list PriceLevel;
  asks_ : list PriceLevel;
  core_ : BookCore
}.

Definition new_book (symbol : SymbolId) (order_capacity_hint : N) (stp : SelfTradePrevention)
    : option OrderBookVector :=
  c ← new_core symbol order_capacity_hint stp; Some (mkBook [] [] c).

Definition levels (s : Side) (b : OrderBookVector) : list PriceLevel :=
  match s with Buy => bids_ b | Sell => asks_ b end.

Definition set_levels (s : Side) (ls : list PriceLevel) (b : OrderBookVector) : OrderBookVector :=
  match s with Buy => mkBook ls (asks_ b) (core_ b) | Sell => mkBook (bids_ b) ls (core_ b) end.

Definition set_core (c : BookCore) (b : OrderBookVector) : OrderBookVector :=
  mkBook (bids_ b) (asks_ b) c.

Definition set_trade_callback (b : OrderBookVector) : OrderBookVector :=
  set_core (core_set_callback (core_ b)) b.

(** [std::ranges::lower_bound] on the projected prices: the usual binary
    search for the first key that does not come before [price]. *)
Fixpoint lower_bound_loop (fuel : nat) (comp : Price -> Price -> bool) (keys : list Price) (price : Price)
    (first len : nat) : nat :=
  match fuel with
  | O => first
  | S fuel' =>
      if (len =? 0)%nat then first
      else
        let half := Nat.div2 len in
        match keys !! (first + half)%nat with
        | None => first
        | Some k =>
            if comp k price
            then lower_bound_loop fuel' comp keys price (first + half + 1) (len - half - 1)
            else lower_bound_loop fuel' comp keys price first half
        end
  end.

Definition lower_bound (comp : Price -> Price -> bool) (keys : list Price) (price : Price) : nat :=
  lower_bound_loop (S (length keys)) comp keys price 0 (length keys).

(** [std::greater<Price>] and [std::less<Price>]. *)
Definition greater (a b : Price) : bool := (b <? a)%Z.
Definition less (a b : Price) : bool := (a <? b)%Z.

Definition find_bid_position (b : OrderBookVector) (price : Price) : nat :=
  lower_bound greater (l_price <$> bids_ b) price.

Definition find_ask_position (b : OrderBookVector) (price : Price) : nat :=
  lower_bound less (l_price <$> asks_ b) price.

Definition find_position (s : Side) (b : OrderBookVector) (price : Price) : nat :=
  match s with Buy => find_bid_position b price | Sell => find_ask_position b price end.

Definition best_bid (b : OrderBookVector) : option Price := l_price <$> head (bids_ b).
Definition best_ask (b : OrderBookVector) : option Price := l_price <$> head (asks_ b).

(** [spread()]: no value when a side is empty; undefined on overflow. *)
Definition spread (b : OrderBookVector) : option (option Price) :=
  match best_bid b, best_ask b with
  | Some bb, Some ba => d ← sub64 ba bb; Some (Some d)
  | _, _ => Some None
  end.

Definition crosses (b : OrderBookVector) (order : Order) : bool :=
  match o_side order with
  | Buy => match best_ask b with Some ask => (ask <=? o_price order)%Z | None => false end
  | Sell => match best_bid b with Some bid => (o_price order <=? bid)%Z | None => false end
  end.

(** The loop of [has_liquidity_for] over the opposite side, best level first. *)
Fixpoint liquidity_loop (taker_side : Side) (type : OrderType) (limit_price : Price) (needed accumulated : Quantity)
    (ls : list PriceLevel) : option bool :=
  match ls with
  | [] => Some false
  | lv :: ls' =>
      if bool_decide (type = Limit) &&
         match taker_side with Buy => (limit_price <? l_price lv)%Z | Sell => (l_price lv <? limit_price)%Z end
      then Some false
      else
        acc ← add64 accumulated (l_total_quantity lv);
        if (needed <=? acc)%Z then Some true
        else liquidity_loop taker_side type limit_price needed acc ls'
  end.

Definition has_liquidity_for (b : OrderBookVector) (taker_side : Side) (type : OrderType) (limit_price : Price)
    (needed : Quantity) : option bool :=
  liquidity_loop taker_side type limit_price needed 0 (levels (opposite taker_side) b).

Definition price_ok (taker : Order) (price : Price) : bool :=
  match o_side taker with Buy => (price <=? o_price taker)%Z | Sell => (o_price taker <=? price)%Z end.

Section operations.
Context (now_ns : nat -> Timestamp).

(** The loop of [match_against_book] over [levels], the opposite side. *)
Fixpoint match_loop (fuel : nat) (taker : Order) (ls : list PriceLevel) (c : BookCore) (w : World)
    : option (bool * Order * list PriceLevel * BookCore * World) :=
  match fuel with
  | O => None
  | S fuel' =>
      if (o_remaining_quantity taker <=? 0)%Z then Some (false, taker, ls, c, w)
      else
        match ls with
        | [] => Some (false, taker, ls, c, w)
        | lv :: rest =>
            if bool_decide (o_type taker = Limit) && negb (price_ok taker (l_price lv))
            then Some (false, taker, ls, c, w)
            else
              '(killed, taker1, lv1, c1, w1) ← drain_level now_ns (l_price lv) taker lv c w;
              let ls1 := if level_empty lv1 then rest else lv1 :: rest in
              if (killed : bool) then Some (true, taker1, ls1, c1, w1)
              else match_loop fuel' taker1 ls1 c1 w1
        end
  end.

(** Every round but the last removes a level. *)
Definition match_against_book (b : OrderBookVector) (taker : Order) (w : World)
    : option (bool * Order * OrderBookVector * World) :=
  let opp := opposite (o_side taker) in
  '(killed, taker1, ls, c, w1) ←
    match_loop (S (S (length (levels opp b)))) taker (levels opp b) (core_ b) w;
  Some (killed, taker1, set_levels opp ls (set_core c b), w1).

Definition rest_order (b : OrderBookVector) (order : Order) : option OrderBookVector :=
  let s := o_side order in
  '(idx, p) ← acquire (pool_ (core_ b)) order;
  let pos := find_position s b (o_price order) in
  let ls := levels s b in
  let ls1 :=
    match ls !! pos with
    | Some lv =>
        if (l_price lv =? o_price order)%Z then ls
        else take pos ls ++ set_price (o_price order) default_level :: drop pos ls
    | None => take pos ls ++ set_price (o_price order) default_level :: drop pos ls
    end in
  lv ← ls1 !! pos;
  '(lv1, p1) ← level_push_back lv p idx;
  '(_, ids) ← IdMap.insert (id_index_ (core_ b)) (o_id order) idx;
  Some (set_levels s (<[pos := lv1]> ls1) (set_core (set_ids ids (set_pool p1 (core_ b))) b)).

Definition add_order (b : OrderBookVector) (order : Order) (w : World)
    : option (ExecutionReport * OrderBookVector * World) :=
  if (o_quantity order <=? 0)%Z then
    Some (mkReport (o_id order) Rejected 0 0 InvalidQuantity, b, w)
  else if bool_decide (o_type order = Limit) && (o_price order <=? 0)%Z then
    Some (mkReport (o_id order) Rejected 0 0 InvalidPrice, b, w)
  else
    dup ← (if (o_id order =? kInvalidOrderId)%N then Some false
           else IdMap.contains (id_index_ (core_ b)) (o_id order));
    if (dup : bool) then Some (mkReport (o_id order) Rejected 0 0 DuplicateOrderId, b, w)
    else
      liquid ← (if bool_decide (o_time_in_force order = FOK)
                then has_liquidity_for b (o_side order) (o_type order) (o_price order) (o_quantity order)
                else Some true);
      if negb liquid then Some (mkReport (o_id order) Cancelled 0 0 RNone, b, w)
      else
        let taker := set_remaining (o_quantity order) order in
        '(killed, taker1, b1, w1) ←
          (if bool_decide (o_type order = Market) || bool_decide (o_time_in_force order = FOK) || crosses b taker
           then match_against_book b taker w
           else Some (false, taker, b, w));
        filled ← sub64 (o_quantity order) (o_remaining_quantity taker1);
        if (o_remaining_quantity taker1 =? 0)%Z then
          Some (mkReport (o_id order) Filled filled 0 RNone, b1, w1)
        else if negb killed && rests_in_book taker1 then
          b2 ← rest_order b1 taker1;
          Some (mkReport (o_id order) (if (0 <? filled)%Z then PartiallyFilled else New) filled
                  (o_remaining_quantity taker1) RNone, b2, w1)
        else Some (mkReport (o_id order) Cancelled filled 0 RNone, b1, w1).

Definition cancel_order (b : OrderBookVector) (id : OrderId) : option (bool * OrderBookVector) :=
  found ← IdMap.find (id_index_ (core_ b)) id;
  match found with
  | None => Some (false, b)
  | Some idx =>
      node ← pool_at (pool_ (core_ b)) idx;
      let order := n_order node in
      let s := o_side order in
      let pos := find_position s b (o_price order) in
      match levels s b !! pos with
      | None => Some (false, b)
      | Some lv =>
          if negb (l_price lv =? o_price order)%Z then Some (false, b)
          else
            total ← sub64 (l_total_quantity lv) (o_remaining_quantity order);
            '(lv1, p1) ← level_unlink (set_total total lv) (pool_ (core_ b)) idx;
            let ls1 := if level_empty lv1 then delete pos (levels s b) else <[pos := lv1]> (levels s b) in
            p2 ← release p1 idx;
            '(_, ids) ← IdMap.erase (id_index_ (core_ b)) id;
            Some (true, set_levels s ls1 (set_core (set_ids ids (set_pool p2 (core_ b))) b))
      end
  end.

Definition amend_order (b : OrderBookVector) (id : OrderId) (new_quantity : Quantity) (new_price : option Price)
    (w : World) : option (ExecutionReport * OrderBookVector * World) :=
  found ← IdMap.find (id_index_ (core_ b)) id;
  match found with
  | None => Some (mkReport id Rejected 0 0 UnknownOrder, b, w)
  | Some idx =>
      if (new_quantity <=? 0)%Z then Some (mkReport id Rejected 0 0 InvalidQuantity, b, w)
      else
        node ← pool_at (pool_ (core_ b)) idx;
        let snapshot := n_order node in
        let price_changed :=
          match new_price with Some p => negb (p =? o_price snapshot)%Z | None => false end in
        let quantity_increased := (o_remaining_quantity snapshot <? new_quantity)%Z in
        if negb price_changed && negb quantity_increased then
          let s := o_side snapshot in
          let pos := find_position s b (o_price snapshot) in
          lv ← levels s b !! pos;
          delta ← sub64 (o_remaining_quantity snapshot) new_quantity;
          '(lv1, p1) ← level_reduce_quantity lv (pool_ (core_ b)) idx delta;
          Some (mkReport id New 0 new_quantity RNone,
                set_levels s (<[pos := lv1]> (levels s b)) (set_core (set_pool p1 (core_ b)) b), w)
        else
          '(_, b1) ← cancel_order b id;
          let replacement :=
            mkOrder (o_id snapshot) (default (o_price snapshot) new_price) new_quantity new_quantity
              (now_ns (w_reads w)) (o_symbol snapshot) (o_participant_id snapshot) (o_side snapshot)
              (o_type snapshot) (o_time_in_force snapshot) in
          add_order b1 replacement (mkWorld (S (w_reads w)) (w_trades w))
  end.
End operations.

Definition view (lv : PriceLevel) : PriceLevelView :=
  mkView (l_price lv) (l_total_quantity lv) (l_order_count lv).

(** [bid_depth] and [ask_depth]: the first [min(n, size)] levels. *)
Definition bid_depth (b : OrderBookVector) (n : nat) : list PriceLevelView :=
  view <$> take (Nat.min n (length (bids_ b))) (bids_ b).
Definition ask_depth (b : OrderBookVector) (n : nat) : list PriceLevelView :=
  view <$> take (Nat.min n (length (asks_ b))) (asks_ b).

Definition bid_level_count (b : OrderBookVector) : N := vsize (bids_ b).
Definition ask_level_count (b : OrderBookVector) : N := vsize (asks_ b).
Definition order_count (b : OrderBookVector) : N := IdMap.size (id_index_ (core_ b)).

Definition reset (b : OrderBookVector) : OrderBookVector := mkBook [] [] (core_reset (core_ b)).

End Vec.
