(* ===== verification/VectorRefinement.v ===== *)
(** The sorted-vector book implements the abstract book.

    [vrep b a] relates a book to the abstract book it represents; every
    operation of OrderBookVector.v started from related, well-formed states is
    defined (no access out of range, no signed overflow, no failed assertion,
    every loop ends) and returns what the abstract operation returns. *)

From S2P Require Import Prelude Types OrderPool IdIndexMap IdIndexMapFacts BookCore BookSpec BookSpecFacts BookRep.
From S2P Require Import OrderBookVector.
Import Vec.

(** * Binary search *)

Section lower_bound.
Context (s : Side).
Implicit Types (keys : list Z).

Definition comp_of : Price -> Price -> bool := match s with Buy => greater | Sell => less end.

Lemma comp_before p p' : comp_of p p' = before s p p'.
Proof. unfold comp_of. by destruct s. Qed.

Lemma sorted_lookup keys i j p p' :
  StronglySorted (fun p p' => before s p p' = true) keys ->
  keys !! i = Some p -> keys !! j = Some p' -> (i < j)%nat -> before s p p' = true.
Proof.
  intros Hs. revert i j. induction Hs as [|k keys Hs IH Hall]; intros [|i] [|j] Hi Hj Hlt; simpl in *; try done; try lia.
  - injection Hi as ->. eapply Forall_lookup in Hall; eauto.
  - eapply IH; [exact Hi|exact Hj|lia].
Qed.

Lemma lower_bound_loop_spec fuel keys p first len :
  StronglySorted (fun p p' => before s p p' = true) keys ->
  (len < fuel)%nat -> (first + len <= length keys)%nat ->
  (forall i k, (i < first)%nat -> keys !! i = Some k -> before s k p = true) ->
  (forall i k, (first + len <= i)%nat -> keys !! i = Some k -> before s k p = false) ->
  let n := lower_bound_loop fuel comp_of keys p first len in
  (n <= length keys)%nat /\
  (forall i k, (i < n)%nat -> keys !! i = Some k -> before s k p = true) /\
  (forall i k, (n <= i)%nat -> keys !! i = Some k -> before s k p = false).
Proof.
  intros Hs. revert first len. induction fuel as [|fuel IH]; intros first len Hf Hb Hlo Hhi; [lia|]. simpl.
  destruct (Nat.eqb_spec len 0) as [->|Hne].
  { rewrite Nat.add_0_r in *. done. }
  pose proof (Nat.div2_decr len (len - 1) ltac:(lia)) as Hhalf.
  assert (Hlt : (Nat.div2 len < len)%nat) by lia. set (half := Nat.div2 len) in *.
  destruct (lookup_lt_is_Some_2 keys (first + half)) as [k Hk]; [lia|]. rewrite Hk, comp_before.
  destruct (before s k p) eqn:Hc.
  - apply IH; [lia|lia| |].
    + intros i k' Hi Hk'. destruct (decide (i = (first + half)%nat)) as [->|Hn]; [naive_solver|].
      eapply before_trans; [|exact Hc]. eapply sorted_lookup; [done|exact Hk'|exact Hk|lia].
    + intros i k' Hi. apply Hhi. lia.
  - apply IH; [lia|lia|done|].
    intros i k' Hi Hk'. destruct (decide (i = (first + half)%nat)) as [->|Hn]; [naive_solver|].
    destruct (before s k' p) eqn:Hc'; [|done]. rewrite <- Hc. symmetry. eapply before_trans; [|exact Hc'].
    eapply sorted_lookup; [done|exact Hk|exact Hk'|lia].
Qed.

(** The position found splits the keys into those with priority over [p] and
    the others. *)
Lemma lower_bound_spec keys p :
  StronglySorted (fun p p' => before s p p' = true) keys ->
  let n := lower_bound comp_of keys p in
  (n <= length keys)%nat /\ Forall (fun k => before s k p = true) (take n keys) /\
  Forall (fun k => before s k p = false) (drop n keys).
Proof.
  intros Hs. destruct (lower_bound_loop_spec (S (length keys)) keys p 0 (length keys)) as (H1 & H2 & H3);
    [done|lia|lia|lia| |].
  { intros i k Hi Hk%lookup_lt_Some. lia. }
  fold (lower_bound comp_of keys p) in *. split_and!; [done| |].
  - apply Forall_lookup. intros i k Hk. apply lookup_take_Some in Hk as [Hk Hi]. eauto.
  - apply Forall_lookup. intros i k Hk. rewrite lookup_drop in Hk. eapply H3; [|exact Hk]. lia.
Qed.

Lemma lower_bound_at (k1 : list Z) p (k2 : list Z) :
  StronglySorted (fun p p' => before s p p' = true) (k1 ++ p :: k2) ->
  lower_bound comp_of (k1 ++ p :: k2) p = length k1.
Proof.
  intros Hs. destruct (lower_bound_spec _ p Hs) as (H1 & H2 & H3). set (n := lower_bound _ _ _) in *.
  destruct (Nat.lt_trichotomy n (length k1)) as [Hlt|[->|Hgt]]; [exfalso| done |exfalso].
  - destruct (lookup_lt_is_Some_2 k1 n Hlt) as [k Hk].
    assert (Hb : before s k p = false).
    { apply (Forall_lookup_1 _ _ 0 k H3). rewrite lookup_drop, Nat.add_0_r. by apply lookup_app_l_Some. }
    assert (Hb' : before s k p = true); [|congruence].
    eapply sorted_lookup; [exact Hs|by apply lookup_app_l_Some|by apply list_lookup_middle|done].
  - assert (Hb : before s p p = true).
    { apply (Forall_lookup_1 _ _ (length k1) p H2). apply lookup_take_Some. split; [|done]. by apply list_lookup_middle. }
    by rewrite before_irrefl in Hb.
Qed.
End lower_bound.

(** The levels of a side once [rest_order] has made sure that the one at [pos]
    has price [key]. *)
Definition vec_emplace (lvs : list PriceLevel) (pos : nat) (key : Price) : list PriceLevel :=
  match lvs !! pos with
  | Some lv => if (l_price lv =? key)%Z then lvs else take pos lvs ++ set_price key default_level :: drop pos lvs
  | None => take pos lvs ++ set_price key default_level :: drop pos lvs
  end.

Lemma lower_bound_split s (k1 k2 : list Z) p :
  StronglySorted (fun p p' => before s p p' = true) (k1 ++ k2) ->
  Forall (fun k => before s k p = true) k1 -> Forall (fun k => before s k p = false) k2 ->
  lower_bound (comp_of s) (k1 ++ k2) p = length k1.
Proof.
  intros Hs H1 H2. destruct (lower_bound_spec s _ p Hs) as (Hle & L1 & L2). set (n := lower_bound _ _ _) in *.
  rewrite length_app in Hle. destruct (Nat.lt_trichotomy n (length k1)) as [Hlt|[->|Hgt]]; [exfalso|done|exfalso].
  - destruct (lookup_lt_is_Some_2 k1 n Hlt) as [k Hk]. pose proof (Forall_lookup_1 _ _ _ _ H1 Hk) as Ht.
    assert (Hf : before s k p = false); [|simpl in *; congruence].
    apply (Forall_lookup_1 _ _ 0 k L2). rewrite lookup_drop, Nat.add_0_r. by apply lookup_app_l_Some.
  - destruct (lookup_lt_is_Some_2 k2 0) as [k Hk]; [lia|]. pose proof (Forall_lookup_1 _ _ _ _ H2 Hk) as Hf.
    assert (Ht : before s k p = true); [|simpl in *; congruence].
    apply (Forall_lookup_1 _ _ (length k1) k L1). apply lookup_take_Some. split; [|done].
    rewrite lookup_app_r by done. by rewrite Nat.sub_diag.
Qed.

(** * The representation relation *)

Definition vrep (b : OrderBookVector) (a : abook) : Prop :=
  exists cf : Side -> list cells,
    (forall s, side_rep (nodes_of (core_ b)) (levels s b) (cf s) (side_of s a)) /\
    core_rep (core_ b) (mjoin (cf Buy) ++ mjoin (cf Sell)).

(** Seen from side [s]. *)
Lemma vrep_elim s b a :
  vrep b a -> exists css css',
    side_rep (nodes_of (core_ b)) (levels s b) css (side_of s a) /\
    side_rep (nodes_of (core_ b)) (levels (opposite s) b) css' (side_of (opposite s) a) /\
    core_rep (core_ b) (mjoin css ++ mjoin css').
Proof.
  intros (cf & Hs & Hc). exists (cf s), (cf (opposite s)). split_and!; [apply Hs|apply Hs|].
  destruct s; [done|]. eapply core_rep_perm; [|exact Hc]. apply Permutation_app_comm.
Qed.

Lemma vrep_intro s b a css css' :
  side_rep (nodes_of (core_ b)) (levels s b) css (side_of s a) ->
  side_rep (nodes_of (core_ b)) (levels (opposite s) b) css' (side_of (opposite s) a) ->
  core_rep (core_ b) (mjoin css ++ mjoin css') -> vrep b a.
Proof.
  intros H1 H2 Hc. exists (fun s' => if decide (s' = s) then css else css'). split.
  - intros s'. destruct s, s'; done.
  - destruct s; simpl; [done|]. eapply core_rep_perm; [|exact Hc]. apply Permutation_app_comm.
Qed.

Lemma levels_set_same s ls b : levels s (set_levels s ls b) = ls.
Proof. by destruct s. Qed.

Lemma levels_set_opp s ls b : levels (opposite s) (set_levels s ls b) = levels (opposite s) b.
Proof. by destruct s. Qed.

Lemma levels_opp_set s ls b : levels s (set_levels (opposite s) ls b) = levels s b.
Proof. by destruct s. Qed.

Lemma levels_set_core s c b : levels s (set_core c b) = levels s b.
Proof. by destruct s. Qed.

Lemma core_set_levels s ls b : core_ (set_levels s ls b) = core_ b.
Proof. by destruct s. Qed.

Lemma opposite_involutive s : opposite (opposite s) = s.
Proof. by destruct s. Qed.

Lemma find_position_lower_bound s b p :
  find_position s b p = lower_bound (comp_of s) (l_price <$> levels s b) p.
Proof. by destruct s. Qed.

(** Handles of different sides are different. *)
Lemma core_rep_disjoint c cs1 cs2 j : core_rep c (cs1 ++ cs2) -> j ∈ cs2.*1 -> j ∉ cs1.*1.
Proof.
  intros Hc H2 H1. apply core_rep_handles in Hc. rewrite fmap_app in Hc. by eapply NoDup_app_disjoint.
Qed.

Lemma core_rep_disjoint_r c cs1 cs2 j : core_rep c (cs1 ++ cs2) -> j ∈ cs1.*1 -> j ∉ cs2.*1.
Proof. intros Hc H1 H2. by eapply core_rep_disjoint. Qed.

Lemma elem_of_mjoin_1 (css : list cells) cs j : cs ∈ css -> j ∈ cs.*1 -> j ∈ (mjoin css).*1.
Proof.
  intros Hcs (x & -> & Hx)%list_elem_of_fmap. apply list_elem_of_fmap_2, list_elem_of_join. eauto.
Qed.

(** * Matching *)

Section refinement.
Context (now_ns : nat -> Timestamp).

Lemma price_test taker p :
  bool_decide (o_type taker = Limit) && negb (price_ok taker p) = negb (acceptable taker p).
Proof. unfold acceptable, price_ok. by destruct (o_type taker), (o_side taker). Qed.

(** One round of any of the matching loops: the best level is drained, and
    dropped when nothing is left of it. *)
Definition keep {A} (lv : PriceLevel) (x : A) (xs : list A) : list A := if level_empty lv then xs else x :: xs.

Lemma drain_step taker lv lvs cs css ls others c w :
  side_rep (nodes_of c) (lv :: lvs) (cs :: css) ((l_price lv, cs.*2) :: ls) ->
  core_rep c (mjoin (cs :: css) ++ others) ->
  positive_orders (level_orders ((l_price lv, cs.*2) :: ls)) ->
  (sum_remaining (level_orders ((l_price lv, cs.*2) :: ls)) <= int64_max)%Z ->
  (0 < o_remaining_quantity taker <= int64_max)%Z -> acceptable taker (l_price lv) = true ->
  exists killed taker1 lv1 c1 w1 cs1,
    drain_level now_ns (l_price lv) taker lv c w = Some (killed, taker1, lv1, c1, w1) /\
    l_price lv1 = l_price lv /\ (level_empty lv1 = true -> lv1 = set_price (l_price lv1) default_level) /\
    let ls1 := keep lv1 (l_price lv, cs1.*2) ls in
    side_rep (nodes_of c1) (keep lv1 lv1 lvs) (keep lv1 cs1 css) ls1 /\
    core_rep c1 (mjoin (keep lv1 cs1 css) ++ others) /\
    same_outside (mjoin (cs :: css)).*1 (nodes_of c) (nodes_of c1) /\ same_config c c1 /\
    (0 <= o_remaining_quantity taker1 <= int64_max)%Z /\
    (o_side taker1 = o_side taker /\ o_type taker1 = o_type taker /\ o_price taker1 = o_price taker) /\
    (killed = false -> level_empty lv1 = false -> o_remaining_quantity taker1 = 0%Z) /\
    sweep now_ns (config_ c) taker ((l_price lv, cs.*2) :: ls) w =
      if negb killed && level_empty lv1 then sweep now_ns (config_ c) taker1 ls w1 else (killed, taker1, ls1, w1).
Proof.
  intros Hr Hc Hpos Hsum Htk Hacc. apply Forall3_cons_inv_l in Hr as (? & ? & ? & ? & [= <- <-] & [= <- <-] & (Hlinks & Htot & _) & Hr0).
  rewrite level_orders_cons in Hpos, Hsum. apply Forall_app in Hpos as [Hp1 Hp2].
  rewrite sum_remaining_app in Hsum. pose proof (sum_remaining_nonneg _ Hp1). pose proof (sum_remaining_nonneg _ Hp2).
  simpl in Hc. rewrite <- app_assoc in Hc.
  destruct (drain_level_spec now_ns (l_price lv) taker lv c w cs (mjoin css ++ others) Hlinks Htot Hc Hp1)
    as (killed & taker1 & lv1 & c1 & w1 & cs1 & Hd & Hfill & Hpr & Hl1 & Ht1 & Hc1 & Hso & Hcfg); [lia|lia|].
  destruct (links_empty _ _ _ Hl1 Ht1) as [Hemp Hclean].
  apply fill_facts in Hfill as Hff; [|done|lia]. destruct Hff as [F1 F2 F3 F4 F5].
  pose proof (leftover_positive _ _ F3 Hp1) as Hp1'. pose proof (leftover_sum _ _ F3 Hp1) as Hs1'.
  exists killed, taker1, lv1, c1, w1, cs1. split; [done|]. split; [done|].
  assert (Hsw : sweep now_ns (config_ c) taker ((l_price lv, cs.*2) :: ls) w =
    if killed then (true, taker1, keep_level (l_price lv) cs1.*2 ++ ls, w1)
    else match cs1.*2 with [] => sweep now_ns (config_ c) taker1 ls w1 | _ => (false, taker1, (l_price lv, cs1.*2) :: ls, w1) end).
  { simpl. by rewrite (proj2 (Z.leb_gt _ _) (proj1 Htk)), Hacc, Hfill. }
  split; [rewrite Hemp; intros He%bool_decide_eq_true; by apply Hclean|].
  assert (Hr1 : side_rep (nodes_of c1) lvs css ls).
  { eapply side_rep_frame; [exact Hso| |exact Hr0]. intros j Hj.
    eapply core_rep_disjoint; [exact Hc|]. rewrite fmap_app. apply elem_of_app. by left. }
  unfold keep. rewrite Hemp, Hsw. clear Hsw.
  assert (Hso1 : same_outside (mjoin (cs :: css)).*1 (nodes_of c) (nodes_of c1)).
  { eapply same_outside_sub; [|exact Hso]. simpl. rewrite fmap_app. intros j. rewrite elem_of_app. tauto. }
  assert (Hkeep : (o_side taker1 = o_side taker /\ o_type taker1 = o_type taker /\ o_price taker1 = o_price taker))
    by (by rewrite F1).
  case_bool_decide as He.
  - subst cs1. split_and!; try done; try lia; try apply Hkeep; by destruct killed.
  - destruct cs1 as [|x cs1]; [done|]. split_and!; try done; try lia; try apply Hkeep; [| | |by destruct killed].
    + constructor; [|done]. split_and!; [done|done|by rewrite Hpr].
    + simpl. by rewrite <- app_assoc.
    + intros Hk _. by apply F4.
Qed.

Lemma match_loop_stop fuel taker lvs c w :
  (0 < fuel)%nat -> (o_remaining_quantity taker <= 0)%Z ->
  match_loop now_ns fuel taker lvs c w = Some (false, taker, lvs, c, w).
Proof. intros Hf Hr. destruct fuel; [lia|]. simpl. by rewrite (proj2 (Z.leb_le _ _) Hr). Qed.

(** [lvs_of] reads the levels from whatever the loop keeps them in. *)
Definition match_post {L} (lvs_of : L -> list PriceLevel) (inv : L -> Prop)
    (taker : Order) (ls : list level) (css : list cells) (others : cells) (c : BookCore) (w : World)
    (r : option (bool * Order * L * BookCore * World)) : Prop :=
  exists killed taker' l' c' w' ls' css', r = Some (killed, taker', l', c', w') /\ inv l' /\
    sweep now_ns (config_ c) taker ls w = (killed, taker', ls', w') /\
    side_rep (nodes_of c') (lvs_of l') css' ls' /\ core_rep c' (mjoin css' ++ others) /\
    same_outside (mjoin css).*1 (nodes_of c) (nodes_of c') /\ same_config c c'.

(** A loop that stops where it is. *)
Lemma match_post_stop {L} (lvs_of : L -> list PriceLevel) inv taker ls css others c w l :
  inv l -> side_rep (nodes_of c) (lvs_of l) css ls -> core_rep c (mjoin css ++ others) ->
  (o_remaining_quantity taker <= 0)%Z \/ match ls with [] => True | x :: _ => acceptable taker x.1 = false end ->
  match_post lvs_of inv taker ls css others c w (Some (false, taker, l, c, w)).
Proof.
  intros Hi Hr Hc Hs. exists false, taker, l, c, w, ls, css. split_and!; try done.
  destruct ls as [|[p q] ls]; [done|]. simpl. destruct (Z.leb_spec (o_remaining_quantity taker) 0); [done|].
  destruct Hs as [|Hs]; [lia|]. simpl in Hs. by rewrite Hs.
Qed.

(** A round that dropped its level, then the rest of the loop. *)
Lemma match_post_step {L} (lvs_of : L -> list PriceLevel) inv taker taker1 p q ls cs css others c c1 w w1 r :
  sweep now_ns (config_ c) taker ((p, q) :: ls) w = sweep now_ns (config_ c) taker1 ls w1 ->
  same_outside (mjoin (cs :: css)).*1 (nodes_of c) (nodes_of c1) -> same_config c c1 ->
  match_post lvs_of inv taker1 ls css others c1 w1 r ->
  match_post lvs_of inv taker ((p, q) :: ls) (cs :: css) others c w r.
Proof.
  intros Hsw Hso Hcfg (k' & t' & l' & c' & w' & ls' & css' & -> & Hi & Hsw' & Hr' & Hc' & Hso' & Hcfg').
  exists k', t', l', c', w', ls', css'. split_and!; try done.
  - by rewrite Hsw, <- Hsw', Hcfg.
  - eapply same_outside_trans; [exact Hso|]. eapply same_outside_sub; [|exact Hso'].
    simpl. rewrite fmap_app. intros j. rewrite elem_of_app. tauto.
  - by eapply same_config_trans.
Qed.

Lemma match_loop_spec fuel taker lvs css ls others c w :
  side_rep (nodes_of c) lvs css ls -> core_rep c (mjoin css ++ others) ->
  positive_orders (level_orders ls) -> (sum_remaining (level_orders ls) <= int64_max)%Z ->
  (0 <= o_remaining_quantity taker <= int64_max)%Z -> (length lvs + 2 <= fuel)%nat ->
  match_post id (fun _ => True) taker ls css others c w (match_loop now_ns fuel taker lvs c w).
Proof.
  revert fuel taker css ls c w.
  induction lvs as [|lv lvs IH]; intros fuel taker css ls c w Hr Hc Hpos Hsum Htk Hf;
    (destruct fuel as [|fuel]; [simpl in Hf; lia|]); cbn [match_loop].
  { inversion Hr; subst. case_match; apply match_post_stop; try done; by right. }
  destruct (Z.leb_spec (o_remaining_quantity taker) 0) as [Hz|Hz]; [apply match_post_stop; try done; by left|].
  inversion Hr as [|? cs l ? css0 ls0 Hl Hr0]; subst. pose proof Hl as (_ & _ & ->).
  rewrite price_test. destruct (acceptable taker (l_price lv)) eqn:Hacc; cbn [negb];
    [|apply match_post_stop; try done; by right].
  destruct (drain_step taker lv lvs cs css0 ls0 others c w Hr Hc Hpos Hsum) as
    (killed & taker1 & lv1 & c1 & w1 & cs1 & -> & Hpr & _ & Hr1 & Hc1 & Hso & Hcfg & Htk1 & _ & Hex & Hsw); [lia|done|].
  cbn [mbind option_bind]. fold (keep lv1 lv1 lvs).
  rewrite level_orders_cons in Hpos, Hsum. apply Forall_app in Hpos as [Hp1 Hp2].
  rewrite sum_remaining_app in Hsum. pose proof (sum_remaining_nonneg _ Hp1).
  destruct killed; [|destruct (level_empty lv1) eqn:He]; cbn [negb andb] in Hsw.
  - eexists _, _, _, _, _, _, _. split; [reflexivity|]. split_and!; done.
  - unfold keep in *. rewrite He in *.
    eapply match_post_step; [exact Hsw|done|done|]. apply IH; try done; [lia|simpl in Hf; lia].
  - rewrite match_loop_stop by (simpl in Hf; rewrite ?Hex by done; lia).
    eexists _, _, _, _, _, _, _. split; [reflexivity|]. split_and!; done.
Qed.

(** * The liquidity dry run *)

Lemma liquidity_loop_spec ns taker lvs css ls needed acc :
  side_rep ns lvs css ls -> positive_orders (level_orders ls) -> (0 <= acc < needed)%Z ->
  (acc + sum_remaining (level_orders ls) <= int64_max)%Z ->
  liquidity_loop (o_side taker) (o_type taker) (o_price taker) needed acc lvs =
    Some (needed <=? acc + available taker ls)%Z.
Proof.
  intros Hr. revert acc. induction Hr as [|lv cs l lvs css ls (_ & Ht & ->) Hr IH]; intros acc Hpos Hacc Hsum; simpl.
  { f_equal. symmetry. apply Z.leb_gt. lia. }
  rewrite level_orders_cons in Hpos, Hsum. apply Forall_app in Hpos as [Hp1 Hp2].
  rewrite sum_remaining_app in Hsum. pose proof (sum_remaining_nonneg _ Hp1). pose proof (sum_remaining_nonneg _ Hp2).
  replace (bool_decide (o_type taker = Limit) && _) with (negb (acceptable taker (l_price lv))).
  2: { unfold acceptable. destruct (o_type taker), (o_side taker); simpl; try done; by rewrite Z.leb_antisym, negb_involutive. }
  destruct (acceptable taker (l_price lv)); simpl.
  - unfold level_total in Ht. rewrite Ht, add64_ok by (unfold int64_min, int64_max in *; lia). simpl.
    assert (Hav : (0 <= available taker ls)%Z).
    { clear -Hp2. induction ls as [|[p q] ls IH]; simpl; [done|]. rewrite level_orders_cons in Hp2.
      apply Forall_app in Hp2 as [Hq Hls]. pose proof (sum_remaining_nonneg _ Hq). case_match; [|done]. specialize (IH Hls). lia. }
    destruct (Z.leb_spec needed (acc + sum_remaining cs.*2)) as [Hle|Hgt].
    + f_equal. symmetry. apply Z.leb_le. lia.
    + rewrite IH by (done || lia). f_equal. f_equal. lia.
  - f_equal. symmetry. apply Z.leb_gt. lia.
Qed.

(** * Resting an order *)

(** Pushing the acquired cell [(i, o)] on a level in the middle of its side. *)
Lemma push_rep c p ids i o lv cs lvs1 css1 ls1 lvs2 css2 ls2 lvs' css' ls' :
  side_rep (nodes_of c) lvs1 css1 ls1 -> side_rep (nodes_of c) lvs2 css2 ls2 -> side_rep (nodes_of c) lvs' css' ls' ->
  level_links (nodes_of c) lv cs -> level_total lv cs -> l_price lv = o_price o ->
  (forall j, j ∈ (mjoin css1 ++ cs ++ mjoin css2 ++ mjoin css').*1 -> vget (nodes_ p) j = vget (nodes_of c) j) ->
  vget (nodes_ p) i = Some (mkNode o kNullIndex kNullIndex) -> i <> kNullIndex ->
  core_rep (set_ids ids (set_pool p c)) ((i, o) :: mjoin css1 ++ cs ++ mjoin css2 ++ mjoin css') ->
  positive_orders cs.*2 -> (0 <= o_remaining_quantity o)%Z ->
  (sum_remaining cs.*2 + o_remaining_quantity o <= int64_max)%Z ->
  exists lv1 p1, level_push_back lv p i = Some (lv1, p1) /\
    side_rep (nodes_ p1) (lvs1 ++ lv1 :: lvs2) (css1 ++ (cs ++ [(i, o)]) :: css2)
      (ls1 ++ (o_price o, cs.*2 ++ [o]) :: ls2) /\
    side_rep (nodes_ p1) lvs' css' ls' /\
    core_rep (set_ids ids (set_pool p1 c)) (mjoin (css1 ++ (cs ++ [(i, o)]) :: css2) ++ mjoin css').
Proof.
  intros Hr1 Hr2 Hr' Hl Ht Hpr Hsame Hgi Hi Hc Hpos Hrem Hsum.
  pose proof (core_rep_handles _ _ Hc) as Hnd. rewrite !fmap_app in Hsame.
  rewrite fmap_cons, !fmap_app in Hnd. apply NoDup_cons in Hnd as [Hni Hnd]. simpl in Hni.
  assert (Hl1 : level_links (nodes_ p) lv cs).
  { destruct Hl. split; try done. eapply dseg_frame; [|done]. intros j Hj. apply Hsame. set_solver. }
  destruct (level_push_back_spec p lv cs i o kNullIndex kNullIndex) as (lv1 & p1 & Hpb & Hpr1 & Hl2 & Ht2 & Hso & Hfree);
    try done.
  { apply NoDup_app in Hnd as (_ & _ & Hnd). by apply NoDup_app in Hnd as (? & _ & _). }
  { set_solver. }
  { pose proof (pool_inv_size _ _ (core_pool _ _ Hc)) as Hs. rewrite length_fmap in Hs. simpl in Hs.
    rewrite !length_app in Hs. unfold kNullIndex, two32 in *. lia. }
  { pose proof (sum_remaining_nonneg _ Hpos). unfold int64_min. lia. }
  exists lv1, p1. split; [done|].
  (* the other levels keep their nodes *)
  assert (Hdis : forall j, j ∈ (mjoin css1).*1 \/ j ∈ (mjoin css2).*1 \/ j ∈ (mjoin css').*1 ->
    vget (nodes_ p1) j = vget (nodes_of c) j).
  { intros j Hj. destruct Hso as [_ Hso]. rewrite Hso; [apply Hsame; set_solver|].
    apply not_elem_of_cons. split; [set_solver|]. intros Hjc.
    apply NoDup_app in Hnd as (_ & Hd1 & Hnd). apply NoDup_app in Hnd as (_ & Hd2 & _). set_solver. }
  split_and!.
  - apply side_rep_app; [eapply side_rep_eq; [|exact Hr1]; auto|]. constructor.
    + split_and!; [done|done|]. rewrite fmap_app. simpl. by rewrite Hpr1, Hpr.
    + eapply side_rep_eq; [|exact Hr2]; auto.
  - eapply side_rep_eq; [|exact Hr']; auto.
  - rewrite mjoin_split. eapply core_rep_perm; cycle 1.
    + eapply (core_rep_update (set_ids ids (set_pool p c)) p1 i o o); [exact Hc|done|apply Hso|exact Hfree].
    + rewrite <- !app_assoc. simpl. rewrite Permutation_middle. apply Permutation_app_head.
      rewrite (Permutation_middle cs). done.
Qed.

Lemma sum_remaining_split q os1 os2 :
  positive_orders (os1 ++ q ++ os2) -> (sum_remaining q <= sum_remaining (os1 ++ q ++ os2))%Z /\ positive_orders q.
Proof.
  unfold positive_orders. rewrite !Forall_app, !sum_remaining_app. intros (H1 & H2 & H3).
  pose proof (sum_remaining_nonneg _ H1). pose proof (sum_remaining_nonneg _ H3). split; [lia|done].
Qed.

(** The end of [rest_order]: the order is put at the tail of the level at the
    position found. *)
Definition push_at (b : OrderBookVector) (s : Side) (p : OrderPool) (ids : IdMap.IdIndexMap) (i : N) (pos : nat) (ls : list PriceLevel) : option OrderBookVector :=
  lv0 ← ls !! pos;
  '(lv1, p1) ← level_push_back lv0 p i;
  Some (set_levels s (<[pos := lv1]> ls) (set_core (set_ids ids (set_pool p1 (core_ b))) b)).

Lemma push_at_spec b a s p ids i o lvs1 css1 ls1 lv cs lvs2 css2 ls2 css' :
  side_rep (nodes_of (core_ b)) lvs1 css1 ls1 -> side_rep (nodes_of (core_ b)) lvs2 css2 ls2 ->
  side_rep (nodes_of (core_ b)) (levels (opposite s) b) css' (side_of (opposite s) a) ->
  level_links (nodes_of (core_ b)) lv cs -> level_total lv cs -> l_price lv = o_price o ->
  (forall j, j ∈ (mjoin css1 ++ cs ++ mjoin css2 ++ mjoin css').*1 -> vget (nodes_ p) j = vget (nodes_of (core_ b)) j) ->
  vget (nodes_ p) i = Some (mkNode o kNullIndex kNullIndex) -> i <> kNullIndex ->
  core_rep (set_ids ids (set_pool p (core_ b))) ((i, o) :: mjoin css1 ++ cs ++ mjoin css2 ++ mjoin css') ->
  positive_orders (level_orders ls1 ++ cs.*2 ++ level_orders ls2) -> (0 <= o_remaining_quantity o)%Z ->
  (sum_remaining (level_orders ls1 ++ cs.*2 ++ level_orders ls2) + o_remaining_quantity o <= int64_max)%Z ->
  exists b', push_at b s p ids i (length lvs1) (lvs1 ++ lv :: lvs2) = Some b' /\ config_ (core_ b') = config_ (core_ b) /\
    vrep b' (set_side s (ls1 ++ (o_price o, cs.*2 ++ [o]) :: ls2) a).
Proof.
  intros Hr1 Hr2 Hr' Hl Ht Hpr Hsame Hgi Hinull Hc1 Hpos Hrem Hsum. unfold push_at.
  rewrite list_lookup_middle by done. cbn [mbind option_bind]. destruct (sum_remaining_split _ _ _ Hpos) as [Hle Hpcs].
  destruct (push_rep (core_ b) p ids i o lv cs lvs1 css1 ls1 lvs2 css2 ls2 _ css' _ Hr1 Hr2 Hr' Hl Ht Hpr Hsame Hgi
              Hinull Hc1 Hpcs Hrem) as (lv1 & p1 & Hpb & Hs1 & Hs2 & Hc2); [lia|].
  rewrite Hpb. cbn [mbind option_bind]. rewrite insert_at_middle. eexists. split; [reflexivity|].
  rewrite core_set_levels. split; [done|].
  eapply (vrep_intro s); rewrite ?core_set_levels, ?levels_set_same, ?levels_set_opp, ?levels_set_core,
    ?side_of_set_same, ?side_of_opp_set; [exact Hs1|exact Hs2|exact Hc2].
Qed.

Lemma rest_order_spec b a o :
  vrep b a -> side_ok (o_side o) (side_of (o_side o) a) ->
  o_id o ∉ o_id <$> orders a -> o_id o <> kInvalidOrderId -> (0 <= o_remaining_quantity o)%Z ->
  (sum_remaining (level_orders (side_of (o_side o) a)) + o_remaining_quantity o <= int64_max)%Z ->
  (N.of_nat (length (orders a)) < kNullIndex)%N ->
  exists b', rest_order b o = Some b' /\ config_ (core_ b') = config_ (core_ b) /\
    vrep b' (set_side (o_side o) (insert_order (o_side o) o (side_of (o_side o) a)) a).
Proof.
  intros Hv Hok Hfresh Hid0 Hrem Hsum Hlen. set (s := o_side o) in *.
  destruct (vrep_elim s b a Hv) as (css & css' & Hr & Hr' & Hc).
  assert (Hords : orders a ≡ₚ (mjoin css ++ mjoin css').*2).
  { rewrite (orders_sides s), (side_rep_orders _ _ _ _ Hr), (side_rep_orders _ _ _ _ Hr'). by rewrite fmap_app. }
  rewrite Hords in Hfresh, Hlen. rewrite length_fmap in Hlen.
  destruct (acquire_spec (pool_ (core_ b)) _ o (core_pool _ _ Hc) ltac:(by rewrite length_fmap))
    as (i & p & Hacq & Hi & Hinull & Hgi & Hsame & Hpi).
  destruct (core_rep_add _ _ p i o Hc Hpi Hfresh Hid0) as (ids & Hins & Hc1).
  unfold rest_order. fold s. rewrite Hacq. cbn [mbind option_bind]. rewrite Hins, find_position_lower_bound.
  (* the position *)
  pose proof (side_sorted _ _ Hok) as Hsort. rewrite (side_rep_keys _ _ _ _ Hr) in Hsort.
  destruct (lower_bound_spec s _ (o_price o) Hsort) as (Hn & Hb1 & Hb2). clear Hsort.
  set (n := lower_bound (comp_of s) _ (o_price o)) in *. clearbody n. rewrite length_fmap in Hn.
  rewrite <- fmap_take in Hb1. rewrite <- fmap_drop in Hb2.
  rewrite <- (take_drop n (levels s b)) in Hr |- *.
  assert (Hn1 : length (take n (levels s b)) = n) by (rewrite length_take; lia).
  generalize dependent (take n (levels s b)). generalize dependent (drop n (levels s b)). intros lvs2 Hb2 lvs1 Hr Hb1 Hn1.
  apply Forall3_app_inv_l in Hr as (css1 & css2 & ls1 & ls2 & -> & Hls & Hr1 & Hr2).
  fold (side_rep (nodes_of (core_ b)) lvs1 css1 ls1) in Hr1. fold (side_rep (nodes_of (core_ b)) lvs2 css2 ls2) in Hr2.
  pose proof (side_ok_positive _ _ Hok) as Hpos. rewrite Hls in *.
  rewrite (insert_order_skip s o ls1 ls2).
  2: { rewrite <- (side_rep_keys _ _ _ _ Hr1) in Hb1. apply Forall_fmap in Hb1. exact Hb1. }
  rewrite join_app in *. subst n.
  assert (Hfin : forall lv cs lvs2' css2' ls2',
    side_rep (nodes_of (core_ b)) lvs2' css2' ls2' -> level_links (nodes_of (core_ b)) lv cs -> level_total lv cs ->
    l_price lv = o_price o -> mjoin css2 = cs ++ mjoin css2' -> level_orders ls2 = cs.*2 ++ level_orders ls2' ->
    exists b', push_at b s p ids i (length lvs1) (lvs1 ++ lv :: lvs2') = Some b' /\ config_ (core_ b') = config_ (core_ b) /\
      vrep b' (set_side s (ls1 ++ (o_price o, cs.*2 ++ [o]) :: ls2') a)).
  { intros lv cs lvs2' css2' ls2' Hr2' Hl Ht Hpr Hcss Hlo. rewrite level_orders_app, Hlo in Hpos, Hsum. rewrite Hcss, <- !app_assoc in Hc1, Hsame.
    by apply (push_at_spec b a s p ids i o lvs1 css1 ls1 lv cs lvs2' css2' ls2' css'). }
  assert (Hnew : match ls2 with [] => True | l :: _ => l.1 <> o_price o /\ before s l.1 (o_price o) = false end ->
    exists b', push_at b s p ids i (length lvs1) (lvs1 ++ set_price (o_price o) default_level :: lvs2) = Some b' /\
      config_ (core_ b') = config_ (core_ b) /\ vrep b' (set_side s (ls1 ++ insert_order s o ls2) a)).
  { intros Hh. rewrite (insert_order_new s o ls2 Hh). eapply (Hfin _ [] lvs2 css2 ls2); done. }
  rewrite take_app_length, drop_app_length, lookup_app_r, Nat.sub_diag by done.
  destruct lvs2 as [|lv lvs2]; cbn [lookup list_lookup].
  { inversion Hr2; subst. by apply Hnew. }
  inversion Hr2 as [|? cs l ? css2' ls2' Hl Hr2']; subst. pose proof Hl as (Hll & Htt & ->).
  destruct (Z.eqb_spec (l_price lv) (o_price o)) as [Heq|Hne].
  - rewrite Heq, insert_order_existing. by eapply (Hfin lv cs lvs2 css2' ls2').
  - apply Hnew. split; [done|]. by apply Forall_cons in Hb2 as [? _].
Qed.

(** * The operations *)

Lemma best_of_levels s b a css :
  side_rep (nodes_of (core_ b)) (levels s b) css (side_of s a) ->
  l_price <$> head (levels s b) = best s a.
Proof. intros H. unfold best. rewrite (side_rep_keys _ _ _ _ H). by destruct (levels s b). Qed.

Lemma crosses_spec b a o :
  vrep b a -> o_type o = Limit ->
  crosses b o = match side_of (opposite (o_side o)) a with [] => false | l :: _ => acceptable o l.1 end.
Proof.
  intros Hv Hl. destruct (vrep_elim (opposite (o_side o)) b a Hv) as (css & _ & Hr & _ & _).
  apply best_of_levels in Hr. unfold best in Hr. unfold crosses, best_ask, best_bid, acceptable.
  rewrite Hl, bool_decide_eq_false_2 by done. cbn [orb].
  destruct (o_side o); simpl in *; rewrite Hr; [destruct (a_asks a)|destruct (a_bids a)]; done.
Qed.

Lemma match_against_book_spec b a taker w killed taker' ls' w' :
  vrep b a -> abook_ok a -> (0 <= o_remaining_quantity taker <= int64_max)%Z ->
  sweep now_ns (config_ (core_ b)) taker (side_of (opposite (o_side taker)) a) w = (killed, taker', ls', w') ->
  exists b', match_against_book now_ns b taker w = Some (killed, taker', b', w') /\
    vrep b' (set_side (opposite (o_side taker)) ls' a) /\ config_ (core_ b') = config_ (core_ b).
Proof.
  intros Hv Hok Hr Hsw. set (opp := opposite (o_side taker)) in *.
  destruct (vrep_elim opp b a Hv) as (css & css' & Hr1 & Hr2 & Hc).
  pose proof (abook_sides _ Hok opp) as Hs. pose proof (side_ok_positive _ _ Hs) as Hpos.
  destruct (match_loop_spec (S (S (length (levels opp b)))) taker _ _ _ (mjoin css') (core_ b) w Hr1 Hc Hpos)
    as (k & t & lvs & c & w1 & ls & css1 & Hm & _ & Hsw' & Hr1' & Hc' & Hso & Hcfg); [apply Hs|done|lia|].
  rewrite Hsw in Hsw'. injection Hsw' as <- <- <- <-.
  unfold match_against_book. fold opp. rewrite Hm. simpl. eexists. split; [reflexivity|].
  split; [|by rewrite core_set_levels]. unfold set_core. eapply (vrep_intro opp);
    rewrite ?core_set_levels, ?levels_set_same, ?levels_set_opp, ?levels_set_core,
      ?side_of_set_same, ?side_of_opp_set; [exact Hr1'| |exact Hc'].
  change (mkBook (bids_ b) (asks_ b) c) with (set_core c b). rewrite levels_set_core.
  eapply side_rep_frame; [exact Hso| |exact Hr2]. intros j Hj. by eapply core_rep_disjoint.
Qed.

(** The tail of [add_order]: settling the matched taker. *)
Definition finish (order taker : Order) (killed : bool) (b : OrderBookVector) (w : World)
    : option (ExecutionReport * OrderBookVector * World) :=
  filled ← sub64 (o_quantity order) (o_remaining_quantity taker);
  if (o_remaining_quantity taker =? 0)%Z then
    Some (mkReport (o_id order) Filled filled 0 RNone, b, w)
  else if negb killed && rests_in_book taker then
    b2 ← rest_order b taker;
    Some (mkReport (o_id order) (if (0 <? filled)%Z then PartiallyFilled else New) filled
            (o_remaining_quantity taker) RNone, b2, w)
  else Some (mkReport (o_id order) Cancelled filled 0 RNone, b, w).

Lemma finish_spec a order taker ls killed b w report a' :
  swept a order taker ls -> vrep b (set_side (opposite (o_side order)) ls a) ->
  o_id order <> kInvalidOrderId -> (o_quantity order <= int64_max)%Z ->
  settle order taker killed (set_side (opposite (o_side order)) ls a) = (report, a') ->
  exists b', finish order taker killed b w = Some (report, b', w) /\ vrep b' a' /\
    config_ (core_ b') = config_ (core_ b).
Proof.
  intros [Hok Htk Hr Hfresh Hsum Hlen] Hv Hid Hq. unfold settle, finish. rewrite may_rest_eq.
  rewrite sub64_ok by (unfold int64_min, int64_max in *; lia). cbn [mbind option_bind].
  destruct (settle_config order taker Htk) as (Hrest & Hside & Hidt). rewrite Hrest.
  destruct (Z.eqb_spec (o_remaining_quantity taker) 0); [intros [= <- <-]; eauto|].
  destruct (negb killed && rests_in_book order); [|intros [= <- <-]; eauto].
  intros [= <- <-].
  destruct (rest_order_spec b _ taker Hv) as (b' & -> & Hcfg & Hv'); rewrite ?Hside, ?Hidt; try done.
  - apply Hok.
  - lia.
  - rewrite Hside in Hv'. simpl. eauto.
Qed.

Lemma contains_spec b a id :
  vrep b a -> IdMap.contains (id_index_ (core_ b)) id = Some (bool_decide (id ∈ o_id <$> orders a)).
Proof.
  intros Hv. destruct (vrep_elim Buy b a Hv) as (css & css' & Hr & Hr' & Hc).
  rewrite contains_model by apply Hc. f_equal. apply bool_decide_ext.
  assert (Hords : orders a = (mjoin css ++ mjoin css').*2).
  { unfold orders. by rewrite fmap_app, <- (side_rep_orders _ _ _ _ Hr), <- (side_rep_orders _ _ _ _ Hr'). }
  rewrite Hords. split.
  - intros [i Hi]. destruct (core_rep_lookup_inv _ _ _ _ Hc Hi) as (o & Ho & <-).
    apply list_elem_of_fmap_2, (list_elem_of_fmap_2 snd _ (i, o)). done.
  - intros (o & -> & ([i o'] & -> & Hin)%list_elem_of_fmap)%list_elem_of_fmap.
    exists i. by eapply (core_rep_lookup _ _ i o').
Qed.

Lemma liquidity_spec b a o : vrep b a -> abook_ok a -> (0 < o_quantity o)%Z ->
  (if bool_decide (o_time_in_force o = FOK)
   then has_liquidity_for b (o_side o) (o_type o) (o_price o) (o_quantity o) else Some true) =
  Some (negb (bool_decide (o_time_in_force o = FOK) &&
              (available o (side_of (opposite (o_side o)) a) <? o_quantity o)%Z)).
Proof.
  intros Hv Hok Hq. destruct (bool_decide (o_time_in_force o = FOK)); [|done]. unfold has_liquidity_for.
  set (opp := opposite (o_side o)). pose proof (abook_sides _ Hok opp) as Hopp.
  destruct (vrep_elim opp b a Hv) as (css & _ & Hr & _ & _).
  rewrite (liquidity_loop_spec _ o _ _ _ _ 0 Hr); [|by eapply side_ok_positive|lia|apply Hopp].
  f_equal. cbn [andb]. rewrite Z.add_0_l. apply Z.leb_antisym.
Qed.

(** An order that the guard of the matching step lets pass has nothing to
    match. *)
Lemma no_attempt b a o w : vrep b a ->
  bool_decide (o_type o = Market) || bool_decide (o_time_in_force o = FOK) || crosses b (set_remaining (o_quantity o) o) = false ->
  sweep now_ns (config_ (core_ b)) (set_remaining (o_quantity o) o) (side_of (opposite (o_side o)) a) w =
    (false, set_remaining (o_quantity o) o, side_of (opposite (o_side o)) a, w).
Proof.
  intros Hv [[Hm%bool_decide_eq_false _]%orb_false_iff Hcr]%orb_false_iff.
  assert (Ht : o_type o = Limit) by (by destruct (o_type o)).
  rewrite (crosses_spec b a (set_remaining (o_quantity o) o) Hv Ht) in Hcr.
  apply sweep_skip. cbn [o_side set_remaining] in Hcr. by destruct (side_of _ a).
Qed.

Lemma add_order_refines b a o w r a' w' :
  vrep b a -> abook_ok a -> add_pre a o ->
  spec_add now_ns (config_ (core_ b)) (fun _ => true) a o w = (r, a', w') ->
  exists b', add_order now_ns b o w = Some (r, b', w') /\ vrep b' a' /\ config_ (core_ b') = config_ (core_ b).
Proof.
  intros Hv Hok Hpre. pose proof Hpre as [Hid Hsum _]. unfold spec_add, add_order, reject.
  destruct (Z.leb_spec (o_quantity o) 0) as [Hq|Hq]; [intros [= <- <- <-]; eauto|].
  destruct (bool_decide (o_type o = Limit) && (o_price o <=? 0)%Z) eqn:Hlim; [intros [= <- <- <-]; eauto|].
  cbn [negb]. rewrite andb_false_r, (proj2 (N.eqb_neq _ _) Hid), (contains_spec b a) by done.
  cbn [mbind option_bind negb andb].
  destruct (bool_decide_reflect (o_id o ∈ o_id <$> orders a)) as [Hdup|Hfresh]; [intros [= <- <- <-]; eauto|].
  rewrite (liquidity_spec b a o Hv Hok Hq). cbn [mbind option_bind]. rewrite negb_involutive.
  destruct (bool_decide (o_time_in_force o = FOK) && _); [intros [= <- <- <-]; eauto|].
  destruct (sweep now_ns (config_ (core_ b)) _ _ w) as [[[killed taker] ls] w1] eqn:Hsw.
  destruct (settle o taker killed _) as [report a1] eqn:Hset. intros [= <- <- <-].
  pose proof (sum_remaining_nonneg _ (side_ok_positive _ _ (abook_sides _ Hok (o_side o)))) as Hnn.
  assert (Hmatch : exists b1,
    (if bool_decide (o_type o = Market) || bool_decide (o_time_in_force o = FOK) || crosses b (set_remaining (o_quantity o) o)
     then match_against_book now_ns b (set_remaining (o_quantity o) o) w
     else Some (false, set_remaining (o_quantity o) o, b, w)) = Some (killed, taker, b1, w1) /\
    vrep b1 (set_side (opposite (o_side o)) ls a) /\ config_ (core_ b1) = config_ (core_ b)).
  { destruct (bool_decide (o_type o = Market) || _ || _) eqn:Hgo.
    - eapply (match_against_book_spec b a (set_remaining (o_quantity o) o)); [done|done|simpl; lia|exact Hsw].
    - rewrite (no_attempt b a o w Hv Hgo) in Hsw. injection Hsw as <- <- <- <-. exists b. by rewrite set_side_id. }
  destruct Hmatch as (b1 & -> & Hv1 & Hcfg). cbn [mbind option_bind].
  destruct (finish_spec a o taker ls killed b1 w1 report a1) as (b' & Hfin & Hv' & Hcfg'); try done.
  - by eapply sweep_swept.
  - lia.
  - exists b'. split_and!; [exact Hfin|done|congruence].
Qed.

(** Where a resting order is: its cell, its level, and the rest of the book. *)
Record located (b : OrderBookVector) (a : abook) (o : Order) (i : N) (lv : PriceLevel)
    (lvs1 lvs2 : list PriceLevel) (cs1 cs2 : cells) (css1 css2 css' : list cells) (ls1 ls2 : list level) : Prop := {
  loc_levels : levels (o_side o) b = lvs1 ++ lv :: lvs2;
  loc_side : side_of (o_side o) a = ls1 ++ (o_price o, (cs1 ++ (i, o) :: cs2).*2) :: ls2;
  loc_price : l_price lv = o_price o;
  loc_before : side_rep (nodes_of (core_ b)) lvs1 css1 ls1;
  loc_level : lrep (nodes_of (core_ b)) lv (cs1 ++ (i, o) :: cs2) (o_price o, (cs1 ++ (i, o) :: cs2).*2);
  loc_after : side_rep (nodes_of (core_ b)) lvs2 css2 ls2;
  loc_other : side_rep (nodes_of (core_ b)) (levels (opposite (o_side o)) b) css' (side_of (opposite (o_side o)) a);
  loc_core : core_rep (core_ b) (mjoin (css1 ++ (cs1 ++ (i, o) :: cs2) :: css2) ++ mjoin css');
  loc_find : IdMap.find (id_index_ (core_ b)) (o_id o) = Some (Some i);
  loc_node : exists pr nx, pool_at (pool_ (core_ b)) i = Some (mkNode o pr nx);
  loc_pos : find_position (o_side o) b (o_price o) = length lvs1
}.

Lemma locate b a id o :
  vrep b a -> abook_ok a -> find_order id (orders a) = Some o ->
  exists i lv lvs1 lvs2 cs1 cs2 css1 css2 css' ls1 ls2, located b a o i lv lvs1 lvs2 cs1 cs2 css1 css2 css' ls1 ls2.
Proof.
  intros Hv Hok [Ho Hid]%find_order_Some. set (s := o_side o).
  destruct (vrep_elim s b a Hv) as (css & css' & Hr & Hr' & Hc).
  destruct (abook_ok_resting a o Hok Ho) as (_ & _ & Hin). fold s in Hin.
  rewrite (side_rep_orders _ _ _ _ Hr) in Hin. apply list_elem_of_fmap in Hin as ([i o'] & -> & Hin). simpl in *.
  destruct (cell_in_level css (i, o') Hin) as (cs & cs1 & cs2 & Hcs & ->).
  destruct (side_rep_split _ _ _ _ _ Hr Hcs) as (lvs1 & lv & lvs2 & css1 & css2 & ls1 & ls2 & Hlvs & -> & Hls & H1 & Hl & H2).
  pose proof (abook_sides _ Hok s) as Hs.
  assert (Hpr : l_price lv = o_price o').
  { pose proof (side_levels _ _ Hs) as Hall. rewrite Hls in Hall. apply Forall_app in Hall as [_ Hall].
    apply Forall_cons in Hall as [(_ & _ & Hq) _]. simpl in Hq. rewrite fmap_app, Forall_app, fmap_cons, Forall_cons in Hq.
    destruct Hq as (_ & (Hp & _) & _). done. }
  exists i, lv, lvs1, lvs2, cs1, cs2, css1, css2, css', ls1, ls2. fold s. split; try done.
  - fold s. by rewrite <- Hpr.
  - by rewrite <- Hpr.
  - rewrite find_model by apply Hc. f_equal. eapply core_rep_lookup; [exact Hc|].
    apply elem_of_app. by left.
  - destruct Hl as ([Hseg _ _ _] & _ & _). apply dseg_lookup in Hseg. unfold pool_at; eauto.
  - fold s. rewrite find_position_lower_bound, Hlvs, fmap_app, fmap_cons, Hpr.
    rewrite lower_bound_at; [by rewrite length_fmap|].
    pose proof (side_sorted _ _ Hs) as Hsort. rewrite (side_rep_keys _ _ _ _ Hr), Hlvs, fmap_app, fmap_cons, Hpr in Hsort.
    done.
Qed.

Lemma find_absent b a id :
  vrep b a -> find_order id (orders a) = None -> IdMap.find (id_index_ (core_ b)) id = Some None.
Proof.
  intros Hv Hf%find_order_None. pose proof (contains_spec b a id Hv) as Hc.
  unfold IdMap.contains in Hc. destruct (IdMap.find _ id) as [r|]; [|done]. simpl in Hc.
  rewrite (bool_decide_eq_false_2 (id ∈ _)) in Hc by done. destruct r; [|done].
  rewrite bool_decide_eq_true_2 in Hc by eauto. done.
Qed.

(** The arithmetic on the located level stays within 64 bits. *)
Lemma located_bounds b a o i lv lvs1 lvs2 cs1 cs2 css1 css2 css' ls1 ls2 :
  located b a o i lv lvs1 lvs2 cs1 cs2 css1 css2 css' ls1 ls2 -> abook_ok a ->
  (0 < o_remaining_quantity o <= l_total_quantity lv)%Z /\ (l_total_quantity lv <= int64_max)%Z.
Proof.
  intros [_ Hls _ _ (_ & Hlt & _) _ _ _ _ _ _] Hok. pose proof (abook_sides _ Hok (o_side o)) as Hs. rewrite Hls in Hs.
  pose proof (side_ok_positive _ _ Hs) as Hpo. rewrite level_orders_app, level_orders_cons in Hpo.
  pose proof (side_total _ _ Hs) as Hmax. rewrite level_orders_app, level_orders_cons in Hmax.
  destruct (sum_remaining_split _ _ _ Hpo) as [Hle Hpcs]. unfold level_total in Hlt. rewrite <- Hlt in Hle.
  rewrite fmap_app, fmap_cons in Hpcs, Hlt. unfold positive_orders in Hpcs.
  rewrite Forall_app, Forall_cons in Hpcs. destruct Hpcs as (Hp1 & Hp & Hp2).
  pose proof (sum_remaining_nonneg _ Hp1). pose proof (sum_remaining_nonneg _ Hp2).
  rewrite sum_remaining_app in Hlt. cbn [sum_remaining snd] in Hlt, Hp. lia.
Qed.

Lemma located_core b a o i lv lvs1 lvs2 cs1 cs2 css1 css2 css' ls1 ls2 :
  located b a o i lv lvs1 lvs2 cs1 cs2 css1 css2 css' ls1 ls2 ->
  core_rep (core_ b) ((cs1 ++ (i, o) :: cs2) ++ mjoin css1 ++ mjoin css2 ++ mjoin css').
Proof.
  intros L. eapply core_rep_perm; [|apply L]. rewrite mjoin_split.
  generalize (cs1 ++ (i, o) :: cs2). intros cs. rewrite <- !app_assoc. apply Permutation_app_swap_app.
Qed.

(** Replacing the located level, and dropping it when its queue is empty. *)
Lemma replace_level b a o i lv lvs1 lvs2 cs1 cs2 css1 css2 css' ls1 ls2 lv' c' cs' :
  located b a o i lv lvs1 lvs2 cs1 cs2 css1 css2 css' ls1 ls2 ->
  level_links (nodes_of c') lv' cs' -> level_total lv' cs' -> l_price lv' = l_price lv ->
  core_rep c' (cs' ++ mjoin css1 ++ mjoin css2 ++ mjoin css') ->
  same_outside (cs1 ++ (i, o) :: cs2).*1 (nodes_of (core_ b)) (nodes_of c') ->
  vrep (set_levels (o_side o) (lvs1 ++ (if level_empty lv' then [] else [lv']) ++ lvs2) (set_core c' b))
    (set_side (o_side o) (ls1 ++ keep_level (o_price o) cs'.*2 ++ ls2) a).
Proof.
  intros L Hl Ht Hpr Hc Hso. pose proof (located_core _ _ _ _ _ _ _ _ _ _ _ _ _ _ L) as Hd.
  destruct L as [_ _ Hpr0 H1 _ H2 Ho _ _ _ _].
  assert (Hdis : forall css, mjoin css ⊆ mjoin css1 ++ mjoin css2 ++ mjoin css' ->
    forall j, j ∈ (mjoin css).*1 -> j ∉ (cs1 ++ (i, o) :: cs2).*1).
  { intros css Hsub j Hj. eapply core_rep_disjoint; [exact Hd|].
    apply list_elem_of_fmap in Hj as (x & -> & Hx). by apply list_elem_of_fmap_2, Hsub. }
  assert (Hmid : side_rep (nodes_of c') (if level_empty lv' then [] else [lv'])
    (if level_empty lv' then [] else [cs']) (keep_level (o_price o) cs'.*2)).
  { rewrite (proj1 (links_empty _ _ _ Hl Ht)). destruct cs' as [|x cs']; [constructor|].
    rewrite bool_decide_eq_false_2 by done. constructor; [|constructor].
    split_and!; [done|done|by rewrite Hpr, Hpr0]. }
  eapply (vrep_intro (o_side o) _ _ (css1 ++ (if level_empty lv' then [] else [cs']) ++ css2) css').
  - rewrite core_set_levels, levels_set_same, side_of_set_same.
    apply side_rep_app; [|apply side_rep_app]; [|done|]; (eapply side_rep_frame; [exact Hso|apply Hdis|done]);
      intros x Hx; rewrite !elem_of_app; tauto.
  - rewrite core_set_levels, levels_set_opp, levels_set_core, side_of_opp_set.
    eapply side_rep_frame; [exact Hso|apply Hdis|done]. intros x Hx. rewrite !elem_of_app; tauto.
  - rewrite core_set_levels. eapply core_rep_perm; [|exact Hc].
    replace (mjoin (css1 ++ (if level_empty lv' then [] else [cs']) ++ css2)) with (mjoin css1 ++ cs' ++ mjoin css2).
    { rewrite <- !app_assoc. apply Permutation_app_swap_app. }
    rewrite (proj1 (links_empty _ _ _ Hl Ht)). rewrite !join_app.
    destruct cs'; [done|]. rewrite bool_decide_eq_false_2 by done. simpl. by rewrite app_nil_r.
Qed.

Lemma levels_update (lvs1 : list PriceLevel) lv lvs2 lv' :
  (if level_empty lv' then delete (length lvs1) (lvs1 ++ lv :: lvs2)
   else <[length lvs1 := lv']> (lvs1 ++ lv :: lvs2)) =
  lvs1 ++ (if level_empty lv' then [] else [lv']) ++ lvs2.
Proof. destruct (level_empty lv'); [apply delete_middle|apply insert_at_middle]. Qed.

Lemma remove_located b a o i lv lvs1 lvs2 cs1 cs2 css1 css2 css' ls1 ls2 :
  located b a o i lv lvs1 lvs2 cs1 cs2 css1 css2 css' ls1 ls2 -> abook_ok a ->
  remove_order (o_id o) (side_of (o_side o) a) = ls1 ++ keep_level (o_price o) (cs1 ++ cs2).*2 ++ ls2.
Proof.
  intros L Hok. rewrite (loc_side _ _ _ _ _ _ _ _ _ _ _ _ _ _ L), !fmap_app, fmap_cons.
  destruct (abook_ok_elim (o_side o) a Hok) as (Hs & _ & Hids & _).
  rewrite (loc_side _ _ _ _ _ _ _ _ _ _ _ _ _ _ L), fmap_app, fmap_cons in Hs, Hids.
  eapply remove_order_at; [apply (side_levels _ _ Hs)|done|].
  rewrite fmap_app in Hids. by apply NoDup_app in Hids as (? & _ & _).
Qed.

(** What cancelling a resting order does, whatever the levels are kept in. *)
Lemma unlink_spec b a id o :
  vrep b a -> abook_ok a -> find_order id (orders a) = Some o ->
  exists i nd lv lvs1 lvs2 lv1 p1 p2 er ids,
    IdMap.find (id_index_ (core_ b)) id = Some (Some i) /\
    pool_at (pool_ (core_ b)) i = Some nd /\ n_order nd = o /\
    levels (o_side o) b = lvs1 ++ lv :: lvs2 /\ l_price lv = o_price o /\
    find_position (o_side o) b (o_price o) = length lvs1 /\
    sub64 (l_total_quantity lv) (o_remaining_quantity o) = Some (l_total_quantity lv - o_remaining_quantity o)%Z /\
    level_unlink (set_total (l_total_quantity lv - o_remaining_quantity o) lv) (pool_ (core_ b)) i = Some (lv1, p1) /\
    l_price lv1 = o_price o /\ (level_empty lv1 = true -> lv1 = set_price (l_price lv1) default_level) /\
    release p1 i = Some p2 /\ IdMap.erase (id_index_ (core_ b)) id = Some (er, ids) /\
    vrep (set_levels (o_side o) (lvs1 ++ (if level_empty lv1 then [] else [lv1]) ++ lvs2)
           (set_core (set_ids ids (set_pool p2 (core_ b))) b))
      (set_side (o_side o) (remove_order id (side_of (o_side o) a)) a).
Proof.
  intros Hv Hok Hf. pose proof (find_order_Some _ _ _ Hf) as [_ <-].
  destruct (locate b a _ o Hv Hok Hf) as (i & lv & lvs1 & lvs2 & cs1 & cs2 & css1 & css2 & css' & ls1 & ls2 & L).
  pose proof (located_bounds _ _ _ _ _ _ _ _ _ _ _ _ _ _ L Hok) as [Hb1 Hb2].
  pose proof (located_core _ _ _ _ _ _ _ _ _ _ _ _ _ _ L) as Hc. rewrite <- app_assoc in Hc.
  rewrite (remove_located _ _ _ _ _ _ _ _ _ _ _ _ _ _ L Hok).
  pose proof L as [Hlvs _ Hpr _ (Hll & Hlt & _) _ _ _ Hfind (pr & nx & Hnode) Hpos].
  destruct (remove_maker_spec (set_total (l_total_quantity lv - o_remaining_quantity o) lv) (core_ b) cs1 i o cs2 _
              ltac:(by apply links_set_total) Hc) as (lv1 & c1 & Hrm & Hpr1 & Ht1 & Hl1 & Hc1 & Hso & Hcfg).
  unfold remove_maker in Hrm. inv_opt. destruct x as [lv1' p1]. inv_opt. destruct x as [er ids]. inv_opt. subst.
  assert (Ht1' : level_total lv1 (cs1 ++ cs2)).
  { unfold level_total in *. rewrite Ht1. cbn [l_total_quantity set_total]. rewrite Hlt, !fmap_app, fmap_cons, !sum_remaining_app.
    cbn [sum_remaining snd]. lia. }
  assert (Hp1 : l_price lv1 = o_price o) by (rewrite Hpr1; exact Hpr).
  exists i, (mkNode o pr nx), lv, lvs1, lvs2, lv1, p1, x, er, ids. split_and!; try done.
  - apply sub64_ok. unfold int64_min, int64_max in *. lia.
  - destruct (links_empty _ _ _ Hl1 Ht1') as [He Hcl]. rewrite He. intros Hn%bool_decide_eq_true. by apply Hcl.
  - eapply replace_level; [exact L|exact Hl1|done|by rewrite Hp1|by rewrite <- app_assoc|].
    eapply same_outside_sub; [|exact Hso]. intros j. rewrite !fmap_app, fmap_cons, !elem_of_app, elem_of_cons. tauto.
Qed.

Lemma cancel_order_refines b a id r a' :
  vrep b a -> abook_ok a -> spec_cancel a id = (r, a') ->
  exists b', cancel_order b id = Some (r, b') /\ vrep b' a' /\ config_ (core_ b') = config_ (core_ b).
Proof.
  intros Hv Hok. unfold spec_cancel, cancel_order. destruct (find_order id (orders a)) as [o|] eqn:Hf; cycle 1.
  { rewrite (find_absent b a) by done. intros [= <- <-]. eauto. }
  intros [= <- <-]. destruct (unlink_spec b a id o Hv Hok Hf) as
    (i & nd & lv & lvs1 & lvs2 & lv1 & p1 & p2 & er & ids & -> & Hnode & Hno & Hlvs & Hpr & Hpos & Hsub & Hun & _ & _ & Hrel & Her & Hv').
  cbn [mbind option_bind]. rewrite Hnode. cbn [mbind option_bind]. rewrite Hno.
  rewrite Hpos, Hlvs, list_lookup_middle, Hpr, Z.eqb_refl by done. cbn [negb].
  rewrite Hsub. cbn [mbind option_bind]. rewrite Hun. cbn [mbind option_bind]. rewrite Hrel. cbn [mbind option_bind].
  rewrite Her. cbn [mbind option_bind]. rewrite levels_update. eexists. split; [reflexivity|].
  split; [done|by rewrite core_set_levels].
Qed.

Lemma update_located b a o i lv lvs1 lvs2 cs1 cs2 css1 css2 css' ls1 ls2 f :
  located b a o i lv lvs1 lvs2 cs1 cs2 css1 css2 css' ls1 ls2 -> abook_ok a ->
  update_order (o_id o) f (side_of (o_side o) a) =
    ls1 ++ keep_level (o_price o) (cs1 ++ (i, f o) :: cs2).*2 ++ ls2.
Proof.
  intros L Hok. rewrite (loc_side _ _ _ _ _ _ _ _ _ _ _ _ _ _ L), !fmap_app, !fmap_cons.
  destruct (abook_ok_elim (o_side o) a Hok) as (_ & _ & Hids & _).
  rewrite (loc_side _ _ _ _ _ _ _ _ _ _ _ _ _ _ L), !fmap_app, fmap_cons in Hids.
  apply NoDup_app in Hids as (Hids & _ & _).
  rewrite update_order_at by done. by destruct cs1.
Qed.

(** The size-down amend: the order keeps its place in the queue. *)
Lemma size_down_spec b a id o q :
  vrep b a -> abook_ok a -> find_order id (orders a) = Some o -> (0 < q <= o_remaining_quantity o)%Z ->
  exists i nd lv lvs1 lvs2 lv1 p1, IdMap.find (id_index_ (core_ b)) id = Some (Some i) /\
    pool_at (pool_ (core_ b)) i = Some nd /\ n_order nd = o /\
    levels (o_side o) b = lvs1 ++ lv :: lvs2 /\ l_price lv = o_price o /\
    find_position (o_side o) b (o_price o) = length lvs1 /\
    sub64 (o_remaining_quantity o) q = Some (o_remaining_quantity o - q)%Z /\
    level_reduce_quantity lv (pool_ (core_ b)) i (o_remaining_quantity o - q) = Some (lv1, p1) /\
    l_price lv1 = o_price o /\
    vrep (set_levels (o_side o) (lvs1 ++ lv1 :: lvs2) (set_core (set_pool p1 (core_ b)) b))
      (set_side (o_side o) (update_order id (set_remaining q) (side_of (o_side o) a)) a).
Proof.
  intros Hv Hok Hf Hq. pose proof (find_order_Some _ _ _ Hf) as [_ <-].
  destruct (locate b a _ o Hv Hok Hf) as (i & lv & lvs1 & lvs2 & cs1 & cs2 & css1 & css2 & css' & ls1 & ls2 & L).
  pose proof (located_bounds _ _ _ _ _ _ _ _ _ _ _ _ _ _ L Hok) as [Hb1 Hb2].
  pose proof (located_core _ _ _ _ _ _ _ _ _ _ _ _ _ _ L) as Hc.
  rewrite (update_located _ _ _ _ _ _ _ _ _ _ _ _ _ _ (set_remaining q) L Hok).
  pose proof L as [Hlvs _ Hpr _ (Hll & Hlt & _) _ _ _ Hfind (pr & nx & Hnode) Hpos].
  assert (Hnd : NoDup (cs1 ++ (i, o) :: cs2).*1).
  { pose proof (core_rep_handles _ _ Hc) as Hh. rewrite fmap_app in Hh. by apply NoDup_app in Hh as (? & _ & _). }
  destruct (level_reduce_spec (pool_ (core_ b)) lv cs1 i o cs2 (o_remaining_quantity o - q) Hll Hlt Hnd)
    as (lv1 & p1 & Hred & Hpr1 & Hl1 & Ht1 & Hso & Hfr); [unfold int64_min, int64_max in *; lia..|].
  replace (o_remaining_quantity o - (o_remaining_quantity o - q))%Z with q in * by lia.
  exists i, (mkNode o pr nx), lv, lvs1, lvs2, lv1, p1. split_and!; try done.
  - apply sub64_ok. unfold int64_min, int64_max in *. lia.
  - by rewrite Hpr1.
  - assert (Hne : level_empty lv1 = false).
    { rewrite (proj1 (links_empty _ _ _ Hl1 Ht1)). by destruct cs1. }
    replace (lvs1 ++ lv1 :: lvs2) with (lvs1 ++ (if level_empty lv1 then [] else [lv1]) ++ lvs2) by (by rewrite Hne).
    eapply replace_level; [exact L|done|done|done| |].
    + eapply core_rep_perm; [|eapply (core_rep_update (core_ b) p1 i o (set_remaining q o) (cs1 ++ cs2 ++ mjoin css1 ++ mjoin css2 ++ mjoin css'));
        [|done|apply Hso|done]].
      * rewrite <- app_assoc. apply (Permutation_middle cs1).
      * eapply core_rep_perm; [|exact Hc]. rewrite <- app_assoc. symmetry. apply (Permutation_middle cs1).
    + eapply same_outside_sub; [|exact Hso]. intros j Hj%list_elem_of_singleton. subst j.
      rewrite fmap_app, fmap_cons, elem_of_app, elem_of_cons. tauto.
Qed.

Lemma amend_order_refines b a id q np w r a' w' :
  vrep b a -> abook_ok a -> amend_pre a id q ->
  spec_amend now_ns (config_ (core_ b)) (fun _ => true) a id q np w = (r, a', w') ->
  exists b', amend_order now_ns b id q np w = Some (r, b', w') /\ vrep b' a' /\
    config_ (core_ b') = config_ (core_ b).
Proof.
  intros Hv Hok Hpre. unfold spec_amend, amend_order, reject.
  destruct (find_order id (orders a)) as [o|] eqn:Hf; cycle 1.
  { rewrite (find_absent b a) by done. intros [= <- <- <-]. eauto. }
  destruct (find_order_Some _ _ _ Hf) as [Ho Hid]. destruct (abook_ok_resting a o Hok Ho) as ((_ & _ & Hpos & _ & Hid0) & _ & _).
  destruct (size_down_spec b a id o (o_remaining_quantity o) Hv Hok Hf ltac:(lia))
    as (i & nd & _ & _ & _ & _ & _ & Hfind & Hnode & Hno & _). rewrite Hfind. cbn [mbind option_bind].
  destruct (Z.leb_spec q 0) as [Hq|Hq]; [intros [= <- <- <-]; eauto|].
  rewrite Hnode. cbn [mbind option_bind]. rewrite Hno.
  replace (default true ((fun _ => true) <$> np)) with true by (by destruct np). cbn [negb].
  assert (Hpc : (match np with Some p => negb (p =? o_price o) | None => false end)%Z =
    negb (default (o_price o) np =? o_price o)%Z) by (destruct np; [done|simpl; by rewrite Z.eqb_refl]).
  rewrite Hpc, Z.ltb_antisym, !negb_involutive.
  destruct ((default (o_price o) np =? o_price o)%Z && (q <=? o_remaining_quantity o)%Z) eqn:Hdown.
  - apply andb_true_iff in Hdown as [_ Hle%Z.leb_le]. intros [= <- <- <-].
    destruct (size_down_spec b a id o q Hv Hok Hf ltac:(lia))
      as (i' & _ & lv & lvs1 & lvs2 & lv1 & p1 & Hfind' & _ & _ & Hlvs & _ & Hp & Hsub & Hred & _ & Hv').
    rewrite Hfind in Hfind'. injection Hfind' as <-. rewrite Hp, Hlvs, list_lookup_middle by done.
    cbn [mbind option_bind]. rewrite Hsub. cbn [mbind option_bind]. rewrite Hred. cbn [mbind option_bind].
    rewrite insert_at_middle. eexists. split; [reflexivity|]. split; [done|by rewrite core_set_levels].
  - destruct (spec_cancel a id) as [rc a1] eqn:Hsc.
    destruct (cancel_order_refines b a id rc a1 Hv Hok Hsc) as (b1 & -> & Hv1 & Hcfg1). cbn [mbind option_bind snd].
    rewrite <- Hcfg1. intros Hadd.
    pose proof (spec_cancel_ok a id Hok) as Hok1. rewrite Hsc in Hok1.
    apply (add_order_refines b1 a1); [done|done| |exact Hadd].
    unfold spec_cancel in Hsc. rewrite Hf in Hsc. injection Hsc as _ <-.
    by apply (replacement_pre a id o).
Qed.
End refinement.

(** ** Construction, reset and observations *)

Lemma order_by_id_rep b a id : vrep b a -> abook_ok a -> order_by_id (core_ b) id = find_order id (orders a).
Proof.
  intros Hv Hok. unfold order_by_id. destruct (find_order id (orders a)) as [o|] eqn:Hf.
  - destruct (unlink_spec b a id o Hv Hok Hf) as (i & nd & _ & _ & _ & _ & _ & _ & _ & _ & Hfind & Hnode & <- & _).
    by rewrite Hfind; simpl; rewrite Hnode.
  - by rewrite (find_absent b a id Hv Hf).
Qed.

Lemma core_rep_nil cfg ids : table_ok ids -> idm_model ids = ∅ -> core_rep (mkCore cfg new_pool ids) [].
Proof. intros Ht Hm. split; simpl; (done || apply new_pool_inv || constructor). Qed.

Lemma new_book_rep symbol hint stp : (hint <= 2 ^ 62)%N ->
  exists b, new_book symbol hint stp = Some b /\ vrep b empty_abook /\ config_ (core_ b) = mkConfig symbol false stp.
Proof.
  intros Hh. unfold new_book, new_core. destruct (new_IdIndexMap_ok hint Hh) as (ids & -> & Ht & Hm & _).
  cbn [mbind option_bind]. eexists. split; [reflexivity|]. split; [|done].
  exists (fun _ => []). split; [intros []; constructor|]. by apply core_rep_nil.
Qed.

Lemma reset_rep b a : vrep b a -> vrep (reset b) empty_abook /\ config_ (core_ (reset b)) = config_ (core_ b).
Proof.
  intros (cf & _ & Hc). split; [|done]. destruct (clear_model (id_index_ (core_ b)) (core_table _ _ Hc)) as [Ht Hm].
  exists (fun _ => []). split; [intros []; constructor|]. by apply core_rep_nil.
Qed.

Lemma set_callback_rep b a : vrep b a -> vrep (set_trade_callback b) a.
Proof. intros (cf & Hs & [H1 H2 H3 H4 H5]). exists cf. by split. Qed.

Definition best_price (s : Side) (b : OrderBookVector) : option Price :=
  match s with Buy => best_bid b | Sell => best_ask b end.

Definition level_depth (s : Side) (b : OrderBookVector) (n : nat) : list PriceLevelView :=
  match s with Buy => bid_depth b n | Sell => ask_depth b n end.

Lemma best_price_rep s b a : vrep b a -> best_price s b = best s a.
Proof.
  intros (css & _ & Hr & _ & _)%(vrep_elim s). rewrite <- (best_of_levels s b a css Hr). by destruct s.
Qed.

Lemma lrep_view ns lv cs l : lrep ns lv cs l ->
  view lv = mkView l.1 (sum_remaining l.2) (N.of_nat (length l.2)).
Proof.
  intros ([_ _ _ Hc] & Ht & ->). unfold view. simpl. rewrite length_fmap. by rewrite Ht, Hc.
Qed.

Lemma level_depth_rep s b a n : vrep b a -> level_depth s b n = depth s n a.
Proof.
  intros (css & _ & Hr & _ & _)%(vrep_elim s). unfold depth. rewrite <- fmap_take.
  transitivity (view <$> take n (levels s b)).
  - unfold level_depth, bid_depth, ask_depth. destruct s; f_equal; apply take_min_length.
  - clear -Hr. revert n. induction Hr as [|lv cs l lvs css' ls Hl Hr IH]; intros [|n]; try done.
    simpl. by rewrite IH, (lrep_view _ _ _ _ Hl).
Qed.

Lemma order_count_rep b a : vrep b a -> order_count b = N.of_nat (length (orders a)).
Proof.
  intros (css & css' & Hr & Hr' & Hc)%(vrep_elim Buy). unfold order_count, IdMap.size.
  rewrite (core_rep_size _ _ Hc), (orders_sides Buy). f_equal. rewrite !length_app.
  by rewrite (side_rep_orders _ _ _ _ Hr), (side_rep_orders _ _ _ _ Hr'), !length_fmap.
Qed.
