(* ===== verification/OrderBookMap.v ===== *)
(** Approach A: include/lightninglob/order_book_map.hpp and
    src/order_book_map.cpp.  Price levels in one [std::map] per side, bids in
    descending and asks in ascending order.

    A [std::map] is modelled by its sequence of (key, value) pairs in
    iteration order; [map_find], [map_try_emplace], [map_assign] (writing
    through an iterator) and [map_erase] are the operations the source uses. *)

From S2P Require Import Prelude Types OrderPool IdIndexMap BookCore.

Section std_map.
Context {V : Type}.

Fixpoint map_find (m : list (Z * V)) (key : Z) : option V :=
  match m with
  | [] => None
  | (k, v) :: m' => if (k =? key)%Z then Some v else map_find m' key
  end.

(** [try_emplace(key)] with the default value [d]: the map and whether the
    key was inserted. *)
Fixpoint map_try_emplace (comp : Z -> Z -> bool) (m : list (Z * V)) (key : Z) (d : V) : list (Z * V) * bool :=
  match m with
  | [] => ([(key, d)], true)
  | (k, v) :: m' =>
      if comp k key then let '(m1, ins) := map_try_emplace comp m' key d in ((k, v) :: m1, ins)
      else if comp key k then ((key, d) :: m, true)
      else (m, false)
  end.

Fixpoint map_assign (m : list (Z * V)) (key : Z) (v : V) : list (Z * V) :=
  match m with
  | [] => []
  | (k, x) :: m' => if (k =? key)%Z then (k, v) :: m' else (k, x) :: map_assign m' key v
  end.

Fixpoint map_erase (m : list (Z * V)) (key : Z) : list (Z * V) :=
  match m with
  | [] => []
  | (k, x) :: m' => if (k =? key)%Z then m' else (k, x) :: map_erase m' key
  end.
End std_map.

Module MapBook.

Abbreviation levels_map := (list (Price * PriceLevel)).

Record OrderBookMap := mkBook {
  bids_ : levels_map;
  asks_ : levels_map;
  core_ : BookCore
}.

(** [std::greater<Price>] for the bids, [std::less<Price>] for the asks. *)
Definition compare (s : Side) (a b : Price) : bool :=
  match s with Buy => (b <? a)%Z | Sell => (a <? b)%Z end.

Definition new_book (symbol : SymbolId) (order_capacity_hint : N) (stp : SelfTradePrevention)
    : option OrderBookMap :=
  c ← new_core symbol order_capacity_hint stp; Some (mkBook [] [] c).

Definition levels (s : Side) (b : OrderBookMap) : levels_map :=
  match s with Buy => bids_ b | Sell => asks_ b end.

Definition set_levels (s : Side) (m : levels_map) (b : OrderBookMap) : OrderBookMap :=
  match s with Buy => mkBook m (asks_ b) (core_ b) | Sell => mkBook (bids_ b) m (core_ b) end.

Definition set_core (c : BookCore) (b : OrderBookMap) : OrderBookMap := mkBook (bids_ b) (asks_ b) c.

Definition set_trade_callback (b : OrderBookMap) : OrderBookMap := set_core (core_set_callback (core_ b)) b.

Definition best_bid (b : OrderBookMap) : option Price :=
  match bids_ b with [] => None | (price, _) :: _ => Some price end.
Definition best_ask (b : OrderBookMap) : option Price :=
  match asks_ b with [] => None | (price, _) :: _ => Some price end.

Definition spread (b : OrderBookMap) : option (option Price) :=
  match best_bid b, best_ask b with
  | Some bb, Some ba => d ← sub64 ba bb; Some (Some d)
  | _, _ => Some None
  end.

Definition crosses (b : OrderBookMap) (order : Order) : bool :=
  match o_side order with
  | Buy => match best_ask b with Some ask => (ask <=? o_price order)%Z | None => false end
  | Sell => match best_bid b with Some bid => (o_price order <=? bid)%Z | None => false end
  end.

Fixpoint liquidity_loop (taker_side : Side) (type : OrderType) (limit_price : Price) (needed accumulated : Quantity)
    (m : levels_map) : option bool :=
  match m with
  | [] => Some false
  | (price, level) :: m' =>
      if bool_decide (type = Limit) &&
         match taker_side with Buy => (limit_price <? price)%Z | Sell => (price <? limit_price)%Z end
      then Some false
      else
        acc ← add64 accumulated (l_total_quantity level);
        if (needed <=? acc)%Z then Some true
        else liquidity_loop taker_side type limit_price needed acc m'
  end.

Definition has_liquidity_for (b : OrderBookMap) (taker_side : Side) (type : OrderType) (limit_price : Price)
    (needed : Quantity) : option bool :=
  liquidity_loop taker_side type limit_price needed 0 (levels (opposite taker_side) b).

Definition price_ok (taker : Order) (level_price : Price) : bool :=
  match o_side taker with
  | Buy => (level_price <=? o_price taker)%Z
  | Sell => (o_price taker <=? level_price)%Z
  end.

Section operations.
Context (now_ns : nat -> Timestamp).

Fixpoint match_loop (fuel : nat) (taker : Order) (m : levels_map) (c : BookCore) (w : World)
    : option (bool * Order * levels_map * BookCore * World) :=
  match fuel with
  | O => None
  | S fuel' =>
      if (o_remaining_quantity taker <=? 0)%Z then Some (false, taker, m, c, w)
      else
        match m with
        | [] => Some (false, taker, m, c, w)
        | (level_price, level) :: _ =>
            if bool_decide (o_type taker = Limit) && negb (price_ok taker level_price)
            then Some (false, taker, m, c, w)
            else
              '(stp_killed, taker1, level1, c1, w1) ← drain_level now_ns level_price taker level c w;
              let m1 := map_assign m level_price level1 in
              let m2 := if level_empty level1 then map_erase m1 level_price else m1 in
              if (stp_killed : bool) then Some (true, taker1, m2, c1, w1)
              else match_loop fuel' taker1 m2 c1 w1
        end
  end.

(** Every round but the last removes a level. *)
Definition match_against_book (b : OrderBookMap) (taker : Order) (w : World)
    : option (bool * Order * OrderBookMap * World) :=
  let opp := opposite (o_side taker) in
  '(killed, taker1, m, c, w1) ←
    match_loop (S (S (length (levels opp b)))) taker (levels opp b) (core_ b) w;
  Some (killed, taker1, set_levels opp m (set_core c b), w1).

Definition rest_order (b : OrderBookMap) (order : Order) : option OrderBookMap :=
  let s := o_side order in
  '(idx, p) ← acquire (pool_ (core_ b)) order;
  let '(m, inserted) := map_try_emplace (compare s) (levels s b) (o_price order) default_level in
  level ← map_find m (o_price order);
  let level := if (inserted : bool) then set_price (o_price order) level else level in
  '(level1, p1) ← level_push_back level p idx;
  '(_, ids) ← IdMap.insert (id_index_ (core_ b)) (o_id order) idx;
  Some (set_levels s (map_assign m (o_price order) level1) (set_core (set_ids ids (set_pool p1 (core_ b))) b)).

Definition add_order (b : OrderBookMap) (order : Order) (w : World)
    : option (ExecutionReport * OrderBookMap * World) :=
  if (o_quantity order <=? 0)%Z then
    Some (mkReport (o_id order) Rejected 0 0 InvalidQuantity, b, w)
  else if bool_decide (o_type order = Limit) && (o_price order <=? 0)%Z then
    Some (mkReport (o_id order) Rejected 0 0 InvalidPrice, b, w)
  else
    dup ← (if (o_id order =? kInvalidOrderId)%N then Some false
           else IdMap.contains (id_index_ (core_ b)) (o_id order));
    if (dup : bool) then Some (mkReport (o_id order) Rejected 0 0 DuplicateOrderId, b, w)
    else
      liquid ← (if bool_decide (o_time_in_force order = FOK)
                then has_liquidity_for b (o_side order) (o_type order) (o_price order) (o_quantity order)
                else Some true);
      if negb liquid then Some (mkReport (o_id order) Cancelled 0 0 RNone, b, w)
      else
        let taker := set_remaining (o_quantity order) order in
        '(stp_killed, taker1, b1, w1) ←
          (if bool_decide (o_type order = Market) || bool_decide (o_time_in_force order = FOK) || crosses b taker
           then match_against_book b taker w
           else Some (false, taker, b, w));
        filled ← sub64 (o_quantity order) (o_remaining_quantity taker1);
        if (o_remaining_quantity taker1 =? 0)%Z then
          Some (mkReport (o_id order) Filled filled 0 RNone, b1, w1)
        else if negb stp_killed && rests_in_book taker1 then
          b2 ← rest_order b1 taker1;
          Some (mkReport (o_id order) (if (0 <? filled)%Z then PartiallyFilled else New) filled
                  (o_remaining_quantity taker1) RNone, b2, w1)
        else Some (mkReport (o_id order) Cancelled filled 0 RNone, b1, w1).

Definition cancel_order (b : OrderBookMap) (id : OrderId) : option (bool * OrderBookMap) :=
  found ← IdMap.find (id_index_ (core_ b)) id;
  match found with
  | None => Some (false, b)
  | Some idx =>
      node ← pool_at (pool_ (core_ b)) idx;
      let order := n_order node in
      let s := o_side order in
      match map_find (levels s b) (o_price order) with
      | None => Some (false, b)
      | Some level =>
          total ← sub64 (l_total_quantity level) (o_remaining_quantity order);
          '(level1, p1) ← level_unlink (set_total total level) (pool_ (core_ b)) idx;
          let m1 := map_assign (levels s b) (o_price order) level1 in
          let m2 := if level_empty level1 then map_erase m1 (o_price order) else m1 in
          p2 ← release p1 idx;
          '(_, ids) ← IdMap.erase (id_index_ (core_ b)) id;
          Some (true, set_levels s m2 (set_core (set_ids ids (set_pool p2 (core_ b))) b))
      end
  end.

Definition amend_order (b : OrderBookMap) (id : OrderId) (new_quantity : Quantity) (new_price : option Price)
    (w : World) : option (ExecutionReport * OrderBookMap * World) :=
  found ← IdMap.find (id_index_ (core_ b)) id;
  match found with
  | None => Some (mkReport id Rejected 0 0 UnknownOrder, b, w)
  | Some idx =>
      if (new_quantity <=? 0)%Z then Some (mkReport id Rejected 0 0 InvalidQuantity, b, w)
      else
        node ← pool_at (pool_ (core_ b)) idx;
        let snapshot := n_order node in
        let price_changed :=
          match new_price with Some p => negb (p =? o_price snapshot)%Z | None => false end in
        let quantity_increased := (o_remaining_quantity snapshot <? new_quantity)%Z in
        if negb price_changed && negb quantity_increased then
          let s := o_side snapshot in
          level ← map_find (levels s b) (o_price snapshot);
          delta ← sub64 (o_remaining_quantity snapshot) new_quantity;
          '(level1, p1) ← level_reduce_quantity level (pool_ (core_ b)) idx delta;
          Some (mkReport id New 0 new_quantity RNone,
                set_levels s (map_assign (levels s b) (o_price snapshot) level1)
                  (set_core (set_pool p1 (core_ b)) b), w)
        else
          '(_, b1) ← cancel_order b id;
          let replacement :=
            mkOrder (o_id snapshot) (default (o_price snapshot) new_price) new_quantity new_quantity
              (now_ns (w_reads w)) (o_symbol snapshot) (o_participant_id snapshot) (o_side snapshot)
              (o_type snapshot) (o_time_in_force snapshot) in
          add_order b1 replacement (mkWorld (S (w_reads w)) (w_trades w))
  end.
End operations.

(** The iteration of [bid_depth] and [ask_depth]: until the end of the map or
    [n] views. *)
Fixpoint depth_loop (n : nat) (m : levels_map) : list PriceLevelView :=
  match n, m with
  | S n', (price, level) :: m' => mkView price (l_total_quantity level) (l_order_count level) :: depth_loop n' m'
  | _, _ => []
  end.

Definition bid_depth (b : OrderBookMap) (n : nat) : list PriceLevelView := depth_loop n (bids_ b).
Definition ask_depth (b : OrderBookMap) (n : nat) : list PriceLevelView := depth_loop n (asks_ b).

Definition bid_level_count (b : OrderBookMap) : N := vsize (bids_ b).
Definition ask_level_count (b : OrderBookMap) : N := vsize (asks_ b).
Definition order_count (b : OrderBookMap) : N := IdMap.size (id_index_ (core_ b)).

Definition reset (b : OrderBookMap) : OrderBookMap := mkBook [] [] (core_reset (core_ b)).

End MapBook.
