(* ===== verification/MapRefinement.v ===== *)
(** The [std::map] book implements the abstract book.

    [to_vec] forgets the keys of the maps: a well-formed map book ([map_wf]:
    keys in order, every level filed under its own price) is carried by every
    operation to what the sorted-vector book does on the corresponding
    vectors, so that the refinement theorems of VectorRefinement.v apply. *)

From S2P Require Import Prelude Types OrderPool IdIndexMap IdIndexMapFacts BookCore BookSpec BookSpecFacts BookRep.
From S2P Require Import OrderBookVector VectorRefinement OrderBookMap.
Import MapBook.

(** * Sorted maps *)

Section sorted_map.
Context (s : Side).
Implicit Types (m : list (Z * PriceLevel)) (key : Z).

Record side_wf m : Prop := {
  wf_sorted : StronglySorted (fun p p' => before s p p' = true) m.*1;
  wf_prices : Forall (fun x => l_price x.2 = x.1) m
}.

(** Where a key is, or would be. *)
Record at_key m key m1 m2 : Prop := {
  ak_split : m = m1 ++ m2;
  ak_pos : Vec.lower_bound (comp_of s) (l_price <$> m.*2) key = length m1.*2;
  ak_before : Forall (fun x => before s x.1 key = true) m1;
  ak_after : Forall (fun x => before s x.1 key = false) m2
}.

Lemma wf_keys m : side_wf m -> l_price <$> m.*2 = m.*1.
Proof. intros [_ H]. induction H as [|[k lv] m Hk _ IH]; [done|]. rewrite !fmap_cons, IH. simpl in *. by rewrite Hk. Qed.

Lemma at_key_exists m key : side_wf m -> exists m1 m2, at_key m key m1 m2.
Proof.
  intros Hwf. pose proof (wf_keys m Hwf) as Hk. destruct (lower_bound_spec s m.*1 key) as (Hle & H1 & H2); [apply Hwf|].
  set (n := Vec.lower_bound _ _ _) in *. exists (take n m), (drop n m). split.
  - by rewrite take_drop.
  - rewrite Hk. fold n. rewrite length_fmap, length_take, length_fmap in *. lia.
  - rewrite <- fmap_take in H1. by rewrite Forall_fmap in H1.
  - rewrite <- fmap_drop in H2. by rewrite Forall_fmap in H2.
Qed.

Lemma find_skip m1 m2 key : Forall (fun x => before s x.1 key = true) m1 ->
  map_find (m1 ++ m2) key = map_find m2 key.
Proof.
  induction 1 as [|[k lv] m1 Hb _ IH]; [done|]. simpl in *.
  destruct (Z.eqb_spec k key) as [->|_]; [by rewrite before_irrefl in Hb|done].
Qed.

Lemma assign_skip m1 m2 key lv : Forall (fun x => before s x.1 key = true) m1 ->
  map_assign (m1 ++ m2) key lv = m1 ++ map_assign m2 key lv.
Proof.
  induction 1 as [|[k lv'] m1 Hb _ IH]; [done|]. simpl in *.
  destruct (Z.eqb_spec k key) as [->|_]; [by rewrite before_irrefl in Hb|by rewrite IH].
Qed.

Lemma erase_skip m1 m2 key : Forall (fun x => before s x.1 key = true) m1 ->
  map_erase (m1 ++ m2) key = m1 ++ map_erase m2 key.
Proof.
  induction 1 as [|[k lv] m1 Hb _ IH]; [done|]. simpl in *.
  destruct (Z.eqb_spec k key) as [->|_]; [by rewrite before_irrefl in Hb|by rewrite IH].
Qed.

Lemma emplace_skip m1 m2 key d : Forall (fun x => before s x.1 key = true) m1 ->
  map_try_emplace (compare s) (m1 ++ m2) key d =
    (m1 ++ (map_try_emplace (compare s) m2 key d).1, (map_try_emplace (compare s) m2 key d).2).
Proof.
  induction 1 as [|[k lv] m1 Hb _ IH]; simpl in *; [by destruct (map_try_emplace _ _ _ _)|].
  change (compare s k key) with (before s k key). by rewrite Hb, IH.
Qed.

Lemma find_after m key : Forall (fun x => before s x.1 key = false) m -> side_wf m ->
  match m with
  | (k, lv) :: _ => if (k =? key)%Z then map_find m key = Some lv else map_find m key = None
  | [] => map_find m key = None
  end.
Proof.
  intros Ha [Hs _]. destruct m as [|[k lv] m]; [done|]. simpl. destruct (Z.eqb_spec k key) as [|Hne]; [done|].
  apply Forall_cons in Ha as [Hk _]. simpl in *. pose proof (before_total _ _ _ Hk Hne) as Hk'.
  inversion Hs as [|? ? _ Hall]; subst. clear -Hall Hk'.
  induction m as [|[k' lv'] m IH]; [done|]. simpl in *. apply Forall_cons in Hall as [Hb Hall].
  destruct (Z.eqb_spec k' key) as [->|_]; [|by apply IH]. apply before_asym in Hb. congruence.
Qed.

Lemma side_wf_app m1 m2 : side_wf (m1 ++ m2) -> side_wf m1 /\ side_wf m2.
Proof.
  intros [H1 H2]. rewrite fmap_app in H1. apply Forall_app in H2 as [? ?].
  split; split; try done; [|by eapply StronglySorted_suffix].
  eapply sublist_sorted; [|exact H1]. apply sublist_inserts_r. done.
Qed.

(** Replacing the level of a key, or dropping the key. *)
Lemma side_wf_replace m1 key lv lv' m2 :
  side_wf (m1 ++ (key, lv) :: m2) -> l_price lv' = key -> side_wf (m1 ++ (key, lv') :: m2).
Proof.
  intros [H1 H2] Hp. split.
  - rewrite fmap_app in *. done.
  - apply Forall_app in H2 as [? [_ ?]%Forall_cons]. apply Forall_app. split; [done|]. by constructor.
Qed.

Lemma side_wf_drop m1 x m2 : side_wf (m1 ++ x :: m2) -> side_wf (m1 ++ m2).
Proof.
  intros [H1 H2]. split.
  - eapply sublist_sorted; [|exact H1]. rewrite !fmap_app. apply sublist_app; [done|]. by constructor.
  - apply Forall_app in H2 as [? [_ ?]%Forall_cons]. by apply Forall_app.
Qed.

Lemma side_wf_insert m1 key lv m2 :
  side_wf (m1 ++ m2) -> l_price lv = key -> Forall (fun x => before s x.1 key = true) m1 ->
  Forall (fun x => before s key x.1 = true) m2 -> side_wf (m1 ++ (key, lv) :: m2).
Proof.
  intros [H1 H2] Hp Hb Ha. split; [clear H2|clear H1].
  - rewrite fmap_app, fmap_cons in *. induction Hb as [|[k lv'] m1 Hk _ IH]; simpl in *.
    + constructor; [done|]. by rewrite Forall_fmap.
    + inversion H1 as [|? ? Hs Hall]; subst. constructor; [by apply IH|].
      apply Forall_app in Hall as [? ?]. apply Forall_app. split; [done|]. by constructor.
  - apply Forall_app in H2 as [? ?]. apply Forall_app. split; [done|]. by constructor.
Qed.
End sorted_map.

(** * The simulation *)

Definition to_vec (b : OrderBookMap) : Vec.OrderBookVector := Vec.mkBook (bids_ b).*2 (asks_ b).*2 (core_ b).

Definition map_wf (b : OrderBookMap) : Prop := forall s, side_wf s (levels s b).

Lemma to_vec_levels s b : Vec.levels s (to_vec b) = (levels s b).*2.
Proof. by destruct s. Qed.

Lemma to_vec_set s m c b :
  to_vec (set_levels s m (set_core c b)) = Vec.set_levels s m.*2 (Vec.set_core c (to_vec b)).
Proof. by destruct s. Qed.

Lemma map_wf_set s m c b : map_wf b -> side_wf s m -> map_wf (set_levels s m (set_core c b)).
Proof. intros Hwf Hm s'. specialize (Hwf s'). by destruct s, s'. Qed.

Lemma best_bid_to_vec b : map_wf b -> Vec.best_bid (to_vec b) = best_bid b.
Proof.
  intros Hwf. specialize (Hwf Buy). unfold Vec.best_bid, best_bid. simpl in *.
  destruct (bids_ b) as [|[k lv] m]; [done|]. destruct Hwf as [_ [Hk _]%Forall_cons]. simpl in *. by rewrite Hk.
Qed.

Lemma best_ask_to_vec b : map_wf b -> Vec.best_ask (to_vec b) = best_ask b.
Proof.
  intros Hwf. specialize (Hwf Sell). unfold Vec.best_ask, best_ask. simpl in *.
  destruct (asks_ b) as [|[k lv] m]; [done|]. destruct Hwf as [_ [Hk _]%Forall_cons]. simpl in *. by rewrite Hk.
Qed.

Lemma crosses_to_vec b o : map_wf b -> Vec.crosses (to_vec b) o = crosses b o.
Proof. intros Hwf. unfold Vec.crosses, crosses. by rewrite best_bid_to_vec, best_ask_to_vec. Qed.

Lemma liquidity_to_vec ts ty lp needed acc m : Forall (fun x => l_price x.2 = x.1) m ->
  Vec.liquidity_loop ts ty lp needed acc m.*2 = liquidity_loop ts ty lp needed acc m.
Proof.
  intros H. revert acc. induction H as [|[k lv] m Hk _ IH]; intros acc; [done|]. simpl in *. rewrite Hk.
  destruct (_ && _); [done|]. destruct (add64 acc _) as [acc1|]; [|done]. cbn [mbind option_bind].
  destruct (needed <=? acc1)%Z; [done|]. apply IH.
Qed.

Lemma has_liquidity_to_vec b ts ty lp needed : map_wf b ->
  Vec.has_liquidity_for (to_vec b) ts ty lp needed = has_liquidity_for b ts ty lp needed.
Proof. intros Hwf. unfold Vec.has_liquidity_for. rewrite to_vec_levels. apply liquidity_to_vec, Hwf. Qed.

Lemma depth_to_vec n m : Forall (fun x => l_price x.2 = x.1) m ->
  Vec.view <$> take (Nat.min n (length m.*2)) m.*2 = depth_loop n m.
Proof.
  intros H. rewrite take_min_length. revert n. induction H as [|[k lv] m Hk _ IH]; intros [|n]; try done.
  simpl in *. unfold Vec.view at 1. by rewrite Hk, IH.
Qed.

Section simulation.
Context (now_ns : nat -> Timestamp).

(** The result of a sorted-vector operation, seen as a map book. *)
Definition lifts {A} (r : option (A * Vec.OrderBookVector)) (r' : option (A * OrderBookMap)) : Prop :=
  forall x v, r = Some (x, v) -> exists b, r' = Some (x, b) /\ to_vec b = v /\ map_wf b.

Lemma match_loop_to_vec fuel s taker m c w k t ls c' w' :
  side_wf s m -> Vec.match_loop now_ns fuel taker m.*2 c w = Some (k, t, ls, c', w') ->
  exists m', match_loop now_ns fuel taker m c w = Some (k, t, m', c', w') /\ m'.*2 = ls /\ side_wf s m'.
Proof.
  revert taker m c w. induction fuel as [|fuel IH]; intros taker m c w Hwf; [done|]. simpl.
  destruct (o_remaining_quantity taker <=? 0)%Z; [intros [= <- <- <- <- <-]; eauto|].
  destruct m as [|[p lv] m]; simpl; [intros [= <- <- <- <- <-]; by exists []|].
  assert (Hp : l_price lv = p) by (destruct Hwf as [_ [Hk _]%Forall_cons]; done).
  rewrite Hp. change (price_ok taker p) with (Vec.price_ok taker p).
  destruct (bool_decide _ && negb _); [intros [= <- <- <- <- <-]; by exists ((p, lv) :: m)|].
  destruct (drain_level now_ns p taker lv c w) as [[[[[k1 t1] lv1] c1] w1]|] eqn:Hd; [|done]. cbn [mbind option_bind].
  rewrite Z.eqb_refl. cbn [map_erase]. rewrite Z.eqb_refl.
  assert (Hp1 : l_price lv1 = p) by (by rewrite (drain_level_price _ _ _ _ _ _ _ _ _ _ _ Hd)).
  assert (Hwf1 : side_wf s (if level_empty lv1 then m else (p, lv1) :: m)).
  { destruct (level_empty lv1); [by eapply (side_wf_drop s [])|by eapply (side_wf_replace s [])]. }
  destruct k1; [|intros Hm; apply (IH _ (if level_empty lv1 then m else (p, lv1) :: m) _ _ Hwf1); by destruct (level_empty lv1)].
  intros [= <- <- <- <- <-]. eexists. split; [reflexivity|]. split; [by destruct (level_empty lv1)|done].
Qed.

Lemma match_to_vec b taker w k t v w' :
  map_wf b -> Vec.match_against_book now_ns (to_vec b) taker w = Some (k, t, v, w') ->
  exists b', match_against_book now_ns b taker w = Some (k, t, b', w') /\ to_vec b' = v /\ map_wf b'.
Proof.
  intros Hwf. unfold Vec.match_against_book, match_against_book. rewrite to_vec_levels, length_fmap.
  change (Vec.core_ (to_vec b)) with (core_ b). set (opp := opposite (o_side taker)). intros H. inv_opt. destruct x as [[[[k1 t1] ls] c] w1]. inv_opt. subst.
  destruct (match_loop_to_vec _ opp _ _ _ _ _ _ _ _ _ (Hwf opp) H0) as (m' & Hm & <- & Hwf').
  rewrite Hm. cbn [mbind option_bind]. eexists. split; [reflexivity|]. split; [apply to_vec_set|].
  by apply map_wf_set.
Qed.

(** Resting: [try_emplace] yields the level that the binary search finds or
    creates. *)
Lemma emplace_to_vec s m key : side_wf s m ->
  exists m1 lv m2 ins, map_try_emplace (compare s) m key default_level = (m1 ++ (key, lv) :: m2, ins) /\
    let lv0 := if (ins : bool) then set_price key lv else lv in
    Vec.lower_bound (comp_of s) (l_price <$> m.*2) key = length m1.*2 /\
    Forall (fun x => before s x.1 key = true) m1 /\ l_price lv0 = key /\
    vec_emplace m.*2 (length m1.*2) key = m1.*2 ++ lv0 :: m2.*2 /\
    (forall lv', l_price lv' = key -> side_wf s (m1 ++ (key, lv') :: m2)).
Proof.
  intros Hs. destruct (at_key_exists s m key Hs) as (m1 & m2 & [-> Hpos Hb Ha]).
  destruct (side_wf_app s _ _ Hs) as [_ Hs2]. rewrite emplace_skip by done.
  assert (Hv : vec_emplace (m1 ++ m2).*2 (length m1.*2) key =
    match m2.*2 with
    | [] => m1.*2 ++ [set_price key default_level]
    | lv :: _ => if (l_price lv =? key)%Z then (m1 ++ m2).*2 else m1.*2 ++ set_price key default_level :: m2.*2
    end).
  { unfold vec_emplace. rewrite fmap_app, lookup_app_r, Nat.sub_diag, take_app_length, drop_app_length by done.
    by destruct m2.*2. }
  assert (Hnew : Forall (fun x => before s key x.1 = true) m2 ->
    map_try_emplace (compare s) m2 key default_level = ((key, default_level) :: m2, true)).
  { destruct m2 as [|[k lv] m2]; [done|]. intros [Hk _]%Forall_cons. simpl in *.
    change (compare s key k) with (before s key k). rewrite Hk.
    change (compare s k key) with (before s k key). by rewrite (before_asym _ _ _ Hk). }
  destruct m2 as [|[k lv] m2].
  { exists m1, default_level, [], true. rewrite Hnew by constructor. cbn [fst snd].
    split_and!; try done. intros lv' Hlv'. apply side_wf_insert; done. }
  pose proof Hs2 as [Hsort [Hprice _]%Forall_cons]. cbn [snd fst] in Hprice. subst k.
  apply Forall_cons in Ha as [Hk _]. cbn [fst] in Hk. cbn [fmap list_fmap snd] in Hv.
  destruct (Z.eqb_spec (l_price lv) key) as [Heq|Hne].
  - subst key. exists m1, lv, m2, false. cbn [map_try_emplace]. change (compare s) with (before s).
    rewrite before_irrefl. split_and!; try done; [by rewrite Hv, fmap_app|].
    intros lv' Hlv'. by eapply side_wf_replace.
  - pose proof (before_total _ _ _ Hk Hne) as Hlt.
    assert (Hall : Forall (fun x => before s key x.1 = true) ((l_price lv, lv) :: m2)).
    { constructor; [done|]. inversion Hsort as [|? ? _ Hall]; subst. rewrite Forall_fmap in Hall.
      eapply Forall_impl; [exact Hall|]. intros [k' lv'] Hk'. simpl in *. by eapply before_trans. }
    exists m1, default_level, ((l_price lv, lv) :: m2), true. rewrite Hnew by done. cbn [fst snd].
    split_and!; try done.
    intros lv' Hlv'. by apply side_wf_insert.
Qed.

Lemma rest_order_to_vec b o v :
  map_wf b -> Vec.rest_order (to_vec b) o = Some v ->
  exists b', rest_order b o = Some b' /\ to_vec b' = v /\ map_wf b'.
Proof.
  intros Hwf. unfold Vec.rest_order, rest_order. rewrite find_position_lower_bound, to_vec_levels.
  set (s := o_side o). set (key := o_price o). change (Vec.core_ (to_vec b)) with (core_ b).
  destruct (emplace_to_vec s (levels s b) key (Hwf s)) as (m1 & lv & m2 & ins & -> & Hpos & Hb & Hp & Hv & Hwf').
  rewrite Hpos. fold (vec_emplace (levels s b).*2 (length m1.*2) key). rewrite Hv.
  rewrite (find_skip s), list_lookup_middle by done. cbn [map_find]. rewrite Z.eqb_refl. cbn [mbind option_bind].
  intros H. inv_opt. destruct x as [idx p]. inv_opt. destruct x as [lv1 p1]. inv_opt. destruct x as [e ids]. inv_opt.
  subst v. rewrite H0. cbn [mbind option_bind]. rewrite H1. cbn [mbind option_bind]. rewrite H2. cbn [mbind option_bind].
  rewrite (assign_skip s) by done. cbn [map_assign]. rewrite Z.eqb_refl. eexists. split; [reflexivity|]. split.
  - rewrite to_vec_set, insert_at_middle. by rewrite fmap_app.
  - apply map_wf_set; [done|]. apply Hwf'. by rewrite (level_push_back_price _ _ _ _ _ H1).
Qed.

Lemma add_order_to_vec b o w r v w' :
  map_wf b -> Vec.add_order now_ns (to_vec b) o w = Some (r, v, w') ->
  exists b', add_order now_ns b o w = Some (r, b', w') /\ to_vec b' = v /\ map_wf b'.
Proof.
  intros Hwf. unfold Vec.add_order, add_order. change (Vec.core_ (to_vec b)) with (core_ b).
  rewrite has_liquidity_to_vec, crosses_to_vec by done.
  destruct (o_quantity o <=? 0)%Z; [intros [= <- <- <-]; eauto|].
  destruct (bool_decide (o_type o = Limit) && _); [intros [= <- <- <-]; eauto|].
  destruct (if (o_id o =? kInvalidOrderId)%N then _ else _) as [[]|]; cbn [mbind option_bind]; [intros [= <- <- <-]; eauto| |done].
  destruct (if bool_decide (o_time_in_force o = FOK) then _ else _) as [[]|]; cbn [mbind option_bind negb];
    [|intros [= <- <- <-]; eauto|done].
  intros H. inv_opt. destruct x as [[[k t] v1] w1]. rename H0 into Hm.
  assert (exists b1, (if bool_decide (o_type o = Market) || bool_decide (o_time_in_force o = FOK)
        || crosses b (set_remaining (o_quantity o) o) then match_against_book now_ns b (set_remaining (o_quantity o) o) w
      else Some (false, set_remaining (o_quantity o) o, b, w)) = Some (k, t, b1, w1) /\ to_vec b1 = v1 /\ map_wf b1)
    as (b1 & -> & <- & Hwf1).
  { destruct (_ || crosses b _); [by apply match_to_vec|]. injection Hm as <- <- <- <-. eauto. }
  cbn [mbind option_bind]. destruct (sub64 _ _) as [filled|]; [|done]. cbn [mbind option_bind] in *.
  destruct (o_remaining_quantity t =? 0)%Z; [inv_opt; subst; eauto|].
  destruct (negb k && rests_in_book t); [|inv_opt; subst; eauto].
  inv_opt. destruct (rest_order_to_vec b1 t _ Hwf1 H0) as (b2 & -> & <- & Hwf2). subst. eauto.
Qed.

(** The level a map lookup finds, if any, is the one the binary search
    finds. *)
Lemma find_to_vec s m key : side_wf s m ->
  let pos := Vec.lower_bound (comp_of s) (l_price <$> m.*2) key in
  match map_find m key with
  | Some lv => exists m1 m2, m = m1 ++ (key, lv) :: m2 /\ pos = length m1.*2 /\ l_price lv = key /\
      Forall (fun x => before s x.1 key = true) m1
  | None => match m.*2 !! pos with Some lv => l_price lv <> key | None => True end
  end.
Proof.
  intros Hs pos. destruct (at_key_exists s m key Hs) as (m1 & m2 & [-> Hpos Hb Ha]). fold pos in Hpos.
  destruct (side_wf_app s _ _ Hs) as [_ Hs2]. pose proof (find_after s m2 key Ha Hs2) as Hf.
  rewrite (find_skip s) by done. rewrite Hpos, fmap_app, lookup_app_r, Nat.sub_diag by done.
  destruct m2 as [|[k lv] m2]; [by rewrite Hf|]. pose proof Hs2 as [_ [Hp _]%Forall_cons]. cbn [snd fst] in Hp. subst k.
  destruct (Z.eqb_spec (l_price lv) key) as [<-|Hne]; rewrite Hf; [eauto 10|done].
Qed.

Lemma level_update_to_vec s m1 key lv m2 lv' : Forall (fun x => before s x.1 key = true) m1 ->
  side_wf s (m1 ++ (key, lv) :: m2) -> l_price lv' = key ->
  let m' := if level_empty lv' then map_erase (map_assign (m1 ++ (key, lv) :: m2) key lv') key
            else map_assign (m1 ++ (key, lv) :: m2) key lv' in
  side_wf s m' /\
  m'.*2 = if level_empty lv' then delete (length m1.*2) (m1 ++ (key, lv) :: m2).*2
          else <[length m1.*2 := lv']> (m1 ++ (key, lv) :: m2).*2.
Proof.
  intros Hb Hs Hp. rewrite (assign_skip s) by done. cbn [map_assign]. rewrite Z.eqb_refl.
  rewrite (erase_skip s) by done. cbn [map_erase]. rewrite Z.eqb_refl.
  destruct (level_empty lv'); rewrite !fmap_app, ?fmap_cons; (split; [|symmetry]).
  - by eapply side_wf_drop.
  - apply delete_middle.
  - by eapply side_wf_replace.
  - apply insert_at_middle.
Qed.

Lemma cancel_order_to_vec b id r v :
  map_wf b -> Vec.cancel_order (to_vec b) id = Some (r, v) ->
  exists b', cancel_order b id = Some (r, b') /\ to_vec b' = v /\ map_wf b'.
Proof.
  intros Hwf. unfold Vec.cancel_order, cancel_order. change (Vec.core_ (to_vec b)) with (core_ b).
  destruct (IdMap.find _ id) as [[i|]|]; cbn [mbind option_bind]; [|intros [= <- <-]; eauto|done].
  destruct (pool_at (pool_ (core_ b)) i) as [nd|]; [|done]. cbn [mbind option_bind].
  set (o := n_order nd). set (s := o_side o). rewrite find_position_lower_bound, to_vec_levels.
  pose proof (find_to_vec s (levels s b) (o_price o) (Hwf s)) as Hf. cbv zeta in Hf.
  destruct (map_find (levels s b) (o_price o)) as [lv|] eqn:Hmf; cycle 1.
  { destruct (_ !! _) as [lv|]; [rewrite (proj2 (Z.eqb_neq _ _) Hf)|]; intros [= <- <-]; eauto. }
  destruct Hf as (m1 & m2 & Hm & Hpos & Hp & Hb). rewrite Hpos. rewrite Hm at 1.
  rewrite fmap_app, fmap_cons, list_lookup_middle by done. cbn [snd]. rewrite Hp, Z.eqb_refl. cbn [negb].
  intros H. inv_opt. destruct x0 as [lv1 p1]. inv_opt. destruct x1 as [e ids]. inv_opt. subst.
  repeat match goal with H : ?e = Some _ |- context [?e] => rewrite H; cbn [mbind option_bind] end.
  eexists. split; [reflexivity|].
  destruct (level_update_to_vec s m1 (o_price o) lv m2 lv1 Hb) as [Hwf' Hv]; [by rewrite <- Hm| |].
  { rewrite (level_unlink_price _ _ _ _ _ H1). done. }
  rewrite <- Hm in Hwf', Hv. split; [by rewrite to_vec_set, Hv|by apply map_wf_set].
Qed.

Lemma amend_order_to_vec b a id q np w r v w' :
  map_wf b -> vrep (to_vec b) a -> abook_ok a ->
  Vec.amend_order now_ns (to_vec b) id q np w = Some (r, v, w') ->
  exists b', amend_order now_ns b id q np w = Some (r, b', w') /\ to_vec b' = v /\ map_wf b'.
Proof.
  intros Hwf Hv Hok. unfold Vec.amend_order, amend_order. change (Vec.core_ (to_vec b)) with (core_ b).
  destruct (find_order id (orders a)) as [o|] eqn:Hf; cycle 1.
  { rewrite (find_absent (to_vec b) a) by done. intros [= <- <- <-]. eauto. }
  pose proof (find_order_Some _ _ _ Hf) as [Ho _]. destruct (abook_ok_resting a o Hok Ho) as ((_ & _ & Hq & _) & _).
  destruct (size_down_spec (to_vec b) a id o (o_remaining_quantity o) Hv Hok Hf ltac:(lia))
    as (i & nd & lv & lvs1 & lvs2 & _ & _ & Hfind & Hnode & <- & Hlvs & Hp & Hlv & _).
  change (Vec.core_ (to_vec b)) with (core_ b) in Hnode, Hfind. rewrite Hfind. cbn [mbind option_bind].
  destruct (q <=? 0)%Z; [intros [= <- <- <-]; eauto|].
  rewrite Hnode. cbn [mbind option_bind]. set (o := n_order nd) in *. set (s := o_side o) in *.
  destruct (_ && _).
  - rewrite Hlv. rewrite Hlvs at 1. rewrite list_lookup_middle by done.
    cbn [mbind option_bind]. intros H. inv_opt. destruct x0 as [lv1 p1]. inv_opt. subst.
    rewrite find_position_lower_bound, to_vec_levels in *.
    pose proof (find_to_vec s (levels s b) (o_price o) (Hwf s)) as Hmf. cbv zeta in Hmf.
    destruct (map_find (levels s b) (o_price o)) as [lv'|];
      [|by rewrite Hlv, Hlvs, list_lookup_middle in Hmf by done].
    destruct Hmf as (m1 & m2 & Hm & Hpos & _ & Hb). rewrite Hlv in Hpos. rewrite Hm, fmap_app, fmap_cons in Hlvs.
    apply app_inj_1 in Hlvs as [<- [= -> <-]]; [|done]. rewrite Hm.
    repeat match goal with H : ?e = Some _ |- context [?e] => rewrite H; cbn [mbind option_bind] end.
    eexists. split; [reflexivity|]. rewrite (assign_skip s) by done. cbn [map_assign]. rewrite Z.eqb_refl. split.
    + rewrite to_vec_set, !fmap_app, !fmap_cons. by rewrite insert_at_middle.
    + apply map_wf_set; [done|]. eapply side_wf_replace; [rewrite <- Hm; apply Hwf|].
      by rewrite (level_reduce_price _ _ _ _ _ _ H1).
  - destruct (Vec.cancel_order (to_vec b) id) as [[rc v1]|] eqn:Hc; [|done]. cbn [mbind option_bind].
    destruct (cancel_order_to_vec b id rc v1 Hwf Hc) as (b1 & -> & <- & Hwf1). by apply add_order_to_vec.
Qed.
End simulation.

(** * The refinement *)

Definition mrep (b : OrderBookMap) (a : abook) : Prop := map_wf b /\ vrep (to_vec b) a.

Section refinement.
Context (now_ns : nat -> Timestamp).

Lemma map_add_order_refines b a o w r a' w' :
  mrep b a -> abook_ok a -> add_pre a o ->
  spec_add now_ns (config_ (core_ b)) (fun _ => true) a o w = (r, a', w') ->
  exists b', add_order now_ns b o w = Some (r, b', w') /\ mrep b' a' /\ config_ (core_ b') = config_ (core_ b).
Proof.
  intros [Hwf Hv] Hok Hpre Hs. destruct (add_order_refines now_ns (to_vec b) a o w r a' w' Hv Hok Hpre Hs) as (v & Hr & Hv' & Hc).
  destruct (add_order_to_vec now_ns b o w r v w' Hwf Hr) as (b' & -> & <- & Hwf'). by exists b'.
Qed.

Lemma map_cancel_order_refines b a id r a' :
  mrep b a -> abook_ok a -> spec_cancel a id = (r, a') ->
  exists b', cancel_order b id = Some (r, b') /\ mrep b' a' /\ config_ (core_ b') = config_ (core_ b).
Proof.
  intros [Hwf Hv] Hok Hs. destruct (cancel_order_refines (to_vec b) a id r a' Hv Hok Hs) as (v & Hr & Hv' & Hc).
  destruct (cancel_order_to_vec b id r v Hwf Hr) as (b' & -> & <- & Hwf'). by exists b'.
Qed.

Lemma map_amend_order_refines b a id q np w r a' w' :
  mrep b a -> abook_ok a -> amend_pre a id q ->
  spec_amend now_ns (config_ (core_ b)) (fun _ => true) a id q np w = (r, a', w') ->
  exists b', amend_order now_ns b id q np w = Some (r, b', w') /\ mrep b' a' /\
    config_ (core_ b') = config_ (core_ b).
Proof.
  intros [Hwf Hv] Hok Hpre Hs.
  destruct (amend_order_refines now_ns (to_vec b) a id q np w r a' w' Hv Hok Hpre Hs) as (v & Hr & Hv' & Hc).
  destruct (amend_order_to_vec now_ns b a id q np w r v w' Hwf Hv Hok Hr) as (b' & -> & <- & Hwf'). by exists b'.
Qed.
End refinement.

Lemma map_new_book_rep symbol hint stp : (hint <= 2 ^ 62)%N ->
  exists b, new_book symbol hint stp = Some b /\ mrep b empty_abook /\ config_ (core_ b) = mkConfig symbol false stp.
Proof.
  intros Hh. destruct (new_book_rep symbol hint stp Hh) as (v & Hn & Hv & Hc). unfold Vec.new_book in Hn. unfold new_book.
  inv_opt. rewrite H. cbn [mbind option_bind]. subst v. eexists. split; [reflexivity|]. split; [|done].
  split; [|done]. intros []; by repeat constructor.
Qed.

Lemma map_reset_rep b a : mrep b a -> mrep (reset b) empty_abook.
Proof. intros [_ Hv]. split; [intros []; by repeat constructor|]. by apply (reset_rep (to_vec b) a). Qed.

Lemma map_set_callback_rep b a : mrep b a -> mrep (set_trade_callback b) a.
Proof. intros [Hwf Hv]. split; [exact Hwf|]. by apply (set_callback_rep (to_vec b)). Qed.
