(* ===== verification/OrderBookArray.v ===== *)
(** Approach C: include/lightninglob/order_book_array.hpp and
    src/order_book_array.cpp.  A bounded, direct-indexed price ladder per side,
    with a bitmap of the occupied indices and a cached best index.

    The three members the source keeps per side ([bid_levels_], [bid_bitmap_],
    [best_bid_idx_], and the same for the asks) are one [Ladder]. *)

From S2P Require Import Prelude Types OrderPool IdIndexMap Bitset BookCore.

Module Arr.

Record Ladder := mkLadder {
  levels_ : list PriceLevel;
  bitmap_ : Bitset;
  best_idx_ : option N
}.

Record OrderBookArray := mkBook {
  min_price_ : Price;
  max_price_ : Price;
  range_ : N;
  bid_ : Ladder;
  ask_ : Ladder;
  core_ : BookCore
}.

(** The two [std::invalid_argument] of [validate_and_compute_range]. *)
Inductive ctor_error := min_above_max | min_not_positive.

(** [static_cast<std::size_t>] and [static_cast<Price>]. *)
Definition to_size (z : Z) : N := Z.to_N (z mod 18446744073709551616).
Definition to_price (n : N) : Z :=
  let z := Z.of_N (wrap64 n) in if (z <=? int64_max)%Z then z else (z - 18446744073709551616)%Z.

Definition validate_and_compute_range (min_price max_price : Price) : option (ctor_error + N) :=
  if (max_price <? min_price)%Z then Some (inl min_above_max)
  else if (min_price <=? 0)%Z then Some (inl min_not_positive)
  else d ← sub64 max_price min_price; Some (inr (inc64 (to_size d))).

Definition new_ladder (range : N) : Ladder :=
  mkLadder (replicate (N.to_nat range) default_level) (new_bitset range) None.

Definition new_book (symbol : SymbolId) (min_price max_price : Price) (order_capacity_hint : N)
    (stp : SelfTradePrevention) : option (ctor_error + OrderBookArray) :=
  r ← validate_and_compute_range min_price max_price;
  match r with
  | inl e => Some (inl e)
  | inr range =>
      c ← new_core symbol order_capacity_hint stp;
      Some (inr (mkBook min_price max_price range (new_ladder range) (new_ladder range) c))
  end.

Definition ladder (s : Side) (b : OrderBookArray) : Ladder := match s with Buy => bid_ b | Sell => ask_ b end.

Definition set_ladder (s : Side) (l : Ladder) (b : OrderBookArray) : OrderBookArray :=
  match s with
  | Buy => mkBook (min_price_ b) (max_price_ b) (range_ b) l (ask_ b) (core_ b)
  | Sell => mkBook (min_price_ b) (max_price_ b) (range_ b) (bid_ b) l (core_ b)
  end.

Definition set_core (c : BookCore) (b : OrderBookArray) : OrderBookArray :=
  mkBook (min_price_ b) (max_price_ b) (range_ b) (bid_ b) (ask_ b) c.

Definition set_level (idx : N) (lv : PriceLevel) (l : Ladder) : option Ladder :=
  ls ← vset (levels_ l) idx lv; Some (mkLadder ls (bitmap_ l) (best_idx_ l)).

Definition set_trade_callback (b : OrderBookArray) : OrderBookArray := set_core (core_set_callback (core_ b)) b.

Definition in_range (b : OrderBookArray) (price : Price) : bool :=
  (min_price_ b <=? price)%Z && (price <=? max_price_ b)%Z.

Definition index_of (b : OrderBookArray) (price : Price) : option N :=
  d ← sub64 price (min_price_ b); Some (to_size d).

Definition price_of (b : OrderBookArray) (index : N) : option Price := add64 (min_price_ b) (to_price index).

(** [best_bid] and [best_ask]; the outer [option] is undefined behaviour. *)
Definition best_price (s : Side) (b : OrderBookArray) : option (option Price) :=
  match best_idx_ (ladder s b) with
  | Some i => p ← price_of b i; Some (Some p)
  | None => Some None
  end.

Definition best_bid (b : OrderBookArray) : option (option Price) := best_price Buy b.
Definition best_ask (b : OrderBookArray) : option (option Price) := best_price Sell b.

Definition spread (b : OrderBookArray) : option (option Price) :=
  bb ← best_bid b;
  ba ← best_ask b;
  match bb, ba with
  | Some bb, Some ba => d ← sub64 ba bb; Some (Some d)
  | _, _ => Some None
  end.

Definition crosses (b : OrderBookArray) (order : Order) : option bool :=
  match o_side order with
  | Buy => ask ← best_ask b; Some match ask with Some ask => (ask <=? o_price order)%Z | None => false end
  | Sell => bid ← best_bid b; Some match bid with Some bid => (o_price order <=? bid)%Z | None => false end
  end.

(** The next occupied index after [idx] in priority order: upwards for the
    asks, downwards for the bids. *)
Definition next_index (s : Side) (bm : Bitset) (idx : N) : option (option N) :=
  match s with
  | Sell => find_next_set bm (inc64 idx)
  | Buy => if (idx =? 0)%N then Some None else find_prev_set bm (idx - 1)
  end.

Fixpoint liquidity_loop (fuel : nat) (taker_side : Side) (type : OrderType) (limit_price : Price)
    (needed accumulated : Quantity) (l : Ladder) (idx : option N) : option bool :=
  match fuel with
  | O => None
  | S fuel' =>
      match idx with
      | None => Some false
      | Some i =>
          level ← vget (levels_ l) i;
          if bool_decide (type = Limit) &&
             match taker_side with
             | Buy => (limit_price <? l_price level)%Z
             | Sell => (l_price level <? limit_price)%Z
             end
          then Some false
          else
            acc ← add64 accumulated (l_total_quantity level);
            if (needed <=? acc)%Z then Some true
            else
              idx1 ← next_index (opposite taker_side) (bitmap_ l) i;
              liquidity_loop fuel' taker_side type limit_price needed acc l idx1
      end
  end.

(** One round per occupied index, plus the last one. *)
Definition has_liquidity_for (b : OrderBookArray) (taker_side : Side) (type : OrderType) (limit_price : Price)
    (needed : Quantity) : option bool :=
  let l := ladder (opposite taker_side) b in
  liquidity_loop (S (length (levels_ l))) taker_side type limit_price needed 0 l (best_idx_ l).

Section operations.
Context (now_ns : nat -> Timestamp).

Fixpoint match_loop (fuel : nat) (taker : Order) (l : Ladder) (c : BookCore) (w : World)
    : option (bool * Order * Ladder * BookCore * World) :=
  match fuel with
  | O => None
  | S fuel' =>
      if (o_remaining_quantity taker <=? 0)%Z then Some (false, taker, l, c, w)
      else
        match best_idx_ l with
        | None => Some (false, taker, l, c, w)
        | Some idx =>
            level ← vget (levels_ l) idx;
            if bool_decide (o_type taker = Limit) &&
               match o_side taker with
               | Buy => (o_price taker <? l_price level)%Z
               | Sell => (l_price level <? o_price taker)%Z
               end
            then Some (false, taker, l, c, w)
            else
              '(stp_killed, taker1, level1, c1, w1) ← drain_level now_ns (l_price level) taker level c w;
              l1 ← set_level idx level1 l;
              l2 ← (if level_empty level1 then
                      bm ← bs_clear (bitmap_ l1) idx;
                      best ← next_index (opposite (o_side taker)) bm idx;
                      Some (mkLadder (levels_ l1) bm best)
                    else Some l1);
              if (stp_killed : bool) then Some (true, taker1, l2, c1, w1)
              else match_loop fuel' taker1 l2 c1 w1
        end
  end.

(** Every round but the last empties a level. *)
Definition match_against_book (b : OrderBookArray) (taker : Order) (w : World)
    : option (bool * Order * OrderBookArray * World) :=
  let opp := opposite (o_side taker) in
  '(killed, taker1, l, c, w1) ←
    match_loop (S (S (length (levels_ (ladder opp b))))) taker (ladder opp b) (core_ b) w;
  Some (killed, taker1, set_ladder opp l (set_core c b), w1).

(** [idx > *best_bid_idx_] for the bids, [idx < *best_ask_idx_] for the asks. *)
Definition improves (s : Side) (idx : N) (best : option N) : bool :=
  match best with
  | None => true
  | Some i => match s with Buy => (i <? idx)%N | Sell => (idx <? i)%N end
  end.

Definition rest_order (b : OrderBookArray) (order : Order) : option OrderBookArray :=
  let s := o_side order in
  let l := ladder s b in
  idx ← index_of b (o_price order);
  '(pool_idx, p) ← acquire (pool_ (core_ b)) order;
  occupied ← bs_test (bitmap_ l) idx;
  l1 ← (if (occupied : bool) then Some l
        else
          level ← vget (levels_ l) idx;
          l0 ← set_level idx (set_price (o_price order) level) l;
          bm ← bs_set (bitmap_ l0) idx;
          Some (mkLadder (levels_ l0) bm
                  (if improves s idx (best_idx_ l0) then Some idx else best_idx_ l0)));
  level ← vget (levels_ l1) idx;
  '(level1, p1) ← level_push_back level p pool_idx;
  l2 ← set_level idx level1 l1;
  '(_, ids) ← IdMap.insert (id_index_ (core_ b)) (o_id order) pool_idx;
  Some (set_ladder s l2 (set_core (set_ids ids (set_pool p1 (core_ b))) b)).

Definition add_order (b : OrderBookArray) (order : Order) (w : World)
    : option (ExecutionReport * OrderBookArray * World) :=
  if (o_quantity order <=? 0)%Z then
    Some (mkReport (o_id order) Rejected 0 0 InvalidQuantity, b, w)
  else if bool_decide (o_type order = Limit) && (o_price order <=? 0)%Z then
    Some (mkReport (o_id order) Rejected 0 0 InvalidPrice, b, w)
  else if bool_decide (o_type order = Limit) && negb (in_range b (o_price order)) then
    Some (mkReport (o_id order) Rejected 0 0 PriceOutOfRange, b, w)
  else
    dup ← (if (o_id order =? kInvalidOrderId)%N then Some false
           else IdMap.contains (id_index_ (core_ b)) (o_id order));
    if (dup : bool) then Some (mkReport (o_id order) Rejected 0 0 DuplicateOrderId, b, w)
    else
      liquid ← (if bool_decide (o_time_in_force order = FOK)
                then has_liquidity_for b (o_side order) (o_type order) (o_price order) (o_quantity order)
                else Some true);
      if negb liquid then Some (mkReport (o_id order) Cancelled 0 0 RNone, b, w)
      else
        let taker := set_remaining (o_quantity order) order in
        attempt ← (if bool_decide (o_type order = Market) || bool_decide (o_time_in_force order = FOK)
                   then Some true else crosses b taker);
        '(stp_killed, taker1, b1, w1) ←
          (if (attempt : bool) then match_against_book b taker w else Some (false, taker, b, w));
        filled ← sub64 (o_quantity order) (o_remaining_quantity taker1);
        if (o_remaining_quantity taker1 =? 0)%Z then
          Some (mkReport (o_id order) Filled filled 0 RNone, b1, w1)
        else if negb stp_killed && rests_in_book taker1 then
          b2 ← rest_order b1 taker1;
          Some (mkReport (o_id order) (if (0 <? filled)%Z then PartiallyFilled else New) filled
                  (o_remaining_quantity taker1) RNone, b2, w1)
        else Some (mkReport (o_id order) Cancelled filled 0 RNone, b1, w1).

Definition cancel_order (b : OrderBookArray) (id : OrderId) : option (bool * OrderBookArray) :=
  found ← IdMap.find (id_index_ (core_ b)) id;
  match found with
  | None => Some (false, b)
  | Some pool_idx =>
      node ← pool_at (pool_ (core_ b)) pool_idx;
      let order := n_order node in
      let s := o_side order in
      let l := ladder s b in
      idx ← index_of b (o_price order);
      level ← vget (levels_ l) idx;
      total ← sub64 (l_total_quantity level) (o_remaining_quantity order);
      '(level1, p1) ← level_unlink (set_total total level) (pool_ (core_ b)) pool_idx;
      l1 ← set_level idx level1 l;
      l2 ← (if level_empty level1 then
              bm ← bs_clear (bitmap_ l1) idx;
              best ← (if bool_decide (best_idx_ l1 = Some idx) then next_index s bm idx else Some (best_idx_ l1));
              Some (mkLadder (levels_ l1) bm best)
            else Some l1);
      p2 ← release p1 pool_idx;
      '(_, ids) ← IdMap.erase (id_index_ (core_ b)) id;
      Some (true, set_ladder s l2 (set_core (set_ids ids (set_pool p2 (core_ b))) b))
  end.

Definition amend_order (b : OrderBookArray) (id : OrderId) (new_quantity : Quantity) (new_price : option Price)
    (w : World) : option (ExecutionReport * OrderBookArray * World) :=
  found ← IdMap.find (id_index_ (core_ b)) id;
  match found with
  | None => Some (mkReport id Rejected 0 0 UnknownOrder, b, w)
  | Some pool_idx =>
      if (new_quantity <=? 0)%Z then Some (mkReport id Rejected 0 0 InvalidQuantity, b, w)
      else if match new_price with Some p => negb (in_range b p) | None => false end then
        Some (mkReport id Rejected 0 0 PriceOutOfRange, b, w)
      else
        node ← pool_at (pool_ (core_ b)) pool_idx;
        let snapshot := n_order node in
        let price_changed :=
          match new_price with Some p => negb (p =? o_price snapshot)%Z | None => false end in
        let quantity_increased := (o_remaining_quantity snapshot <? new_quantity)%Z in
        if negb price_changed && negb quantity_increased then
          let s := o_side snapshot in
          idx ← index_of b (o_price snapshot);
          level ← vget (levels_ (ladder s b)) idx;
          delta ← sub64 (o_remaining_quantity snapshot) new_quantity;
          '(level1, p1) ← level_reduce_quantity level (pool_ (core_ b)) pool_idx delta;
          l1 ← set_level idx level1 (ladder s b);
          Some (mkReport id New 0 new_quantity RNone, set_ladder s l1 (set_core (set_pool p1 (core_ b)) b), w)
        else
          '(_, b1) ← cancel_order b id;
          let replacement :=
            mkOrder (o_id snapshot) (default (o_price snapshot) new_price) new_quantity new_quantity
              (now_ns (w_reads w)) (o_symbol snapshot) (o_participant_id snapshot) (o_side snapshot)
              (o_type snapshot) (o_time_in_force snapshot) in
          add_order b1 replacement (mkWorld (S (w_reads w)) (w_trades w))
  end.
End operations.

(** The walk of [bid_depth] and [ask_depth], at most [n] views. *)
Fixpoint depth_loop (n : nat) (s : Side) (l : Ladder) (idx : option N) : option (list PriceLevelView) :=
  match n, idx with
  | S n', Some i =>
      level ← vget (levels_ l) i;
      idx1 ← next_index s (bitmap_ l) i;
      out ← depth_loop n' s l idx1;
      Some (mkView (l_price level) (l_total_quantity level) (l_order_count level) :: out)
  | _, _ => Some []
  end.

Definition bid_depth (b : OrderBookArray) (n : nat) : option (list PriceLevelView) :=
  depth_loop n Buy (bid_ b) (best_idx_ (bid_ b)).
Definition ask_depth (b : OrderBookArray) (n : nat) : option (list PriceLevelView) :=
  depth_loop n Sell (ask_ b) (best_idx_ (ask_ b)).

Definition bid_level_count (b : OrderBookArray) : N := bs_count (bitmap_ (bid_ b)).
Definition ask_level_count (b : OrderBookArray) : N := bs_count (bitmap_ (ask_ b)).
Definition order_count (b : OrderBookArray) : N := IdMap.size (id_index_ (core_ b)).

(** [reset]: [clear_side] walks the set bits upwards, whichever the side. *)
Fixpoint clear_loop (fuel : nat) (ls : list PriceLevel) (bm : Bitset) (idx : option N)
    : option (list PriceLevel * Bitset) :=
  match idx with
  | None => Some (ls, bm)
  | Some i =>
      match fuel with
      | O => None
      | S fuel' =>
          level ← vget ls i;
          ls1 ← vset ls i (clear_orders level);
          bm1 ← bs_clear bm i;
          idx1 ← find_next_set bm1 (inc64 i);
          clear_loop fuel' ls1 bm1 idx1
      end
  end.

Definition clear_side (l : Ladder) : option Ladder :=
  idx ← find_next_set (bitmap_ l) 0;
  '(ls, bm) ← clear_loop (length (levels_ l)) (levels_ l) (bitmap_ l) idx;
  Some (mkLadder ls bm None).

Definition reset (b : OrderBookArray) : option OrderBookArray :=
  bids ← clear_side (bid_ b);
  asks ← clear_side (ask_ b);
  Some (mkBook (min_price_ b) (max_price_ b) (range_ b) bids asks (core_reset (core_ b))).

End Arr.
