(* ===== verification/ArrayRefinement.v ===== *)
(** The direct-indexed book implements the abstract book, with the price range
    as its [in_range] check.

    [occupied] lists the set bits of a ladder's bitmap in priority order and
    [ladder_levels] the levels at those indices; [to_vec] forgets everything
    else.  [ladder_inv] says that the bitmap, the cached best index and the
    level slots agree: an unoccupied slot is as freshly cleared, an occupied
    one carries the price of its index. *)

From S2P Require Import Prelude Types OrderPool IdIndexMap IdIndexMapFacts Bitset BookCore BookSpec BookSpecFacts.
From S2P Require Import BookRep OrderBookVector VectorRefinement OrderBookArray.
Import Arr.

(** * Indices in priority order *)

Definition ibefore (s : Side) (i j : N) : bool := match s with Buy => (j <? i)%N | Sell => (i <? j)%N end.

Definition occupied (s : Side) (bm : Bitset) : list N :=
  match s with Sell => members bm | Buy => reverse (members bm) end.

Abbreviation isorted s := (StronglySorted (fun i j => ibefore s i j = true)).

Lemma ibefore_irrefl s i : ibefore s i i = false.
Proof. destruct s; apply N.ltb_irrefl. Qed.

Lemma ibefore_trans s i j k : ibefore s i j = true -> ibefore s j k = true -> ibefore s i k = true.
Proof. destruct s; simpl; rewrite !N.ltb_lt; lia. Qed.

Lemma ibefore_total s i j : ibefore s i j = false -> i <> j -> ibefore s j i = true.
Proof. destruct s; simpl; rewrite N.ltb_ge, N.ltb_lt; lia. Qed.

Lemma seq_isorted n m : isorted Sell (N.of_nat <$> seq n m).
Proof.
  revert n. induction m as [|m IH]; intros n; simpl; constructor; [apply IH|].
  rewrite Forall_fmap. apply Forall_forall. intros j Hj%elem_of_seq. simpl. apply N.ltb_lt. lia.
Qed.

Lemma filterb_sublist {A} (f : A -> bool) (l : list A) : List.filter f l `sublist_of` l.
Proof. induction l as [|x l IH]; [done|]. simpl. destruct (f x); by constructor. Qed.

Lemma sorted_reverse s l : isorted s l -> isorted (opposite s) (reverse l).
Proof.
  induction 1 as [|i l Hs IH Hall]; [constructor|]. rewrite reverse_cons.
  assert (Hall' : Forall (fun j => ibefore (opposite s) j i = true) (reverse l)).
  { apply Forall_reverse. eapply Forall_impl; [exact Hall|]. intros j Hj. by destruct s. }
  clear Hall Hs. induction IH as [|j l' _ IH Hj]; simpl; [by repeat constructor|].
  apply Forall_cons in Hall' as [Hji Hall']. constructor; [by apply IH|]. apply Forall_app. split; [done|]. by repeat constructor.
Qed.

Lemma occupied_sorted s bm : isorted s (occupied s bm).
Proof.
  assert (H : isorted Sell (members bm)).
  { eapply sublist_sorted; [apply filterb_sublist|apply seq_isorted]. }
  destruct s; simpl; [by apply (sorted_reverse Sell)|done].
Qed.

Lemma elem_of_occupied s bm i : bitset_ok bm -> i ∈ occupied s bm <-> bs_mem bm i = true.
Proof. intros Hok. rewrite <- elem_of_members by done. destruct s; simpl; [by rewrite elem_of_reverse|done]. Qed.

(** A sorted list of indices is determined by its elements. *)
Lemma isorted_ext s l1 l2 : isorted s l1 -> isorted s l2 -> (forall i, i ∈ l1 <-> i ∈ l2) -> l1 = l2.
Proof.
  intros Hs1. revert l2. induction Hs1 as [|i l1 Hs1 IH Ha1]; intros l2 Hs2 Heq.
  { destruct l2 as [|j l2]; [done|]. exfalso. apply (not_elem_of_nil j), Heq. left. }
  destruct Hs2 as [|j l2 Hs2 Ha2]; [exfalso; apply (not_elem_of_nil i), Heq; left|].
  rewrite Forall_forall in Ha1, Ha2. assert (i = j) as <-.
  { destruct (decide (i = j)) as [|Hne]; [done|].
    assert (Hj : j ∈ l1) by (destruct (Heq j) as [_ H]; specialize (H ltac:(left)); by apply elem_of_cons in H as [->|]).
    assert (Hi : i ∈ l2) by (destruct (Heq i) as [H _]; specialize (H ltac:(left)); by apply elem_of_cons in H as [->|]).
    pose proof (ibefore_trans _ _ _ _ (Ha1 _ Hj) (Ha2 _ Hi)) as Hc. by rewrite ibefore_irrefl in Hc. }
  f_equal. apply IH; [done|]. intros k. specialize (Heq k). rewrite !elem_of_cons in Heq. split; intros Hk.
  - destruct (proj1 Heq (or_intror Hk)) as [->|]; [|done]. pose proof (Ha1 _ Hk) as Hc. by rewrite ibefore_irrefl in Hc.
  - destruct (proj2 Heq (or_intror Hk)) as [->|]; [|done]. pose proof (Ha2 _ Hk) as Hc. by rewrite ibefore_irrefl in Hc.
Qed.

Lemma occupied_ext s bm l : bitset_ok bm -> isorted s l -> (forall i, i ∈ l <-> bs_mem bm i = true) -> occupied s bm = l.
Proof.
  intros Hok Hs Hl. apply (isorted_ext s); [apply occupied_sorted|done|].
  intros i. by rewrite Hl, elem_of_occupied.
Qed.

(** ** The scan from an occupied index *)

Lemma next_index_spec s bm i : bitset_ok bm -> (i < num_bits_ bm)%N -> (num_bits_ bm < two64 - 1)%N ->
  exists r, next_index s bm i = Some r /\
    match r with
    | Some p => ibefore s i p = true /\ bs_mem bm p = true /\
        forall j, ibefore s i j = true -> ibefore s j p = true -> bs_mem bm j = false
    | None => forall j, ibefore s i j = true -> bs_mem bm j = false
    end.
Proof.
  intros Hok Hi Hn. destruct s; simpl.
  - destruct (N.eqb_spec i 0) as [->|Hz].
    { exists None. split; [done|]. intros j Hj%N.ltb_lt. lia. }
    destruct (find_prev_set_spec bm (i - 1) Hok) as (r & -> & Hr); [lia|]. exists r. split; [done|].
    destruct r as [p|]; simpl in Hr.
    + destruct Hr as (H1 & H2 & H3 & H4). split_and!; [apply N.ltb_lt; lia|done|].
      intros j Hj%N.ltb_lt Hp%N.ltb_lt. apply H4. lia.
    + intros j Hj%N.ltb_lt. apply Hr. lia.
  - rewrite inc64_small by (unfold two64 in *; lia).
    destruct (find_next_set_spec bm (i + 1) Hok) as (r & -> & Hr). exists r. split; [done|].
    destruct r as [p|]; simpl in Hr.
    + destruct Hr as (H1 & H2 & H3 & H4). split_and!; [apply N.ltb_lt; lia|done|].
      intros j Hj%N.ltb_lt Hp%N.ltb_lt. apply H4. lia.
    + intros j Hj%N.ltb_lt. apply Hr. lia.
Qed.

(** The scan finds the next index of the list. *)
Lemma next_index_head s bm i o2 : bitset_ok bm -> (i < num_bits_ bm)%N -> (num_bits_ bm < two64 - 1)%N ->
  isorted s (i :: o2) -> (forall j, ibefore s i j = true -> j ∈ o2 <-> bs_mem bm j = true) ->
  next_index s bm i = Some (head o2).
Proof.
  intros Hok Hi Hn Hs Hmem. destruct (next_index_spec s bm i Hok Hi Hn) as (r & -> & Hr). f_equal.
  apply StronglySorted_inv in Hs as [Hs Hall]. rewrite Forall_forall in Hall.
  destruct o2 as [|x o2]; simpl.
  - destruct r as [p|]; [|done]. destruct Hr as (H1 & H2 & _). apply (Hmem p H1) in H2. by apply elem_of_nil in H2.
  - assert (Hx : ibefore s i x = true) by (apply Hall; left). assert (Hxm : bs_mem bm x = true) by (apply Hmem; [done|left]).
    destruct r as [p|]; [|by rewrite Hr in Hxm]. destruct Hr as (H1 & H2 & H3). f_equal.
    apply (Hmem p H1) in H2. apply elem_of_cons in H2 as [->|H2]; [done|].
    apply StronglySorted_inv in Hs as [_ Hx2]. rewrite Forall_forall in Hx2. specialize (H3 x Hx (Hx2 _ H2)). congruence.
Qed.

(** * Ladders *)

Lemma omap_cons_eq {A B} (f : A -> option B) x l :
  omap f (x :: l) = match f x with Some y => y :: omap f l | None => omap f l end.
Proof. done. Qed.

Definition ladder_levels (s : Side) (l : Ladder) : list PriceLevel := omap (vget (levels_ l)) (occupied s (bitmap_ l)).

Record ladder_inv (s : Side) (min : Price) (range : N) (l : Ladder) : Prop := {
  li_slots : vsize (levels_ l) = range;
  li_bits : num_bits_ (bitmap_ l) = range;
  li_bitmap : bitset_ok (bitmap_ l);
  li_best : best_idx_ l = head (occupied s (bitmap_ l));
  li_price : forall i lv, vget (levels_ l) i = Some lv -> bs_mem (bitmap_ l) i = true -> l_price lv = (min + Z.of_N i)%Z;
  li_clean : forall i lv, vget (levels_ l) i = Some lv -> bs_mem (bitmap_ l) i = false ->
    lv = set_price (l_price lv) default_level
}.

Section ladders.
Context (s : Side) (min : Price) (range : N).
Hypothesis range_small : (range < two64 - 1)%N.
Implicit Types (l : Ladder).

Lemma occupied_lt l i : ladder_inv s min range l -> i ∈ occupied s (bitmap_ l) -> (i < range)%N.
Proof. intros [H1 H2 H3 _ _ _] Hi%elem_of_occupied; [|done]. rewrite <- H2. by apply H3. Qed.

Lemma occupied_length l : ladder_inv s min range l -> (length (occupied s (bitmap_ l)) <= length (levels_ l))%nat.
Proof.
  clear range_small. intros [H1 H2 _ _ _ _]. assert (Hm : (length (members (bitmap_ l)) <= N.to_nat range)%nat).
  { rewrite <- H2. unfold members. etransitivity; [apply sublist_length, filterb_sublist|].
    by rewrite length_fmap, length_seq. }
  unfold vsize in H1. destruct s; simpl; rewrite ?length_reverse; lia.
Qed.

(** The level slots of a list of indices in range. *)
Lemma slots_of l (idxs : list N) : ladder_inv s min range l -> (forall i, i ∈ idxs -> (i < range)%N) ->
  Forall2 (fun i lv => vget (levels_ l) i = Some lv) idxs (omap (vget (levels_ l)) idxs).
Proof.
  intros [Hs _ _ _ _ _] Hlt. induction idxs as [|i idxs IH]; [constructor|].
  destruct (vget_is_Some (levels_ l) i) as [lv Hlv]; [rewrite Hs; apply Hlt; left|].
  simpl. rewrite Hlv. constructor; [done|]. apply IH. intros j Hj. apply Hlt. by right.
Qed.

Lemma ladder_slots l : ladder_inv s min range l ->
  Forall2 (fun i lv => vget (levels_ l) i = Some lv /\ l_price lv = (min + Z.of_N i)%Z)
    (occupied s (bitmap_ l)) (ladder_levels s l).
Proof.
  intros Hl. assert (Hf := slots_of l (occupied s (bitmap_ l)) Hl (fun i => occupied_lt l i Hl)).
  apply Forall2_same_length_lookup in Hf as [Hlen Hf]. apply Forall2_same_length_lookup. split; [done|].
  intros k i lv Hi Hlv. specialize (Hf k i lv Hi Hlv). split; [done|]. eapply li_price; [done|done|].
  apply (elem_of_occupied s); [apply Hl|]. by eapply list_elem_of_lookup_2.
Qed.

Lemma ladder_keys l : ladder_inv s min range l ->
  l_price <$> ladder_levels s l = (fun i => (min + Z.of_N i)%Z) <$> occupied s (bitmap_ l).
Proof.
  intros Hl%ladder_slots. induction Hl as [|i lv idxs lvs [_ Hp] _ IH]; [done|]. rewrite !fmap_cons, IH. by rewrite Hp.
Qed.

Lemma before_index i j : before s (min + Z.of_N i) (min + Z.of_N j) = ibefore s i j.
Proof. clear range_small. destruct s; simpl; breflect; try done; lia. Qed.

Lemma omap_slots_ne (ls : list PriceLevel) i lv (idxs : list N) : i ∉ idxs ->
  omap (vget (<[N.to_nat i := lv]> ls)) idxs = omap (vget ls) idxs.
Proof.
  induction idxs as [|j idxs IH]; [done|]. intros [Hne Hni]%not_elem_of_cons. rewrite !omap_cons_eq, vget_insert_ne, IH by done. done.
Qed.

(** An occupied index splits the ladder's levels like its indices. *)
Lemma isorted_split o1 i o2 : isorted s (o1 ++ i :: o2) ->
  i ∉ o1 /\ i ∉ o2 /\ isorted s (i :: o2) /\ isorted s (o1 ++ o2) /\
  Forall (fun j => ibefore s j i = true) o1 /\ Forall (fun j => ibefore s i j = true) o2.
Proof.
  intros Hs. assert (H2 : isorted s (i :: o2)) by (by eapply StronglySorted_suffix).
  assert (Ho2 : Forall (fun j => ibefore s i j = true) o2) by (by apply StronglySorted_inv in H2 as [_ ?]).
  assert (Ho1 : Forall (fun j => ibefore s j i = true) o1).
  { clear -Hs. induction o1 as [|j o1 IH]; [done|]. apply StronglySorted_inv in Hs as [Hs Hall].
    constructor; [|by apply IH]. apply Forall_app in Hall as [_ Hall]. by apply Forall_cons in Hall as [? _]. }
  split_and!; try done.
  - intros Hi. rewrite Forall_forall in Ho1. specialize (Ho1 _ Hi). by rewrite ibefore_irrefl in Ho1.
  - intros Hi. rewrite Forall_forall in Ho2. specialize (Ho2 _ Hi). by rewrite ibefore_irrefl in Ho2.
  - eapply sublist_sorted; [|exact Hs]. apply sublist_app; [done|]. by constructor.
Qed.

(** Writing an occupied slot. *)
Lemma ladder_write l o1 i o2 lv1 :
  ladder_inv s min range l -> occupied s (bitmap_ l) = o1 ++ i :: o2 -> l_price lv1 = (min + Z.of_N i)%Z ->
  exists l1, set_level i lv1 l = Some l1 /\ bitmap_ l1 = bitmap_ l /\ best_idx_ l1 = best_idx_ l /\
    levels_ l1 = <[N.to_nat i := lv1]> (levels_ l) /\ ladder_inv s min range l1 /\
    ladder_levels s l1 = omap (vget (levels_ l)) o1 ++ lv1 :: omap (vget (levels_ l)) o2.
Proof.
  intros Hl Ho Hp. pose proof Hl as [H1 H2 H3 H4 H5 H6].
  assert (Hi : (i < range)%N) by (apply (occupied_lt l); [done|]; rewrite Ho; apply elem_of_app; right; left).
  assert (Hm : bs_mem (bitmap_ l) i = true).
  { apply (elem_of_occupied s); [done|]. rewrite Ho. apply elem_of_app. right. left. }
  pose proof (occupied_sorted s (bitmap_ l)) as Hs. rewrite Ho in Hs. destruct (isorted_split o1 i o2 Hs) as (Hn1 & Hn2 & _).
  unfold set_level. rewrite vset_ok by (by rewrite H1). cbn [mbind option_bind].
  eexists. split; [reflexivity|]. cbn [bitmap_ best_idx_ levels_]. split_and!; try done.
  - split; cbn [bitmap_ best_idx_ levels_]; try done.
    + by rewrite vsize_insert.
    + intros j lv. destruct (decide (i = j)) as [<-|Hne].
      * rewrite vget_insert_eq by (by rewrite H1). intros [= <-] _. done.
      * rewrite vget_insert_ne by done. apply H5.
    + intros j lv. destruct (decide (i = j)) as [<-|Hne]; [by rewrite Hm|]. rewrite vget_insert_ne by done. apply H6.
  - unfold ladder_levels. cbn [bitmap_ levels_]. rewrite Ho, omap_app, omap_cons_eq.
    rewrite vget_insert_eq by (by rewrite H1). by rewrite !omap_slots_ne.
Qed.

(** Emptying an occupied slot. *)
Lemma ladder_empty l o1 i o2 lv1 :
  ladder_inv s min range l -> occupied s (bitmap_ l) = o1 ++ i :: o2 -> l_price lv1 = (min + Z.of_N i)%Z ->
  lv1 = set_price (l_price lv1) default_level ->
  exists l1 bm, set_level i lv1 l = Some l1 /\ bitmap_ l1 = bitmap_ l /\ best_idx_ l1 = best_idx_ l /\
    bs_clear (bitmap_ l1) i = Some bm /\ next_index s bm i = Some (head o2) /\ occupied s bm = o1 ++ o2 /\
    forall best, best = head (o1 ++ o2) -> ladder_inv s min range (mkLadder (levels_ l1) bm best) /\
      ladder_levels s (mkLadder (levels_ l1) bm best) = omap (vget (levels_ l)) o1 ++ omap (vget (levels_ l)) o2.
Proof.
  intros Hl Ho Hp Hcl. destruct (ladder_write l o1 i o2 lv1 Hl Ho Hp) as (l1 & Hset & Hb & Hbest & Hlv & Hl1 & _).
  pose proof Hl1 as [H1 H2 H3 H4 H5 H6].
  assert (Hi : (i < range)%N) by (apply (occupied_lt l); [done|]; rewrite Ho; apply elem_of_app; right; left).
  destruct (bs_clear_spec (bitmap_ l1) i H3) as (bm & Hclr & Hok & Hnb & Hmem); [by rewrite H2|].
  pose proof (occupied_sorted s (bitmap_ l)) as Hs. rewrite Ho in Hs.
  destruct (isorted_split o1 i o2 Hs) as (Hn1 & Hn2 & Hs2 & Hs12 & Hb1 & Hb2).
  assert (Hel : forall j, j ∈ o1 ++ i :: o2 <-> bs_mem (bitmap_ l) j = true)
    by (intros j; rewrite <- Ho; apply elem_of_occupied, Hl).
  assert (Hocc : occupied s bm = o1 ++ o2).
  { apply occupied_ext; [done|done|]. intros j. rewrite Hmem, Hb, andb_true_iff, negb_true_iff, N.eqb_neq, <- Hel.
    rewrite !elem_of_app, elem_of_cons. split; [|tauto]. intros Hj. split; [|tauto]. intros ->. tauto. }
  exists l1, bm. split_and!; try done.
  - apply next_index_head; [done|rewrite Hnb, H2; lia|rewrite Hnb, H2; done|done|].
    intros j Hj. rewrite <- (elem_of_occupied s bm j Hok), Hocc, elem_of_app. split; [tauto|]. intros [Hj1|]; [|done].
    rewrite Forall_forall in Hb1. pose proof (ibefore_trans _ _ _ _ Hj (Hb1 _ Hj1)) as Hc. by rewrite ibefore_irrefl in Hc.
  - intros best ->. split.
    + split; cbn [bitmap_ best_idx_ levels_]; try done; [by rewrite Hnb|by rewrite Hocc| |].
      * intros j lv Hg. rewrite Hmem, andb_true_iff. intros [_ Hj]. by apply H5.
      * intros j lv Hg. rewrite Hmem. destruct (N.eqb_spec j i) as [->|Hne]; simpl; [intros _|by apply H6].
        rewrite Hlv, vget_insert_eq in Hg; [by injection Hg as <-|]. rewrite (li_slots _ _ _ _ Hl). done.
    + unfold ladder_levels. cbn [bitmap_ levels_]. rewrite Hocc, Hlv, omap_app. by rewrite !omap_slots_ne.
Qed.
End ladders.

(** * Matching *)

Section matching.
Context (now_ns : nat -> Timestamp) (min : Price) (range : N).
Hypothesis range_small : (range < two64 - 1)%N.

Lemma limit_test taker p :
  bool_decide (o_type taker = Limit) &&
    match o_side taker with Buy => (o_price taker <? p)%Z | Sell => (p <? o_price taker)%Z end =
  negb (acceptable taker p).
Proof. rewrite <- price_test. unfold Vec.price_ok. destruct (o_side taker); by rewrite Z.ltb_antisym. Qed.

(** What a ladder's cached best index says. *)
Lemma ladder_best s l : ladder_inv s min range l ->
  (best_idx_ l = None /\ ladder_levels s l = []) \/
  (exists i o2 lv, best_idx_ l = Some i /\ occupied s (bitmap_ l) = i :: o2 /\ vget (levels_ l) i = Some lv /\
     l_price lv = (min + Z.of_N i)%Z /\ ladder_levels s l = lv :: omap (vget (levels_ l)) o2).
Proof.
  intros Hl. pose proof (ladder_slots s min range l Hl) as Hf. rewrite (li_best _ _ _ _ Hl). unfold ladder_levels in *.
  destruct (occupied s (bitmap_ l)) as [|i o2]; [by left|right]. inversion Hf as [|? lv ? lvs [Hg Hp] _ Heq1 Heq2]; subst.
  exists i, o2, lv. split_and!; try done. rewrite omap_cons_eq, Hg. done.
Qed.

Lemma arr_match_loop_spec fuel taker s l css ls others c w :
  opposite (o_side taker) = s -> ladder_inv s min range l ->
  side_rep (nodes_of c) (ladder_levels s l) css ls -> core_rep c (mjoin css ++ others) ->
  positive_orders (level_orders ls) -> (sum_remaining (level_orders ls) <= int64_max)%Z ->
  (0 <= o_remaining_quantity taker <= int64_max)%Z -> (length (occupied s (bitmap_ l)) + 2 <= fuel)%nat ->
  match_post now_ns (ladder_levels s) (ladder_inv s min range) taker ls css others c w
    (match_loop now_ns fuel taker l c w).
Proof.
  revert taker l css ls c w. induction fuel as [|fuel IH]; intros taker l css ls c w Hside Hl Hr Hc Hpos Hsum Htk Hf; [lia|].
  cbn [match_loop]. destruct (Z.leb_spec (o_remaining_quantity taker) 0) as [Hz|Hz]; [apply match_post_stop; try done; by left|].
  destruct (ladder_best s l Hl) as [[-> Hnil]|(i & o2 & lv & -> & Ho & Hg & Hp & Hlv)].
  { apply match_post_stop; try done. right. rewrite Hnil in Hr. by inversion Hr. }
  rewrite Hlv in Hr. inversion Hr as [|? cs x ? css0 ls0 Hx Hr0]; subst css ls. pose proof Hx as (_ & _ & ->).
  rewrite Hg. cbn [mbind option_bind]. rewrite limit_test. destruct (acceptable taker (l_price lv)) eqn:Hacc; cbn [negb];
    [|apply match_post_stop; [done|by rewrite Hlv|done|by right]].
  destruct (drain_step now_ns taker lv _ cs css0 ls0 others c w Hr Hc Hpos Hsum) as
    (killed & taker1 & lv1 & c1 & w1 & cs1 & -> & Hpr & Hcl & Hr1 & Hc1 & Hso & Hcfg & Htk1 & (Hs1 & _) & Hex & Hsw); [lia|done|].
  cbn [mbind option_bind]. unfold keep in *. rewrite Hside.
  rewrite level_orders_cons in Hpos, Hsum. apply Forall_app in Hpos as [Hp1 Hp2].
  rewrite sum_remaining_app in Hsum. pose proof (sum_remaining_nonneg _ Hp1).
  destruct (level_empty lv1) eqn:He.
  - destruct (ladder_empty s min range range_small l [] i o2 lv1 Hl Ho ltac:(congruence) (Hcl eq_refl))
      as (l1 & bm & -> & Hb & _ & Hclr & Hnext & Hocc & Hinv). cbn [mbind option_bind].
    rewrite Hclr. cbn [mbind option_bind]. rewrite Hnext. cbn [mbind option_bind].
    destruct (Hinv (head o2) eq_refl) as [Hl2 Hlv2]. cbn [omap list_omap app] in Hlv2.
    destruct killed; cbn [negb andb] in Hsw.
    + eexists _, _, _, _, _, _, _. split; [reflexivity|]. rewrite Hlv2. split_and!; done.
    + eapply match_post_step; [exact Hsw|done|done|]. apply IH; try done; [by rewrite Hs1|by rewrite Hlv2|lia|].
      cbn [bitmap_]. rewrite Hocc. rewrite Ho in Hf. simpl in *. lia.
  - destruct (ladder_write s min range l [] i o2 lv1 Hl Ho ltac:(congruence)) as (l1 & -> & Hb & _ & _ & Hl1 & Hlv1).
    cbn [mbind option_bind]. cbn [omap list_omap app] in Hlv1.
    destruct killed; cbn [negb andb] in Hsw.
    + eexists _, _, _, _, _, _, _. split; [reflexivity|]. rewrite Hlv1. split_and!; done.
    + destruct fuel as [|fuel]; [rewrite Ho in Hf; simpl in Hf; lia|]. cbn [match_loop]. rewrite Hex by done. cbn [Z.leb Z.compare].
      eexists _, _, _, _, _, _, _. split; [reflexivity|]. rewrite Hlv1. split_and!; done.
Qed.

(** From one occupied index the scan reaches the next. *)
Lemma next_occupied s l o1 i o2 : ladder_inv s min range l -> occupied s (bitmap_ l) = o1 ++ i :: o2 ->
  (exists lv, vget (levels_ l) i = Some lv) /\ next_index s (bitmap_ l) i = Some (head o2).
Proof.
  intros Hl Ho. assert (Hin : i ∈ occupied s (bitmap_ l)) by (rewrite Ho; apply elem_of_app; right; left).
  pose proof (occupied_lt s min range l i Hl Hin) as Hi.
  pose proof (occupied_sorted s (bitmap_ l)) as Hs. rewrite Ho in Hs.
  destruct (isorted_split s o1 i o2 Hs) as (_ & _ & Hs2 & _ & Hb1 & _). rewrite Forall_forall in Hb1.
  split; [apply vget_is_Some; by rewrite (li_slots _ _ _ _ Hl)|].
  apply next_index_head; [apply Hl|by rewrite (li_bits _ _ _ _ Hl)|by rewrite (li_bits _ _ _ _ Hl)|done|].
  intros j Hj. rewrite <- (elem_of_occupied s), Ho by apply Hl. rewrite elem_of_app, elem_of_cons. split; [tauto|].
  intros [Hj1|[->|]]; [|by rewrite ibefore_irrefl in Hj|done].
  pose proof (ibefore_trans _ _ _ _ Hj (Hb1 _ Hj1)) as Hc. by rewrite ibefore_irrefl in Hc.
Qed.

(** The dry run over a ladder is the dry run over its levels. *)
Lemma arr_liquidity_spec fuel ts s ty lp needed acc l o1 o2 :
  opposite ts = s -> ladder_inv s min range l -> occupied s (bitmap_ l) = o1 ++ o2 -> (length o2 < fuel)%nat ->
  liquidity_loop fuel ts ty lp needed acc l (head o2) =
    Vec.liquidity_loop ts ty lp needed acc (omap (vget (levels_ l)) o2).
Proof.
  intros Hside Hl. revert acc o1 o2. induction fuel as [|fuel IH]; intros acc o1 o2 Ho Hf; [lia|].
  destruct o2 as [|i o2]; [done|]. cbn [liquidity_loop head].
  destruct (next_occupied s l o1 i o2 Hl Ho) as [[lv Hg] Hnext].
  rewrite omap_cons_eq, Hg. cbn [mbind option_bind Vec.liquidity_loop]. destruct (bool_decide _ && _); [done|].
  destruct (add64 acc _) as [acc1|]; [|done]. cbn [mbind option_bind]. destruct (needed <=? acc1)%Z; [done|].
  rewrite Hside, Hnext. cbn [mbind option_bind].
  apply (IH acc1 (o1 ++ [i])); [by rewrite <- app_assoc|simpl in Hf; lia].
Qed.

Lemma arr_depth_spec n s l o1 o2 :
  ladder_inv s min range l -> occupied s (bitmap_ l) = o1 ++ o2 ->
  depth_loop n s l (head o2) = Some (Vec.view <$> take n (omap (vget (levels_ l)) o2)).
Proof.
  intros Hl. revert o1 o2. induction n as [|n IH]; intros o1 o2 Ho; [by destruct o2|].
  destruct o2 as [|i o2]; [done|]. cbn [depth_loop head].
  destruct (next_occupied s l o1 i o2 Hl Ho) as [[lv Hg] Hnext]. rewrite omap_cons_eq, Hg. cbn [mbind option_bind].
  rewrite Hnext. cbn [mbind option_bind]. rewrite (IH (o1 ++ [i])) by (by rewrite <- app_assoc). done.
Qed.
End matching.

(** * The book *)

Record arr_inv (b : OrderBookArray) : Prop := {
  ai_min : (0 < min_price_ b)%Z;
  ai_max : (min_price_ b <= max_price_ b <= int64_max)%Z;
  ai_range : range_ b = Z.to_N (max_price_ b - min_price_ b + 1);
  ai_ladders : forall s, ladder_inv s (min_price_ b) (range_ b) (ladder s b)
}.

Definition to_vec (b : OrderBookArray) : Vec.OrderBookVector :=
  Vec.mkBook (ladder_levels Buy (bid_ b)) (ladder_levels Sell (ask_ b)) (core_ b).

(** The price range of a book never changes. *)
Definition same_range (b b' : OrderBookArray) : Prop :=
  min_price_ b' = min_price_ b /\ max_price_ b' = max_price_ b.

Definition arep (b : OrderBookArray) (a : abook) : Prop := arr_inv b /\ vrep (to_vec b) a.

Lemma arr_to_vec_levels s b : Vec.levels s (to_vec b) = ladder_levels s (ladder s b).
Proof. by destruct s. Qed.

Lemma arr_to_vec_set s l c b :
  to_vec (set_ladder s l (set_core c b)) = Vec.set_levels s (ladder_levels s l) (Vec.set_core c (to_vec b)).
Proof. by destruct s. Qed.

Lemma arr_inv_set s l c b : arr_inv b -> ladder_inv s (min_price_ b) (range_ b) l ->
  arr_inv (set_ladder s l (set_core c b)).
Proof.
  intros [H1 H2 H3 H4] Hl. destruct s; split; try done; intros [];
    [exact Hl|apply (H4 Sell)|apply (H4 Buy)|exact Hl].
Qed.

Lemma arr_range_small b : arr_inv b -> (range_ b < two64 - 1)%N.
Proof. intros [H1 H2 H3 _]. rewrite H3. unfold two64, int64_max in *. lia. Qed.

Lemma to_size_small z : (0 <= z < 18446744073709551616)%Z -> to_size z = Z.to_N z.
Proof. intros H. unfold to_size. by rewrite Z.mod_small. Qed.

Lemma to_price_small n : (Z.of_N n <= int64_max)%Z -> to_price n = Z.of_N n.
Proof.
  intros H. unfold to_price. rewrite wrap64_small by (unfold two64, int64_max in *; lia).
  by rewrite (proj2 (Z.leb_le _ _) H).
Qed.

(** Indices and prices of the range correspond. *)
Lemma index_of_in_range b p : arr_inv b -> in_range b p = true ->
  exists i, index_of b p = Some i /\ (i < range_ b)%N /\ p = (min_price_ b + Z.of_N i)%Z.
Proof.
  intros [H1 H2 H3 _] [Hlo%Z.leb_le Hhi%Z.leb_le]%andb_true_iff. unfold index_of.
  rewrite sub64_ok by (unfold int64_min, int64_max in *; lia). cbn [mbind option_bind].
  rewrite to_size_small by (unfold int64_max in *; lia). eexists. split; [reflexivity|]. rewrite H3. lia.
Qed.

Lemma price_of_index b i : arr_inv b -> (i < range_ b)%N -> price_of b i = Some (min_price_ b + Z.of_N i)%Z.
Proof.
  intros [H1 H2 H3 _] Hi. unfold price_of. rewrite H3 in Hi. rewrite to_price_small by (unfold int64_max in *; lia).
  apply add64_ok. unfold int64_min, int64_max in *. lia.
Qed.

Lemma index_in_range b i : arr_inv b -> (i < range_ b)%N -> in_range b (min_price_ b + Z.of_N i) = true.
Proof.
  intros [H1 H2 H3 _] Hi. unfold in_range. rewrite H3 in Hi. apply andb_true_iff. rewrite !Z.leb_le. lia.
Qed.

(** The prices that the levels of the book have are the prices of its range. *)
Lemma level_index b s lvs1 lv lvs2 : arr_inv b -> Vec.levels s (to_vec b) = lvs1 ++ lv :: lvs2 ->
  exists o1 i o2, occupied s (bitmap_ (ladder s b)) = o1 ++ i :: o2 /\
    lvs1 = omap (vget (levels_ (ladder s b))) o1 /\ lvs2 = omap (vget (levels_ (ladder s b))) o2 /\
    vget (levels_ (ladder s b)) i = Some lv /\ l_price lv = (min_price_ b + Z.of_N i)%Z /\ (i < range_ b)%N.
Proof.
  intros Hb. rewrite arr_to_vec_levels. intros Hlv. set (l := ladder s b) in *. pose proof (ai_ladders b Hb s) as Hl. fold l in Hl.
  pose proof (ladder_slots s _ _ l Hl) as Hf. rewrite Hlv in Hf.
  apply Forall2_app_inv_r in Hf as (o1 & o2' & H1 & H2 & Ho). apply Forall2_cons_inv_r in H2 as (i & o2 & [Hg Hp] & H2 & ->).
  assert (Hom : forall o lvs, Forall2 (fun i lv => vget (levels_ l) i = Some lv /\ l_price lv = (min_price_ b + Z.of_N i)%Z) o lvs ->
    lvs = omap (vget (levels_ l)) o).
  { induction 1 as [|j lv' o lvs [Hj _] _ IH]; [done|]. by rewrite omap_cons_eq, Hj, IH. }
  exists o1, i, o2. split_and!; try done; [by apply Hom|by apply Hom|].
  eapply (occupied_lt s _ _ l); [done|]. rewrite Ho. apply elem_of_app. right. left.
Qed.

(** * Resting *)

Lemma isorted_position s i o : isorted s o -> i ∉ o ->
  exists o1 o2, o = o1 ++ o2 /\ Forall (fun j => ibefore s j i = true) o1 /\ Forall (fun j => ibefore s i j = true) o2.
Proof.
  induction 1 as [|j o Hs IH Hall]; [by exists [], []|]. intros [Hne Hni]%not_elem_of_cons.
  destruct (ibefore s j i) eqn:Hj.
  - destruct (IH Hni) as (o1 & o2 & -> & H1 & H2). exists (j :: o1), o2. split_and!; [done|by constructor|done].
  - pose proof (ibefore_total _ _ _ Hj (not_eq_sym Hne)) as Hij. exists [], (j :: o). split_and!; [done|constructor|].
    constructor; [done|]. eapply Forall_impl; [exact Hall|]. intros k Hk. by eapply ibefore_trans.
Qed.

Lemma isorted_insert s i o1 o2 : isorted s (o1 ++ o2) -> Forall (fun j => ibefore s j i = true) o1 ->
  Forall (fun j => ibefore s i j = true) o2 -> isorted s (o1 ++ i :: o2).
Proof.
  intros Hs H1 H2. induction H1 as [|j o1 Hj H1 IH]; simpl in *; [by constructor|].
  apply StronglySorted_inv in Hs as [Hs Hall]. constructor; [by apply IH|].
  apply Forall_app in Hall as [? ?]. apply Forall_app. split; [done|]. by constructor.
Qed.

Lemma improves_some s i j : improves s i (Some j) = ibefore s i j.
Proof. done. Qed.

Lemma improves_before s i o1 o2 : Forall (fun j => ibefore s j i = true) o1 -> Forall (fun j => ibefore s i j = true) o2 ->
  (if improves s i (head (o1 ++ o2)) then Some i else head (o1 ++ o2)) = head (o1 ++ i :: o2).
Proof.
  intros H1 H2. destruct H1 as [|j o1 Hj _]; cbn [app head].
  - destruct H2 as [|k o2 Hk _]; cbn [head]; [done|]. by rewrite improves_some, Hk.
  - rewrite improves_some. destruct (ibefore s i j) eqn:Hij; [|done].
    pose proof (ibefore_trans _ _ _ _ Hj Hij) as Hc. by rewrite ibefore_irrefl in Hc.
Qed.

Section resting.
Context (s : Side) (min : Price) (range : N).
Hypothesis range_small : (range < two64 - 1)%N.

(** [rest_order]'s preparation of the slot of a price. *)
Definition occupy (l : Ladder) (idx : N) (price : Price) (occupied : bool) : option Ladder :=
  if occupied then Some l
  else
    level ← vget (levels_ l) idx;
    l0 ← set_level idx (set_price price level) l;
    bm ← bs_set (bitmap_ l0) idx;
    Some (mkLadder (levels_ l0) bm (if improves s idx (best_idx_ l0) then Some idx else best_idx_ l0)).

Lemma occupy_new l i : ladder_inv s min range l -> (i < range)%N -> bs_mem (bitmap_ l) i = false ->
  exists l1 o1 o2, occupy l i (min + Z.of_N i) false = Some l1 /\ ladder_inv s min range l1 /\
    occupied s (bitmap_ l) = o1 ++ o2 /\ occupied s (bitmap_ l1) = o1 ++ i :: o2 /\
    Forall (fun j => ibefore s j i = true) o1 /\ Forall (fun j => ibefore s i j = true) o2 /\
    levels_ l1 = <[N.to_nat i := set_price (min + Z.of_N i) default_level]> (levels_ l).
Proof.
  intros Hl Hi Hm. pose proof Hl as [H1 H2 H3 H4 H5 H6]. unfold occupy, set_level.
  destruct (vget_is_Some (levels_ l) i) as [lv Hg]; [by rewrite H1|]. rewrite Hg. cbn [mbind option_bind].
  rewrite vset_ok by (by rewrite H1). cbn [mbind option_bind bitmap_].
  destruct (bs_set_spec (bitmap_ l) i H3) as (bm & Hset & Hok & Hnb & Hmem); [by rewrite H2|]. rewrite Hset. cbn [mbind option_bind].
  assert (Hni : i ∉ occupied s (bitmap_ l)) by (rewrite (elem_of_occupied s) by done; congruence).
  destruct (isorted_position s i _ (occupied_sorted s _) Hni) as (o1 & o2 & Ho & Hb1 & Hb2).
  assert (Hocc : occupied s bm = o1 ++ i :: o2).
  { apply occupied_ext; [done| |].
    - apply isorted_insert; [rewrite <- Ho; apply occupied_sorted|done|done].
    - intros j. rewrite Hmem, orb_true_iff, N.eqb_eq, <- (elem_of_occupied s), Ho, !elem_of_app, elem_of_cons by done. tauto. }
  assert (Hcl : set_price (min + Z.of_N i) lv = set_price (min + Z.of_N i) default_level).
  { by rewrite (H6 i lv Hg Hm). }
  rewrite Hcl. eexists _, o1, o2. split; [reflexivity|]. cbn [levels_ bitmap_]. split_and!; try done.
  split; cbn [levels_ bitmap_ best_idx_]; try done.
  - by rewrite vsize_insert.
  - by rewrite Hnb.
  - by rewrite Hocc, H4, Ho, improves_before.
  - intros j lv'. rewrite Hmem. destruct (N.eqb_spec j i) as [->|Hne].
    + rewrite vget_insert_eq by (by rewrite H1). by intros [= <-].
    + rewrite vget_insert_ne by done. apply H5.
  - intros j lv'. rewrite Hmem. destruct (N.eqb_spec j i) as [->|Hne]; [done|].
    rewrite vget_insert_ne by done. apply H6.
Qed.

Lemma ladder_split l o1 i o2 : ladder_inv s min range l -> occupied s (bitmap_ l) = o1 ++ i :: o2 ->
  exists lv, vget (levels_ l) i = Some lv /\ l_price lv = (min + Z.of_N i)%Z /\
    ladder_levels s l = omap (vget (levels_ l)) o1 ++ lv :: omap (vget (levels_ l)) o2.
Proof.
  intros Hl Ho. destruct (next_occupied min range range_small s l o1 i o2 Hl Ho) as [[lv Hg] _]. exists lv. split_and!; [done| |].
  - eapply li_price; [done|done|]. apply (elem_of_occupied s); [apply Hl|]. rewrite Ho. apply elem_of_app. right. left.
  - unfold ladder_levels. by rewrite Ho, omap_app, omap_cons_eq, Hg.
Qed.

Lemma keys_sorted l : ladder_inv s min range l ->
  StronglySorted (fun p p' => before s p p' = true) (l_price <$> ladder_levels s l).
Proof.
  intros Hl. rewrite (ladder_keys s min range l Hl). induction (occupied_sorted s (bitmap_ l)) as [|i o _ IH Hall]; [constructor|].
  rewrite fmap_cons. constructor; [done|]. rewrite Forall_fmap. eapply Forall_impl; [exact Hall|].
  intros j Hj. simpl. by rewrite before_index.
Qed.

(** The occupied slot is where the binary search puts the price. *)
Lemma arr_emplace_to_vec l i : ladder_inv s min range l -> (i < range)%N ->
  exists l1 o1 o2 lv, occupy l i (min + Z.of_N i) (bs_mem (bitmap_ l) i) = Some l1 /\ ladder_inv s min range l1 /\
    occupied s (bitmap_ l1) = o1 ++ i :: o2 /\ vget (levels_ l1) i = Some lv /\ l_price lv = (min + Z.of_N i)%Z /\
    Vec.lower_bound (comp_of s) (l_price <$> ladder_levels s l) (min + Z.of_N i) = length (omap (vget (levels_ l1)) o1) /\
    vec_emplace (ladder_levels s l) (length (omap (vget (levels_ l1)) o1)) (min + Z.of_N i) =
      omap (vget (levels_ l1)) o1 ++ lv :: omap (vget (levels_ l1)) o2.
Proof.
  intros Hl Hi. destruct (bs_mem (bitmap_ l) i) eqn:Hm.
  - assert (Hin : i ∈ occupied s (bitmap_ l)) by (by apply elem_of_occupied; [apply Hl|]).
    apply list_elem_of_split in Hin as (o1 & o2 & Ho). destruct (ladder_split l o1 i o2 Hl Ho) as (lv & Hg & Hp & Hlv).
    pose proof (keys_sorted l Hl) as Hks. rewrite Hlv, fmap_app, fmap_cons in Hks.
    exists l, o1, o2, lv. split_and!; try done.
    + rewrite Hlv, fmap_app, fmap_cons, Hp, lower_bound_at; [by rewrite length_fmap|]. by rewrite Hp in Hks.
    + unfold vec_emplace. by rewrite Hlv, list_lookup_middle, Hp, Z.eqb_refl.
  - destruct (occupy_new l i Hl Hi Hm) as (l1 & o1 & o2 & Hoc & Hl1 & Ho & Ho1 & Hb1 & Hb2 & Hlv1).
    destruct (ladder_split l1 o1 i o2 Hl1 Ho1) as (lv & Hg & Hp & _).
    destruct (isorted_split s o1 i o2) as (Hn1 & Hn2 & _); [rewrite <- Ho1; apply occupied_sorted|].
    assert (lv = set_price (min + Z.of_N i) default_level) as ->.
    { rewrite Hlv1, vget_insert_eq in Hg; [by injection Hg as <-|]. by rewrite (li_slots _ _ _ _ Hl). }
    pose proof (ladder_keys s min range l Hl) as Hk. rewrite Ho, fmap_app in Hk.
    assert (Hlv : ladder_levels s l = omap (vget (levels_ l)) o1 ++ omap (vget (levels_ l)) o2).
    { unfold ladder_levels. by rewrite Ho, omap_app. }
    assert (Hlen : length (omap (vget (levels_ l)) o1) = length o1).
    { symmetry. eapply Forall2_length, (slots_of s min range); [exact Hl|]. intros j Hj. eapply (occupied_lt s); [exact Hl|].
      rewrite Ho. apply elem_of_app. by left. }
    exists l1, o1, o2, (set_price (min + Z.of_N i) default_level). rewrite Hlv1, !omap_slots_ne by done.
    split_and!; try done.
    + by rewrite <- Hlv1.
    + rewrite Hk, lower_bound_split; [by rewrite length_fmap| | |].
      * rewrite <- Hk. by apply keys_sorted.
      * rewrite Forall_fmap. eapply Forall_impl; [exact Hb1|]. intros j Hj. simpl. by rewrite before_index.
      * rewrite Forall_fmap. eapply Forall_impl; [exact Hb2|]. intros j Hj. simpl. rewrite before_index.
        by destruct s; simpl in *; rewrite N.ltb_lt, N.ltb_ge in *; lia.
    + unfold vec_emplace. rewrite Hlv, lookup_app_r, Nat.sub_diag, take_app_length, drop_app_length by done.
      destruct Hb2 as [|j o2 Hj _]; [done|]. rewrite omap_cons_eq.
      destruct (ladder_split l o1 j o2 Hl Ho) as (lvj & Hgj & Hpj & _). rewrite Hgj. simpl. rewrite Hpj.
      rewrite (proj2 (Z.eqb_neq _ _)); [done|]. intros He. assert (i = j) as -> by lia. by rewrite ibefore_irrefl in Hj.
Qed.
End resting.

(** * The operations of the book *)

Lemma best_price_to_vec s b : arr_inv b -> best_price s b = Some (VectorRefinement.best_price s (to_vec b)).
Proof.
  intros Hb. pose proof (ai_ladders b Hb s) as Hl. unfold best_price.
  replace (VectorRefinement.best_price s (to_vec b)) with (l_price <$> head (Vec.levels s (to_vec b))) by (by destruct s).
  rewrite arr_to_vec_levels. destruct (ladder_best _ _ s _ Hl) as [[-> ->]|(i & o2 & lv & -> & Ho & _ & Hp & ->)]; [done|].
  rewrite (price_of_index b i Hb); [simpl; by rewrite Hp|].
  eapply (occupied_lt s _ _ _ i Hl). rewrite Ho. left.
Qed.

Lemma arr_crosses_to_vec b o : arr_inv b -> crosses b o = Some (Vec.crosses (to_vec b) o).
Proof.
  intros Hb. unfold crosses, Vec.crosses, best_ask, best_bid.
  destruct (o_side o); rewrite best_price_to_vec by done; done.
Qed.

Lemma arr_has_liquidity_to_vec b ts ty lp needed : arr_inv b ->
  has_liquidity_for b ts ty lp needed = Vec.has_liquidity_for (to_vec b) ts ty lp needed.
Proof.
  intros Hb. unfold has_liquidity_for, Vec.has_liquidity_for. set (s := opposite ts).
  pose proof (ai_ladders b Hb s) as Hl. rewrite arr_to_vec_levels, (li_best _ _ _ _ Hl).
  apply (arr_liquidity_spec (min_price_ b) (range_ b) (arr_range_small b Hb) _ ts s _ _ _ _ _ [] _ eq_refl Hl eq_refl).
  pose proof (occupied_length s _ _ _ Hl). unfold vsize in *. lia.
Qed.

Section operations.
Context (now_ns : nat -> Timestamp).

Lemma arr_match_against_book_spec b a taker w killed taker' ls' w' :
  arep b a -> abook_ok a -> (0 <= o_remaining_quantity taker <= int64_max)%Z ->
  sweep now_ns (config_ (core_ b)) taker (side_of (opposite (o_side taker)) a) w = (killed, taker', ls', w') ->
  exists b', match_against_book now_ns b taker w = Some (killed, taker', b', w') /\
    arep b' (set_side (opposite (o_side taker)) ls' a) /\ config_ (core_ b') = config_ (core_ b) /\
    same_range b b'.
Proof.
  intros [Hb Hv] Hok Hr Hsw. set (opp := opposite (o_side taker)) in *.
  destruct (vrep_elim opp _ a Hv) as (css & css' & Hr1 & Hr2 & Hc). rewrite arr_to_vec_levels in Hr1.
  pose proof (abook_sides _ Hok opp) as Hs. pose proof (side_ok_positive _ _ Hs) as Hpos.
  pose proof (ai_ladders b Hb opp) as Hl.
  destruct (arr_match_loop_spec now_ns _ _ (arr_range_small b Hb) (S (S (length (levels_ (ladder opp b))))) taker opp _ _ _ (mjoin css') (core_ b) w
    eq_refl Hl Hr1 Hc Hpos)
    as (k & t & l & c & w1 & ls & css1 & Hm & Hl' & Hsw' & Hr1' & Hc' & Hso & Hcfg); [apply Hs|done| |].
  { pose proof (occupied_length opp _ _ _ Hl). unfold vsize in *. lia. }
  rewrite Hsw in Hsw'. injection Hsw' as <- <- <- <-.
  unfold match_against_book. fold opp. rewrite Hm. simpl. eexists. split; [reflexivity|].
  split_and!; [|by destruct opp..]. split; [by apply arr_inv_set|]. rewrite arr_to_vec_set.
  eapply (vrep_intro opp); rewrite ?core_set_levels, ?levels_set_same, ?levels_set_opp, ?levels_set_core,
      ?side_of_set_same, ?side_of_opp_set; [exact Hr1'| |exact Hc'].
  eapply side_rep_frame; [exact Hso| |exact Hr2]. intros j Hj. by eapply core_rep_disjoint.
Qed.

Lemma arr_rest_order_to_vec b o v :
  arr_inv b -> in_range b (o_price o) = true -> Vec.rest_order (to_vec b) o = Some v ->
  exists b', rest_order b o = Some b' /\ to_vec b' = v /\ arr_inv b' /\
    same_range b b'.
Proof.
  intros Hb Hin. unfold Vec.rest_order, rest_order. rewrite find_position_lower_bound, arr_to_vec_levels.
  set (s := o_side o). change (Vec.core_ (to_vec b)) with (core_ b). pose proof (ai_ladders b Hb s) as Hl.
  destruct (index_of_in_range b _ Hb Hin) as (i & -> & Hi & Hp). cbn [mbind option_bind].
  destruct (arr_emplace_to_vec s _ _ (arr_range_small b Hb) _ i Hl Hi) as (l1 & o1 & o2 & lv & Hoc & Hl1 & Ho1 & Hg & Hplv & Hpos & Hv).
  rewrite <- Hp in *. rewrite Hpos. fold (vec_emplace (ladder_levels s (ladder s b)) (length (omap (vget (levels_ l1)) o1)) (o_price o)).
  rewrite Hv, list_lookup_middle by done. rewrite bs_test_spec; [|apply Hl|by rewrite (li_bits _ _ _ _ Hl)].
  intros H. inv_opt. destruct x as [idx p]. cbn [mbind option_bind] in H. inv_opt. destruct x as [lv1 p1]. inv_opt.
  destruct x as [e ids]. inv_opt. subst v. rewrite H0. cbn [mbind option_bind].
  fold (occupy s (ladder s b) i (o_price o) (bs_mem (bitmap_ (ladder s b)) i)). rewrite Hoc. cbn [mbind option_bind].
  rewrite Hg. cbn [mbind option_bind]. rewrite H1. cbn [mbind option_bind].
  destruct (ladder_write s _ _ l1 o1 i o2 lv1 Hl1 Ho1) as (l2 & -> & _ & _ & _ & Hl2 & Hlv2).
  { rewrite (level_push_back_price _ _ _ _ _ H1), Hplv. done. }
  cbn [mbind option_bind]. rewrite H2. cbn [mbind option_bind]. eexists. split; [reflexivity|]. split_and!.
  - by rewrite arr_to_vec_set, Hlv2, insert_at_middle.
  - by apply arr_inv_set.
  - by destruct s.
Qed.

Lemma same_range_in b b' : same_range b b' -> in_range b' = in_range b.
Proof. intros [H1 H2]. unfold in_range. by rewrite H1, H2. Qed.

Definition arr_finish (order taker : Order) (killed : bool) (b : OrderBookArray) (w : World)
    : option (ExecutionReport * OrderBookArray * World) :=
  filled ← sub64 (o_quantity order) (o_remaining_quantity taker);
  if (o_remaining_quantity taker =? 0)%Z then
    Some (mkReport (o_id order) Filled filled 0 RNone, b, w)
  else if negb killed && rests_in_book taker then
    b2 ← rest_order b taker;
    Some (mkReport (o_id order) (if (0 <? filled)%Z then PartiallyFilled else New) filled
            (o_remaining_quantity taker) RNone, b2, w)
  else Some (mkReport (o_id order) Cancelled filled 0 RNone, b, w).

Lemma arr_finish_to_vec order taker killed b w r v w' :
  arr_inv b -> (rests_in_book taker = true -> in_range b (o_price taker) = true) ->
  finish order taker killed (to_vec b) w = Some (r, v, w') ->
  exists b', arr_finish order taker killed b w = Some (r, b', w') /\ to_vec b' = v /\ arr_inv b' /\ same_range b b'.
Proof.
  intros Hb Hin. unfold finish, arr_finish. destruct (sub64 _ _) as [filled|]; [|done]. cbn [mbind option_bind].
  destruct (o_remaining_quantity taker =? 0)%Z; [intros [= <- <- <-]; by exists b|].
  destruct (negb killed && rests_in_book taker) eqn:Hr; [|intros [= <- <- <-]; by exists b].
  apply andb_true_iff in Hr as [_ Hr]. intros H. inv_opt. subst.
  destruct (arr_rest_order_to_vec b taker _ Hb (Hin Hr) H0) as (b' & -> & <- & Hb' & Hsr). simpl. eauto 10.
Qed.

Lemma arr_add_order_refines b a o w r a' w' :
  arep b a -> abook_ok a -> add_pre a o ->
  spec_add now_ns (config_ (core_ b)) (in_range b) a o w = (r, a', w') ->
  exists b', add_order now_ns b o w = Some (r, b', w') /\ arep b' a' /\
    config_ (core_ b') = config_ (core_ b) /\ same_range b b'.
Proof.
  intros [Hb Hv] Hok Hpre. pose proof Hpre as [Hid Hsum _]. unfold spec_add, add_order, reject.
  assert (Hself : arep b a /\ config_ (core_ b) = config_ (core_ b) /\ same_range b b) by done.
  destruct (Z.leb_spec (o_quantity o) 0) as [Hq|Hq]; [intros [= <- <- <-]; eauto|].
  destruct (bool_decide (o_type o = Limit) && (o_price o <=? 0)%Z); [intros [= <- <- <-]; eauto|].
  destruct (bool_decide (o_type o = Limit) && negb (in_range b (o_price o))) eqn:Hrange; [intros [= <- <- <-]; eauto|].
  rewrite (proj2 (N.eqb_neq _ _) Hid). change (core_ b) with (Vec.core_ (to_vec b)). rewrite (contains_spec _ a) by done.
  cbn [mbind option_bind negb andb].
  destruct (bool_decide_reflect (o_id o ∈ o_id <$> orders a)) as [Hdup|Hfresh]; [intros [= <- <- <-]; eauto|].
  rewrite arr_has_liquidity_to_vec, (liquidity_spec _ a o Hv Hok Hq) by done. cbn [mbind option_bind]. rewrite negb_involutive.
  destruct (bool_decide (o_time_in_force o = FOK) && _); [intros [= <- <- <-]; eauto|].
  destruct (sweep now_ns (config_ (Vec.core_ (to_vec b))) _ _ w) as [[[killed taker] ls] w1] eqn:Hsw.
  destruct (settle o taker killed _) as [report a1] eqn:Hset. intros [= <- <- <-].
  pose proof (sum_remaining_nonneg _ (side_ok_positive _ _ (abook_sides _ Hok (o_side o)))) as Hnn.
  pose proof (sweep_swept _ _ a o w killed taker ls w1 Hok Hpre Hq Hfresh Hsw) as Hswept.
  rewrite arr_crosses_to_vec by done.
  replace (if bool_decide (o_type o = Market) || bool_decide (o_time_in_force o = FOK) then Some true
    else Some (Vec.crosses (to_vec b) (set_remaining (o_quantity o) o))) with
    (Some (bool_decide (o_type o = Market) || bool_decide (o_time_in_force o = FOK) ||
           Vec.crosses (to_vec b) (set_remaining (o_quantity o) o))) by (by destruct (_ || bool_decide _)).
  cbn [mbind option_bind].
  assert (Hmatch : exists b1,
    (if bool_decide (o_type o = Market) || bool_decide (o_time_in_force o = FOK) ||
        Vec.crosses (to_vec b) (set_remaining (o_quantity o) o)
     then match_against_book now_ns b (set_remaining (o_quantity o) o) w
     else Some (false, set_remaining (o_quantity o) o, b, w)) = Some (killed, taker, b1, w1) /\
    arep b1 (set_side (opposite (o_side o)) ls a) /\ config_ (core_ b1) = config_ (core_ b) /\ same_range b b1).
  { destruct (bool_decide (o_type o = Market) || _ || _) eqn:Hgo.
    - eapply (arr_match_against_book_spec b a (set_remaining (o_quantity o) o)); [done|done|simpl; lia|exact Hsw].
    - rewrite (no_attempt now_ns _ a o w Hv Hgo) in Hsw. injection Hsw as <- <- <- <-. exists b. by rewrite set_side_id. }
  destruct Hmatch as (b1 & -> & [Hb1 Hv1] & Hcfg & Hsr). cbn [mbind option_bind].
  destruct (finish_spec a o taker ls killed (to_vec b1) w1 report a1) as (v & Hfin & Hv' & Hcfg'); try done; [lia|].
  destruct (arr_finish_to_vec o taker killed b1 w1 report v w1 Hb1) as (b' & Hfin' & <- & Hb' & Hsr'); [|exact Hfin|].
  { destruct (settle_config o taker (sw_taker _ _ _ _ Hswept)) as (-> & _ & _). intros [Hl _]%andb_true_iff.
    rewrite (same_range_in _ _ Hsr), (sw_taker _ _ _ _ Hswept). rewrite Hl in Hrange. by apply negb_false_iff in Hrange. }
  exists b'. split_and!; [exact Hfin'|done|etransitivity; [exact Hcfg'|exact Hcfg]|]. destruct Hsr, Hsr'. split; congruence.
Qed.

Lemma arr_cancel_order_refines b a id r a' :
  arep b a -> abook_ok a -> spec_cancel a id = (r, a') ->
  exists b', cancel_order b id = Some (r, b') /\ arep b' a' /\ config_ (core_ b') = config_ (core_ b) /\ same_range b b'.
Proof.
  intros [Hb Hv] Hok. unfold spec_cancel, cancel_order.
  destruct (find_order id (orders a)) as [o|] eqn:Hf; cycle 1.
  { pose proof (find_absent _ a id Hv Hf) as Hn. change (Vec.core_ (to_vec b)) with (core_ b) in Hn.
    rewrite Hn. intros [= <- <-]. exists b. done. }
  intros [= <- <-]. destruct (unlink_spec _ a id o Hv Hok Hf) as
    (i & nd & lv & lvs1 & lvs2 & lv1 & p1 & p2 & er & ids & Hfind & Hnode & Hno & Hlvs & Hpr & _ & Hsub & Hun & Hp1 & Hcl & Hrel & Her & Hv').
  change (Vec.core_ (to_vec b)) with (core_ b) in *. rewrite Hfind. cbn [mbind option_bind].
  rewrite Hnode. cbn [mbind option_bind]. rewrite Hno.
  set (s := o_side o) in *. destruct (level_index b s lvs1 lv lvs2 Hb Hlvs) as (o1 & ix & o2 & Ho & Hlv1 & Hlv2 & Hg & Hpl & Hi).
  pose proof (ai_ladders b Hb s) as Hl. rewrite Hpr in Hpl.
  destruct (index_of_in_range b (o_price o) Hb) as (ix' & -> & _ & Hpx); [rewrite Hpl; by apply index_in_range|].
  assert (ix' = ix) as -> by lia. cbn [mbind option_bind]. rewrite Hg. cbn [mbind option_bind].
  rewrite Hsub. cbn [mbind option_bind]. rewrite Hun. cbn [mbind option_bind].
  destruct (level_empty lv1) eqn:He.
  - destruct (ladder_empty s _ _ (arr_range_small b Hb) _ o1 ix o2 lv1 Hl Ho ltac:(congruence) (Hcl eq_refl))
      as (l1 & bm & -> & Hbm & Hbest & Hclr & Hnext & Hocc & Hinv). cbn [mbind option_bind].
    rewrite Hclr. cbn [mbind option_bind]. rewrite Hbest, (li_best _ _ _ _ Hl), Ho.
    assert (Hb' : (if bool_decide (head (o1 ++ ix :: o2) = Some ix) then next_index s bm ix else Some (head (o1 ++ ix :: o2))) =
      Some (head (o1 ++ o2))).
    { destruct o1 as [|j o1]; cbn [app head]; [by rewrite bool_decide_eq_true_2|]. rewrite bool_decide_eq_false_2; [done|].
      intros [= ->]. pose proof (occupied_sorted s (bitmap_ (ladder s b))) as Hs. rewrite Ho in Hs.
      destruct (isorted_split s _ _ _ Hs) as (Hn & _). apply Hn. left. }
    rewrite Hb'. cbn [mbind option_bind]. rewrite Hrel. cbn [mbind option_bind]. rewrite Her. cbn [mbind option_bind].
    destruct (Hinv _ eq_refl) as [Hl2 Hlv]. eexists. split; [reflexivity|]. split_and!; [|by destruct s..].
    split; [by apply arr_inv_set|]. by rewrite arr_to_vec_set, Hlv, <- Hlv1, <- Hlv2.
  - destruct (ladder_write s _ _ _ o1 ix o2 lv1 Hl Ho ltac:(congruence)) as (l1 & -> & _ & _ & _ & Hl1 & Hlv).
    cbn [mbind option_bind]. rewrite Hrel. cbn [mbind option_bind]. rewrite Her. cbn [mbind option_bind].
    eexists. split; [reflexivity|]. split_and!; [|by destruct s..].
    split; [by apply arr_inv_set|]. by rewrite arr_to_vec_set, Hlv, <- Hlv1, <- Hlv2.
Qed.

Lemma arr_amend_order_refines b a id q np w r a' w' :
  arep b a -> abook_ok a -> amend_pre a id q ->
  spec_amend now_ns (config_ (core_ b)) (in_range b) a id q np w = (r, a', w') ->
  exists b', amend_order now_ns b id q np w = Some (r, b', w') /\ arep b' a' /\
    config_ (core_ b') = config_ (core_ b) /\ same_range b b'.
Proof.
  intros Hbv Hok Hpre. pose proof Hbv as [Hb Hv]. unfold spec_amend, amend_order, reject.
  assert (Hself : arep b a /\ config_ (core_ b) = config_ (core_ b) /\ same_range b b) by done.
  destruct (find_order id (orders a)) as [o|] eqn:Hf; cycle 1.
  { pose proof (find_absent _ a id Hv Hf) as Hn. change (Vec.core_ (to_vec b)) with (core_ b) in Hn.
    rewrite Hn. intros [= <- <- <-]. eauto. }
  destruct (find_order_Some _ _ _ Hf) as [Ho Hid]. destruct (abook_ok_resting a o Hok Ho) as ((_ & _ & Hpos & _ & Hid0) & _ & _).
  destruct (size_down_spec _ a id o (o_remaining_quantity o) Hv Hok Hf ltac:(lia))
    as (i & nd & _ & _ & _ & _ & _ & Hfind & Hnode & Hno & _).
  change (Vec.core_ (to_vec b)) with (core_ b) in Hfind, Hnode. rewrite Hfind. cbn [mbind option_bind].
  destruct (Z.leb_spec q 0) as [Hq|Hq]; [intros [= <- <- <-]; eauto|].
  replace (match np with Some p => negb (in_range b p) | None => false end)
    with (negb (default true (in_range b <$> np))) by (by destruct np).
  destruct (negb (default true (in_range b <$> np))); [intros [= <- <- <-]; eauto|].
  rewrite Hnode. cbn [mbind option_bind]. rewrite Hno.
  assert (Hpc : (match np with Some p => negb (p =? o_price o) | None => false end)%Z =
    negb (default (o_price o) np =? o_price o)%Z) by (destruct np; [done|simpl; by rewrite Z.eqb_refl]).
  rewrite Hpc, Z.ltb_antisym, !negb_involutive.
  destruct ((default (o_price o) np =? o_price o)%Z && (q <=? o_remaining_quantity o)%Z) eqn:Hdown.
  - apply andb_true_iff in Hdown as [_ Hle%Z.leb_le]. intros [= <- <- <-].
    destruct (size_down_spec _ a id o q Hv Hok Hf ltac:(lia))
      as (i' & _ & lv & lvs1 & lvs2 & lv1 & p1 & Hfind' & _ & _ & Hlvs & Hp & _ & Hsub & Hred & Hp1 & Hv').
    change (Vec.core_ (to_vec b)) with (core_ b) in *. rewrite Hfind in Hfind'. injection Hfind' as <-. set (s := o_side o) in *.
    destruct (level_index b s lvs1 lv lvs2 Hb Hlvs) as (o1 & ix & o2 & Hocc & Hlv1 & Hlv2 & Hg & Hpl & Hi).
    rewrite Hp in Hpl.
    destruct (index_of_in_range b (o_price o) Hb) as (ix' & -> & _ & Hpx); [rewrite Hpl; by apply index_in_range|].
    assert (ix' = ix) as -> by lia. cbn [mbind option_bind]. rewrite Hg. cbn [mbind option_bind].
    rewrite Hsub. cbn [mbind option_bind]. rewrite Hred. cbn [mbind option_bind].
    destruct (ladder_write s _ _ _ o1 ix o2 lv1 (ai_ladders b Hb s) Hocc ltac:(congruence)) as (l1 & -> & _ & _ & _ & Hl1 & Hlv).
    cbn [mbind option_bind]. eexists. split; [reflexivity|]. split_and!; [|by destruct s..].
    split; [by apply arr_inv_set|]. by rewrite arr_to_vec_set, Hlv, <- Hlv1, <- Hlv2.
  - destruct (spec_cancel a id) as [rc a1] eqn:Hsc.
    destruct (arr_cancel_order_refines b a id rc a1 Hbv Hok Hsc) as (b1 & -> & Hv1 & Hcfg1 & Hsr1). cbn [mbind option_bind snd].
    rewrite <- Hcfg1, <- (same_range_in _ _ Hsr1). intros Hadd.
    pose proof (spec_cancel_ok a id Hok) as Hok1. rewrite Hsc in Hok1.
    destruct (arr_add_order_refines b1 a1 _ _ _ _ _ Hv1 Hok1 ltac:(unfold spec_cancel in Hsc; rewrite Hf in Hsc;
      injection Hsc as _ <-; by apply (replacement_pre a id o)) Hadd) as (b' & Hr & Hv' & Hcfg' & Hsr').
    exists b'. split_and!; [exact Hr|done|done|]. destruct Hsr1, Hsr'. split; congruence.
Qed.
End operations.

(** ** Construction, reset and observations *)

Lemma new_ladder_inv s min range : (range + 63 < two64)%N -> ladder_inv s min range (new_ladder range) /\
  ladder_levels s (new_ladder range) = [].
Proof.
  intros Hr. destruct (new_bitset_ok range Hr) as [Hok Hm].
  assert (Hocc : occupied s (new_bitset range) = []).
  { apply occupied_ext; [done|constructor|]. intros i. rewrite Hm. split; [by intros ?%elem_of_nil|done]. }
  split; [|unfold ladder_levels; simpl; by rewrite Hocc]. split; simpl; try done.
  - unfold vsize. rewrite length_replicate. lia.
  - by rewrite Hocc.
  - intros i lv _. by rewrite Hm.
  - intros i lv Hg _. unfold vget in Hg. apply lookup_replicate in Hg as [-> _]. done.
Qed.

Lemma arr_new_book_rep symbol min max hint stp : (hint <= 2 ^ 62)%N -> (0 < min <= max)%Z -> (max <= int64_max)%Z ->
  exists b, new_book symbol min max hint stp = Some (inr b) /\ arep b empty_abook /\
    config_ (core_ b) = mkConfig symbol false stp /\ min_price_ b = min /\ max_price_ b = max.
Proof.
  intros Hh Hmin Hmax. destruct (new_book_rep symbol hint stp Hh) as (v & Hn & Hv & Hc). unfold Vec.new_book in Hn.
  unfold new_book, validate_and_compute_range.
  rewrite (proj2 (Z.ltb_ge _ _)), (proj2 (Z.leb_gt _ _)), sub64_ok by (unfold int64_min, int64_max in *; lia).
  cbn [mbind option_bind]. rewrite to_size_small, inc64_small by (unfold int64_max, two64 in *; lia).
  inv_opt. rewrite H. cbn [mbind option_bind]. eexists. split; [reflexivity|]. subst v.
  assert (Hsmall : (Z.to_N (max - min) + 1 + 63 < two64)%N) by (unfold int64_max, two64 in *; lia).
  split_and!; try done. split.
  - split; simpl; [lia|lia|lia|]. intros []; by apply new_ladder_inv.
  - unfold to_vec. simpl. rewrite !(proj2 (new_ladder_inv _ min _ Hsmall)). done.
Qed.

Lemma clear_orders_clean lv : clear_orders lv = set_price (l_price (clear_orders lv)) default_level.
Proof. done. Qed.

Section reset.
Context (min : Price) (range : N).
Hypothesis range_small : (range < two64 - 1)%N.

Lemma clear_loop_spec fuel ls bm :
  ladder_inv Sell min range (mkLadder ls bm (head (members bm))) -> (length (members bm) <= fuel)%nat ->
  exists ls' bm', clear_loop fuel ls bm (head (members bm)) = Some (ls', bm') /\
    ladder_inv Sell min range (mkLadder ls' bm' None) /\ members bm' = [].
Proof.
  revert ls bm. induction fuel as [|fuel IH]; intros ls bm Hl Hf.
  { destruct (members bm) eqn:Hm; simpl in *; [|lia]. eauto. }
  destruct (members bm) as [|i o2] eqn:Hm; [simpl; eauto|]. cbn [head clear_loop].
  destruct (ladder_split Sell min range range_small _ [] i o2 Hl Hm) as (lv & Hg & Hp & _). cbn [levels_] in Hg.
  rewrite Hg. cbn [mbind option_bind].
  destruct (ladder_empty Sell min range range_small _ [] i o2 (clear_orders lv) Hl Hm Hp (clear_orders_clean lv))
    as (l1 & bm1 & Hset & Hb & _ & Hclr & Hnext & Hocc & Hinv).
  unfold set_level in Hset. cbn [levels_ bitmap_] in *. inv_opt. subst l1. rewrite H. cbn [mbind option_bind].
  cbn [bitmap_] in Hclr. rewrite Hclr. cbn [mbind option_bind]. cbn [next_index] in Hnext. rewrite Hnext. cbn [mbind option_bind].
  cbn [occupied app] in Hocc. destruct (Hinv (head o2) eq_refl) as [Hl2 _]. cbn [levels_] in Hl2.
  rewrite <- Hocc in Hl2 |- *. apply IH; [done|]. rewrite Hocc. simpl in Hf. lia.
Qed.

Lemma clear_side_spec s l : ladder_inv s min range l ->
  exists l', clear_side l = Some l' /\ ladder_inv s min range l' /\ ladder_levels s l' = [].
Proof.
  intros Hl. pose proof Hl as [H1 H2 H3 H4 H5 H6].
  assert (Hn : find_next_set (bitmap_ l) 0 = Some (head (members (bitmap_ l)))).
  { destruct (find_next_set_spec (bitmap_ l) 0 H3) as (r & -> & Hr). f_equal.
    pose proof (occupied_sorted Sell (bitmap_ l)) as Hs. simpl in Hs.
    destruct (members (bitmap_ l)) as [|x o] eqn:Hm; simpl in *.
    - destruct r as [p|]; [|done]. destruct Hr as (_ & _ & Hp & _). apply elem_of_members in Hp; [|done].
      rewrite Hm in Hp. by apply elem_of_nil in Hp.
    - assert (Hx : bs_mem (bitmap_ l) x = true) by (apply elem_of_members; [done|rewrite Hm; left]).
      destruct r as [p|]; [|rewrite Hr in Hx by lia; done]. destruct Hr as (_ & _ & Hp & Hmin). f_equal.
      apply elem_of_members in Hp; [|done]. rewrite Hm in Hp. apply elem_of_cons in Hp as [->|Hp]; [done|].
      apply StronglySorted_inv in Hs as [_ Hall]. rewrite Forall_forall in Hall. specialize (Hall _ Hp). apply N.ltb_lt in Hall.
      rewrite Hmin in Hx by lia. done. }
  unfold clear_side. rewrite Hn. cbn [mbind option_bind].
  destruct (clear_loop_spec (length (levels_ l)) (levels_ l) (bitmap_ l)) as (ls & bm & -> & Hl' & Hm).
  { by split. }
  { pose proof (occupied_length s _ _ _ Hl) as Ho. destruct s; simpl in Ho; rewrite ?length_reverse in Ho; done. }
  cbn [mbind option_bind]. eexists. split; [reflexivity|]. destruct Hl' as [L1 L2 L3 L4 L5 L6]. cbn [levels_ bitmap_] in *.
  assert (Ho : occupied s bm = []) by (destruct s; simpl; rewrite Hm; done).
  split; [split; try done; simpl; by rewrite Ho|]. unfold ladder_levels. simpl. by rewrite Ho.
Qed.
End reset.

Lemma arr_reset_rep b a : arep b a ->
  exists b', reset b = Some b' /\ arep b' empty_abook /\ config_ (core_ b') = config_ (core_ b) /\ same_range b b'.
Proof.
  intros [Hb Hv]. pose proof (arr_range_small b Hb) as Hr. unfold reset.
  destruct (clear_side_spec _ _ Hr Buy _ (ai_ladders b Hb Buy)) as (l1 & Hc1 & Hl1 & Hv1). cbn [ladder] in Hc1. rewrite Hc1.
  destruct (clear_side_spec _ _ Hr Sell _ (ai_ladders b Hb Sell)) as (l2 & Hc2 & Hl2 & Hv2). cbn [ladder] in Hc2. simpl. rewrite Hc2.
  simpl. eexists. split; [reflexivity|]. split_and!; [|done..]. split.
  - destruct Hb. split; try done. by intros [].
  - unfold to_vec. simpl. rewrite Hv1, Hv2. by apply (reset_rep (to_vec b) a).
Qed.

Lemma arr_set_callback_rep b a : arep b a -> arep (set_trade_callback b) a.
Proof.
  intros [Hb Hv]. split; [|by apply (set_callback_rep (to_vec b))].
  destruct Hb as [H1 H2 H3 H4]. by split.
Qed.
