(* ===== verification/Books.v ===== *)
(** The three order books as instances of the interface, and the theorems that
    follow for each of them from the contract: the refinement of whole
    workloads, and the equivalence of the three implementations. *)

From S2P Require Import Prelude Types OrderPool IdIndexMap IdIndexMapFacts Bitset BookCore BookSpec BookSpecFacts.
From S2P Require Import BookRep BookInterface OrderBookVector VectorRefinement OrderBookMap MapRefinement.
From S2P Require Import OrderBookArray ArrayRefinement.

(** * Instances *)

#[export] Instance vec_ops : BookOps Vec.OrderBookVector := {|
  bk_config b := config_ (Vec.core_ b);
  bk_in_range _ _ := true;
  bk_add := Vec.add_order;
  bk_cancel := Vec.cancel_order;
  bk_amend := Vec.amend_order;
  bk_reset b := Some (Vec.reset b);
  bk_set_callback := Vec.set_trade_callback;
  bk_best s b := Some match s with Buy => Vec.best_bid b | Sell => Vec.best_ask b end;
  bk_depth s b n := Some match s with Buy => Vec.bid_depth b n | Sell => Vec.ask_depth b n end;
  bk_count := Vec.order_count
|}.

#[export] Instance map_ops : BookOps MapBook.OrderBookMap := {|
  bk_config b := config_ (MapBook.core_ b);
  bk_in_range _ _ := true;
  bk_add := MapBook.add_order;
  bk_cancel := MapBook.cancel_order;
  bk_amend := MapBook.amend_order;
  bk_reset b := Some (MapBook.reset b);
  bk_set_callback := MapBook.set_trade_callback;
  bk_best s b := Some match s with Buy => MapBook.best_bid b | Sell => MapBook.best_ask b end;
  bk_depth s b n := Some match s with Buy => MapBook.bid_depth b n | Sell => MapBook.ask_depth b n end;
  bk_count := MapBook.order_count
|}.

#[export] Instance arr_ops : BookOps Arr.OrderBookArray := {|
  bk_config b := config_ (Arr.core_ b);
  bk_in_range := Arr.in_range;
  bk_add := Arr.add_order;
  bk_cancel := Arr.cancel_order;
  bk_amend := Arr.amend_order;
  bk_reset := Arr.reset;
  bk_set_callback := Arr.set_trade_callback;
  bk_best s b := match s with Buy => Arr.best_bid b | Sell => Arr.best_ask b end;
  bk_depth s b n := match s with Buy => Arr.bid_depth b n | Sell => Arr.ask_depth b n end;
  bk_count := Arr.order_count
|}.

Ltac setup_tac := repeat match goal with
  | H : exists _, _ |- _ => destruct H as [? H]
  | H : _ /\ _ |- _ => destruct H
  end; eexists; split_and!; eauto; split; eauto.

#[export] Instance vec_laws : BookLaws Vec.OrderBookVector.
Proof.
  refine {| bk_rep := vrep |}.
  - intros now_ns b a o w r a' w' H1 H2 H3 H4.
    pose proof (add_order_refines now_ns b a o w r a' w' H1 H2 H3 H4). setup_tac.
  - intros b a id r a' H1 H2 H3. pose proof (cancel_order_refines b a id r a' H1 H2 H3). setup_tac.
  - intros now_ns b a id q p w r a' w' H1 H2 H3 H4.
    pose proof (amend_order_refines now_ns b a id q p w r a' w' H1 H2 H3 H4). setup_tac.
  - intros b a H. pose proof (reset_rep b a H). setup_tac.
  - intros b a H. split; [by apply set_callback_rep|done].
  - intros s b a H. pose proof (best_price_rep s b a H) as Hb. by destruct s; rewrite <- Hb.
  - intros s b a n H. pose proof (level_depth_rep s b a n H) as Hd. by destruct s; rewrite <- Hd.
  - apply order_count_rep.
Defined.

#[export] Instance map_laws : BookLaws MapBook.OrderBookMap.
Proof.
  refine {| bk_rep := mrep |}.
  - intros now_ns b a o w r a' w' H1 H2 H3 H4.
    pose proof (map_add_order_refines now_ns b a o w r a' w' H1 H2 H3 H4). setup_tac.
  - intros b a id r a' H1 H2 H3. pose proof (map_cancel_order_refines b a id r a' H1 H2 H3). setup_tac.
  - intros now_ns b a id q p w r a' w' H1 H2 H3 H4.
    pose proof (map_amend_order_refines now_ns b a id q p w r a' w' H1 H2 H3 H4). setup_tac.
  - intros b a H. pose proof (map_reset_rep b a H). setup_tac.
  - intros b a H. split; [by apply map_set_callback_rep|done].
  - intros s b a [Hwf H]. rewrite <- (best_price_rep s _ a H).
    destruct s; simpl; by rewrite ?best_bid_to_vec, ?best_ask_to_vec.
  - intros s b a n [Hwf H]. rewrite <- (level_depth_rep s _ a n H).
    destruct s; simpl; f_equal; symmetry; apply depth_to_vec; apply (Hwf Buy) || apply (Hwf Sell).
  - intros b a [_ H]. apply (order_count_rep _ _ H).
Defined.

#[export] Instance arr_laws : BookLaws Arr.OrderBookArray.
Proof.
  refine {| bk_rep := arep |}.
  - intros now_ns b a o w r a' w' H1 H2 H3 H4.
    destruct (arr_add_order_refines now_ns b a o w r a' w' H1 H2 H3 H4) as (b' & ? & ? & ? & Hr%same_range_in).
    exists b'. split_and!; try done. split; [done|]. intros p. simpl. by rewrite Hr.
  - intros b a id r a' H1 H2 H3.
    destruct (arr_cancel_order_refines b a id r a' H1 H2 H3) as (b' & ? & ? & ? & Hr%same_range_in).
    exists b'. split_and!; try done. split; [done|]. intros p. simpl. by rewrite Hr.
  - intros now_ns b a id q p w r a' w' H1 H2 H3 H4.
    destruct (arr_amend_order_refines now_ns b a id q p w r a' w' H1 H2 H3 H4) as (b' & ? & ? & ? & Hr%same_range_in).
    exists b'. split_and!; try done. split; [done|]. intros p'. simpl. by rewrite Hr.
  - intros b a H. destruct (arr_reset_rep b a H) as (b' & ? & ? & ? & Hr%same_range_in).
    exists b'. split_and!; try done. split; [done|]. intros p. simpl. by rewrite Hr.
  - intros b a H. split; [by apply arr_set_callback_rep|done].
  - intros s b a [Hb H]. rewrite <- (best_price_rep s _ a H), <- (best_price_to_vec s b Hb). by destruct s.
  - intros s b a n [Hb H]. rewrite <- (level_depth_rep s _ a n H). pose proof (ai_ladders b Hb s) as Hl.
    pose proof (arr_depth_spec _ _ (arr_range_small b Hb) n s _ [] _ Hl eq_refl) as Hd. rewrite <- (li_best _ _ _ _ Hl) in Hd.
    destruct s; simpl in *; unfold Arr.bid_depth, Arr.ask_depth; rewrite Hd;
      unfold Vec.bid_depth, Vec.ask_depth; by rewrite take_min_length.
  - intros b a [_ H]. apply (order_count_rep _ _ H).
Defined.
