(* ===== verification/BookTheorems.v ===== *)
(** The theorems on the three order books that a user of the library relies on.

    A session builds a book, installs a trade callback and makes a workload of
    calls; the theorems speak about the book a session leaves, about its next
    call, and about the trades reported to the callback. *)

From S2P Require Import Prelude Types OrderPool IdIndexMap IdIndexMapFacts Bitset BookCore BookSpec BookSpecFacts.
From S2P Require Import BookTrades BookRep BookInterface SelfTrade OrderBookVector VectorRefinement OrderBookMap.
From S2P Require Import MapRefinement OrderBookArray ArrayRefinement Books.

(** * Sessions *)

Definition world0 : World := mkWorld 0 [].

Definition vec_session (now_ns : nat -> Timestamp) (symbol : SymbolId) (hint : N) (stp : SelfTradePrevention)
    (cs : list Command) : option (list Answer * Vec.OrderBookVector * World) :=
  b ← Vec.new_book symbol hint stp;
  run now_ns (Vec.set_trade_callback b) cs world0.

Definition map_session (now_ns : nat -> Timestamp) (symbol : SymbolId) (hint : N) (stp : SelfTradePrevention)
    (cs : list Command) : option (list Answer * MapBook.OrderBookMap * World) :=
  b ← MapBook.new_book symbol hint stp;
  run now_ns (MapBook.set_trade_callback b) cs world0.

(** The constructor of the array book may throw; a session needs a book. *)
Definition arr_session (now_ns : nat -> Timestamp) (symbol : SymbolId) (min max : Price) (hint : N)
    (stp : SelfTradePrevention) (cs : list Command) : option (list Answer * Arr.OrderBookArray * World) :=
  r ← Arr.new_book symbol min max hint stp;
  match r with
  | inl _ => None
  | inr b => run now_ns (Arr.set_trade_callback b) cs world0
  end.

(** Capacity hints for which the first allocation is within 64 bits. *)
Definition hint_ok (hint : N) : bool := (hint <=? 2 ^ 62)%N.

Definition band_ok (min max : Price) : bool := (0 <? min)%Z && (min <=? max)%Z && (max <=? int64_max)%Z.

Definition in_band (min max p : Price) : bool := (min <=? p)%Z && (p <=? max)%Z.

Section sessions.
Context (now_ns : nat -> Timestamp).

(** A session is a run from an empty book with the callback installed. *)
Lemma vec_session_inv symbol hint stp : hint_ok hint = true ->
  exists b0 : Vec.OrderBookVector, bk_rep b0 empty_abook /\ bk_config b0 = mkConfig symbol true stp /\
    forall cs, vec_session now_ns symbol hint stp cs = run now_ns b0 cs world0.
Proof.
  intros Hh%N.leb_le. destruct (new_book_rep symbol hint stp Hh) as (b & Hb & Hr & Hc).
  exists (Vec.set_trade_callback b). split_and!.
  - by apply set_callback_rep.
  - simpl. by rewrite Hc.
  - intros cs. unfold vec_session. by rewrite Hb.
Qed.

Lemma map_session_inv symbol hint stp : hint_ok hint = true ->
  exists b0 : MapBook.OrderBookMap, bk_rep b0 empty_abook /\ bk_config b0 = mkConfig symbol true stp /\
    forall cs, map_session now_ns symbol hint stp cs = run now_ns b0 cs world0.
Proof.
  intros Hh%N.leb_le. destruct (map_new_book_rep symbol hint stp Hh) as (b & Hb & Hr & Hc).
  exists (MapBook.set_trade_callback b). split_and!.
  - by apply map_set_callback_rep.
  - simpl. by rewrite Hc.
  - intros cs. unfold map_session. by rewrite Hb.
Qed.

Lemma arr_session_inv symbol min max hint stp : hint_ok hint = true -> band_ok min max = true ->
  exists b0 : Arr.OrderBookArray, bk_rep b0 empty_abook /\ bk_config b0 = mkConfig symbol true stp /\
    (forall p, bk_in_range b0 p = in_band min max p) /\
    forall cs, arr_session now_ns symbol min max hint stp cs = run now_ns b0 cs world0.
Proof.
  intros Hh%N.leb_le [[H1%Z.ltb_lt H2%Z.leb_le]%andb_true_iff H3%Z.leb_le]%andb_true_iff.
  destruct (arr_new_book_rep symbol min max hint stp Hh) as (b & Hb & Hr & Hc & Hmin & Hmax); [lia|lia|].
  exists (Arr.set_trade_callback b). split_and!.
  - by apply arr_set_callback_rep.
  - simpl. by rewrite Hc.
  - intros p. simpl. unfold Arr.in_range, in_band. simpl. by rewrite Hmin, Hmax.
  - intros cs. unfold arr_session. by rewrite Hb.
Qed.

Lemma run_shows {B} `{BookLaws B} (b0 : B) cs rs a w : bk_rep b0 empty_abook -> workload_ok cs = true ->
  spec_run now_ns (bk_config b0) (bk_in_range b0) empty_abook cs world0 = (rs, a, w) ->
  exists b, run now_ns b0 cs world0 = Some (rs, b, w) /\ shows b a.
Proof.
  intros Hr Hw Hs. destruct (run_refines_empty now_ns b0 cs world0 rs a w Hr Hw Hs) as (b & Hrun & Hb & _).
  exists b. split; [done|]. by apply rep_shows.
Qed.

(** The trades and the report of an [add_order] at the end of a session. *)
Lemma reached_outcome {B} `{BookLaws B} (b0 : B) cs o rs b w r b' w' :
  bk_rep b0 empty_abook -> trade_callback_ (bk_config b0) = true -> workload_ok (cs ++ [CAdd o]) = true ->
  run now_ns b0 cs world0 = Some (rs, b, w) -> bk_add now_ns b o w = Some (r, b', w') ->
  exists a a' ts, bk_rep b a /\ abook_ok a /\ bk_rep b' a' /\ abook_ok a' /\
    spec_add now_ns (bk_config b0) (bk_in_range b0) a o w = (r, a', w') /\
    add_pre a o /\ add_outcome (bk_config b0) a o w r a' w' ts.
Proof.
  intros Hr Hcb Hw Hrun Hadd.
  destruct (reached_add now_ns b0 cs o world0 rs b w Hr Hw Hrun) as (a & r1 & a' & b1 & w1 & Hra & Hok & Hpre & Hadd' & Hs & Hra' & Hok').
  rewrite Hadd in Hadd'. injection Hadd' as <- <- <-.
  destruct (spec_add_outcome now_ns _ _ _ _ _ _ _ _ Hcb Hok Hpre Hs) as [ts Hts]. eauto 15.
Qed.
End sessions.

(** * A workload to evaluate the theorems on *)

Definition tick : nat -> Timestamp := N.of_nat.

Definition limit (id : OrderId) (s : Side) (p : Price) (q : Quantity) (who : ParticipantId) : Order :=
  mkOrder id p q q 0 1 who s Limit GTC.

Definition with_tif (tif : TimeInForce) (o : Order) : Order :=
  mkOrder (o_id o) (o_price o) (o_quantity o) (o_remaining_quantity o) (o_timestamp o) (o_symbol o)
    (o_participant_id o) (o_side o) (o_type o) tif.

Definition market (id : OrderId) (s : Side) (q : Quantity) (who : ParticipantId) : Order :=
  mkOrder id kMarketOrderPrice q q 0 1 who s Market GTC.

(** Two levels of asks and one bid, a partial fill, a size-down amend and a
    cancel. *)
Definition demo : list Command :=
  [CAdd (limit 1 Sell 101 10 7); CAdd (limit 2 Sell 101 5 8); CAdd (limit 3 Sell 103 4 7);
   CAdd (limit 4 Buy 99 6 9); CAdd (limit 5 Buy 101 3 9); CAmend 2 4 None; CCancel 4; CAdd (limit 6 Buy 98 2 9)].

Section claims.
Context (now_ns : nat -> Timestamp).

(** C2. Sorted-vector book: every workload of [add_order], [cancel_order],
    [amend_order] and [reset] calls is defined (no out-of-range access, signed
    overflow, failed assertion or endless loop), every report, every trade
    given to the callback and everything the book shows afterwards are those
    of the abstract book. *)
Theorem vec_session_refines symbol hint stp cs rs a w :
  hint_ok hint = true -> workload_ok cs = true ->
  spec_run now_ns (mkConfig symbol true stp) (fun _ => true) empty_abook cs world0 = (rs, a, w) ->
  exists b : Vec.OrderBookVector, vec_session now_ns symbol hint stp cs = Some (rs, b, w) /\ shows b a.
Proof.
  intros Hh Hw Hs. destruct (vec_session_inv now_ns symbol hint stp Hh) as (b0 & Hr & Hc & Hrun). rewrite Hrun.
  apply (run_shows now_ns b0); [done|done|]. by rewrite Hc.
Qed.

(** C3. [std::map] book: every workload is defined and answers, trades and
    shows what the abstract book does. *)
Theorem map_session_refines symbol hint stp cs rs a w :
  hint_ok hint = true -> workload_ok cs = true ->
  spec_run now_ns (mkConfig symbol true stp) (fun _ => true) empty_abook cs world0 = (rs, a, w) ->
  exists b : MapBook.OrderBookMap, map_session now_ns symbol hint stp cs = Some (rs, b, w) /\ shows b a.
Proof.
  intros Hh Hw Hs. destruct (map_session_inv now_ns symbol hint stp Hh) as (b0 & Hr & Hc & Hrun). rewrite Hrun.
  apply (run_shows now_ns b0); [done|done|]. by rewrite Hc.
Qed.

(** C1. Direct-indexed book: every workload is defined and answers, trades and
    shows what the abstract book does, with every limit price outside
    [min_price .. max_price] rejected. *)
Theorem arr_session_refines symbol min max hint stp cs rs a w :
  hint_ok hint = true -> band_ok min max = true -> workload_ok cs = true ->
  spec_run now_ns (mkConfig symbol true stp) (in_band min max) empty_abook cs world0 = (rs, a, w) ->
  exists b : Arr.OrderBookArray, arr_session now_ns symbol min max hint stp cs = Some (rs, b, w) /\ shows b a.
Proof.
  intros Hh Hb Hw Hs. destruct (arr_session_inv now_ns symbol min max hint stp Hh Hb) as (b0 & Hr & Hc & Hrg & Hrun).
  rewrite Hrun. apply (run_shows now_ns b0); [done|done|]. rewrite Hc. by rewrite (spec_run_ext _ _ _ (in_band min max)).
Qed.

(** C4. The three books are interchangeable: on a workload whose prices lie in
    the array book's band, they give the same answers and the same trades, and
    show the same best prices and the same depth. *)
Theorem books_equivalent symbol min max hint stp cs :
  hint_ok hint = true -> band_ok min max = true -> workload_ok cs = true ->
  forallb (price_in (in_band min max)) cs = true ->
  exists rs w (bm : MapBook.OrderBookMap) (bv : Vec.OrderBookVector) (ba : Arr.OrderBookArray),
    map_session now_ns symbol hint stp cs = Some (rs, bm, w) /\
    vec_session now_ns symbol hint stp cs = Some (rs, bv, w) /\
    arr_session now_ns symbol min max hint stp cs = Some (rs, ba, w) /\
    forall s n, bk_best s bm = bk_best s bv /\ bk_best s ba = bk_best s bv /\
      bk_depth s bm n = bk_depth s bv n /\ bk_depth s ba n = bk_depth s bv n.
Proof.
  intros Hh Hb Hw Hp.
  destruct (vec_session_inv now_ns symbol hint stp Hh) as (bv & Hrv & Hcv & Hrunv).
  destruct (map_session_inv now_ns symbol hint stp Hh) as (bm & Hrm & Hcm & Hrunm).
  destruct (arr_session_inv now_ns symbol min max hint stp Hh Hb) as (ba & Hra & Hca & Hrg & Hruna).
  destruct (spec_run now_ns (mkConfig symbol true stp) (fun _ => true) empty_abook cs world0) as [[rs a] w] eqn:Hs.
  assert (Hs' : spec_run now_ns (mkConfig symbol true stp) (in_band min max) empty_abook cs world0 = (rs, a, w)).
  { pose proof Hw as [[Hid Ht%Z.leb_le]%andb_true_iff Hn%N.ltb_lt]%andb_true_iff.
    apply (spec_run_prices now_ns _ _ 0 0); try done; [|by constructor].
    split; [apply empty_abook_ok|by apply within_empty]. }
  destruct (run_shows now_ns bv cs rs a w Hrv Hw ltac:(by rewrite Hcv)) as (bv' & Hv & Sv1 & Sv2 & _).
  destruct (run_shows now_ns bm cs rs a w Hrm Hw ltac:(by rewrite Hcm)) as (bm' & Hm & Sm1 & Sm2 & _).
  destruct (run_shows now_ns ba cs rs a w Hra Hw) as (ba' & Ha & Sa1 & Sa2 & _).
  { rewrite Hca. by rewrite (spec_run_ext _ _ _ (in_band min max)). }
  exists rs, w, bm', bv', ba'. rewrite Hrunm, Hrunv, Hruna. split_and!; try done.
  intros s n. by rewrite Sv1, Sm1, Sa1, Sv2, Sm2, Sa2.
Qed.

(** C16. The book is never crossed: after any workload with 64-bit prices,
    [spread()] is defined, and positive whenever both sides have orders. *)
Theorem map_spread_positive symbol hint stp cs rs b w :
  hint_ok hint = true -> workload_ok cs = true -> forallb (price_in (fun p => (p <=? int64_max)%Z)) cs = true ->
  map_session now_ns symbol hint stp cs = Some (rs, b, w) ->
  exists sp, MapBook.spread b = Some sp /\
    match sp with
    | Some d => (0 < d)%Z
    | None => MapBook.best_bid b = None \/ MapBook.best_ask b = None
    end.
Proof.
  intros Hh Hw Hp Hrun. destruct (map_session_inv now_ns symbol hint stp Hh) as (b0 & Hr & Hc & Heq). rewrite Heq in Hrun.
  pose proof Hw as Hw'. rewrite <- (app_nil_r cs) in Hw'.
  destruct (reached now_ns b0 cs [] world0 rs b w Hr Hw' Hrun) as (a & Hs & Hra & _ & [Hok _]).
  assert (Hin : resting_in (fun p => (p <=? int64_max)%Z) a).
  { pose proof Hw as [[Hid Ht%Z.leb_le]%andb_true_iff Hn%N.ltb_lt]%andb_true_iff.
    apply (spec_run_prices now_ns (bk_config b0) (fun p => (p <=? int64_max)%Z) 0 0 empty_abook cs world0 rs a w);
      try done; [|by constructor]. split; [apply empty_abook_ok|by apply within_empty]. }
  pose proof (bk_best_law Buy b a Hra) as Hbb. pose proof (bk_best_law Sell b a Hra) as Hba. simpl in Hbb, Hba.
  injection Hbb as Hbb. injection Hba as Hba. unfold MapBook.spread. rewrite Hbb, Hba.
  destruct (best Buy a) as [bb|] eqn:Eb; [|eexists; split; [done|by left]].
  destruct (best Sell a) as [ba|] eqn:Ea; [|eexists; split; [done|by right]].
  pose proof (abook_uncrossed _ Hok bb ba Eb Ea) as Hlt.
  destruct (best_bounds _ a Buy bb Hok Hin Eb) as [Hb0 Hb1]. destruct (best_bounds _ a Sell ba Hok Hin Ea) as [Ha0 Ha1].
  apply Z.leb_le in Hb1, Ha1. rewrite sub64_ok by (unfold int64_min, int64_max in *; lia). simpl.
  eexists. split; [reflexivity|]. simpl. lia.
Qed.

(** C14. Every trade of an incoming order is with a resting order of the other
    side, at that order's price, for a positive quantity it had left, and at a
    price the incoming order's limit accepts. *)
Theorem vec_trades_at_maker_price symbol hint stp cs o rs b w r b' w' :
  hint_ok hint = true -> workload_ok (cs ++ [CAdd o]) = true ->
  vec_session now_ns symbol hint stp cs = Some (rs, b, w) -> Vec.add_order now_ns b o w = Some (r, b', w') ->
  exists a ts, vrep b a /\ w_trades w' = w_trades w ++ ts /\
    Forall (fun t => acceptable o (t_price t) = true /\
      exists m, m ∈ level_orders (side_of (opposite (o_side o)) a) /\ t_maker_order_id t = o_id m /\
        t_price t = o_price m /\ (0 < t_quantity t <= o_remaining_quantity m)%Z) ts.
Proof.
  intros Hh Hw Hrun Hadd. destruct (vec_session_inv now_ns symbol hint stp Hh) as (b0 & Hr & Hc & Heq). rewrite Heq in Hrun.
  destruct (reached_outcome now_ns b0 cs o rs b w r b' w') as (a & a' & ts & Hra & _ & _ & _ & _ & _ & [Hlog _ Htr _ _ _]);
    try done; [by rewrite Hc|].
  exists a, ts. split_and!; [done|done|]. eapply Forall_impl; [exact Htr|].
  intros t [_ (m & Hm & H1 & H2 & _ & H3) Hp _]. eauto 10.
Qed.

(** C13. Price-time priority, under every policy of self-trade prevention: an
    incoming order is refused, or is a fill-or-kill order without enough
    quantity to trade against, and trades nothing; or it trades with exactly the
    resting orders of the other side that are open to it, in priority order
    (best price first, first in first out at a price), none skipped, each used
    up before the next, until its quantity is gone or no order is left.  Open to
    it are the orders at prices that it accepts: all of them without
    self-trade prevention; those of other participants, with only its own left
    out, if resting orders are cancelled; those before the first of its own, if
    the incoming order is cancelled. *)
Theorem vec_price_time_priority symbol hint stp cs o rs b w r b' w' :
  hint_ok hint = true -> workload_ok (cs ++ [CAdd o]) = true ->
  vec_session now_ns symbol hint stp cs = Some (rs, b, w) -> Vec.add_order now_ns b o w = Some (r, b', w') ->
  exists a ts, vrep b a /\ side_ok (opposite (o_side o)) (side_of (opposite (o_side o)) a) /\
    w_trades w' = w_trades w ++ ts /\
    ((ts = [] /\ (er_status r = Rejected \/ (o_time_in_force o = FOK /\ (available o (side_of (opposite (o_side o)) a) < o_quantity o)%Z))) \/
     shares ts = allocate (o_quantity o) (eligible stp o (level_orders (side_of (opposite (o_side o)) a)))) /\
    let queue := o_id <$> level_orders (side_of (opposite (o_side o)) a) in
    (t_maker_order_id <$> ts) `sublist_of` queue /\ (stp = STPNone -> (t_maker_order_id <$> ts) `prefix_of` queue).
Proof.
  intros Hh Hw Hrun Hadd. destruct (vec_session_inv now_ns symbol hint stp Hh) as (b0 & Hr & Hc & Heq). rewrite Heq in Hrun.
  destruct (reached_outcome now_ns b0 cs o rs b w r b' w') as (a & a' & ts & Hra & Hok & _ & _ & Hs & _ & [Hlog _ _ Ho Hpre _]);
    try done; [by rewrite Hc|].
  rewrite Hc in Hpre, Hs. destruct (spec_add_shares now_ns (mkConfig symbol true stp) eq_refl _ _ _ _ _ _ _ Hok Hs) as (ts' & Hlog' & Hsh).
  rewrite Hlog in Hlog'. apply app_inv_head in Hlog' as <-.
  exists a, ts. cbv zeta. split_and!; [done|apply Hok|done|done|done|]. intros ->. by apply Hpre.
Qed.

(** C17. Self-trade prevention: with a policy other than [None], no trade of a
    whole session, of [add_order] and of the orders that [amend_order] submits
    again, is between two orders of the same known participant.  The
    participants reported with a trade are those that the two orders were
    submitted with, before and after amending. *)
Theorem map_no_self_trade symbol hint stp cs rs b w :
  hint_ok hint = true -> workload_ok cs = true -> stp <> STPNone ->
  map_session now_ns symbol hint stp cs = Some (rs, b, w) ->
  Forall (fun t => submitted cs (t_taker_order_id t) (t_taker_participant_id t) /\ submitted cs (t_maker_order_id t) (t_maker_participant_id t) /\
    (t_taker_participant_id t <> kNoParticipant -> t_maker_participant_id t <> t_taker_participant_id t)) (w_trades w).
Proof.
  intros Hh Hw Hstp Hrun. destruct (map_session_inv now_ns symbol hint stp Hh) as (b0 & Hr & Hc & Heq). rewrite Heq in Hrun.
  pose proof Hw as Hw'. rewrite <- (app_nil_r cs) in Hw'. destruct (reached now_ns b0 cs [] world0 rs b w Hr Hw' Hrun) as (a & Hs & _).
  eapply (workload_parties now_ns (bk_config b0)); [by rewrite Hc|by rewrite Hc|done| |exact Hs]. done.
Qed.

(** C15. Conservation: the report's filled quantity is the sum of the trades
    given to the callback; a fill reports the whole quantity, an order that
    rests reports the two parts of it, a cancelled remainder less than it, and
    a rejection no trade and a reason. *)
Theorem arr_quantity_conserved symbol min max hint stp cs o rs b w r b' w' :
  hint_ok hint = true -> band_ok min max = true -> workload_ok (cs ++ [CAdd o]) = true ->
  arr_session now_ns symbol min max hint stp cs = Some (rs, b, w) -> Arr.add_order now_ns b o w = Some (r, b', w') ->
  exists ts, w_trades w' = w_trades w ++ ts /\ er_filled_quantity r = traded ts /\
    match er_status r with
    | Filled => er_filled_quantity r = o_quantity o
    | New => ts = [] /\ er_remaining_quantity r = o_quantity o
    | PartiallyFilled => ts <> [] /\ (er_filled_quantity r + er_remaining_quantity r = o_quantity o)%Z
    | Cancelled => (er_filled_quantity r < o_quantity o)%Z
    | Rejected => ts = [] /\ er_reject_reason r <> RNone
    end.
Proof.
  intros Hh Hb Hw Hrun Hadd. destruct (arr_session_inv now_ns symbol min max hint stp Hh Hb) as (b0 & Hr & Hc & _ & Heq).
  rewrite Heq in Hrun.
  destruct (reached_outcome now_ns b0 cs o rs b w r b' w') as (a & a' & ts & _ & _ & _ & _ & _ & _ & [Hlog Hf Htr _ _ Hs]);
    try done; [by rewrite Hc|].
  exists ts. split_and!; [done|done|]. destruct (er_status r); try tauto.
  - destruct Hs as (_ & Hsum & _ & _ & [Hn _]). specialize (Hn eq_refl). subst ts. simpl in Hf. split; [done|lia].
  - destruct Hs as (_ & Hsum & _ & _ & [_ Hn]). split; [|done]. intros ->. by specialize (Hn eq_refl).
Qed.

(** C18. Fill-or-kill: without self-trade prevention a FOK order that is not
    rejected either fills completely or leaves the trade log, and all that the
    book shows, exactly as they were. *)
Theorem vec_fok_all_or_nothing symbol hint cs o rs b w r b' w' :
  hint_ok hint = true -> workload_ok (cs ++ [CAdd o]) = true -> o_time_in_force o = FOK ->
  vec_session now_ns symbol hint STPNone cs = Some (rs, b, w) -> Vec.add_order now_ns b o w = Some (r, b', w') ->
  (er_status r = Filled /\ er_filled_quantity r = o_quantity o) \/
  ((er_status r = Cancelled \/ er_status r = Rejected) /\ er_filled_quantity r = 0%Z /\ w' = w /\
   Vec.order_count b' = Vec.order_count b /\
   forall n, Vec.bid_depth b' n = Vec.bid_depth b n /\ Vec.ask_depth b' n = Vec.ask_depth b n).
Proof.
  intros Hh Hw Htif Hrun Hadd. destruct (vec_session_inv now_ns symbol hint STPNone Hh) as (b0 & Hr & Hc & Heq). rewrite Heq in Hrun.
  destruct (reached_outcome now_ns b0 cs o rs b w r b' w') as (a & a' & ts & Hra & Hok & Hra' & _ & Hs & Hpre & _);
    try done; [by rewrite Hc|]. rewrite Hc in Hs.
  destruct (spec_add_fok now_ns (mkConfig symbol true STPNone) _ a o w r a' w' eq_refl Htif Hok Hpre Hs) as [?|(Hst & Hf & -> & ->)]; [by left|right].
  destruct (rep_shows b a Hra) as (_ & Hd & Hn). destruct (rep_shows b' a Hra') as (_ & Hd' & Hn'). split_and!; try done; [simpl in Hn, Hn'; congruence|].
  intros n. pose proof (Hd Buy n). pose proof (Hd Sell n). pose proof (Hd' Buy n). pose proof (Hd' Sell n). simpl in *.
  split; congruence.
Qed.

(** Orders that are not good-till-cancelled limit orders never rest: a
    market, IOC or FOK order that was not rejected is unknown to the book
    after the call. *)
Theorem map_never_rests symbol hint stp cs o rs b w r b' w' :
  hint_ok hint = true -> workload_ok (cs ++ [CAdd o]) = true -> rests_in_book o = false ->
  map_session now_ns symbol hint stp cs = Some (rs, b, w) -> MapBook.add_order now_ns b o w = Some (r, b', w') ->
  er_status r <> Rejected ->
  (er_status r = Filled \/ er_status r = Cancelled) /\ er_remaining_quantity r = 0%Z /\
  MapBook.cancel_order b' (o_id o) = Some (false, b').
Proof.
  intros Hh Hw Hrest Hrun Hadd Hst. destruct (map_session_inv now_ns symbol hint stp Hh) as (b0 & Hr & Hc & Heq). rewrite Heq in Hrun.
  destruct (reached_outcome now_ns b0 cs o rs b w r b' w') as (a & a' & ts & _ & _ & Hra' & Hok' & Hs & _ & [_ _ _ _ _ Hout]);
    try done; [by rewrite Hc|].
  assert (Hgone : o_id o ∉ o_id <$> orders a' /\ (er_status r = Filled \/ er_status r = Cancelled)).
  { destruct (er_status r); try done; [..|by destruct Hout; auto|by destruct Hout; auto];
      destruct Hout as (_ & _ & _ & Hc' & _); congruence. }
  destruct Hgone as [Hgone Hstatus]. split; [done|]. split; [by eapply spec_add_remaining|].
  destruct Hra' as [Hwf Hv]. apply find_order_None in Hgone. pose proof (find_absent _ _ _ Hv Hgone) as Hf.
  unfold MapBook.cancel_order. change (Vec.core_ (MapRefinement.to_vec b')) with (MapBook.core_ b') in Hf. by rewrite Hf.
Qed.

(** C36. Round trip: without self-trade prevention, an order accepted as [New]
    traded nothing, and cancelling it returns the book to all it showed
    before. *)
Theorem arr_add_cancel_roundtrip symbol min max hint cs o rs b w r b' w' :
  hint_ok hint = true -> band_ok min max = true -> workload_ok (cs ++ [CAdd o]) = true ->
  arr_session now_ns symbol min max hint STPNone cs = Some (rs, b, w) ->
  Arr.add_order now_ns b o w = Some (r, b', w') -> er_status r = New ->
  w' = w /\ exists b'', Arr.cancel_order b' (o_id o) = Some (true, b'') /\
    Arr.order_count b'' = Arr.order_count b /\
    forall n, Arr.bid_depth b'' n = Arr.bid_depth b n /\ Arr.ask_depth b'' n = Arr.ask_depth b n.
Proof.
  intros Hh Hb Hw Hrun Hadd Hst.
  destruct (arr_session_inv now_ns symbol min max hint STPNone Hh Hb) as (b0 & Hr & Hc & _ & Heq). rewrite Heq in Hrun.
  destruct (reached_outcome now_ns b0 cs o rs b w r b' w') as (a & a' & ts & Hra & Hok & Hra' & Hok' & Hs & Hpre & _);
    try done; [by rewrite Hc|]. rewrite Hc in Hs.
  destruct (spec_add_cancel now_ns (mkConfig symbol true STPNone) _ a o w r a' w' eq_refl eq_refl Hok Hpre Hs Hst) as [Hcan ->].
  split; [done|]. destruct (bk_cancel_law b' a' (o_id o) true a Hra' Hok' Hcan) as (b'' & Hb'' & Hra'' & _).
  exists b''. split; [exact Hb''|]. destruct (rep_shows b a Hra) as (_ & Hd & Hn). destruct (rep_shows b'' a Hra'') as (_ & Hd' & Hn').
  simpl in Hn, Hn'. split; [congruence|]. intros n.
  pose proof (Hd Buy n). pose proof (Hd Sell n). pose proof (Hd' Buy n). pose proof (Hd' Sell n). simpl in *. split; congruence.
Qed.

(** [cancel_order] answers [true] exactly for an order the book has, which
    is then gone (a second cancel answers [false]) and the only one gone;
    otherwise the book is untouched. *)
Theorem arr_cancel_exact symbol min max hint stp cs id rs b w :
  hint_ok hint = true -> band_ok min max = true -> workload_ok cs = true ->
  arr_session now_ns symbol min max hint stp cs = Some (rs, b, w) ->
  exists ok b', Arr.cancel_order b id = Some (ok, b') /\
    ok = bool_decide (is_Some (order_by_id (Arr.core_ b) id)) /\ (ok = false -> b' = b) /\
    (ok = true -> Arr.order_count b = (Arr.order_count b' + 1)%N) /\
    Arr.cancel_order b' id = Some (false, b').
Proof.
  intros Hh Hb Hw Hrun.
  destruct (arr_session_inv now_ns symbol min max hint stp Hh Hb) as (b0 & Hr & Hc & _ & Heq). rewrite Heq in Hrun.
  destruct (reached_cancel now_ns b0 cs id world0 rs b w Hr Hw Hrun) as (a & b' & Hra & Hok & Hcan & Hra' & Hok').
  assert (Hout : id ∉ o_id <$> orders a -> forall x : Arr.OrderBookArray, arep x a -> Arr.cancel_order x id = Some (false, x)).
  { intros Hn x [_ Hv]. apply find_order_None in Hn. pose proof (find_absent _ _ _ Hv Hn) as Hf.
    unfold Arr.cancel_order. change (Vec.core_ (ArrayRefinement.to_vec x)) with (Arr.core_ x) in Hf. by rewrite Hf. }
  exists (spec_cancel a id).1, b'. simpl in Hcan. pose proof Hra as [_ Hv0]. pose proof (order_by_id_rep _ a id Hv0 Hok) as Hby.
  change (Vec.core_ (ArrayRefinement.to_vec b)) with (Arr.core_ b) in Hby. rewrite Hby.
  destruct (cancel_cases a id Hok) as [(Hin & H1 & Hgone & Hlen)|(Hni & H1 & H2)]; rewrite H1 in *.
  - split; [done|]. split.
    { rewrite bool_decide_eq_true_2; [done|]. destruct (find_order id (orders a)) eqn:Hf; [done|]. by apply find_order_None in Hf. }
    split; [done|]. split.
    + intros _. pose proof (bk_count_law b a Hra) as Hn. pose proof (bk_count_law b' _ Hra') as Hn'. simpl in Hn, Hn'. lia.
    + destruct Hra' as [_ Hv]. apply find_order_None in Hgone. pose proof (find_absent _ _ _ Hv Hgone) as Hf.
      unfold Arr.cancel_order. change (Vec.core_ (ArrayRefinement.to_vec b')) with (Arr.core_ b') in Hf. by rewrite Hf.
  - rewrite (Hout Hni b Hra) in Hcan. injection Hcan as <-. split; [by apply Hout|].
    split; [|split; [done|]; split; [done|]; by apply Hout].
    apply find_order_None in Hni. rewrite Hni, bool_decide_eq_false_2; [done|]. by intros [? ?].
Qed.

(** C37. A size-down amend at the same price is reported as accepted, trades
    nothing, changes the order's quantity only, and leaves every order of the
    book at its place in the queues. *)
Theorem vec_amend_down_keeps_priority symbol hint stp cs id q np rs b w x :
  hint_ok hint = true -> workload_ok (cs ++ [CAmend id q np]) = true ->
  vec_session now_ns symbol hint stp cs = Some (rs, b, w) -> order_by_id (Vec.core_ b) id = Some x ->
  (0 < q <= o_remaining_quantity x)%Z -> np = None \/ np = Some (o_price x) ->
  exists b' a a', Vec.amend_order now_ns b id q np w = Some (mkReport id New 0 q RNone, b', w) /\
    order_by_id (Vec.core_ b') id = Some (set_remaining q x) /\
    vrep b a /\ vrep b' a' /\ o_id <$> orders a' = o_id <$> orders a.
Proof.
  intros Hh Hw Hrun Hx Hq Hnp. destruct (vec_session_inv now_ns symbol hint stp Hh) as (b0 & Hr & Hc & Heq). rewrite Heq in Hrun.
  destruct (reached_amend now_ns b0 cs id q np world0 rs b w Hr Hw Hrun) as (a & r & a1 & b1 & w1 & Hra & Hok & Hpre & _).
  rewrite (order_by_id_rep b a id Hra Hok) in Hx.
  destruct (spec_amend_down now_ns (config_ (Vec.core_ b)) (fun _ => true) a id q np w x Hok Hx Hq Hnp) as (a' & Hs & Hids & Hfind);
    [by destruct np|].
  destruct (amend_order_refines now_ns b a id q np w _ _ _ Hra Hok Hpre Hs) as (b' & Hb' & Hv' & _).
  exists b', a, a'. split_and!; try done. rewrite (order_by_id_rep b' a'); [done|done|].
  eapply spec_amend_ok; [exact Hok|apply Hpre|exact Hs].
Qed.

(** C40. Amending a resting order to a price that is not positive is reported
    as rejected, and yet the order is gone: the replacement was refused after
    the original had been cancelled. *)
Theorem vec_amend_rejected_loses_order symbol hint stp cs id q p rs b w x :
  hint_ok hint = true -> workload_ok (cs ++ [CAmend id q (Some p)]) = true -> (0 < q)%Z -> (p <= 0)%Z ->
  vec_session now_ns symbol hint stp cs = Some (rs, b, w) -> order_by_id (Vec.core_ b) id = Some x ->
  exists b' w', Vec.amend_order now_ns b id q (Some p) w = Some (mkReport id Rejected 0 0 InvalidPrice, b', w') /\
    order_by_id (Vec.core_ b') id = None.
Proof.
  intros Hh Hw Hq Hp Hrun Hx. destruct (vec_session_inv now_ns symbol hint stp Hh) as (b0 & Hr & Hc & Heq). rewrite Heq in Hrun.
  destruct (reached_amend now_ns b0 cs id q (Some p) world0 rs b w Hr Hw Hrun) as (a & r & a1 & b1 & w1 & Hra & Hok & Hpre & Ham & Hs & Hra1 & Hok1).
  rewrite (order_by_id_rep b a id Hra Hok) in Hx.
  destruct (spec_amend_loses now_ns (bk_config b0) a id q p w x Hok Hx Hq Hp) as (w' & Hs' & Hgone).
  change (bk_in_range b0) with (fun _ : Price => true) in Hs. rewrite Hs in Hs'. injection Hs' as -> -> ->.
  exists b1, w'. split; [exact Ham|]. apply find_order_None in Hgone. by rewrite (order_by_id_rep b1 _ id Hra1 Hok1).
Qed.

(** [reset] makes a used book as good as new: after it, every workload
    gives the answers, the trades and the depth of a newly built book. *)
Theorem arr_reset_as_new symbol min max hint stp cs cs' rs b w :
  hint_ok hint = true -> band_ok min max = true -> workload_ok cs = true -> workload_ok cs' = true ->
  arr_session now_ns symbol min max hint stp cs = Some (rs, b, w) ->
  exists b1 rs' b2 b3 w', Arr.reset b = Some b1 /\
    run now_ns b1 cs' world0 = Some (rs', b2, w') /\
    arr_session now_ns symbol min max hint stp cs' = Some (rs', b3, w') /\
    forall n, Arr.bid_depth b2 n = Arr.bid_depth b3 n /\ Arr.ask_depth b2 n = Arr.ask_depth b3 n.
Proof.
  intros Hh Hb Hw Hw' Hrun.
  destruct (arr_session_inv now_ns symbol min max hint stp Hh Hb) as (b0 & Hr & Hc & _ & Heq). rewrite Heq in *.
  pose proof Hw as Hw2. rewrite <- (app_nil_r cs) in Hw2.
  destruct (reached now_ns b0 cs [] world0 rs b w Hr Hw2 Hrun) as (a & _ & Hra & Hset & _).
  destruct (bk_reset_law b a Hra) as (b1 & Hb1 & Hr1 & Hset1).
  destruct (same_setup_trans _ _ _ Hset Hset1) as [Hcfg Hrg].
  destruct (spec_run now_ns (bk_config b0) (bk_in_range b0) empty_abook cs' world0) as [[rs' a'] w'] eqn:Hs.
  destruct (run_shows now_ns b0 cs' rs' a' w' Hr Hw' Hs) as (b3 & Hrun3 & _ & Hd3 & _).
  destruct (run_shows now_ns b1 cs' rs' a' w' Hr1 Hw') as (b2 & Hrun2 & _ & Hd2 & _).
  { rewrite Hcfg. rewrite (spec_run_ext _ _ _ (bk_in_range b0)); done. }
  exists b1, rs', b2, b3, w'. split_and!; try done. intros n.
  pose proof (Hd2 Buy n). pose proof (Hd2 Sell n). pose proof (Hd3 Buy n). pose proof (Hd3 Sell n). simpl in *. split; congruence.
Qed.
End claims.

(** With self-trade prevention on, a fill-or-kill order can be filled in
    part: the liquidity check counts the participant's own resting orders,
    which the matching then cancels instead of trading with. *)
Theorem fok_partially_filled_with_stp :
  exists b w, vec_session tick 1 16 CancelResting
    [CAdd (limit 1 Sell 100 5 7); CAdd (limit 2 Sell 100 5 8); CAdd (with_tif FOK (limit 3 Buy 100 10 8))] =
    Some ([AReport (mkReport 1 New 0 5 RNone); AReport (mkReport 2 New 0 5 RNone);
           AReport (mkReport 3 Cancelled 5 0 RNone)], b, w) /\
    traded (w_trades w) = 5%Z /\ Vec.order_count b = 0%N.
Proof. eexists _, _. split; [vm_compute; reflexivity|]. done. Qed.

(** * The theorems at work *)

(** An order that crosses both levels of asks, and one that rests. *)
Definition sweeper : Order := limit 10 Buy 103 12 9.
Definition passive : Order := limit 11 Buy 97 5 9.

Ltac run_demo := do 6 eexists; split; [vm_compute; reflexivity|]; split; [vm_compute; reflexivity|].
Ltac side_conditions := try (vm_compute; reflexivity); try discriminate.

Lemma vec_session_refines_witness :
  exists rs a w (b : Vec.OrderBookVector), vec_session tick 1 16 STPNone demo = Some (rs, b, w) /\ shows b a.
Proof.
  destruct (spec_run tick (mkConfig 1 true STPNone) (fun _ => true) empty_abook demo world0) as [[rs a] w] eqn:H.
  exists rs, a, w. exact (vec_session_refines tick 1 16 STPNone demo rs a w eq_refl eq_refl H).
Defined.

Lemma map_session_refines_witness :
  exists rs a w (b : MapBook.OrderBookMap), map_session tick 1 16 CancelBoth demo = Some (rs, b, w) /\ shows b a.
Proof.
  destruct (spec_run tick (mkConfig 1 true CancelBoth) (fun _ => true) empty_abook demo world0) as [[rs a] w] eqn:H.
  exists rs, a, w. exact (map_session_refines tick 1 16 CancelBoth demo rs a w eq_refl eq_refl H).
Defined.

Lemma arr_session_refines_witness :
  exists rs a w (b : Arr.OrderBookArray), arr_session tick 1 95 105 16 STPNone demo = Some (rs, b, w) /\ shows b a.
Proof.
  destruct (spec_run tick (mkConfig 1 true STPNone) (in_band 95 105) empty_abook demo world0) as [[rs a] w] eqn:H.
  exists rs, a, w. exact (arr_session_refines tick 1 95 105 16 STPNone demo rs a w eq_refl eq_refl eq_refl H).
Defined.

Lemma books_equivalent_witness :
  exists rs w (bm : MapBook.OrderBookMap) (bv : Vec.OrderBookVector) (ba : Arr.OrderBookArray),
    map_session tick 1 16 CancelResting demo = Some (rs, bm, w) /\
    vec_session tick 1 16 CancelResting demo = Some (rs, bv, w) /\
    arr_session tick 1 95 105 16 CancelResting demo = Some (rs, ba, w) /\
    forall s n, bk_best s bm = bk_best s bv /\ bk_best s ba = bk_best s bv /\
      bk_depth s bm n = bk_depth s bv n /\ bk_depth s ba n = bk_depth s bv n.
Proof. exact (books_equivalent tick 1 95 105 16 CancelResting demo eq_refl eq_refl eq_refl eq_refl). Defined.

Lemma map_spread_positive_witness :
  exists rs b w, map_session tick 1 16 STPNone demo = Some (rs, b, w) /\
    exists sp, MapBook.spread b = Some sp /\
      match sp with Some d => (0 < d)%Z | None => MapBook.best_bid b = None \/ MapBook.best_ask b = None end.
Proof.
  do 3 eexists. split; [vm_compute; reflexivity|].
  eapply (map_spread_positive tick 1 16 STPNone demo); side_conditions.
Defined.

Lemma vec_trades_at_maker_price_witness :
  exists rs b w r b' w', vec_session tick 1 16 STPNone demo = Some (rs, b, w) /\
    Vec.add_order tick b sweeper w = Some (r, b', w') /\
    exists a ts, vrep b a /\ w_trades w' = w_trades w ++ ts /\
      Forall (fun t => acceptable sweeper (t_price t) = true /\
        exists m, m ∈ level_orders (side_of Sell a) /\ t_maker_order_id t = o_id m /\
          t_price t = o_price m /\ (0 < t_quantity t <= o_remaining_quantity m)%Z) ts.
Proof. run_demo. eapply (vec_trades_at_maker_price tick 1 16 STPNone demo sweeper); side_conditions. Defined.

(** An order of participant 7 that meets its own order at the head of the
    queue: it is left out, and the others are taken. *)
Lemma vec_price_time_priority_witness :
  exists rs b w r b' w', vec_session tick 1 16 CancelResting demo = Some (rs, b, w) /\
    Vec.add_order tick b (limit 10 Buy 103 12 7) w = Some (r, b', w') /\
    exists a ts, vrep b a /\ side_ok Sell (side_of Sell a) /\ w_trades w' = w_trades w ++ ts /\
      ((ts = [] /\ (er_status r = Rejected \/ (GTC = FOK /\ (available (limit 10 Buy 103 12 7) (side_of Sell a) < 12)%Z))) \/
       shares ts = allocate 12 (eligible CancelResting (limit 10 Buy 103 12 7) (level_orders (side_of Sell a)))) /\
      (t_maker_order_id <$> ts) `sublist_of` (o_id <$> level_orders (side_of Sell a)) /\
      (CancelResting = STPNone -> (t_maker_order_id <$> ts) `prefix_of` (o_id <$> level_orders (side_of Sell a))).
Proof. run_demo. eapply (vec_price_time_priority tick 1 16 CancelResting demo (limit 10 Buy 103 12 7)); side_conditions. Defined.

(** The walk along a queue under the four policies. *)
Example shares_by_policy :
  let queue := [limit 1 Sell 101 10 8; limit 2 Sell 101 5 7; limit 3 Sell 102 4 9; limit 4 Sell 105 1 9] in
  (fun stp => allocate 12 (eligible stp (limit 9 Buy 103 12 7) queue)) <$> [STPNone; CancelResting; CancelIncoming; CancelBoth] =
  [[(1, 10%Z); (2, 2%Z)]; [(1, 10%Z); (3, 2%Z)]; [(1, 10%Z)]; [(1, 10%Z)]]%N.
Proof. reflexivity. Qed.

(** Participant 7 amends its bid up to where its own ask rests before another's. *)
Definition crossing_amend : list Command := demo ++ [CAdd (limit 10 Buy 97 6 7); CAmend 10 12 (Some 103%Z)].

Lemma map_no_self_trade_witness :
  exists rs b w, map_session tick 1 16 CancelResting crossing_amend = Some (rs, b, w) /\ length (w_trades w) = 2 /\
    Forall (fun t => submitted crossing_amend (t_taker_order_id t) (t_taker_participant_id t) /\
      submitted crossing_amend (t_maker_order_id t) (t_maker_participant_id t) /\
      (t_taker_participant_id t <> kNoParticipant -> t_maker_participant_id t <> t_taker_participant_id t)) (w_trades w).
Proof.
  do 3 eexists. split; [vm_compute; reflexivity|]. split; [vm_compute; reflexivity|].
  eapply (map_no_self_trade tick 1 16 CancelResting crossing_amend); side_conditions.
Defined.

Lemma arr_quantity_conserved_witness :
  exists rs b w r b' w', arr_session tick 1 95 105 16 STPNone demo = Some (rs, b, w) /\
    Arr.add_order tick b sweeper w = Some (r, b', w') /\
    exists ts, w_trades w' = w_trades w ++ ts /\ er_filled_quantity r = traded ts /\
      match er_status r with
      | Filled => er_filled_quantity r = o_quantity sweeper
      | New => ts = [] /\ er_remaining_quantity r = o_quantity sweeper
      | PartiallyFilled => ts <> [] /\ (er_filled_quantity r + er_remaining_quantity r = o_quantity sweeper)%Z
      | Cancelled => (er_filled_quantity r < o_quantity sweeper)%Z
      | Rejected => ts = [] /\ er_reject_reason r <> RNone
      end.
Proof. run_demo. eapply (arr_quantity_conserved tick 1 95 105 16 STPNone demo sweeper); side_conditions. Defined.

Lemma vec_fok_all_or_nothing_witness :
  exists rs b w r b' w', vec_session tick 1 16 STPNone demo = Some (rs, b, w) /\
    Vec.add_order tick b (with_tif FOK (limit 10 Buy 103 50 9)) w = Some (r, b', w') /\
    ((er_status r = Filled /\ er_filled_quantity r = 50%Z) \/
     ((er_status r = Cancelled \/ er_status r = Rejected) /\ er_filled_quantity r = 0%Z /\ w' = w /\
      Vec.order_count b' = Vec.order_count b /\
      forall n, Vec.bid_depth b' n = Vec.bid_depth b n /\ Vec.ask_depth b' n = Vec.ask_depth b n)).
Proof. run_demo. eapply (vec_fok_all_or_nothing tick 1 16 demo (with_tif FOK (limit 10 Buy 103 50 9))); side_conditions. Defined.

Lemma map_never_rests_witness :
  exists rs b w r b' w', map_session tick 1 16 STPNone demo = Some (rs, b, w) /\
    MapBook.add_order tick b (market 10 Buy 50 9) w = Some (r, b', w') /\
    (er_status r = Filled \/ er_status r = Cancelled) /\ er_remaining_quantity r = 0%Z /\
    MapBook.cancel_order b' 10 = Some (false, b').
Proof. run_demo. eapply (map_never_rests tick 1 16 STPNone demo (market 10 Buy 50 9)); side_conditions. Defined.

Lemma arr_add_cancel_roundtrip_witness :
  exists rs b w r b' w', arr_session tick 1 95 105 16 STPNone demo = Some (rs, b, w) /\
    Arr.add_order tick b passive w = Some (r, b', w') /\
    w' = w /\ exists b'', Arr.cancel_order b' 11 = Some (true, b'') /\ Arr.order_count b'' = Arr.order_count b /\
      forall n, Arr.bid_depth b'' n = Arr.bid_depth b n /\ Arr.ask_depth b'' n = Arr.ask_depth b n.
Proof. run_demo. eapply (arr_add_cancel_roundtrip tick 1 95 105 16 demo passive); side_conditions. Defined.

Lemma arr_cancel_exact_witness :
  exists rs b w, arr_session tick 1 95 105 16 STPNone demo = Some (rs, b, w) /\
    exists ok b', Arr.cancel_order b 3 = Some (ok, b') /\
      ok = bool_decide (is_Some (order_by_id (Arr.core_ b) 3)) /\ (ok = false -> b' = b) /\
      (ok = true -> Arr.order_count b = (Arr.order_count b' + 1)%N) /\ Arr.cancel_order b' 3 = Some (false, b').
Proof.
  do 3 eexists. split; [vm_compute; reflexivity|].
  eapply (arr_cancel_exact tick 1 95 105 16 STPNone demo 3); side_conditions.
Defined.

Lemma vec_amend_down_keeps_priority_witness :
  exists rs b w x, vec_session tick 1 16 STPNone demo = Some (rs, b, w) /\ order_by_id (Vec.core_ b) 2 = Some x /\
    exists b' a a', Vec.amend_order tick b 2 1 None w = Some (mkReport 2 New 0 1 RNone, b', w) /\
      order_by_id (Vec.core_ b') 2 = Some (set_remaining 1 x) /\
      vrep b a /\ vrep b' a' /\ o_id <$> orders a' = o_id <$> orders a.
Proof.
  do 4 eexists. split; [vm_compute; reflexivity|]. split; [vm_compute; reflexivity|].
  eapply (vec_amend_down_keeps_priority tick 1 16 STPNone demo 2 1 None); side_conditions; [|by left].
  cbn [o_remaining_quantity]. lia.
Defined.

Lemma vec_amend_rejected_loses_order_witness :
  exists rs b w x, vec_session tick 1 16 STPNone demo = Some (rs, b, w) /\ order_by_id (Vec.core_ b) 2 = Some x /\
    exists b' w', Vec.amend_order tick b 2 1 (Some (-1)%Z) w = Some (mkReport 2 Rejected 0 0 InvalidPrice, b', w') /\
      order_by_id (Vec.core_ b') 2 = None.
Proof.
  do 4 eexists. split; [vm_compute; reflexivity|]. split; [vm_compute; reflexivity|].
  eapply (vec_amend_rejected_loses_order tick 1 16 STPNone demo 2 1 (-1)); side_conditions; lia.
Defined.

Lemma arr_reset_as_new_witness :
  exists rs b w, arr_session tick 1 95 105 16 STPNone demo = Some (rs, b, w) /\
    exists b1 rs' b2 b3 w', Arr.reset b = Some b1 /\ run tick b1 demo world0 = Some (rs', b2, w') /\
      arr_session tick 1 95 105 16 STPNone demo = Some (rs', b3, w') /\
      forall n, Arr.bid_depth b2 n = Arr.bid_depth b3 n /\ Arr.ask_depth b2 n = Arr.ask_depth b3 n.
Proof.
  do 3 eexists. split; [vm_compute; reflexivity|].
  eapply (arr_reset_as_new tick 1 95 105 16 STPNone demo demo); side_conditions.
Defined.
