(* ===== verification/RiskManager.v ===== *)
(** include/lightninglob/risk_manager.hpp and src/risk_manager.cpp: pre-trade
    limits on order size, resulting position and order rate, per symbol and
    participant.

    The [std::unordered_map] is a finite map from packed keys.  Signed
    arithmetic is checked: a position that leaves 64 bits is an undefined
    outcome. *)

From S2P Require Import Prelude Types.

Definition uint32_max : N := 4294967295.

Record SymbolRiskLimits := mkLimits {
  max_position : Quantity;
  max_order_size : Quantity;
  max_orders_per_second : N
}.

(** [SymbolRiskLimits{}]: no limit. *)
Definition no_limits : SymbolRiskLimits := mkLimits int64_max int64_max uint32_max.

Record SymbolParticipantState := mkPState {
  limits : SymbolRiskLimits;
  net_position : Quantity;
  window_start : Timestamp;
  orders_in_window : N
}.

Definition default_state : SymbolParticipantState := mkPState no_limits 0 0 0.

Abbreviation RiskManager := (gmap N SymbolParticipantState).

Definition kRateLimitWindowNs : N := 1000000000.

Definition pack_key (symbol : SymbolId) (participant : ParticipantId) : N :=
  N.lor (N.shiftl symbol 32) participant.

(** [state_[key]]: the entry, created by default. *)
Definition state_at (r : RiskManager) (key : N) : SymbolParticipantState := default default_state (r !! key).

Definition set_limits (r : RiskManager) (symbol : SymbolId) (participant : ParticipantId) (l : SymbolRiskLimits)
    : RiskManager :=
  let st := state_at r (pack_key symbol participant) in
  <[pack_key symbol participant := mkPState l (net_position st) (window_start st) (orders_in_window st)]> r.

Definition limits_for (r : RiskManager) (symbol : SymbolId) (participant : ParticipantId) : SymbolRiskLimits :=
  match r !! pack_key symbol participant with None => no_limits | Some st => limits st end.

(** [side == Side::Buy ? quantity : -quantity]. *)
Definition signed (side : Side) (quantity : Quantity) : option Quantity :=
  match side with Buy => Some quantity | Sell => sub64 0 quantity end.

Definition sub_u64 (a b : N) : N := wrap64 (a + (two64 - b)).

Definition check_new_order (r : RiskManager) (symbol : SymbolId) (participant : ParticipantId) (side : Side)
    (quantity : Quantity) (now : Timestamp) : option (RejectReason * RiskManager) :=
  match r !! pack_key symbol participant with
  | None => Some (RNone, r)
  | Some st =>
      if (max_order_size (limits st) <? quantity)%Z then Some (RiskMaxOrderSize, r)
      else
        delta ← signed side quantity;
        prospective ← add64 (net_position st) delta;
        lower ← (if (max_position (limits st) <? prospective)%Z then Some 0%Z else sub64 0 (max_position (limits st)));
        if (max_position (limits st) <? prospective)%Z || (prospective <? lower)%Z then Some (RiskMaxPosition, r)
        else
          let st1 :=
            if (kRateLimitWindowNs <=? sub_u64 now (window_start st))%N
            then mkPState (limits st) (net_position st) now 0 else st in
          if (max_orders_per_second (limits st) <=? orders_in_window st1)%N
          then Some (RiskRateLimited, <[pack_key symbol participant := st1]> r)
          else
            Some (RNone, <[pack_key symbol participant :=
              mkPState (limits st1) (net_position st1) (window_start st1) (inc32 (orders_in_window st1))]> r)
  end.

Definition on_fill (r : RiskManager) (symbol : SymbolId) (participant : ParticipantId) (side : Side)
    (filled_quantity : Quantity) : option RiskManager :=
  let st := state_at r (pack_key symbol participant) in
  delta ← signed side filled_quantity;
  np ← add64 (net_position st) delta;
  Some (<[pack_key symbol participant := mkPState (limits st) np (window_start st) (orders_in_window st)]> r).

Definition position (r : RiskManager) (symbol : SymbolId) (participant : ParticipantId) : Quantity :=
  match r !! pack_key symbol participant with None => 0 | Some st => net_position st end.

#[global] Arguments pack_key : simpl never.

(** * Keys *)

(** Symbols and participants are 32-bit ids. *)
Definition id32 (n : N) : bool := (n <? two32)%N.

Lemma pack_key_sum symbol participant : id32 participant = true -> pack_key symbol participant = (symbol * two32 + participant)%N.
Proof.
  intros Hp%N.ltb_lt. unfold pack_key. change two32 with (2 ^ 32)%N in *. rewrite <- N.shiftl_mul_pow2.
  assert (Hd : N.land (N.shiftl symbol 32) participant = 0%N); [|by rewrite <- N.lxor_lor, N.add_nocarry_lxor].
  apply N.bits_inj. intros i. rewrite N.land_spec, N.bits_0. destruct (N.lt_ge_cases i 32) as [Hi|Hi].
  - by rewrite N.shiftl_spec_low.
  - destruct (N.eq_dec participant 0%N) as [->|Hz]; [by rewrite N.bits_0, andb_false_r|].
    rewrite (N.bits_above_log2 participant), andb_false_r; [done|].
    apply N.log2_lt_pow2 in Hp; lia.
Qed.

(** The packing is lossless. *)
Lemma pack_key_inj s p s' p' : id32 p = true -> id32 p' = true -> pack_key s p = pack_key s' p' -> s = s' /\ p = p'.
Proof.
  intros Hp Hp'. rewrite !pack_key_sum by done. apply N.ltb_lt in Hp, Hp'. unfold two32 in *. intros. split; nia.
Qed.

(** * Sequences of calls *)

Inductive RiskCall :=
| RLimits (symbol : SymbolId) (participant : ParticipantId) (l : SymbolRiskLimits)
| RCheck (symbol : SymbolId) (participant : ParticipantId) (side : Side) (quantity : Quantity) (now : Timestamp)
| RFill (symbol : SymbolId) (participant : ParticipantId) (side : Side) (quantity : Quantity).

(** The answer of a check; no answer from the other calls. *)
Definition risk_step (r : RiskManager) (c : RiskCall) : option (option RejectReason * RiskManager) :=
  match c with
  | RLimits s p l => Some (None, set_limits r s p l)
  | RCheck s p side q now => '(reason, r1) ← check_new_order r s p side q now; Some (Some reason, r1)
  | RFill s p side q => r1 ← on_fill r s p side q; Some (None, r1)
  end.

Fixpoint risk_run (r : RiskManager) (cs : list RiskCall) : option (list (option RejectReason) * RiskManager) :=
  match cs with
  | [] => Some ([], r)
  | c :: cs' => '(a, r1) ← risk_step r c; '(rs, r2) ← risk_run r1 cs'; Some (a :: rs, r2)
  end.

Definition call_pair (c : RiskCall) : SymbolId * ParticipantId :=
  match c with RLimits s p _ => (s, p) | RCheck s p _ _ _ => (s, p) | RFill s p _ _ => (s, p) end.

Definition call_key (c : RiskCall) : N := pack_key (call_pair c).1 (call_pair c).2.

Definition call_ids_ok (c : RiskCall) : bool := id32 (call_pair c).1 && id32 (call_pair c).2.

Definition signed_z (side : Side) (q : Quantity) : Z := match side with Buy => q | Sell => - q end.

(** The fills of a pair, summed with their signs. *)
Fixpoint filled_by (sp : SymbolId * ParticipantId) (cs : list RiskCall) : Z :=
  match cs with
  | [] => 0
  | RFill s p side q :: cs' => (if decide ((s, p) = sp) then signed_z side q else 0) + filled_by sp cs'
  | _ :: cs' => filled_by sp cs'
  end.

(** How many orders of a pair were accepted at times in [[from, from + 1s)]. *)
Fixpoint accepted_in (from : N) (sp : SymbolId * ParticipantId) (cs : list RiskCall) (rs : list (option RejectReason)) : N :=
  match cs, rs with
  | RCheck s p _ _ now :: cs', a :: rs' =>
      (if bool_decide ((s, p) = sp) && bool_decide (a = Some RNone) && (from <=? now)%N &&
          (now <? from + kRateLimitWindowNs)%N then 1 else 0) + accepted_in from sp cs' rs'
  | _ :: cs', _ :: rs' => accepted_in from sp cs' rs'
  | _, _ => 0
  end.

(** Clock readings in order, from [t] on, within 64 bits. *)
Fixpoint clock_ordered (t : N) (cs : list RiskCall) : bool :=
  match cs with
  | [] => true
  | RCheck _ _ _ _ now :: cs' => (t <=? now)%N && (now <? two64)%N && clock_ordered now cs'
  | _ :: cs' => clock_ordered t cs'
  end.

Definition changes_limits (sp : SymbolId * ParticipantId) (c : RiskCall) : bool :=
  match c with RLimits s p _ => bool_decide ((s, p) = sp) | _ => false end.

(** ** One call *)

Lemma risk_step_other r c a r' key : risk_step r c = Some (a, r') -> call_key c <> key -> r' !! key = r !! key.
Proof.
  intros Hs Hk. destruct c as [s p l|s p side q now|s p side q]; simpl in *; unfold call_key in Hk; simpl in Hk.
  - injection Hs as _ <-. unfold set_limits. by rewrite lookup_insert_ne.
  - apply bind_Some in Hs as ([reason r1] & Hc & Hs). injection Hs as _ <-. revert Hc. unfold check_new_order.
    destruct (r !! pack_key s p) as [st|]; [|by intros [= _ <-]]. case_match; [by intros [= _ <-]|].
    intros (d & _ & Hc)%bind_Some. apply bind_Some in Hc as (pr & _ & Hc). apply bind_Some in Hc as (lo & _ & Hc).
    destruct (_ || _) in Hc; [by injection Hc as _ <-|].
    destruct (_ <=? orders_in_window _)%N in Hc; injection Hc as _ <-; by rewrite lookup_insert_ne.
  - apply bind_Some in Hs as (r1 & Hc & Hs). injection Hs as _ <-. revert Hc. unfold on_fill.
    intros (d & _ & Hc)%bind_Some. apply bind_Some in Hc as (np & _ & Hc). injection Hc as <-. by rewrite lookup_insert_ne.
Qed.

(** A call reads and writes the entry of its own pair only. *)
Lemma risk_step_local r r' c a r1 :
  r !! call_key c = r' !! call_key c -> risk_step r c = Some (a, r1) ->
  exists r1', risk_step r' c = Some (a, r1') /\ r1' !! call_key c = r1 !! call_key c.
Proof.
  intros Hk. destruct c as [s p l|s p side q now|s p side q]; unfold call_key in *; simpl in *.
  - intros [= <- <-]. eexists. split; [done|]. unfold set_limits, state_at. by rewrite !lookup_insert_eq, Hk.
  - intros ([reason r2] & Hc & [= <- <-])%bind_Some. revert Hc. unfold check_new_order. rewrite <- Hk.
    destruct (r !! pack_key s p) as [st|] eqn:Hst; [|intros [= <- <-]; eexists; split; [done|congruence]].
    case_match; [intros [= <- <-]; eexists; split; [done|congruence]|].
    destruct (signed side q) as [d|]; [|done]. simpl. destruct (add64 _ d) as [pr|]; [|done]. simpl.
    destruct (if (max_position _ <? pr)%Z then _ else _) as [lo|]; [|done]. simpl.
    destruct (_ || _); [intros [= <- <-]; eexists; split; [done|congruence]|].
    destruct (_ <=? orders_in_window _)%N; intros [= <- <-]; eexists; (split; [done|]); by rewrite !lookup_insert_eq.
  - intros (r2 & Hc & [= <- <-])%bind_Some. revert Hc. unfold on_fill, state_at. rewrite <- Hk.
    destruct (signed side q) as [d|]; [|done]. simpl. destruct (add64 _ d) as [np|]; [|done]. simpl.
    intros [= <-]. eexists. split; [done|]. by rewrite !lookup_insert_eq.
Qed.

Lemma signed_ok side q : (- int64_max <= q <= int64_max)%Z -> signed side q = Some (signed_z side q).
Proof. intros Hq. destruct side; [done|]. simpl. rewrite sub64_ok by (unfold int64_min, int64_max in *; lia). done. Qed.

Lemma signed_z_abs side q : Z.abs (signed_z side q) = Z.abs q.
Proof. destruct side; simpl; lia. Qed.

(** Entries with positions within [b] and limits that can be negated. *)
Definition entry_ok (b : Z) (st : SymbolParticipantState) : Prop :=
  (Z.abs (net_position st) <= b)%Z /\ (- int64_max <= max_position (limits st) <= int64_max)%Z.

Definition risk_within (b : Z) (r : RiskManager) : Prop := map_Forall (fun _ => entry_ok b) r.

Lemma risk_within_at b r key : (0 <= b)%Z -> risk_within b r -> entry_ok b (state_at r key).
Proof.
  intros Hb Hr. unfold state_at. destruct (r !! key) as [st|] eqn:Hk; [by apply (Hr key)|]. simpl.
  split; simpl; unfold int64_max; lia.
Qed.

Lemma risk_within_insert b b' r key st : (b <= b')%Z -> risk_within b r -> entry_ok b' st -> risk_within b' (<[key := st]> r).
Proof.
  intros Hb Hr Hst. apply map_Forall_insert_2; [done|]. eapply map_Forall_impl; [exact Hr|].
  intros k x [H1 H2]. split; [lia|done].
Qed.

Definition fill_size (c : RiskCall) : Z := match c with RFill _ _ _ q => Z.abs q | _ => 0 end.

(** A call whose arithmetic stays within 64 bits while positions are within
    [b]. *)
Definition call_fits (b : Z) (c : RiskCall) : bool :=
  match c with
  | RLimits _ _ l => (- int64_max <=? max_position l)%Z && (max_position l <=? int64_max)%Z
  | RCheck _ _ _ q _ => (Z.abs q + b <=? int64_max)%Z
  | RFill _ _ _ q => (Z.abs q + b <=? int64_max)%Z
  end.

Lemma position_state r s p : position r s p = net_position (state_at r (pack_key s p)).
Proof. unfold position, state_at. by destruct (r !! pack_key s p). Qed.

(** A check that is defined changes no position and no limit. *)
Lemma check_new_order_ok b r s p side q now :
  (0 <= b)%Z -> risk_within b r -> (Z.abs q + b <= int64_max)%Z ->
  exists reason r', check_new_order r s p side q now = Some (reason, r') /\ risk_within b r' /\
    forall key, net_position (state_at r' key) = net_position (state_at r key) /\
      limits (state_at r' key) = limits (state_at r key).
Proof.
  intros Hb Hr Hq. unfold check_new_order. destruct (r !! pack_key s p) as [st|] eqn:Hst; [|by eexists _, _].
  case_match; [by eexists _, _|]. pose proof (Hr _ _ Hst) as [Hnp Hmp]. simpl in *.
  rewrite signed_ok by lia. simpl. pose proof (signed_z_abs side q).
  rewrite add64_ok by (unfold int64_min, int64_max in *; lia). simpl.
  rewrite (sub64_ok 0) by (unfold int64_min, int64_max in *; lia).
  assert (Hw : forall st', limits st' = limits st -> net_position st' = net_position st ->
    risk_within b (<[pack_key s p := st']> r) /\ forall key,
    net_position (state_at (<[pack_key s p := st']> r) key) = net_position (state_at r key) /\
    limits (state_at (<[pack_key s p := st']> r) key) = limits (state_at r key)).
  { intros st' Hl Hn. split.
    - apply (risk_within_insert b); [lia|done|]. split; rewrite ?Hn, ?Hl; done.
    - intros key. unfold state_at. destruct (decide (pack_key s p = key)) as [<-|Hne].
      + by rewrite lookup_insert_eq, Hst.
      + by rewrite lookup_insert_ne. }
  destruct (max_position (limits st) <? _)%Z; simpl; [by eexists _, _|]. destruct (_ <? 0 - _)%Z; [by eexists _, _|].
  case_match; case_match; eexists _, _; (split; [done|]); by apply Hw.
Qed.

(** A position moved by [d], in exact arithmetic. *)
Definition add_position (r : RiskManager) (s : SymbolId) (p : ParticipantId) (d : Z) : RiskManager :=
  let st := state_at r (pack_key s p) in
  <[pack_key s p := mkPState (limits st) (net_position st + d) (window_start st) (orders_in_window st)]> r.

Lemma on_fill_ok b r s p side q :
  (0 <= b)%Z -> risk_within b r -> (Z.abs q + b <= int64_max)%Z ->
  exists r', on_fill r s p side q = Some r' /\ r' = add_position r s p (signed_z side q) /\ risk_within (b + Z.abs q) r' /\
    (forall key, limits (state_at r' key) = limits (state_at r key)) /\
    forall key, net_position (state_at r' key) =
      (net_position (state_at r key) + if decide (pack_key s p = key) then signed_z side q else 0)%Z.
Proof.
  intros Hb Hr Hq. unfold on_fill. rewrite signed_ok by lia. simpl.
  destruct (risk_within_at b r (pack_key s p) Hb Hr) as [Hnp Hmp]. pose proof (signed_z_abs side q).
  rewrite add64_ok by (unfold int64_min, int64_max in *; lia). simpl. eexists. split; [done|]. split; [done|]. split_and!.
  - apply (risk_within_insert b); [lia|done|]. split; simpl; [lia|done].
  - intros key. unfold state_at at 1. destruct (decide (pack_key s p = key)) as [<-|Hne];
      [by rewrite lookup_insert_eq|by rewrite lookup_insert_ne].
  - intros key. unfold state_at at 1. destruct (decide (pack_key s p = key)) as [<-|Hne];
      [by rewrite lookup_insert_eq|]. rewrite lookup_insert_ne by done. fold (state_at r key). lia.
Qed.

Lemma set_limits_ok b r s p l :
  (0 <= b)%Z -> risk_within b r -> (- int64_max <= max_position l <= int64_max)%Z ->
  risk_within b (set_limits r s p l) /\
  forall key, net_position (state_at (set_limits r s p l) key) = net_position (state_at r key).
Proof.
  intros Hb Hr Hl. destruct (risk_within_at b r (pack_key s p) Hb Hr) as [Hnp _]. split.
  - apply (risk_within_insert b); [lia|done|]. by split.
  - intros key. unfold set_limits, state_at at 1. destruct (decide (pack_key s p = key)) as [<-|Hne];
      [by rewrite lookup_insert_eq|by rewrite lookup_insert_ne].
Qed.

Fixpoint total_filled (cs : list RiskCall) : Z := match cs with [] => 0 | c :: cs' => fill_size c + total_filled cs' end.

Fixpoint calls_fit (b : Z) (cs : list RiskCall) : bool :=
  match cs with [] => true | c :: cs' => call_fits b c && calls_fit (b + fill_size c) cs' end.

Lemma risk_run_positions b r cs :
  (0 <= b)%Z -> risk_within b r -> forallb call_ids_ok cs = true -> calls_fit b cs = true ->
  exists rs r', risk_run r cs = Some (rs, r') /\ risk_within (b + total_filled cs) r' /\
    forall s p, id32 s = true -> id32 p = true -> position r' s p = (position r s p + filled_by (s, p) cs)%Z.
Proof.
  revert b r. induction cs as [|c cs IH]; intros b r Hb Hr Hid Hfit; simpl in *.
  { exists [], r. rewrite Z.add_0_r. split_and!; try done. intros. lia. }
  apply andb_true_iff in Hid as [Hc Hid], Hfit as [Hf Hfit].
  assert (Hstep : exists a r1, risk_step r c = Some (a, r1) /\ risk_within (b + fill_size c) r1 /\
    forall s p, id32 s = true -> id32 p = true ->
      position r1 s p = (position r s p + filled_by (s, p) [c])%Z).
  { destruct c as [s p l|s p side q now|s p side q]; simpl in *; rewrite ?Z.add_0_r.
    - apply andb_true_iff in Hf as [H1%Z.leb_le H2%Z.leb_le]. destruct (set_limits_ok b r s p l Hb Hr) as [Hr1 Hp1]; [lia|].
      eexists _, _. split_and!; try done. intros s' p' _ _. rewrite !position_state, Hp1. lia.
    - apply Z.leb_le in Hf. destruct (check_new_order_ok b r s p side q now Hb Hr Hf) as (reason & r1 & -> & Hr1 & Hp1). simpl.
      eexists _, _. split_and!; try done. intros s' p' _ _. rewrite !position_state, (proj1 (Hp1 _)). lia.
    - apply Z.leb_le in Hf. destruct (on_fill_ok b r s p side q Hb Hr Hf) as (r1 & -> & _ & Hr1 & _ & Hp1). simpl.
      eexists _, _. split_and!; try done. intros s' p' Hs' Hp'. rewrite !position_state, Hp1. apply andb_true_iff in Hc as [_ Hcp].
      rewrite Z.add_0_r. f_equal. simpl in Hcp. destruct (decide ((s, p) = (s', p'))) as [[= -> ->]|Hne].
      + by rewrite decide_True.
      + rewrite decide_False; [done|]. intros Heq. apply pack_key_inj in Heq as [-> ->]; done. }
  destruct Hstep as (a & r1 & -> & Hr1 & Hp1). simpl.
  assert (Hfs : (0 <= fill_size c)%Z) by (destruct c; simpl; lia).
  destruct (IH (b + fill_size c)%Z r1) as (rs & r' & -> & Hr' & Hp'); [lia|done|done|done|]. simpl.
  exists (a :: rs), r'. split_and!; [done|by rewrite Z.add_assoc|]. intros s p Hs Hp. rewrite Hp', Hp1 by done.
  clear. destruct c; simpl; lia.
Qed.

(** ** Isolation *)

Definition of_pair (sp : SymbolId * ParticipantId) (cs : list RiskCall) : list RiskCall :=
  filter (fun c => call_pair c = sp) cs.

(** The answers that a pair's own calls got. *)
Fixpoint answers_of (sp : SymbolId * ParticipantId) (cs : list RiskCall) (rs : list (option RejectReason))
    : list (option RejectReason) :=
  match cs, rs with
  | c :: cs', a :: rs' => if decide (call_pair c = sp) then a :: answers_of sp cs' rs' else answers_of sp cs' rs'
  | _, _ => []
  end.

Lemma risk_run_isolated sp r r1 cs rs r' :
  forallb call_ids_ok cs = true -> id32 sp.2 = true -> r !! pack_key sp.1 sp.2 = r1 !! pack_key sp.1 sp.2 ->
  risk_run r cs = Some (rs, r') ->
  exists r1', risk_run r1 (of_pair sp cs) = Some (answers_of sp cs rs, r1') /\
    r1' !! pack_key sp.1 sp.2 = r' !! pack_key sp.1 sp.2.
Proof.
  intros Hid Hp. revert r r1 rs. induction cs as [|c cs IH]; intros r r1 rs Hk; simpl in *.
  { intros [= <- <-]. by exists r1. }
  apply andb_true_iff in Hid as [Hc Hid]. intros ([a r2] & Hst & Hrun)%bind_Some.
  apply bind_Some in Hrun as ([rs2 r3] & Hrun & [= <- <-]). unfold of_pair. rewrite filter_cons. fold (of_pair sp cs).
  destruct (decide (call_pair c = sp)) as [Heq|Hne].
  - assert (Hkey : call_key c = pack_key sp.1 sp.2) by (unfold call_key; by rewrite Heq). rewrite <- Hkey in *.
    destruct (risk_step_local r r1 c a r2 Hk Hst) as (r2' & Hst' & Hk'). simpl. rewrite Hst'. simpl.
    destruct (IH Hid r2 r2' rs2) as (r1' & -> & Hk1); [done|done|]. simpl. eauto.
  - destruct (IH Hid r2 r1 rs2) as (r1' & -> & Hk1); [|done|eauto].
    rewrite (risk_step_other _ _ _ _ (pack_key sp.1 sp.2) Hst); [done|]. unfold call_key. intros Heq.
    apply andb_true_iff in Hc as [_ Hcp]. apply pack_key_inj in Heq as [H1 H2]; try done.
    apply Hne. destruct (call_pair c), sp. simpl in *. congruence.
Qed.

(** ** The rate limit *)

Lemma sub_u64_ge now start : (start <= now)%N -> (now < two64)%N -> sub_u64 now start = (now - start)%N.
Proof.
  intros H1 H2. unfold sub_u64, wrap64. replace (now + (two64 - start))%N with ((now - start) + 1 * two64)%N by lia.
  rewrite N.Div0.mod_add. apply N.mod_small. lia.
Qed.

Lemma accepted_none from sp cs rs t :
  clock_ordered t cs = true -> (from + kRateLimitWindowNs <= t)%N -> accepted_in from sp cs rs = 0%N.
Proof.
  revert t rs. induction cs as [|c cs IH]; intros t rs Hcl Ht; [done|]. destruct rs as [|a rs]; [by destruct c|].
  destruct c as [s p l|s p side q now|s p side q]; simpl in *; try by eapply IH.
  apply andb_true_iff in Hcl as [[H1%N.leb_le _]%andb_true_iff Hcl]. rewrite (IH now) by (done || lia).
  rewrite (proj2 (N.ltb_ge _ _)) by lia. by rewrite andb_false_r.
Qed.

(** What may still be accepted in a second that starts at [from], of which the
    current window is [[start, start + 1s)] with [k] orders in it. *)
Definition rate_budget (from start k max : N) : N :=
  if (from <=? start)%N then max - k
  else if (from <? start + kRateLimitWindowNs)%N then max - k + max
  else max + max.

Lemma rate_budget_reset from start t k max :
  (start + kRateLimitWindowNs <= t)%N -> (t < from + kRateLimitWindowNs)%N ->
  (rate_budget from t 0 max <= rate_budget from start k max)%N.
Proof.
  unfold rate_budget, kRateLimitWindowNs. intros H1 H2.
  destruct (N.leb_spec from t), (N.leb_spec from start), (N.ltb_spec from (start + 1000000000)),
    (N.ltb_spec from (t + 1000000000)); lia.
Qed.

Lemma rate_budget_accept from start t k max :
  (start <= t)%N -> (t < start + kRateLimitWindowNs)%N -> (k < max)%N ->
  ((if (from <=? t)%N && (t <? from + kRateLimitWindowNs)%N then 1 else 0) + rate_budget from start (k + 1) max
    <= rate_budget from start k max)%N.
Proof.
  unfold rate_budget, kRateLimitWindowNs. intros H1 H2 H3.
  destruct (N.leb_spec from t), (N.ltb_spec t (from + 1000000000)), (N.leb_spec from start),
    (N.ltb_spec from (start + 1000000000)); simpl; lia.
Qed.

(** The entry that a check leaves, and its answer. *)
Lemma check_entry r s p side q now a r' st :
  r !! pack_key s p = Some st -> check_new_order r s p side q now = Some (a, r') ->
  (window_start st <= now)%N -> (now < two64)%N ->
  (max_orders_per_second (limits st) <= uint32_max)%N ->
  exists st', r' !! pack_key s p = Some st' /\ limits st' = limits st /\
    ((st' = st /\ a <> RNone) \/
     let st1 := if (kRateLimitWindowNs <=? now - window_start st)%N then mkPState (limits st) (net_position st) now 0 else st in
     (st' = st1 /\ a <> RNone) \/
     ((orders_in_window st1 < max_orders_per_second (limits st))%N /\ window_start st' = window_start st1 /\
      orders_in_window st' = (orders_in_window st1 + 1)%N)).
Proof.
  intros Hst Hc Hnow Hn64 Hmax. unfold check_new_order in Hc. rewrite Hst in Hc.
  case_match; [injection Hc as <- <-; exists st; split_and!; [done|done|left; by split]|].
  apply bind_Some in Hc as (d & _ & Hc). apply bind_Some in Hc as (pr & _ & Hc). apply bind_Some in Hc as (lo & _ & Hc).
  destruct (_ || _) in Hc; [injection Hc as <- <-; exists st; split_and!; [done|done|left; by split]|].
  rewrite sub_u64_ge in Hc by done. cbv zeta.
  set (st1 := if (kRateLimitWindowNs <=? now - window_start st)%N then _ else st) in *.
  assert (Hl1 : limits st1 = limits st) by (unfold st1; by destruct (_ <=? _)%N).
  destruct (N.leb_spec (max_orders_per_second (limits st)) (orders_in_window st1)) as [Hle|Hlt]; injection Hc as <- <-;
    rewrite lookup_insert_eq; eexists; (split; [done|]); (split; [done|]); right.
  - left. by split.
  - right. simpl. split_and!; try done. unfold inc32. rewrite wrap32_small; [done|]. unfold uint32_max, two32 in *. lia.
Qed.

(** What the entry left by a check says of the acceptances still possible,
    [rest] of them after the call. *)
Lemma rate_check_budget from now a st st' max rest :
  (window_start st <= now)%N -> (now < from + kRateLimitWindowNs)%N -> (orders_in_window st <= max)%N ->
  ((st' = st /\ a <> RNone) \/
   let st1 := if (kRateLimitWindowNs <=? now - window_start st)%N then mkPState (limits st) (net_position st) now 0 else st in
   (st' = st1 /\ a <> RNone) \/
   ((orders_in_window st1 < max)%N /\ window_start st' = window_start st1 /\ orders_in_window st' = (orders_in_window st1 + 1)%N)) ->
  ((window_start st' <= now)%N -> (orders_in_window st' <= max)%N -> (rest <= rate_budget from (window_start st') (orders_in_window st') max)%N) ->
  ((if bool_decide (Some a = Some RNone) && ((from <=? now)%N && (now <? from + kRateLimitWindowNs)%N) then 1 else 0) + rest
    <= rate_budget from (window_start st) (orders_in_window st) max)%N.
Proof.
  intros H1 Hlt Hk Hcase Hrest. destruct Hcase as [[-> Ha]|Hcase].
  { rewrite bool_decide_eq_false_2 by congruence. simpl. apply Hrest; [lia|done]. }
  cbv zeta in Hcase. destruct (N.leb_spec kRateLimitWindowNs (now - window_start st)) as [Hr|Hr].
  - eapply N.le_trans; [|apply (rate_budget_reset from (window_start st) now); [lia|done]].
    destruct Hcase as [[-> Ha]|(H3 & H4 & H5)].
    + rewrite bool_decide_eq_false_2 by congruence. simpl. apply Hrest; simpl; lia.
    + simpl in *. rewrite H4, H5 in Hrest. pose proof (rate_budget_accept from now now 0 max) as Hb.
      specialize (Hrest ltac:(lia) ltac:(lia)). destruct (bool_decide _); simpl; unfold kRateLimitWindowNs in *; lia.
  - destruct Hcase as [[-> Ha]|(H3 & H4 & H5)].
    + rewrite bool_decide_eq_false_2 by congruence. simpl. apply Hrest; [lia|done].
    + rewrite H4, H5 in Hrest. specialize (Hrest ltac:(lia) ltac:(lia)).
      pose proof (rate_budget_accept from (window_start st) now (orders_in_window st) max) as Hb.
      destruct (bool_decide _); simpl; unfold kRateLimitWindowNs in *; lia.
Qed.

Lemma rate_window from sp L cs r rs r' st t :
  r !! pack_key sp.1 sp.2 = Some st -> limits st = L -> (window_start st <= t)%N ->
  (orders_in_window st <= max_orders_per_second L)%N -> (max_orders_per_second L <= uint32_max)%N ->
  clock_ordered t cs = true -> forallb call_ids_ok cs = true -> id32 sp.2 = true ->
  forallb (fun c => negb (changes_limits sp c)) cs = true ->
  risk_run r cs = Some (rs, r') ->
  (accepted_in from sp cs rs <= rate_budget from (window_start st) (orders_in_window st) (max_orders_per_second L))%N.
Proof.
  intros Hst HL Ht Hk Hmax Hcl Hid Hp Hnl. revert r rs st t Hst HL Ht Hk Hcl.
  induction cs as [|c cs IH]; intros r rs st t Hst HL Ht Hk Hcl Hrun; simpl in Hrun.
  { injection Hrun as <- _. simpl. lia. }
  simpl in Hid, Hnl. apply andb_true_iff in Hid as [Hc Hid], Hnl as [Hn Hnl]. specialize (IH Hid Hnl).
  apply bind_Some in Hrun as ([a r1] & Hstep & Hrun). apply bind_Some in Hrun as ([rs1 r2] & Hrun & [= <- <-]).
  assert (Hskip : forall t', clock_ordered t' cs = true -> (window_start st <= t')%N -> r1 !! pack_key sp.1 sp.2 = Some st ->
    (accepted_in from sp cs rs1 <= rate_budget from (window_start st) (orders_in_window st) (max_orders_per_second L))%N).
  { intros t' Hcl' Ht' Hst'. by eapply (IH r1 rs1 st t'). }
  destruct (decide (call_pair c = sp)) as [Heq|Hne]; cycle 1.
  { assert (Hst' : r1 !! pack_key sp.1 sp.2 = Some st).
    { rewrite (risk_step_other _ _ _ _ (pack_key sp.1 sp.2) Hstep); [done|]. unfold call_key. intros Hkk.
      apply andb_true_iff in Hc as [_ Hcp]. apply pack_key_inj in Hkk as [H1 H2]; try done.
      apply Hne. destruct (call_pair c), sp. simpl in *. congruence. }
    destruct c as [s p l|s p side q now|s p side q]; simpl in *; [by eapply Hskip| |by eapply Hskip].
    apply andb_true_iff in Hcl as [[H1%N.leb_le _]%andb_true_iff Hcl]. rewrite bool_decide_eq_false_2 by done. simpl.
    eapply Hskip; [exact Hcl|lia|done]. }
  destruct c as [s p l|s p side q now|s p side q]; simpl in Heq, Hstep, Hcl, Hn |- *; subst sp; simpl in *.
  - by rewrite bool_decide_eq_true_2 in Hn.
  - apply bind_Some in Hstep as ([a1 r1'] & Hchk & [= <- <-]).
    apply andb_true_iff in Hcl as [[H1%N.leb_le H2%N.ltb_lt]%andb_true_iff Hcl]. subst L.
    rewrite bool_decide_eq_true_2 by done. simpl.
    destruct (N.lt_ge_cases now (from + kRateLimitWindowNs)) as [Hlt|Hge]; cycle 1.
    { rewrite (accepted_none from (s, p) cs rs1 now), (proj2 (N.ltb_ge _ _)) by done. rewrite andb_false_r. lia. }
    destruct (check_entry r s p side q now a1 r1' st Hst Hchk) as (st' & Hst' & HL' & Hcase); [lia|done|done|].
    rewrite <- andb_assoc. apply (rate_check_budget from now a1 st st'); [lia|done|done|done|]. intros H3 H4. by eapply (IH r1' rs1 st' now).
  - apply bind_Some in Hstep as (r1' & Hf & [= <- <-]). unfold on_fill, state_at in Hf. rewrite Hst in Hf.
    apply bind_Some in Hf as (d & _ & Hf). apply bind_Some in Hf as (np & _ & [= <-]).
    eapply (IH _ rs1 (mkPState (limits st) np (window_start st) (orders_in_window st)) t); try done.
    by rewrite lookup_insert_eq.
Qed.

(** * Theorems *)

(** C33. The rate limit holds over any second, not only over the manager's own
    windows: on a new manager, once a participant has been given limits on a
    symbol, and as long as these are not changed and the clock does not go
    back, at most twice [max_orders_per_second] of its orders are accepted at
    times in any interval of one second, whatever the other calls are. *)
Theorem rate_limit_any_second symbol participant L cs rs r from :
  risk_run ∅ (RLimits symbol participant L :: cs) = Some (rs, r) ->
  (max_orders_per_second L <= uint32_max)%N -> clock_ordered 0 cs = true ->
  forallb call_ids_ok cs = true -> id32 participant = true ->
  forallb (fun c => negb (changes_limits (symbol, participant) c)) cs = true ->
  (accepted_in from (symbol, participant) (RLimits symbol participant L :: cs) rs <= 2 * max_orders_per_second L)%N.
Proof.
  cbn [risk_run risk_step mbind option_bind]. intros ([rs1 r2] & Hrun & [= <- <-])%bind_Some Hmax Hcl Hid Hp Hnl. simpl.
  eapply N.le_trans.
  - eapply (rate_window from (symbol, participant) L cs _ rs1 r2 (mkPState L 0 0 0) 0); try done; [|simpl; lia].
    unfold set_limits. by rewrite lookup_insert_eq.
  - unfold rate_budget. repeat case_match; simpl; lia.
Qed.

(** Positions are the fills: after any calls whose quantities stay within
    64 bits in total, in any order and for any pairs, every call was defined
    and [position] is the sum of the pair's own fills, buys minus sells. *)
Theorem positions_are_fills cs :
  forallb call_ids_ok cs = true -> calls_fit 0 cs = true ->
  exists rs r, risk_run ∅ cs = Some (rs, r) /\
    forall s p, id32 s = true -> id32 p = true -> position r s p = filled_by (s, p) cs.
Proof.
  intros Hid Hfit. destruct (risk_run_positions 0 ∅ cs) as (rs & r & Hrun & _ & Hp); [done|apply map_Forall_empty|done|done|].
  exists rs, r. split; [done|]. intros s p Hs Hpp. rewrite Hp by done. done.
Qed.

(** Participants do not affect each other: the answers to one pair's calls
    and its position are those it gets when it is alone, whatever the other
    pairs do in between. *)
Theorem risk_pairs_isolated s p cs rs r :
  forallb call_ids_ok cs = true -> id32 p = true -> risk_run ∅ cs = Some (rs, r) ->
  exists r', risk_run ∅ (of_pair (s, p) cs) = Some (answers_of (s, p) cs rs, r') /\
    position r' s p = position r s p /\ limits_for r' s p = limits_for r s p.
Proof.
  intros Hid Hp Hrun. destruct (risk_run_isolated (s, p) ∅ ∅ cs rs r Hid Hp eq_refl Hrun) as (r' & Hrun' & Hk). simpl in Hk.
  exists r'. unfold position, limits_for. by rewrite Hk.
Qed.

(** A participant without limits may send any order, but after its first
    fill the same check is undefined for the largest one: the prospective
    position is computed before it is compared, and overflows. *)
Theorem unlimited_check_overflows :
  check_new_order ∅ 1 7 Buy int64_max 0 = Some (RNone, ∅) /\
  exists r, on_fill ∅ 1 7 Buy 1 = Some r /\ limits_for r 1 7 = no_limits /\
    check_new_order r 1 7 Buy int64_max 0 = None.
Proof. split; [done|]. eexists. split; [vm_compute; reflexivity|]. split; vm_compute; reflexivity. Qed.

(** * Concrete calls *)

Definition two_traders : list RiskCall :=
  [RCheck 1 7 Buy 10 100; RCheck 1 8 Sell 5 200; RFill 1 7 Buy 10; RFill 1 8 Sell 10; RCheck 1 7 Buy 95 300;
   RCheck 1 7 Sell 3 400; RCheck 1 7 Sell 3 500; RCheck 1 7 Sell 3 2000000000; RFill 1 7 Sell 3].

Lemma rate_limit_any_second_witness :
  exists rs r, risk_run ∅ (RLimits 1 7 (mkLimits 100 1000 2) :: two_traders) = Some (rs, r) /\
    accepted_in 50 (1, 7)%N (RLimits 1 7 (mkLimits 100 1000 2) :: two_traders) rs = 2%N /\
    (accepted_in 50 (1, 7)%N (RLimits 1 7 (mkLimits 100 1000 2) :: two_traders) rs <= 2 * 2)%N.
Proof.
  do 2 eexists. split; [vm_compute; reflexivity|]. split; [vm_compute; reflexivity|].
  eapply (rate_limit_any_second 1 7 (mkLimits 100 1000 2) two_traders); vm_compute; done.
Defined.

Lemma positions_are_fills_witness :
  exists rs r, risk_run ∅ two_traders = Some (rs, r) /\
    forall s p, id32 s = true -> id32 p = true -> position r s p = filled_by (s, p) two_traders.
Proof. apply (positions_are_fills two_traders); vm_compute; done. Defined.

Lemma risk_pairs_isolated_witness :
  exists rs r, risk_run ∅ two_traders = Some (rs, r) /\
    exists r', risk_run ∅ (of_pair (1, 7)%N two_traders) = Some (answers_of (1, 7)%N two_traders rs, r') /\
      position r' 1 7 = position r 1 7 /\ limits_for r' 1 7 = limits_for r 1 7.
Proof.
  do 2 eexists. split; [vm_compute; reflexivity|].
  apply (risk_pairs_isolated 1 7 two_traders); vm_compute; reflexivity.
Defined.
