(* ===== verification/MatchingEngine.v ===== *)
(** include/lightninglob/matching_engine.hpp: [MatchingEngine<BookT>], the
    layer that gives every symbol its book, assigns order ids, applies the risk
    checks and routes the trades back to the risk manager and the user.

    The template parameter is a type with the operations of [BookOps] and a
    constructor ([BookCtor]); the engine is proved against their laws.

    A book calls [on_trade] while it matches.  [on_trade] touches only the risk
    manager and the user's callback, which no book reads, so the model makes
    the same calls in the same order on the trades that the book's call has
    appended to the log. *)

From S2P Require Import Prelude Types OrderPool BookCore BookSpec BookSpecFacts BookTrades BookInterface.
From S2P Require Import OrderBookVector OrderBookMap OrderBookArray RiskManager.

(** The constructor [BookT(symbol, min_price, max_price, hint, stp)], which may
    throw. *)
Class BookCtor (B : Type) :=
  bk_new : SymbolId -> Price -> Price -> N -> SelfTradePrevention -> option (Arr.ctor_error + B).

Record Engine (B : Type) := mkEngine {
  books_ : gmap N B;
  risk_manager_ : RiskManager;
  next_order_id_ : N;
  user_trade_callback_ : bool
}.

Arguments mkEngine {B}.
Arguments books_ {B}.
Arguments risk_manager_ {B}.
Arguments next_order_id_ {B}.
Arguments user_trade_callback_ {B}.

(** What the engine's calls can be seen to do outside: the clock and the trades
    that the books report, and the trades given to the user's callback. *)
Record EngineWorld := mkEWorld {
  ew_world : World;
  ew_user : list Trade
}.

Section engine.
Context {B : Type} `{BookOps B} `{BookCtor B}.
Context (now_ns : nat -> Timestamp).

Definition new_engine (risk_manager : RiskManager) : Engine B := mkEngine ∅ risk_manager 1 false.

Definition set_book (symbol : SymbolId) (b : B) (e : Engine B) : Engine B :=
  mkEngine (<[symbol := b]> (books_ e)) (risk_manager_ e) (next_order_id_ e) (user_trade_callback_ e).

Definition set_risk (r : RiskManager) (e : Engine B) : Engine B :=
  mkEngine (books_ e) r (next_order_id_ e) (user_trade_callback_ e).

(** [try_emplace] constructs a book only for a new symbol; a constructor that
    throws leaves the engine as it was. *)
Definition add_symbol (e : Engine B) (symbol : SymbolId) (min_price max_price : Price) (hint : N)
    (stp : SelfTradePrevention) : option (option Arr.ctor_error * Engine B) :=
  match books_ e !! symbol with
  | Some _ => Some (None, e)
  | None =>
      r ← bk_new symbol min_price max_price hint stp;
      match r with
      | inl err => Some (Some err, e)
      | inr b => Some (None, set_book symbol (bk_set_callback b) e)
      end
  end.

Definition book (e : Engine B) (symbol : SymbolId) : option B := books_ e !! symbol.

Definition has_symbol (e : Engine B) (symbol : SymbolId) : bool := bool_decide (is_Some (books_ e !! symbol)).

Definition reset_symbol (e : Engine B) (symbol : SymbolId) : option (Engine B) :=
  match books_ e !! symbol with
  | None => Some e
  | Some b => b1 ← bk_reset b; Some (set_book symbol b1 e)
  end.

Definition on_trade (e : Engine B) (t : Trade) (user : list Trade) : option (Engine B * list Trade) :=
  r1 ← on_fill (risk_manager_ e) (t_symbol t) (t_taker_participant_id t) (t_taker_side t) (t_quantity t);
  let maker_side := match t_taker_side t with Buy => Sell | Sell => Buy end in
  r2 ← on_fill r1 (t_symbol t) (t_maker_participant_id t) maker_side (t_quantity t);
  Some (set_risk r2 e, if user_trade_callback_ e then user ++ [t] else user).

Fixpoint on_trades (e : Engine B) (ts : list Trade) (user : list Trade) : option (Engine B * list Trade) :=
  match ts with
  | [] => Some (e, user)
  | t :: ts' => '(e1, user1) ← on_trade e t user; on_trades e1 ts' user1
  end.

(** The trades of a book's call: what it has appended to the log. *)
Definition call_trades (w w' : World) : list Trade := drop (length (w_trades w)) (w_trades w').

Definition submit_order (e : Engine B) (request : OrderRequest) (w : EngineWorld)
    : option (ExecutionReport * Engine B * EngineWorld) :=
  match books_ e !! rq_symbol request with
  | None => Some (mkReport (rq_client_order_id request) Rejected 0 0 UnknownSymbol, e, w)
  | Some b =>
      let '(id, next) :=
        if negb (rq_client_order_id request =? kInvalidOrderId)%N
        then (rq_client_order_id request, next_order_id_ e)
        else (next_order_id_ e, inc64 (next_order_id_ e)) in
      let receipt_time := now_ns (w_reads (ew_world w)) in
      let w1 := mkWorld (S (w_reads (ew_world w))) (w_trades (ew_world w)) in
      '(risk_reason, r1) ← check_new_order (risk_manager_ e) (rq_symbol request) (rq_participant_id request)
        (rq_side request) (rq_quantity request) receipt_time;
      let e1 := mkEngine (books_ e) r1 next (user_trade_callback_ e) in
      if negb (bool_decide (risk_reason = RNone))
      then Some (mkReport id Rejected 0 0 risk_reason, e1, mkEWorld w1 (ew_user w))
      else
        let order := mkOrder id (rq_price request) (rq_quantity request) (rq_quantity request) receipt_time
          (rq_symbol request) (rq_participant_id request) (rq_side request) (rq_type request)
          (rq_time_in_force request) in
        '(report, b1, w2) ← bk_add now_ns b order w1;
        '(e2, user) ← on_trades (set_book (rq_symbol request) b1 e1) (call_trades w1 w2) (ew_user w);
        Some (report, e2, mkEWorld w2 user)
  end.

Definition cancel_order (e : Engine B) (symbol : SymbolId) (id : OrderId) : option (bool * Engine B) :=
  match books_ e !! symbol with
  | None => Some (false, e)
  | Some b => '(r, b1) ← bk_cancel b id; Some (r, set_book symbol b1 e)
  end.

Definition amend_order (e : Engine B) (symbol : SymbolId) (id : OrderId) (new_quantity : Quantity)
    (new_price : option Price) (w : EngineWorld) : option (ExecutionReport * Engine B * EngineWorld) :=
  match books_ e !! symbol with
  | None => Some (mkReport id Rejected 0 0 UnknownSymbol, e, w)
  | Some b =>
      '(report, b1, w1) ← bk_amend now_ns b id new_quantity new_price (ew_world w);
      '(e1, user) ← on_trades (set_book symbol b1 e) (call_trades (ew_world w) w1) (ew_user w);
      Some (report, e1, mkEWorld w1 user)
  end.

Definition set_trade_callback (e : Engine B) : Engine B :=
  mkEngine (books_ e) (risk_manager_ e) (next_order_id_ e) true.

Definition set_risk_limits (e : Engine B) (symbol : SymbolId) (participant : ParticipantId) (l : SymbolRiskLimits)
    : Engine B := set_risk (set_limits (risk_manager_ e) symbol participant l) e.
End engine.
