(* ===== verification/EngineFacts.v ===== *)
(** Facts on the matching engine: the abstract engine (the same engine over the
    abstract book), the simulation between the two over any workload, and the
    accounting of trades to positions. *)

From S2P Require Import Prelude Types OrderPool BookCore BookSpec BookSpecFacts BookTrades BookInterface.
From S2P Require Import OrderBookVector OrderBookMap OrderBookArray RiskManager MatchingEngine.

(** * The trades of a call *)

(** Trades in a symbol, of positive quantities, between 32-bit participants,
    at most [bound] in all. *)
Record trades_ok (symbol : SymbolId) (bound : Z) (w w' : World) (ts : list Trade) : Prop := {
  to_log : w_trades w' = w_trades w ++ ts;
  to_sum : (traded ts <= bound)%Z;
  to_each : Forall (fun t => t_symbol t = symbol /\ (0 < t_quantity t)%Z /\
    id32 (t_taker_participant_id t) = true /\ id32 (t_maker_participant_id t) = true) ts
}.

(** Each of them is for one unit at least. *)
Lemma traded_count ts : Forall (fun t => (0 < t_quantity t)%Z) ts -> (Z.of_nat (length ts) <= traded ts)%Z.
Proof. induction 1; simpl; lia. Qed.

Lemma trades_count symbol bound w w' ts : trades_ok symbol bound w w' ts -> (Z.of_nat (length ts) <= bound)%Z.
Proof.
  intros [_ Hs He]. pose proof (traded_count ts) as Hc. enough (Z.of_nat (length ts) <= traded ts)%Z by lia.
  apply Hc. eapply Forall_impl; [exact He|]. naive_solver.
Qed.

Definition known (o : Order) : Prop := id32 (o_participant_id o) = true.

Section trades.
Context (now_ns : nat -> Timestamp) (cfg : Config) (in_range : Price -> bool).
Hypothesis callback : trade_callback_ cfg = true.

Lemma trades_none symbol bound w w' : (0 <= bound)%Z -> w_trades w' = w_trades w -> trades_ok symbol bound w w' [].
Proof. intros Hb Hw. split; [by rewrite app_nil_r|done|constructor]. Qed.

Lemma spec_add_trades a o w r a' w' :
  abook_ok a -> add_pre a o -> all_orders known a -> known o -> spec_add now_ns cfg in_range a o w = (r, a', w') ->
  exists ts, trades_ok (symbol_ cfg) (Z.max 0 (o_quantity o)) w w' ts /\
    Forall (fun t => t_taker_participant_id t = o_participant_id o /\ t_taker_side t = o_side o) ts.
Proof.
  intros Hok Hpre Ha Ho Hs. destruct (spec_add_outcome now_ns cfg in_range a o w r a' w' callback Hok Hpre Hs) as [ts [H1 H2 H3 _ _ H6]].
  exists ts. split; [split; [done| |]|].
  - rewrite <- H2. destruct (er_status r); try (destruct H6 as (_ & ? & ? & _); lia); try (destruct H6; lia).
    destruct H6 as (-> & _). rewrite H2. simpl. lia.
  - eapply Forall_impl; [exact H3|]. intros t [(_ & _ & Ht & Hsym) (m & Hm & _ & _ & Hp & Hq) _ _].
    split_and!; [done|lia|by rewrite Ht|]. rewrite Hp.
    destruct (proj1 (all_orders_sides known (opposite (o_side o)) a) Ha) as [H' _]. rewrite Forall_forall in H'. by apply H'.
  - eapply Forall_impl; [exact H3|]. by intros t [(_ & ? & ? & _) _ _ _].
Qed.

Lemma spec_amend_trades a id q p w r a' w' :
  abook_ok a -> amend_pre a id q -> all_orders known a -> spec_amend now_ns cfg in_range a id q p w = (r, a', w') ->
  exists ts, trades_ok (symbol_ cfg) (Z.max 0 q) w w' ts.
Proof.
  intros Hok Hpre Ha. unfold spec_amend.
  destruct (find_order id (orders a)) as [o|] eqn:Hf; [|intros [= _ _ <-]; exists []; apply trades_none; [lia|done]].
  destruct (q <=? 0)%Z; [intros [= _ _ <-]; exists []; apply trades_none; [lia|done]|].
  destruct (negb _); [intros [= _ _ <-]; exists []; apply trades_none; [lia|done]|].
  destruct (_ && _); [intros [= _ _ <-]; exists []; apply trades_none; [lia|done]|].
  intros Hs. assert (Ho : known o).
  { apply find_order_Some in Hf as [Ho _]. unfold all_orders in Ha. rewrite Forall_forall in Ha. by apply Ha. }
  pose proof (replacement_pre a id o q (default (o_price o) p) (now_ns (w_reads w)) Hok Hf Hpre) as Hpre'.
  pose proof (spec_cancel_keeps known a id Ha) as Ha'. pose proof (spec_cancel_ok a id Hok) as Hok'.
  unfold spec_cancel in Hs, Ha', Hok'. rewrite Hf in Hs, Ha', Hok'. cbn [snd] in *.
  destruct (spec_add_trades _ _ _ _ _ _ Hok' Hpre' Ha' Ho Hs) as (ts & [H1 H2 H3] & _). exists ts. by split.
Qed.
End trades.

(** * Trades and positions *)

(** What a trade adds to the position of a pair: its taker's leg and its
    maker's leg. *)
Definition leg (sp : SymbolId * ParticipantId) (t : Trade) : Z :=
  (if decide ((t_symbol t, t_taker_participant_id t) = sp) then signed_z (t_taker_side t) (t_quantity t) else 0) +
  (if decide ((t_symbol t, t_maker_participant_id t) = sp) then signed_z (opposite (t_taker_side t)) (t_quantity t) else 0).

Fixpoint net_of (sp : SymbolId * ParticipantId) (ts : list Trade) : Z :=
  match ts with [] => 0 | t :: ts' => leg sp t + net_of sp ts' end.

Lemma net_of_app sp ts1 ts2 : net_of sp (ts1 ++ ts2) = (net_of sp ts1 + net_of sp ts2)%Z.
Proof. induction ts1 as [|t ts1 IH]; simpl; lia. Qed.

(** The positions of all participants in all symbols, summed. *)
Definition total_position (r : RiskManager) : Z := map_fold (fun _ st acc => (net_position st + acc)%Z) 0%Z r.

Lemma total_position_new r key st :
  r !! key = None -> total_position (<[key := st]> r) = (net_position st + total_position r)%Z.
Proof. intros Hk. unfold total_position. rewrite map_fold_insert_L; [done| |done]. intros. lia. Qed.

Lemma total_position_insert r key st :
  total_position (<[key := st]> r) = (total_position r - net_position (state_at r key) + net_position st)%Z.
Proof.
  unfold state_at. destruct (r !! key) as [st0|] eqn:Hk; simpl; [|rewrite total_position_new by done; lia].
  rewrite <- (insert_delete_id r key st0 Hk) at 2. rewrite <- insert_delete_eq.
  rewrite !total_position_new by apply lookup_delete_eq. lia.
Qed.

Lemma on_fill_total r s p side q r' d :
  on_fill r s p side q = Some r' -> signed side q = Some d -> total_position r' = (total_position r + d)%Z.
Proof.
  unfold on_fill. intros Hf Hd. rewrite Hd in Hf. simpl in Hf. apply bind_Some in Hf as (np & Hnp & [= <-]).
  rewrite total_position_insert. simpl. unfold add64, chk64 in Hnp. case_match; [|done]. injection Hnp as <-. lia.
Qed.

(** The risk manager's part of [on_trade]. *)
Definition risk_trade (r : RiskManager) (t : Trade) : option RiskManager :=
  r1 ← on_fill r (t_symbol t) (t_taker_participant_id t) (t_taker_side t) (t_quantity t);
  on_fill r1 (t_symbol t) (t_maker_participant_id t) (opposite (t_taker_side t)) (t_quantity t).

Fixpoint risk_trades (r : RiskManager) (ts : list Trade) : option RiskManager :=
  match ts with [] => Some r | t :: ts' => r1 ← risk_trade r t; risk_trades r1 ts' end.

Lemma on_trades_risk {B} (e : Engine B) ts user r' :
  risk_trades (risk_manager_ e) ts = Some r' ->
  on_trades e ts user = Some (set_risk r' e, if user_trade_callback_ e then user ++ ts else user).
Proof.
  revert e user. induction ts as [|t ts IH]; intros e user; simpl.
  { intros [= <-]. destruct e as [bs r n []]; simpl; [|done]. by rewrite app_nil_r. }
  unfold risk_trade, on_trade. intros (r1 & (r0 & H0 & H1)%bind_Some & Hts)%bind_Some. rewrite H0. simpl.
  replace (match t_taker_side t with Buy => Sell | Sell => Buy end) with (opposite (t_taker_side t)) by (by destruct (t_taker_side t)).
  rewrite H1. simpl. rewrite (IH (set_risk r1 e)) by done. destruct e as [bs r n []]; simpl; [|done]. by rewrite <- app_assoc.
Qed.

Definition trade_fits (symbol : SymbolId) (t : Trade) : Prop :=
  t_symbol t = symbol /\ (0 < t_quantity t)%Z /\ id32 (t_taker_participant_id t) = true /\ id32 (t_maker_participant_id t) = true.

Lemma pair_key s p s' p' : id32 p = true -> id32 p' = true ->
  (if decide (pack_key s p = pack_key s' p') then true else false) = (if decide ((s, p) = (s', p')) then true else false).
Proof.
  intros Hp Hp'. destruct (decide ((s, p) = (s', p'))) as [[= -> ->]|Hne]; [by rewrite decide_True|].
  rewrite decide_False; [done|]. intros Hk. apply pack_key_inj in Hk as [-> ->]; done.
Qed.

(** What a trade does to the positions. *)
Definition credit (r : RiskManager) (t : Trade) : RiskManager :=
  add_position (add_position r (t_symbol t) (t_taker_participant_id t) (signed_z (t_taker_side t) (t_quantity t)))
    (t_symbol t) (t_maker_participant_id t) (signed_z (opposite (t_taker_side t)) (t_quantity t)).

Lemma risk_trade_ok b r t symbol :
  (0 <= b)%Z -> risk_within b r -> trade_fits symbol t -> (b + 2 * t_quantity t <= int64_max)%Z ->
  exists r', risk_trade r t = Some r' /\ r' = credit r t /\ risk_within (b + 2 * t_quantity t) r' /\
    (forall key, limits (state_at r' key) = limits (state_at r key)) /\ total_position r' = total_position r /\
    forall s p, id32 p = true -> position r' s p = (position r s p + leg (s, p) t)%Z.
Proof.
  intros Hb Hr (_ & Hq & Ht & Hm) Hfit. unfold risk_trade.
  destruct (on_fill_ok b r (t_symbol t) (t_taker_participant_id t) (t_taker_side t) (t_quantity t) Hb Hr) as (r1 & Hf1 & Heq1 & Hr1 & Hl1 & Hp1); [lia|].
  destruct (on_fill_ok (b + Z.abs (t_quantity t)) r1 (t_symbol t) (t_maker_participant_id t) (opposite (t_taker_side t)) (t_quantity t))
    as (r2 & Hf2 & Heq2 & Hr2 & Hl2 & Hp2); [lia|done|lia|].
  rewrite Hf1. simpl. exists r2. split_and!; [done|unfold credit; congruence| | | |].
  - replace (b + 2 * t_quantity t)%Z with (b + Z.abs (t_quantity t) + Z.abs (t_quantity t))%Z by lia. done.
  - intros key. by rewrite Hl2, Hl1.
  - assert (Hd : forall side, signed side (t_quantity t) = Some (signed_z side (t_quantity t))) by (intros; apply signed_ok; lia).
    rewrite (on_fill_total _ _ _ _ _ _ _ Hf2 (Hd _)), (on_fill_total _ _ _ _ _ _ _ Hf1 (Hd _)).
    destruct (t_taker_side t); simpl; lia.
  - intros s p Hp. rewrite !position_state, Hp2, Hp1. unfold leg.
    pose proof (pair_key (t_symbol t) (t_taker_participant_id t) s p Ht Hp) as K1.
    pose proof (pair_key (t_symbol t) (t_maker_participant_id t) s p Hm Hp) as K2.
    repeat destruct (decide _); try done; lia.
Qed.

Lemma risk_trades_ok b r ts symbol :
  (0 <= b)%Z -> risk_within b r -> Forall (trade_fits symbol) ts -> (b + 2 * traded ts <= int64_max)%Z ->
  exists r', risk_trades r ts = Some r' /\ r' = foldl credit r ts /\ risk_within (b + 2 * traded ts) r' /\
    (forall key, limits (state_at r' key) = limits (state_at r key)) /\ total_position r' = total_position r /\
    forall s p, id32 p = true -> position r' s p = (position r s p + net_of (s, p) ts)%Z.
Proof.
  intros Hb Hr Hts. revert b r Hb Hr. induction Hts as [|t ts Ht Hts IH]; intros b r Hb Hr Hfit; simpl in *.
  { exists r. rewrite Z.add_0_r. split_and!; try done. intros. lia. }
  assert (Hpos : (0 <= traded ts)%Z).
  { clear -Hts. induction Hts as [|t ts (_ & ? & _) _ IH]; simpl; lia. }
  pose proof Ht as (_ & Hq & _).
  destruct (risk_trade_ok b r t symbol Hb Hr Ht) as (r1 & -> & Heq1 & Hr1 & Hl1 & Ht1 & Hp1); [lia|]. simpl.
  destruct (IH (b + 2 * t_quantity t)%Z r1) as (r' & Hrt & Heq' & Hr' & Hl' & Ht' & Hp'); [lia|done|lia|]. exists r'. split_and!; [done|by rewrite <- Heq1| | | |].
  - replace (b + 2 * (t_quantity t + traded ts))%Z with (b + 2 * t_quantity t + 2 * traded ts)%Z by lia. done.
  - intros key. by rewrite Hl', Hl1.
  - congruence.
  - intros s p Hp. rewrite Hp', Hp1 by done. lia.
Qed.

Lemma check_new_order_total r s p side q now reason r' :
  check_new_order r s p side q now = Some (reason, r') -> total_position r' = total_position r.
Proof.
  unfold check_new_order. destruct (r !! pack_key s p) as [st|] eqn:Hst; [|by intros [= _ <-]].
  assert (Hw : forall st', net_position st' = net_position st -> total_position (<[pack_key s p := st']> r) = total_position r).
  { intros st' Hn. rewrite total_position_insert. unfold state_at. rewrite Hst. simpl. lia. }
  destruct (_ <? q)%Z; [by intros [= _ <-]|]. intros (d & _ & Hc)%bind_Some. apply bind_Some in Hc as (pr & _ & Hc).
  apply bind_Some in Hc as (lo & _ & Hc). destruct (_ || _) in Hc; [by injection Hc as _ <-|].
  destruct (_ <=? orders_in_window _)%N in Hc; injection Hc as _ <-; apply Hw; simpl; by destruct (kRateLimitWindowNs <=? _)%N.
Qed.

Lemma set_limits_total r s p l : total_position (set_limits r s p l) = total_position r.
Proof. unfold set_limits. rewrite total_position_insert. simpl. lia. Qed.

Lemma risk_within_mono b b' r : (b <= b')%Z -> risk_within b r -> risk_within b' r.
Proof. intros Hb Hr. eapply map_Forall_impl; [exact Hr|]. intros k st [H1 H2]. split; [lia|done]. Qed.

Lemma fits_mono t t' n n' a : (t <= t')%Z -> (n <= n')%nat -> fits t n a -> fits t' n' a.
Proof. intros Ht Hn [Hok [H1 H2]]. split; [done|]. split; lia. Qed.

(** * The abstract book as a book *)

Record SpecBook := mkSpecBook {
  sb_config : Config;
  sb_range : Price -> bool;
  sb_book : abook
}.

Definition set_abook (a : abook) (b : SpecBook) : SpecBook := mkSpecBook (sb_config b) (sb_range b) a.

#[export] Instance spec_ops : BookOps SpecBook := {|
  bk_config := sb_config;
  bk_in_range := sb_range;
  bk_add now_ns b o w :=
    let '(r, a, w') := spec_add now_ns (sb_config b) (sb_range b) (sb_book b) o w in Some (r, set_abook a b, w');
  bk_cancel b id := let '(r, a) := spec_cancel (sb_book b) id in Some (r, set_abook a b);
  bk_amend now_ns b id q p w :=
    let '(r, a, w') := spec_amend now_ns (sb_config b) (sb_range b) (sb_book b) id q p w in Some (r, set_abook a b, w');
  bk_reset b := Some (set_abook empty_abook b);
  bk_set_callback b :=
    mkSpecBook (mkConfig (symbol_ (sb_config b)) true (stp_policy_ (sb_config b))) (sb_range b) (sb_book b);
  bk_best s b := Some (best s (sb_book b));
  bk_depth s b n := Some (depth s n (sb_book b));
  bk_count b := N.of_nat (length (orders (sb_book b)))
|}.

(** When a book type's constructor throws, and which prices its books take. *)
Class BookCtorLaws (B : Type) `{BookLaws B} `{BookCtor B} := {
  bk_refuses : Price -> Price -> option Arr.ctor_error;
  bk_band : Price -> Price -> Price -> bool;
  bk_new_law : forall symbol min max hint stp, (hint <= 2 ^ 62)%N -> (max <= int64_max)%Z ->
    match bk_refuses min max with
    | Some err => bk_new symbol min max hint stp = Some (inl err)
    | None => exists b, bk_new symbol min max hint stp = Some (inr b) /\ bk_rep b empty_abook /\
        bk_config b = mkConfig symbol false stp /\ forall p, bk_in_range b p = bk_band min max p
    end
}.

Definition spec_ctor (refuses : Price -> Price -> option Arr.ctor_error) (band : Price -> Price -> Price -> bool)
    : BookCtor SpecBook := fun symbol min max _ stp =>
  Some match refuses min max with
       | Some err => inl err
       | None => inr (mkSpecBook (mkConfig symbol false stp) (band min max) empty_abook)
       end.

(** * Workloads *)

Inductive EngineCall :=
| XSymbol (symbol : SymbolId) (min max : Price) (hint : N) (stp : SelfTradePrevention)
| XSubmit (request : OrderRequest)
| XCancel (symbol : SymbolId) (id : OrderId)
| XAmend (symbol : SymbolId) (id : OrderId) (q : Quantity) (p : option Price)
| XReset (symbol : SymbolId)
| XLimits (symbol : SymbolId) (participant : ParticipantId) (l : SymbolRiskLimits)
| XCallback.

Inductive EngineAnswer :=
| XReport (r : ExecutionReport) | XBool (b : bool) | XThrown (err : option Arr.ctor_error) | XDone.

Section workload.
Context {B : Type} `{BookOps B} `{BookCtor B} (now_ns : nat -> Timestamp).

Definition engine_step (e : Engine B) (c : EngineCall) (w : EngineWorld) : option (EngineAnswer * Engine B * EngineWorld) :=
  match c with
  | XSymbol s min max hint stp => '(r, e1) ← add_symbol e s min max hint stp; Some (XThrown r, e1, w)
  | XSubmit rq => '(r, e1, w1) ← submit_order now_ns e rq w; Some (XReport r, e1, w1)
  | XCancel s id => '(r, e1) ← cancel_order e s id; Some (XBool r, e1, w)
  | XAmend s id q p => '(r, e1, w1) ← amend_order now_ns e s id q p w; Some (XReport r, e1, w1)
  | XReset s => e1 ← reset_symbol e s; Some (XDone, e1, w)
  | XLimits s p l => Some (XDone, set_risk_limits e s p l, w)
  | XCallback => Some (XDone, set_trade_callback e, w)
  end.

Fixpoint engine_run (e : Engine B) (cs : list EngineCall) (w : EngineWorld) : option (list EngineAnswer * Engine B * EngineWorld) :=
  match cs with
  | [] => Some ([], e, w)
  | c :: cs' =>
      '(r, e1, w1) ← engine_step e c w;
      '(rs, e2, w2) ← engine_run e1 cs' w1;
      Some (r :: rs, e2, w2)
  end.
End workload.

Definition engine_cost (c : EngineCall) : Z :=
  match c with XSubmit rq => Z.abs (rq_quantity rq) | XAmend _ _ q _ => Z.abs q | _ => 0 end.

Fixpoint engine_total (cs : list EngineCall) : Z :=
  match cs with [] => 0 | c :: cs' => engine_cost c + engine_total cs' end.

(** Arguments of the widths the code has: 32-bit ids, a capacity hint and a
    price band that can be allocated, a position limit that can be negated. *)
Definition engine_call_ok (c : EngineCall) : bool :=
  match c with
  | XSymbol s _ max hint _ => id32 s && (max <=? int64_max)%Z && (hint <=? 2 ^ 62)%N
  | XSubmit rq => id32 (rq_symbol rq) && id32 (rq_participant_id rq)
  | XLimits s p l => id32 s && id32 p && (- int64_max <=? max_position l)%Z && (max_position l <=? int64_max)%Z
  | _ => true
  end.

Definition engine_workload_ok (cs : list EngineCall) : bool :=
  forallb engine_call_ok cs && (2 * engine_total cs <=? int64_max)%Z && (N.of_nat (length cs) <? kNullIndex)%N.

(** * The specification of the engine

    The engine's behaviour over abstract books, in exact arithmetic and without
    undefined outcomes.  The answer of the risk check is the risk manager's. *)

Section spec.
Context (now_ns : nat -> Timestamp) (refuses : Price -> Price -> option Arr.ctor_error) (band : Price -> Price -> Price -> bool).
Implicit Types (e : Engine SpecBook) (w : EngineWorld).

(** The engine after a call of the book of [symbol] that left the book [a] and
    the world [w2], from the world [w1]. *)
Definition spec_after e symbol b (r : RiskManager) (next : N) (a : abook) (w1 w2 : World) (user : list Trade)
    : Engine SpecBook * EngineWorld :=
  let ts := call_trades w1 w2 in
  (mkEngine (<[symbol := set_abook a b]> (books_ e)) (foldl credit r ts) next (user_trade_callback_ e),
   mkEWorld w2 (if user_trade_callback_ e then user ++ ts else user)).

Definition spec_submit e rq w : EngineAnswer * Engine SpecBook * EngineWorld :=
  match books_ e !! rq_symbol rq with
  | None => (XReport (reject (rq_client_order_id rq) UnknownSymbol), e, w)
  | Some b =>
      let anonymous := (rq_client_order_id rq =? kInvalidOrderId)%N in
      let id := if anonymous then next_order_id_ e else rq_client_order_id rq in
      let next := if anonymous then (next_order_id_ e + 1)%N else next_order_id_ e in
      let now := now_ns (w_reads (ew_world w)) in
      let w1 := mkWorld (S (w_reads (ew_world w))) (w_trades (ew_world w)) in
      let '(reason, r1) := default (RNone, risk_manager_ e)
        (check_new_order (risk_manager_ e) (rq_symbol rq) (rq_participant_id rq) (rq_side rq) (rq_quantity rq) now) in
      if bool_decide (reason = RNone) then
        let o := mkOrder id (rq_price rq) (rq_quantity rq) (rq_quantity rq) now (rq_symbol rq) (rq_participant_id rq)
          (rq_side rq) (rq_type rq) (rq_time_in_force rq) in
        let '(report, a, w2) := spec_add now_ns (sb_config b) (sb_range b) (sb_book b) o w1 in
        let '(e1, w3) := spec_after e (rq_symbol rq) b r1 next a w1 w2 (ew_user w) in
        (XReport report, e1, w3)
      else (XReport (reject id reason), mkEngine (books_ e) r1 next (user_trade_callback_ e), mkEWorld w1 (ew_user w))
  end.

Definition spec_amend_call e symbol id q p w : EngineAnswer * Engine SpecBook * EngineWorld :=
  match books_ e !! symbol with
  | None => (XReport (reject id UnknownSymbol), e, w)
  | Some b =>
      let '(report, a, w2) := spec_amend now_ns (sb_config b) (sb_range b) (sb_book b) id q p (ew_world w) in
      let '(e1, w3) := spec_after e symbol b (risk_manager_ e) (next_order_id_ e) a (ew_world w) w2 (ew_user w) in
      (XReport report, e1, w3)
  end.

Definition spec_put e symbol (b : SpecBook) : Engine SpecBook :=
  mkEngine (<[symbol := b]> (books_ e)) (risk_manager_ e) (next_order_id_ e) (user_trade_callback_ e).

(** A new symbol gets an empty book that reports its trades, unless its band is
    refused; a known one keeps its book. *)
Definition spec_symbol e symbol min max stp : option Arr.ctor_error * Engine SpecBook :=
  match books_ e !! symbol, refuses min max with
  | Some _, _ => (None, e)
  | None, Some err => (Some err, e)
  | None, None => (None, spec_put e symbol (mkSpecBook (mkConfig symbol true stp) (band min max) empty_abook))
  end.

Definition spec_engine_step e (c : EngineCall) w : EngineAnswer * Engine SpecBook * EngineWorld :=
  match c with
  | XSymbol s min max _ stp => let '(r, e1) := spec_symbol e s min max stp in (XThrown r, e1, w)
  | XSubmit rq => spec_submit e rq w
  | XCancel s id =>
      match books_ e !! s with
      | None => (XBool false, e, w)
      | Some b => (XBool (spec_cancel (sb_book b) id).1, spec_put e s (set_abook (spec_cancel (sb_book b) id).2 b), w)
      end
  | XAmend s id q p => spec_amend_call e s id q p w
  | XReset s => (XDone, match books_ e !! s with None => e | Some b => spec_put e s (set_abook empty_abook b) end, w)
  | XLimits s p l =>
      (XDone, mkEngine (books_ e) (set_limits (risk_manager_ e) s p l) (next_order_id_ e) (user_trade_callback_ e), w)
  | XCallback => (XDone, mkEngine (books_ e) (risk_manager_ e) (next_order_id_ e) true, w)
  end.

Fixpoint spec_engine_run e (cs : list EngineCall) w : list EngineAnswer * Engine SpecBook * EngineWorld :=
  match cs with
  | [] => ([], e, w)
  | c :: cs' =>
      let '(r, e1, w1) := spec_engine_step e c w in
      let '(rs, e2, w2) := spec_engine_run e1 cs' w1 in
      (r :: rs, e2, w2)
  end.
End spec.

(** * The abstract engine *)

(** A symbol's abstract book within its budget. *)
Record spec_book_ok (t : Z) (n : nat) (symbol : SymbolId) (b : SpecBook) : Prop := {
  so_fits : fits t n (sb_book b);
  so_known : all_orders known (sb_book b);
  so_symbol : symbol_ (sb_config b) = symbol;
  so_callback : trade_callback_ (sb_config b) = true
}.

Record spec_engine_ok (t : Z) (n : nat) (e : Engine SpecBook) : Prop := {
  se_books : map_Forall (spec_book_ok t n) (books_ e);
  se_risk : risk_within (2 * t) (risk_manager_ e);
  se_next : (1 <= next_order_id_ e <= 1 + N.of_nat n)%N
}.

(** What a call did outside of the books: the trades it added to the log, to
    the positions and to the user's callback. *)
Record engine_effect {B} (e : Engine B) (w : EngineWorld) (e' : Engine B) (w' : EngineWorld) (ts : list Trade) : Prop := {
  ee_log : w_trades (ew_world w') = w_trades (ew_world w) ++ ts;
  ee_user : user_trade_callback_ e = true -> ew_user w' = ew_user w ++ ts /\ user_trade_callback_ e' = true;
  ee_total : total_position (risk_manager_ e') = total_position (risk_manager_ e);
  ee_position : forall s p, id32 p = true ->
    position (risk_manager_ e') s p = (position (risk_manager_ e) s p + net_of (s, p) ts)%Z
}.

Lemma effect_idle {B} (e e' : Engine B) w w' :
  w_trades (ew_world w') = w_trades (ew_world w) -> ew_user w' = ew_user w ->
  (user_trade_callback_ e = true -> user_trade_callback_ e' = true) ->
  total_position (risk_manager_ e') = total_position (risk_manager_ e) ->
  (forall key, net_position (state_at (risk_manager_ e') key) = net_position (state_at (risk_manager_ e) key)) ->
  engine_effect e w e' w' [].
Proof.
  intros H1 H2 Hcb H3 H4. split; [by rewrite app_nil_r| |done|].
  - rewrite H2, app_nil_r. auto.
  - intros s p _. rewrite !position_state, H4. simpl. lia.
Qed.

Definition is_risk (r : RejectReason) : bool :=
  match r with RiskMaxOrderSize | RiskMaxPosition | RiskRateLimited => true | _ => false end.

(** A book's report never has a risk reason. *)
Lemma spec_add_reason now_ns cfg in_range a o w r a' w' :
  spec_add now_ns cfg in_range a o w = (r, a', w') -> is_risk (er_reject_reason r) = false.
Proof.
  unfold spec_add, reject, settle. destruct (_ <=? 0)%Z; [by intros [= <- _ _]|].
  do 4 (destruct (_ && _); [by intros [= <- _ _]|]). destruct (sweep _ _ _ _ w) as [[[killed taker] ls] w1].
  destruct (_ =? 0)%Z; [by intros [= <- _ _]|]. destruct (_ && _); by intros [= <- _ _].
Qed.

Section spec_engine.
Context (now_ns : nat -> Timestamp) (refuses : Price -> Price -> option Arr.ctor_error) (band : Price -> Price -> Price -> bool).

#[local] Instance the_ctor : BookCtor SpecBook := spec_ctor refuses band.

Lemma spec_book_ok_mono t t' n n' s b : (t <= t')%Z -> (n <= n')%nat -> spec_book_ok t n s b -> spec_book_ok t' n' s b.
Proof. intros Ht Hn []. split; try done. by eapply fits_mono. Qed.

Lemma books_ok_mono t t' n n' (bs : gmap N SpecBook) : (t <= t')%Z -> (n <= n')%nat ->
  map_Forall (spec_book_ok t n) bs -> map_Forall (spec_book_ok t' n') bs.
Proof. intros Ht Hn Hb. eapply map_Forall_impl; [exact Hb|]. intros s b. by apply spec_book_ok_mono. Qed.

Lemma books_ok_insert t t' n n' (bs : gmap N SpecBook) s b : (t <= t')%Z -> (n <= n')%nat ->
  map_Forall (spec_book_ok t n) bs -> spec_book_ok t' n' s b -> map_Forall (spec_book_ok t' n') (<[s := b]> bs).
Proof. intros Ht Hn Hb Hs. apply map_Forall_insert_2; [done|]. by eapply books_ok_mono. Qed.

(** Settling the trades of a book's call. *)
Lemma spec_settle (e : Engine SpecBook) t q symbol w w' ts user :
  (0 <= t)%Z -> (0 <= q)%Z -> (2 * (t + q) <= int64_max)%Z -> risk_within (2 * t) (risk_manager_ e) -> trades_ok symbol q w w' ts ->
  exists r', on_trades e (call_trades w w') user =
      Some (set_risk r' e, if user_trade_callback_ e then user ++ ts else user) /\
    call_trades w w' = ts /\ r' = foldl credit (risk_manager_ e) ts /\
    risk_within (2 * (t + q)) r' /\ total_position r' = total_position (risk_manager_ e) /\
    forall s p, id32 p = true -> position r' s p = (position (risk_manager_ e) s p + net_of (s, p) ts)%Z.
Proof.
  intros Ht Hq Hfit Hr [Hlog Hsum Heach]. unfold call_trades. rewrite Hlog, drop_app_length.
  destruct (risk_trades_ok (2 * t) (risk_manager_ e) ts symbol) as (r' & Hrt & Heq & Hr' & _ & Htot & Hpos); [lia|done|done|lia|].
  exists r'. split_and!; [by apply on_trades_risk|done|done| |done|done]. eapply risk_within_mono; [|exact Hr']. lia.
Qed.

(** Either the order never reached a book, or the risk check accepted it and
    its trades are those of its own order. *)
Inductive submit_outcome {B} (e : Engine B) (rq : OrderRequest) (w : EngineWorld) (r : ExecutionReport)
    (ts : list Trade) : Prop :=
| submit_stopped :
    books_ e !! rq_symbol rq = None \/
    (exists reason r1, reason <> RNone /\ check_new_order (risk_manager_ e) (rq_symbol rq) (rq_participant_id rq) (rq_side rq)
      (rq_quantity rq) (now_ns (w_reads (ew_world w))) = Some (reason, r1)) ->
    ts = [] -> er_status r = Rejected -> submit_outcome e rq w r ts
| submit_booked b r1 :
    books_ e !! rq_symbol rq = Some b -> is_risk (er_reject_reason r) = false ->
    check_new_order (risk_manager_ e) (rq_symbol rq) (rq_participant_id rq) (rq_side rq) (rq_quantity rq)
      (now_ns (w_reads (ew_world w))) = Some (RNone, r1) ->
    (traded ts <= Z.max 0 (rq_quantity rq))%Z ->
    Forall (fun t => (0 < t_quantity t)%Z /\ t_symbol t = rq_symbol rq /\ t_taker_participant_id t = rq_participant_id rq /\
      t_taker_side t = rq_side rq) ts ->
    submit_outcome e rq w r ts.

Lemma outcome_count {B} (e : Engine B) rq w r ts : submit_outcome e rq w r ts -> (Z.of_nat (length ts) <= Z.abs (rq_quantity rq))%Z.
Proof.
  intros [_ -> _|b r1 _ _ _ Hs He]; [simpl; lia|]. pose proof (traded_count ts) as Hc. enough (Z.of_nat (length ts) <= traded ts)%Z by lia.
  apply Hc. eapply Forall_impl; [exact He|]. naive_solver.
Qed.

(** The id of an order and the counter after it, as the code and as the
    specification compute them. *)
Lemma spec_assign n (e : Engine SpecBook) rq :
  (1 <= next_order_id_ e <= 1 + N.of_nat n)%N -> (N.of_nat (S n) < kNullIndex)%N ->
  let anonymous := (rq_client_order_id rq =? kInvalidOrderId)%N in
  exists id next,
    (if negb anonymous then (rq_client_order_id rq, next_order_id_ e) else (next_order_id_ e, inc64 (next_order_id_ e))) = (id, next) /\
    (if anonymous then next_order_id_ e else rq_client_order_id rq) = id /\
    (if anonymous then (next_order_id_ e + 1)%N else next_order_id_ e) = next /\
    id <> kInvalidOrderId /\ (1 <= next <= 1 + N.of_nat (S n))%N.
Proof.
  intros Hn Hroom. cbv zeta. unfold kInvalidOrderId in *.
  destruct (N.eqb_spec (rq_client_order_id rq) 0) as [Hz|Hz]; simpl; eexists _, _; (split; [done|]); split_and!; try done; try lia;
    unfold inc64; rewrite wrap64_small by (unfold kNullIndex, two64 in *; lia); lia.
Qed.

Lemma spec_submit_ok t n (e : Engine SpecBook) rq w :
  (0 <= t)%Z -> spec_engine_ok t n e -> id32 (rq_symbol rq) = true -> id32 (rq_participant_id rq) = true ->
  (2 * (t + Z.abs (rq_quantity rq)) <= int64_max)%Z -> (N.of_nat (S n) < kNullIndex)%N ->
  exists r e' w' ts, submit_order now_ns e rq w = Some (r, e', w') /\ spec_submit now_ns e rq w = (XReport r, e', w') /\
    spec_engine_ok (t + Z.abs (rq_quantity rq)) (S n) e' /\ engine_effect e w e' w' ts /\ submit_outcome e rq w r ts.
Proof.
  intros Ht [Hb Hr Hn] Hs Hp Hfit Hroom. unfold submit_order, spec_submit.
  destruct (books_ e !! rq_symbol rq) as [b|] eqn:Hbook; cycle 1.
  { eexists _, _, _, []. split; [done|]. split; [done|]. split; [|split; [by apply effect_idle|constructor; auto]].
    split; [eapply books_ok_mono; [| |done]; lia|eapply risk_within_mono; [|done]; lia|lia]. }
  destruct (spec_assign n e rq Hn Hroom) as (id & next & -> & -> & -> & Hid & Hnext).
  destruct (check_new_order_ok (2 * t) (risk_manager_ e) (rq_symbol rq) (rq_participant_id rq) (rq_side rq) (rq_quantity rq)
    (now_ns (w_reads (ew_world w)))) as (reason & r1 & Hchk & Hr1 & Hsame); [lia|done|lia|].
  pose proof (check_new_order_total _ _ _ _ _ _ _ _ Hchk) as Htot1. rewrite Hchk. cbn [mbind option_bind from_option Datatypes.id].
  destruct (bool_decide_reflect (reason = RNone)) as [->|Hreason]; cbn [negb]; cycle 1.
  { eexists _, _, _, []. split; [done|]. split; [done|]. split_and!.
    - split; simpl; [eapply books_ok_mono; [| |done]; lia|eapply risk_within_mono; [|done]; lia|done].
    - apply effect_idle; try done. intros key. apply Hsame.
    - constructor; eauto. }
  pose proof (Hb _ _ Hbook) as [[Hok Hwi] Hknown Hsym Hcb]. simpl in Hok, Hwi.
  set (order := mkOrder id _ _ _ _ _ _ _ _ _).
  assert (Hpre : add_pre (sb_book b) order).
  { eapply within_add_pre; [done|exact Hwi|done|simpl; lia|lia]. }
  cbn [bk_add spec_ops].
  set (w1 := mkWorld _ _). destruct (spec_add now_ns (sb_config b) (sb_range b) (sb_book b) order w1) as [[report a'] w2] eqn:Hadd.
  cbn [mbind option_bind].
  destruct (spec_add_trades now_ns _ _ Hcb _ _ _ _ _ _ Hok Hpre Hknown Hp Hadd) as (ts & Hts & Htk).
  destruct (spec_settle (set_book (rq_symbol rq) (set_abook a' b) (mkEngine (books_ e) r1 next (user_trade_callback_ e)))
    t (Z.max 0 (rq_quantity rq)) (symbol_ (sb_config b)) w1 w2 ts (ew_user w)) as (r' & Hset & Hcall & Heq & Hr' & Htot & Hpos); [lia|lia|lia|done|done|].
  rewrite Hset. cbn [mbind option_bind]. eexists _, _, _, ts. split; [done|]. simpl in Heq.
  split; [unfold spec_after; by rewrite Hcall, <- Heq|]. split; [|split]; [split; simpl|split; simpl|].
  - eapply books_ok_insert; [| |exact Hb|]; [lia|lia|]. split; simpl; try done.
    + split; [by eapply spec_add_ok; [| |apply Hpre|]|]. eapply within_add in Hadd; [|done|exact Hwi].
      destruct Hadd as [H1 H2]. simpl in *. split; lia.
    + eapply spec_add_keeps; [|done|done| |exact Hadd]; [by intros ?? |done].
  - eapply risk_within_mono; [|exact Hr']. lia.
  - done.
  - apply Hts.
  - by intros ->.
  - simpl in Htot. congruence.
  - intros s p Hp'. rewrite Hpos by done. simpl. rewrite !position_state, (proj1 (Hsame _)). done.
  - eapply submit_booked; [done|by eapply spec_add_reason|exact Hchk|apply Hts|].
    apply Forall_forall. intros t' Ht'. pose proof (to_each _ _ _ _ _ Hts) as Hea. rewrite Forall_forall in Hea, Htk.
    destruct (Hea t' Ht') as (? & ? & _), (Htk t' Ht') as [? ?]. split_and!; try done. congruence.
Qed.

Lemma spec_amend_call_ok t n (e : Engine SpecBook) symbol id q p w :
  (0 <= t)%Z -> spec_engine_ok t n e -> (2 * (t + Z.abs q) <= int64_max)%Z -> (N.of_nat (S n) < kNullIndex)%N ->
  exists r e' w' ts, amend_order now_ns e symbol id q p w = Some (r, e', w') /\
    spec_amend_call now_ns e symbol id q p w = (XReport r, e', w') /\
    spec_engine_ok (t + Z.abs q) (S n) e' /\ (Z.of_nat (length ts) <= Z.abs q)%Z /\ engine_effect e w e' w' ts.
Proof.
  intros Ht [Hb Hr Hn] Hfit Hroom. unfold amend_order, spec_amend_call.
  destruct (books_ e !! symbol) as [b|] eqn:Hbook; cycle 1.
  { eexists _, _, _, []. split; [done|]. split; [done|]. split; [|split; [simpl; lia|by apply effect_idle]].
    split; [eapply books_ok_mono; [| |done]; lia|eapply risk_within_mono; [|done]; lia|lia]. }
  pose proof (Hb _ _ Hbook) as [[Hok Hwi] Hknown Hsym Hcb]. simpl in Hok, Hwi.
  assert (Hpre : amend_pre (sb_book b) id q) by (eapply within_amend_pre; [done|exact Hwi|lia|lia]).
  cbn [bk_amend spec_ops].
  destruct (spec_amend now_ns (sb_config b) (sb_range b) (sb_book b) id q p (ew_world w)) as [[report a'] w2] eqn:Ham.
  cbn [mbind option_bind].
  destruct (spec_amend_trades now_ns _ _ Hcb _ _ _ _ _ _ _ _ Hok Hpre Hknown Ham) as (ts & Hts).
  destruct (spec_settle (set_book symbol (set_abook a' b) e) t (Z.max 0 q) (symbol_ (sb_config b)) (ew_world w) w2 ts (ew_user w))
    as (r' & Hset & Hcall & Heq & Hr' & Htot & Hpos); [lia|lia|lia|done|done|].
  rewrite Hset. cbn [mbind option_bind]. eexists _, _, _, ts. split; [done|]. simpl in Heq.
  split; [unfold spec_after; by rewrite Hcall, <- Heq|]. split; [|split; [apply trades_count in Hts; lia|]]; split; simpl.
  - eapply books_ok_insert; [| |exact Hb|]; [lia|lia|]. split; simpl; try done.
    + split; [by eapply spec_amend_ok; [|apply Hpre|]|]. eapply within_amend in Ham; [|done|exact Hwi].
      destruct Ham as [H1 H2]. split; lia.
    + eapply spec_amend_keeps; [| |done|done|exact Ham]; [by intros ??|by intros ????].
  - eapply risk_within_mono; [|exact Hr']. lia.
  - lia.
  - apply Hts.
  - by intros ->.
  - done.
  - done.
Qed.

Lemma engine_cost_nonneg c : (0 <= engine_cost c)%Z.
Proof. destruct c; simpl; lia. Qed.

Lemma engine_total_nonneg cs : (0 <= engine_total cs)%Z.
Proof. induction cs as [|c cs IH]; simpl; [lia|]. pose proof (engine_cost_nonneg c). lia. Qed.

(** A call that trades nothing: its results, and the two things left to show. *)
Ltac no_trades := eexists _, _, _, []; split; [done|]; split; [done|]; split; [try done|split; [simpl; lia|try (by apply effect_idle)]].

Lemma spec_step_ok t n (e : Engine SpecBook) c w :
  (0 <= t)%Z -> spec_engine_ok t n e -> engine_call_ok c = true -> (2 * (t + engine_cost c) <= int64_max)%Z ->
  (N.of_nat (S n) < kNullIndex)%N ->
  exists r e' w' ts, engine_step now_ns e c w = Some (r, e', w') /\ spec_engine_step now_ns refuses band e c w = (r, e', w') /\
    spec_engine_ok (t + engine_cost c) (S n) e' /\ (Z.of_nat (length ts) <= engine_cost c)%Z /\ engine_effect e w e' w' ts.
Proof.
  intros Ht He Hc Hfit Hroom.
  assert (Hstay : spec_engine_ok (t + 0) (S n) e).
  { destruct He. split; [eapply books_ok_mono; [| |done]; lia|by rewrite Z.add_0_r|lia]. }
  assert (Hput : forall s b, spec_book_ok t n s b -> spec_engine_ok (t + 0) (S n) (set_book s b e)).
  { intros s b Hb. destruct He. split; simpl; [|by rewrite Z.add_0_r|lia].
    eapply books_ok_insert; [| |done|eapply spec_book_ok_mono; [| |exact Hb]]; lia. }
  destruct c as [s min max hint stp|rq|s id|s id q p|s|s p l|]; simpl in *.
  - unfold add_symbol, spec_symbol. destruct (books_ e !! s); [no_trades|].
    unfold bk_new, the_ctor, spec_ctor. cbn [mbind option_bind]. destruct (refuses min max); [no_trades|].
    no_trades. apply Hput. split; try done; simpl.
    + split; [apply empty_abook_ok|by apply within_empty].
    + by constructor.
  - apply andb_true_iff in Hc as [Hs Hp].
    destruct (spec_submit_ok t n e rq w Ht He Hs Hp Hfit Hroom) as (r & e' & w' & ts & -> & Hsp & H1 & H2 & Hout). simpl.
    pose proof (outcome_count _ _ _ _ _ Hout). eauto 12.
  - unfold cancel_order. destruct (books_ e !! s) as [b|] eqn:Hb; [|no_trades].
    cbn [bk_cancel spec_ops]. destruct (spec_cancel (sb_book b) id) as [r a'] eqn:Hcan. cbn [mbind option_bind fst snd]. no_trades.
    apply Hput. destruct (se_books _ _ _ He _ _ Hb) as [[Hok Hw] Hk Hs Hcb]. pose proof (spec_cancel_keeps known _ id Hk) as Hk'.
    pose proof (spec_cancel_ok _ id Hok) as Hok'. pose proof (within_cancel _ _ _ id Hok Hw) as Hw'. rewrite Hcan in *. by split.
  - destruct (spec_amend_call_ok t n e s id q p w Ht He Hfit Hroom) as (r & e' & w' & ts & -> & Hsp & H1 & H2 & H3). simpl. eauto 12.
  - unfold reset_symbol. destruct (books_ e !! s) as [b|] eqn:Hb; [|no_trades].
    cbn [bk_reset spec_ops mbind option_bind]. no_trades. apply Hput.
    destruct (se_books _ _ _ He _ _ Hb) as [_ _ Hs Hcb]. split; try done; simpl.
    + split; [apply empty_abook_ok|by apply within_empty].
    + by constructor.
  - apply andb_true_iff in Hc as [[_ Hl1%Z.leb_le]%andb_true_iff Hl2%Z.leb_le].
    destruct (set_limits_ok (2 * t) (risk_manager_ e) s p l) as [Hr1 Hn1]; [lia|apply He|lia|].
    no_trades; [|apply effect_idle; simpl; [done|done|done|apply set_limits_total|done]].
    destruct Hstay. split; simpl; [done|by rewrite Z.add_0_r|lia].
  - no_trades. destruct Hstay. by split.
Qed.

Lemma spec_engine_run_ok t n (e : Engine SpecBook) cs w :
  (0 <= t)%Z -> spec_engine_ok t n e -> forallb engine_call_ok cs = true -> (2 * (t + engine_total cs) <= int64_max)%Z ->
  (N.of_nat (n + length cs) < kNullIndex)%N ->
  exists rs e' w' ts, engine_run now_ns e cs w = Some (rs, e', w') /\
    spec_engine_run now_ns refuses band e cs w = (rs, e', w') /\
    spec_engine_ok (t + engine_total cs) (n + length cs) e' /\ (Z.of_nat (length ts) <= engine_total cs)%Z /\ engine_effect e w e' w' ts.
Proof.
  revert t n e w. induction cs as [|c cs IH]; intros t n e w Ht He Hok Hfit Hroom; simpl in *.
  { rewrite Z.add_0_r, Nat.add_0_r. no_trades. }
  apply andb_true_iff in Hok as [Hc Hok]. pose proof (engine_cost_nonneg c) as Hc0.
  pose proof (engine_total_nonneg cs) as Htot.
  destruct (spec_step_ok t n e c w Ht He Hc) as (r & e1 & w1 & ts1 & -> & -> & He1 & Hl1 & Hf1); [lia|lia|]. cbn [mbind option_bind].
  destruct (IH (t + engine_cost c)%Z (S n) e1 w1) as (rs & e' & w' & ts2 & -> & -> & He' & Hl2 & Hf2); [lia|done|done|lia|lia|].
  cbn [mbind option_bind]. exists (r :: rs), e', w', (ts1 ++ ts2). split; [done|]. split; [done|].
  rewrite Z.add_assoc, Nat.add_succ_r. split; [done|]. split; [rewrite length_app; lia|]. destruct Hf1 as [A1 A2 A3 A4], Hf2 as [B1 B2 B3 B4]. split.
  - by rewrite B1, A1, app_assoc.
  - intros Hcb. destruct (A2 Hcb) as [A2' Hcb1]. destruct (B2 Hcb1) as [B2' Hcb2]. by rewrite B2', A2', app_assoc.
  - congruence.
  - intros s p Hp. rewrite B4, A4, net_of_app by done. lia.
Qed.

Lemma new_spec_engine_ok cb : spec_engine_ok 0 0 (mkEngine ∅ ∅ 1 cb).
Proof. split; simpl; [apply map_Forall_empty|apply map_Forall_empty|lia]. Qed.
End spec_engine.

(** * Simulation *)

Lemma on_trades_inv {B} (e e' : Engine B) ts user user' :
  on_trades e ts user = Some (e', user') ->
  exists r', risk_trades (risk_manager_ e) ts = Some r' /\ e' = set_risk r' e /\
    user' = if user_trade_callback_ e then user ++ ts else user.
Proof.
  intros Ht. destruct (risk_trades (risk_manager_ e) ts) as [r'|] eqn:Hr.
  - rewrite (on_trades_risk e ts user r' Hr) in Ht. injection Ht as <- <-. eauto.
  - exfalso. revert e user Ht Hr. induction ts as [|t ts IH]; intros e user; simpl; [done|]. unfold risk_trade, on_trade.
    replace (match t_taker_side t with Buy => Sell | Sell => Buy end) with (opposite (t_taker_side t)) by (by destruct (t_taker_side t)).
    destruct (on_fill _ _ _ _ _) as [r1|]; [|done]. simpl. destruct (on_fill r1 _ _ _ _) as [r2|]; [|done]. simpl. apply IH.
Qed.

Section simulation.
Context {B : Type} `{BookCtorLaws B} (now_ns : nat -> Timestamp).

#[local] Instance abstract_ctor : BookCtor SpecBook := spec_ctor bk_refuses bk_band.

Definition book_sim (b : B) (sb : SpecBook) : Prop :=
  bk_rep b (sb_book sb) /\ bk_config b = sb_config sb /\ forall p, bk_in_range b p = sb_range sb p.

Record engine_sim (e : Engine B) (es : Engine SpecBook) : Prop := {
  sim_books : forall s, option_Forall2 book_sim (books_ e !! s) (books_ es !! s);
  sim_risk : risk_manager_ e = risk_manager_ es;
  sim_next : next_order_id_ e = next_order_id_ es;
  sim_callback : user_trade_callback_ e = user_trade_callback_ es
}.

Lemma book_sim_step b sb t n c w r a' w' :
  book_sim b sb -> fits t n (sb_book sb) -> valid_id c = true -> (t + cost c <= int64_max)%Z -> (N.of_nat n < kNullIndex)%N ->
  spec_step now_ns (sb_config sb) (sb_range sb) (sb_book sb) c w = (r, a', w') ->
  exists b', step now_ns b c w = Some (r, b', w') /\ book_sim b' (set_abook a' sb).
Proof.
  intros (Hr & Hc & Hg) Hf Hid Ht Hn Hs. rewrite <- Hc, <- (spec_step_ext now_ns _ _ _ _ _ _ Hg) in Hs.
  destruct (step_refines now_ns b (sb_book sb) t n c w r a' w' Hr Hf Hid Ht Hn Hs) as (b' & Hst & Hr' & Hc' & Hg').
  exists b'. split; [done|]. split_and!; simpl; [done|by rewrite Hc'|]. intros p. by rewrite Hg'.
Qed.

Lemma engine_sim_put e es s b sb r next cb :
  engine_sim e es -> book_sim b sb ->
  engine_sim (mkEngine (<[s := b]> (books_ e)) r next cb) (mkEngine (<[s := sb]> (books_ es)) r next cb).
Proof.
  intros [Hb _ _ _] Hs. split; simpl; try done. intros s'. destruct (decide (s = s')) as [<-|Hne].
  - rewrite !lookup_insert_eq. by constructor.
  - by rewrite !lookup_insert_ne.
Qed.

Lemma engine_sim_lookup e es s : engine_sim e es ->
  (exists b sb, books_ e !! s = Some b /\ books_ es !! s = Some sb /\ book_sim b sb) \/
  (books_ e !! s = None /\ books_ es !! s = None).
Proof. intros [Hb _ _ _]. specialize (Hb s). inversion Hb; [left; eauto 10|by right]. Qed.

Lemma submit_sim t n e es rq w r es' w' :
  engine_sim e es -> spec_engine_ok t n es -> (0 <= t)%Z -> (2 * (t + Z.abs (rq_quantity rq)) <= int64_max)%Z ->
  (N.of_nat (S n) < kNullIndex)%N -> submit_order now_ns es rq w = Some (r, es', w') ->
  exists e', submit_order now_ns e rq w = Some (r, e', w') /\ engine_sim e' es'.
Proof.
  intros Hsim Hok Ht Hfit Hroom. pose proof Hsim as [_ Hr Hn Hcb]. unfold submit_order.
  destruct (engine_sim_lookup e es (rq_symbol rq) Hsim) as [(b & sb & -> & Hsb & Hbs)|[-> ->]]; cycle 1.
  { intros [= <- <- <-]. eauto. }
  rewrite Hsb, Hr, Hn, Hcb. set (idn := if negb _ then _ else _).
  assert (Hid : exists id next, idn = (id, next) /\ id <> kInvalidOrderId).
  { unfold idn, kInvalidOrderId. pose proof (se_next _ _ _ Hok). destruct (N.eqb_spec (rq_client_order_id rq) 0); simpl; eexists _, _; (split; [done|]); lia. }
  destruct Hid as (id & next & -> & Hid).
  destruct (check_new_order _ _ _ _ _ _) as [[reason r1]|]; [|done]. cbn [mbind option_bind].
  destruct (negb _); [intros [= <- <- <-]; eexists; split; [done|]; by split; try apply Hsim|].
  set (order := mkOrder id _ _ _ _ _ _ _ _ _). set (w1 := mkWorld _ _). cbn [bk_add spec_ops].
  destruct (spec_add now_ns (sb_config sb) (sb_range sb) (sb_book sb) order w1) as [[report a'] w2] eqn:Hadd. cbn [mbind option_bind].
  destruct (book_sim_step b sb t n (CAdd order) w1 (AReport report) a' w2 Hbs) as (b' & Hst & Hbs').
  { apply (se_books _ _ _ Hok _ _ Hsb). }
  { simpl. by apply negb_true_iff, N.eqb_neq. }
  { simpl. lia. } { lia. }
  { simpl. by rewrite Hadd. }
  simpl in Hst. apply bind_Some in Hst as ([[report' b2] w3] & Hbadd & [= -> -> ->]). rewrite Hbadd. cbn [mbind option_bind].
  destruct (on_trades (set_book _ (set_abook a' sb) _) _ _) as [[es2 user]|] eqn:Hts; [|done]. cbn [mbind option_bind].
  apply on_trades_inv in Hts as (r' & Hrt & -> & ->). intros [= <- <- <-].
  rewrite (on_trades_risk _ _ _ r') by exact Hrt. cbn [mbind option_bind]. eexists. split; [done|].
  unfold set_risk, set_book. simpl. by apply engine_sim_put.
Qed.

Lemma amend_sim t n e es s id q p w r es' w' :
  engine_sim e es -> spec_engine_ok t n es -> (0 <= t)%Z -> (2 * (t + Z.abs q) <= int64_max)%Z ->
  (N.of_nat (S n) < kNullIndex)%N -> amend_order now_ns es s id q p w = Some (r, es', w') ->
  exists e', amend_order now_ns e s id q p w = Some (r, e', w') /\ engine_sim e' es'.
Proof.
  intros Hsim Hok Ht Hfit Hroom. pose proof Hsim as [_ Hr Hn Hcb]. unfold amend_order.
  destruct (engine_sim_lookup e es s Hsim) as [(b & sb & -> & Hsb & Hbs)|[-> ->]]; cycle 1.
  { intros [= <- <- <-]. eauto. }
  rewrite Hsb. cbn [bk_amend spec_ops].
  destruct (spec_amend now_ns (sb_config sb) (sb_range sb) (sb_book sb) id q p (ew_world w)) as [[report a'] w2] eqn:Ham. cbn [mbind option_bind].
  destruct (book_sim_step b sb t n (CAmend id q p) (ew_world w) (AReport report) a' w2 Hbs) as (b' & Hst & Hbs').
  { apply (se_books _ _ _ Hok _ _ Hsb). } { done. } { simpl. lia. } { lia. }
  { simpl. by rewrite Ham. }
  simpl in Hst. apply bind_Some in Hst as ([[report' b2] w3] & Hbam & [= -> -> ->]). rewrite Hbam. cbn [mbind option_bind].
  destruct (on_trades (set_book _ (set_abook a' sb) _) _ _) as [[es2 user]|] eqn:Hts; [|done]. cbn [mbind option_bind].
  apply on_trades_inv in Hts as (r' & Hrt & -> & ->). intros [= <- <- <-].
  rewrite (on_trades_risk _ _ _ r') by (simpl in *; by rewrite Hr). cbn [mbind option_bind user_trade_callback_ set_book]. rewrite Hcb.
  eexists. split; [done|]. simpl. unfold set_risk. simpl. rewrite Hn, Hcb. by apply engine_sim_put.
Qed.

Lemma engine_step_sim t n e es c w r es' w' :
  engine_sim e es -> spec_engine_ok t n es -> (0 <= t)%Z -> engine_call_ok c = true ->
  (2 * (t + engine_cost c) <= int64_max)%Z -> (N.of_nat (S n) < kNullIndex)%N ->
  engine_step now_ns es c w = Some (r, es', w') ->
  exists e', engine_step now_ns e c w = Some (r, e', w') /\ engine_sim e' es'.
Proof.
  intros Hsim Hok Ht Hc Hfit Hroom. pose proof Hsim as [Hbs Hr Hn Hcb].
  assert (Hput : forall s b sb, book_sim b sb -> engine_sim (set_book s b e) (set_book s sb es)).
  { intros s b sb Hb. unfold set_book. rewrite Hr, Hn, Hcb. by apply engine_sim_put. }
  destruct c as [s min max hint stp|rq|s id|s id q p|s|s p l|]; simpl in *.
  - unfold add_symbol. destruct (engine_sim_lookup e es s Hsim) as [(b & sb & -> & -> & _)|[-> ->]].
    { cbn [mbind option_bind]. intros [= <- <- <-]. eauto. }
    apply andb_true_iff in Hc as [[_ Hmax%Z.leb_le]%andb_true_iff Hh%N.leb_le].
    pose proof (bk_new_law s min max hint stp Hh Hmax) as Hnew. unfold bk_new at 1, abstract_ctor, spec_ctor. cbn [mbind option_bind].
    destruct (bk_refuses min max) as [err|].
    { rewrite Hnew. cbn [mbind option_bind]. intros [= <- <- <-]. eauto. }
    destruct Hnew as (b & -> & Hrep & Hcfg & Hrg). cbn [mbind option_bind]. intros [= <- <- <-]. eexists. split; [done|].
    apply Hput. destruct (bk_callback_law b empty_abook Hrep) as (Hrep' & Hcfg' & Hrg'). split_and!; simpl; [done| |].
    + by rewrite Hcfg', Hcfg.
    + intros p. by rewrite Hrg', Hrg.
  - intros ([[r1 e1] w1] & Hs & [= <- <- <-])%bind_Some.
    destruct (submit_sim t n e es rq w r1 e1 w1 Hsim Hok Ht Hfit Hroom Hs) as (e' & -> & He'). simpl. eauto.
  - unfold cancel_order. destruct (engine_sim_lookup e es s Hsim) as [(b & sb & -> & Hsb & Hb)|[-> ->]].
    2: { cbn [mbind option_bind]. intros [= <- <- <-]. eauto. }
    rewrite Hsb. cbn [bk_cancel spec_ops]. destruct (spec_cancel (sb_book sb) id) as [r1 a'] eqn:Hcan. cbn [mbind option_bind].
    intros [= <- <- <-]. destruct Hb as (Hrep & Hcfg & Hrg).
    destruct (bk_cancel_law b (sb_book sb) id r1 a' Hrep) as (b' & -> & Hrep' & Hcfg' & Hrg'); [apply (se_books _ _ _ Hok _ _ Hsb)|done|].
    cbn [mbind option_bind]. eexists. split; [done|]. apply Hput. split_and!; simpl; [done|congruence|]. intros p. by rewrite Hrg'.
  - intros ([[r1 e1] w1] & Hs & [= <- <- <-])%bind_Some.
    destruct (amend_sim t n e es s id q p w r1 e1 w1 Hsim Hok Ht Hfit Hroom Hs) as (e' & -> & He'). simpl. eauto.
  - unfold reset_symbol. destruct (engine_sim_lookup e es s Hsim) as [(b & sb & -> & -> & Hrep & Hcfg & Hrg)|[-> ->]].
    2: { cbn [mbind option_bind]. intros [= <- <- <-]. eauto. }
    cbn [bk_reset spec_ops mbind option_bind]. intros [= <- <- <-].
    destruct (bk_reset_law b (sb_book sb) Hrep) as (b' & -> & Hrep' & Hcfg' & Hrg'). cbn [mbind option_bind].
    eexists. split; [done|]. apply Hput. split_and!; simpl; [done|congruence|]. intros p. by rewrite Hrg'.
  - intros [= <- <- <-]. eexists. split; [done|]. split; simpl; try done. by rewrite Hr.
  - intros [= <- <- <-]. eexists. split; [done|]. by split.
Qed.

Lemma engine_run_sim t n e es cs w rs es' w' :
  engine_sim e es -> spec_engine_ok t n es -> (0 <= t)%Z -> forallb engine_call_ok cs = true ->
  (2 * (t + engine_total cs) <= int64_max)%Z -> (N.of_nat (n + length cs) < kNullIndex)%N ->
  engine_run now_ns es cs w = Some (rs, es', w') ->
  exists e', engine_run now_ns e cs w = Some (rs, e', w') /\ engine_sim e' es'.
Proof.
  revert t n e es w rs. induction cs as [|c cs IH]; intros t n e es w rs Hsim Hok Ht Hcs Hfit Hroom; simpl in *.
  { intros [= <- <- <-]. eauto. }
  apply andb_true_iff in Hcs as [Hc Hcs]. pose proof (engine_cost_nonneg c) as Hc0.
  pose proof (engine_total_nonneg cs) as Htot.
  destruct (spec_step_ok now_ns bk_refuses bk_band t n es c w Ht Hok Hc) as (r & es1 & w1 & ts & Hst & _ & Hok1 & _); [lia|lia|].
  change (the_ctor bk_refuses bk_band) with abstract_ctor in Hst. rewrite Hst. cbn [mbind option_bind].
  intros ([[rs1 es2] w2] & Hrun & [= <- <- <-])%bind_Some.
  destruct (engine_step_sim t n e es c w r es1 w1 Hsim Hok Ht Hc) as (e1 & -> & Hsim1); [lia|lia|done|]. cbn [mbind option_bind].
  destruct (IH (t + engine_cost c)%Z (S n) e1 es1 w1 rs1 Hsim1 Hok1) as (e' & -> & Hsim'); [lia|done|lia|lia|done|].
  cbn [mbind option_bind]. eauto.
Qed.

Lemma new_engine_sim cb : engine_sim (mkEngine ∅ ∅ 1 cb) (mkEngine ∅ ∅ 1 cb).
Proof. split; simpl; try done. intros s. rewrite !lookup_empty. constructor. Qed.

(** The engine against the abstract engine, with the accounting of its trades,
    from a new engine with or without the user's callback. *)
Lemma engine_reached cb cs w :
  engine_workload_ok cs = true ->
  exists rs e es w' ts, engine_run now_ns (mkEngine ∅ ∅ 1 cb) cs w = Some (rs, e, w') /\
    spec_engine_run now_ns bk_refuses bk_band (mkEngine ∅ ∅ 1 cb) cs w = (rs, es, w') /\
    engine_sim e es /\ spec_engine_ok (engine_total cs) (length cs) es /\ engine_effect (mkEngine ∅ ∅ 1 cb : Engine B) w e w' ts.
Proof.
  intros [[Hc Ht%Z.leb_le]%andb_true_iff Hn%N.ltb_lt]%andb_true_iff.
  destruct (spec_engine_run_ok now_ns bk_refuses bk_band 0 0 (mkEngine ∅ ∅ 1 cb) cs w ltac:(lia) (new_spec_engine_ok cb)) as (rs & es & w' & ts & Hrun & Hspec & Hok & _ & Heff); try done.
  destruct (engine_run_sim 0 0 (mkEngine ∅ ∅ 1 cb) (mkEngine ∅ ∅ 1 cb) cs w rs es w' (new_engine_sim cb) (new_spec_engine_ok cb)) as (e & Hrun' & Hsim); try done.
  exists rs, e, es, w', ts. split_and!; try done. destruct Hsim as [_ Hr _ Hcb], Heff as [E1 E2 E3 E4].
  split; [done| |by rewrite Hr|intros s p Hp; by rewrite Hr, E4].
  intros Hcb0. destruct (E2 Hcb0) as [? ?]. by rewrite Hcb.
Qed.

(** An order submitted after a workload. *)
Lemma submit_reached cs rq w0 rs e w r e' w' :
  engine_workload_ok (cs ++ [XSubmit rq]) = true -> engine_run now_ns (new_engine ∅) cs w0 = Some (rs, e, w) ->
  submit_order now_ns e rq w = Some (r, e', w') ->
  exists ts, engine_effect e w e' w' ts /\ submit_outcome now_ns e rq w r ts /\
    exists t, (0 <= t)%Z /\ (2 * (t + Z.abs (rq_quantity rq)) <= int64_max)%Z /\ risk_within (2 * t) (risk_manager_ e).
Proof.
  unfold engine_workload_ok. rewrite forallb_app, length_app. simpl.
  assert (Htot : engine_total (cs ++ [XSubmit rq]) = (engine_total cs + Z.abs (rq_quantity rq))%Z).
  { clear. induction cs as [|c cs IH]; simpl; lia. }
  pose proof (engine_total_nonneg cs) as Hpos.
  rewrite Htot. intros [[[Hc Hrq]%andb_true_iff Ht%Z.leb_le]%andb_true_iff Hn%N.ltb_lt]%andb_true_iff Hrun Hsub.
  rewrite andb_true_r in Hrq. apply andb_true_iff in Hrq as [Hs Hp].
  destruct (engine_reached false cs w0) as (rs1 & e1 & es & w1 & ts1 & Hrun1 & _ & Hsim & Hok & _).
  { unfold engine_workload_ok. rewrite Hc, (proj2 (Z.leb_le _ _)), (proj2 (N.ltb_lt _ _)) by lia. done. }
  unfold new_engine in Hrun. rewrite Hrun in Hrun1. injection Hrun1 as <- <- <-.
  destruct (spec_submit_ok now_ns (engine_total cs) (length cs) es rq w) as (r2 & es' & w2 & ts & Hss & _ & _ & Heff & Hout); [done..|lia|lia|].
  destruct (submit_sim (engine_total cs) (length cs) e es rq w r2 es' w2 Hsim Hok) as (e2 & Hsub2 & Hsim2); [done|lia|lia|done|].
  rewrite Hsub in Hsub2. injection Hsub2 as <- <- <-. exists ts. destruct Hsim as [Hb Hr _ Hcb], Hsim2 as [_ Hr2 _ Hcb2], Heff as [E1 E2 E3 E4].
  rewrite <- Hr, <- Hr2 in *. split_and!.
  - split; try done. by rewrite Hcb, Hcb2.
  - specialize (Hb (rq_symbol rq)). destruct Hout as [Hwhy Hts Hrej|sb r1 Hsb Hrisk Hchk Hsum Hall].
    + apply submit_stopped; try done. destruct Hwhy as [Hnone|Hwhy]; [left|right; by rewrite Hr].
      rewrite Hnone in Hb. by inversion Hb.
    + rewrite Hsb in Hb. inversion Hb as [b sb' Hbs Hb1 Hb2|]. eapply submit_booked; [done|done| |done|done]. by rewrite Hr.
  - exists (engine_total cs). split_and!; [done|lia|]. rewrite Hr. apply Hok.
Qed.
End simulation.
