(* ===== verification/EngineTheorems.v ===== *)
(** The theorems on the matching engine, for any book that keeps the contract
    of BookInterface.v, and the three books as engine books. *)

From S2P Require Import Prelude Types OrderPool BookCore BookSpec BookSpecFacts BookTrades BookInterface.
From S2P Require Import OrderBookVector VectorRefinement OrderBookMap MapRefinement OrderBookArray ArrayRefinement.
From S2P Require Import Books RiskManager MatchingEngine EngineFacts.

(** * The three books *)

#[export] Instance vec_ctor : BookCtor Vec.OrderBookVector :=
  fun symbol _ _ hint stp => b ← Vec.new_book symbol hint stp; Some (inr b).

#[export] Instance map_ctor : BookCtor MapBook.OrderBookMap :=
  fun symbol _ _ hint stp => b ← MapBook.new_book symbol hint stp; Some (inr b).

#[export] Instance arr_ctor : BookCtor Arr.OrderBookArray := Arr.new_book.

#[export] Instance vec_ctor_laws : BookCtorLaws Vec.OrderBookVector.
Proof.
  refine {| bk_refuses _ _ := None; bk_band _ _ _ := true |}. intros symbol min max hint stp Hh _.
  destruct (new_book_rep symbol hint stp Hh) as (b & Hb & Hr & Hc). exists b. unfold bk_new, vec_ctor. by rewrite Hb.
Defined.

#[export] Instance map_ctor_laws : BookCtorLaws MapBook.OrderBookMap.
Proof.
  refine {| bk_refuses _ _ := None; bk_band _ _ _ := true |}. intros symbol min max hint stp Hh _.
  destruct (map_new_book_rep symbol hint stp Hh) as (b & Hb & Hr & Hc). exists b. unfold bk_new, map_ctor. by rewrite Hb.
Defined.

Definition arr_refuses (min max : Price) : option Arr.ctor_error :=
  if (max <? min)%Z then Some Arr.min_above_max else if (min <=? 0)%Z then Some Arr.min_not_positive else None.

#[export] Instance arr_ctor_laws : BookCtorLaws Arr.OrderBookArray.
Proof.
  refine {| bk_refuses := arr_refuses; bk_band min max p := (min <=? p)%Z && (p <=? max)%Z |}.
  intros symbol min max hint stp Hh Hmax. unfold arr_refuses, bk_new, arr_ctor.
  destruct (Z.ltb_spec max min) as [Hlt|Hle].
  { unfold Arr.new_book, Arr.validate_and_compute_range. by rewrite (proj2 (Z.ltb_lt _ _) Hlt). }
  destruct (Z.leb_spec min 0) as [Hle0|Hpos].
  { unfold Arr.new_book, Arr.validate_and_compute_range. by rewrite (proj2 (Z.ltb_ge _ _) Hle), (proj2 (Z.leb_le _ _) Hle0). }
  destruct (arr_new_book_rep symbol min max hint stp Hh) as (b & Hb & Hr & Hc & Hmin & Hmx); [lia|lia|].
  exists b. split_and!; try done. intros p. simpl. unfold Arr.in_range. by rewrite Hmin, Hmx.
Defined.

Definition eworld0 : EngineWorld := mkEWorld (mkWorld 0 []) [].

(** * Helper lemmas *)

(** The prospective position of an accepted order is within the limit. *)
Lemma check_accepts b r s p side q now r1 :
  (0 <= b)%Z -> risk_within b r -> (Z.abs q + b <= int64_max)%Z ->
  check_new_order r s p side q now = Some (RNone, r1) ->
  (Z.abs (position r s p + signed_z side q) <= max_position (limits_for r s p))%Z.
Proof.
  intros Hb Hr Hq Hc. unfold check_new_order in Hc. unfold position, limits_for.
  destruct (r !! pack_key s p) as [st|] eqn:Hst; cycle 1.
  { simpl. pose proof (signed_z_abs side q). lia. }
  pose proof (Hr _ _ Hst) as [Hnp Hmp]. simpl in *. case_match; [done|]. rewrite signed_ok in Hc by lia. simpl in Hc.
  pose proof (signed_z_abs side q). rewrite add64_ok in Hc by (unfold int64_min, int64_max in *; lia). simpl in Hc.
  rewrite (sub64_ok 0) in Hc by (unfold int64_min, int64_max in *; lia).
  destruct (Z.ltb_spec (max_position (limits st)) (net_position st + signed_z side q)); simpl in Hc; [done|].
  destruct (Z.ltb_spec (net_position st + signed_z side q) (0 - max_position (limits st))); [done|]. lia.
Qed.

(** An order's own trades move its participant's position its way only, and by
    no more than they trade. *)
Lemma taker_net s p side ts :
  Forall (fun t => (0 < t_quantity t)%Z /\ t_symbol t = s /\ t_taker_participant_id t = p /\ t_taker_side t = side) ts ->
  exists x, (0 <= x <= traded ts)%Z /\ net_of (s, p) ts = signed_z side x.
Proof.
  induction 1 as [|t ts (Hq & Hs & Hp & Hside) _ (x & Hx & IH)]; simpl; [exists 0%Z; destruct side; done|].
  unfold leg. rewrite Hs, Hp, Hside, decide_True by done. rewrite IH. destruct (decide _).
  - exists x. split; [lia|]. destruct side; simpl; lia.
  - exists (t_quantity t + x)%Z. split; [lia|]. destruct side; simpl; lia.
Qed.

Section claims.
Context {B : Type} `{BookCtorLaws B} (now_ns : nat -> Timestamp).

(** C5. The engine refines its specification: for any book that keeps the
    books' contract, every workload of engine calls is defined, gives the
    answers, the trades, the callback calls and the risk state of the
    specification, and leaves every symbol's book showing what the
    specification's abstract book shows. *)
Theorem engine_refines cs :
  engine_workload_ok cs = true ->
  exists rs (e : Engine B) (es : Engine SpecBook) w,
    engine_run now_ns (new_engine ∅) cs eworld0 = Some (rs, e, w) /\
    spec_engine_run now_ns bk_refuses bk_band (new_engine ∅) cs eworld0 = (rs, es, w) /\
    risk_manager_ e = risk_manager_ es /\
    forall s, option_Forall2 (fun b sb => shows b (sb_book sb)) (books_ e !! s) (books_ es !! s).
Proof.
  intros Hok. destruct (engine_reached now_ns false cs eworld0 Hok) as (rs & e & es & w & ts & Hrun & Hspec & Hsim & _).
  exists rs, e, es, w. split_and!; [done|done|apply Hsim|]. intros s. destruct Hsim as [Hb _ _ _]. specialize (Hb s).
  inversion Hb as [b sb (Hr & _)|]; constructor. by apply rep_shows.
Qed.

(** C6. Positions are the trades: after any workload, a participant's position
    in a symbol is what it bought less what it sold in the trades reported,
    as taker and as maker; the positions of all participants add up to zero;
    and the user's callback has been given every trade. *)
Theorem engine_positions cs :
  engine_workload_ok cs = true ->
  exists rs (e : Engine B) w, engine_run now_ns (set_trade_callback (new_engine ∅)) cs eworld0 = Some (rs, e, w) /\
    total_position (risk_manager_ e) = 0%Z /\ ew_user w = w_trades (ew_world w) /\
    forall s p, id32 p = true -> position (risk_manager_ e) s p = net_of (s, p) (w_trades (ew_world w)).
Proof.
  intros Hok. destruct (engine_reached now_ns true cs eworld0 Hok) as (rs & e & es & w & ts & Hrun & _ & _ & _ & [E1 E2 E3 E4]).
  exists rs, e, w. destruct (E2 eq_refl) as [E2' _]. simpl in *. split_and!; [done|done|congruence|].
  intros s p Hp. by rewrite E4, E1.
Qed.

(** C34. Orders that the risk manager refuses never reach a book: a report with
    a risk reason comes with every book untouched, no trade and no change of
    any position. *)
Theorem risk_reject_leaves_books cs rq rs (e : Engine B) w r e' w' :
  engine_workload_ok (cs ++ [XSubmit rq]) = true -> engine_run now_ns (new_engine ∅) cs eworld0 = Some (rs, e, w) ->
  submit_order now_ns e rq w = Some (r, e', w') -> is_risk (er_reject_reason r) = true ->
  er_status r = Rejected /\ books_ e' = books_ e /\ w_trades (ew_world w') = w_trades (ew_world w) /\
  forall s p, id32 p = true -> position (risk_manager_ e') s p = position (risk_manager_ e) s p.
Proof.
  intros Hok Hrun Hsub Hrisk.
  destruct (submit_reached now_ns cs rq eworld0 rs e w r e' w' Hok Hrun Hsub) as (ts & [E1 _ _ E4] & Hout & _).
  destruct Hout as [Hwhy -> Hrej|b r1 _ Hno]; [|by rewrite Hrisk in Hno]. split_and!; [done| |by rewrite app_nil_r in E1|].
  - revert Hsub. unfold submit_order. destruct Hwhy as [->|(reason & r1 & Hne & Hchk)]; [by intros [= _ <- _]|].
    destruct (books_ e !! rq_symbol rq); [|by intros [= _ <- _]]. destruct (if negb _ then _ else _) as [id next].
    rewrite Hchk. cbn [mbind option_bind]. rewrite bool_decide_eq_false_2 by done. by intros [= _ <- _].
  - intros s p Hp. rewrite E4 by done. simpl. lia.
Qed.

(** C35. The position limit on an incoming order holds through its own fills: a
    call of [submit_order] never takes its participant's position in the
    symbol beyond the larger of its limit and where it already was. *)
Theorem taker_within_position_limit cs rq rs (e : Engine B) w r e' w' :
  engine_workload_ok (cs ++ [XSubmit rq]) = true -> engine_run now_ns (new_engine ∅) cs eworld0 = Some (rs, e, w) ->
  submit_order now_ns e rq w = Some (r, e', w') ->
  (Z.abs (position (risk_manager_ e') (rq_symbol rq) (rq_participant_id rq)) <=
   Z.max (Z.abs (position (risk_manager_ e) (rq_symbol rq) (rq_participant_id rq)))
     (max_position (limits_for (risk_manager_ e) (rq_symbol rq) (rq_participant_id rq))))%Z.
Proof.
  intros Hok Hrun Hsub. pose proof Hok as [[Hc _]%andb_true_iff _]%andb_true_iff. rewrite forallb_app in Hc.
  apply andb_true_iff in Hc as [_ Hc]. simpl in Hc. rewrite andb_true_r in Hc. apply andb_true_iff in Hc as [_ Hp].
  destruct (submit_reached now_ns cs rq eworld0 rs e w r e' w' Hok Hrun Hsub) as (ts & [_ _ _ E4] & Hout & t & Ht & Hfit & Hr).
  rewrite E4 by done. destruct Hout as [_ -> _|b r1 _ _ Hchk Hsum Hts]; [simpl; lia|].
  apply (check_accepts (2 * t)) in Hchk; [|lia|done|lia]. destruct (taker_net _ _ _ _ Hts) as (x & Hx & ->).
  destruct (rq_side rq); simpl in *; lia.
Qed.
End claims.

(** The engine does not depend on the choice between the map and the
    vector book: on every workload the two give the same answers, the same
    trades, the same risk state and the same depth of every book. *)
Theorem engine_map_vector now_ns cs :
  engine_workload_ok cs = true ->
  exists rs (em : Engine MapBook.OrderBookMap) (ev : Engine Vec.OrderBookVector) w,
    engine_run now_ns (new_engine ∅) cs eworld0 = Some (rs, em, w) /\
    engine_run now_ns (new_engine ∅) cs eworld0 = Some (rs, ev, w) /\
    risk_manager_ em = risk_manager_ ev /\
    forall s, option_Forall2 (fun bm bv => forall side n, bk_best side bm = bk_best side bv /\ bk_depth side bm n = bk_depth side bv n)
      (books_ em !! s) (books_ ev !! s).
Proof.
  intros Hok.
  destruct (engine_reached (B := MapBook.OrderBookMap) now_ns false cs eworld0 Hok) as (rs & em & es & w & ts & Hm & Hs & Hsim & _).
  destruct (engine_reached (B := Vec.OrderBookVector) now_ns false cs eworld0 Hok) as (rs' & ev & es' & w' & ts' & Hv & Hs' & Hsim' & _).
  assert (Heq : (rs, es, w) = (rs', es', w')) by (by rewrite <- Hs, <- Hs'). injection Heq as <- <- <-.
  exists rs, em, ev, w. destruct Hsim as [Hb Hr _ _], Hsim' as [Hb' Hr' _ _]. split_and!; [done|done|congruence|].
  intros s. specialize (Hb s). specialize (Hb' s). destruct (books_ es !! s) as [sb|]; inversion Hb as [bm sb1 (Hrep & _) E1 E2|];
    inversion Hb' as [bv sb2 (Hrep' & _) E3 E4|]; constructor.
  simplify_eq. intros side n. destruct (rep_shows _ _ Hrep) as (B1 & D1 & _), (rep_shows _ _ Hrep') as (B2 & D2 & _).
  by rewrite B1, B2, D1, D2.
Qed.

(** * Concrete workloads *)

Definition ticks : nat -> Timestamp := N.of_nat.

Definition buy (id : OrderId) (p : Price) (q : Quantity) (who : ParticipantId) : OrderRequest :=
  mkRequest id 1 who Buy Limit p q GTC.

Definition sell (id : OrderId) (p : Price) (q : Quantity) (who : ParticipantId) : OrderRequest :=
  mkRequest id 1 who Sell Limit p q GTC.

(** Ids that the engine assigns may be taken: the counter starts at 1 and
    ignores the ids that clients choose, so an order sent without an id after
    a client has used id 1 is rejected as a duplicate. *)
Theorem assigned_id_may_be_taken :
  exists (e : Engine Vec.OrderBookVector) w e' w',
    engine_run ticks (new_engine ∅) [XSymbol 1 1 1000 16 STPNone; XSubmit (sell 1 101 5 8)] eworld0 =
      Some ([XThrown None; XReport (mkReport 1 New 0 5 RNone)], e, w) /\
    submit_order ticks e (sell 0 102 5 9) w = Some (mkReport 1 Rejected 0 0 DuplicateOrderId, e', w').
Proof. do 4 eexists. split; [vm_compute; reflexivity|]. vm_compute. reflexivity. Qed.

(** Two symbols, one of them added twice and one refused; limits on
    participant 7; a fill, an order over the limit, an amend that trades. *)
Definition engine_demo : list EngineCall :=
  [XSymbol 1 95 105 16 STPNone; XSymbol 2 105 95 16 STPNone; XSymbol 1 1 2 16 CancelBoth; XLimits 1 7 (mkLimits 8 100 10);
   XSubmit (sell 0 101 5 8); XSubmit (buy 0 101 3 7); XSubmit (buy 0 99 4 7); XSubmit (buy 0 99 20 7);
   XSubmit (sell 0 103 2 9); XAmend 1 3 4 (Some 101%Z); XCancel 1 5; XReset 2].

Lemma engine_refines_witness :
  exists rs (e : Engine Arr.OrderBookArray) (es : Engine SpecBook) w,
    engine_run ticks (new_engine ∅) engine_demo eworld0 = Some (rs, e, w) /\
    spec_engine_run ticks bk_refuses bk_band (new_engine ∅) engine_demo eworld0 = (rs, es, w) /\
    risk_manager_ e = risk_manager_ es /\
    forall s, option_Forall2 (fun b sb => shows b (sb_book sb)) (books_ e !! s) (books_ es !! s).
Proof. apply (engine_refines ticks engine_demo); vm_compute; reflexivity. Defined.

Lemma engine_positions_witness :
  exists rs (e : Engine Vec.OrderBookVector) w,
    engine_run ticks (set_trade_callback (new_engine ∅)) engine_demo eworld0 = Some (rs, e, w) /\
    total_position (risk_manager_ e) = 0%Z /\ ew_user w = w_trades (ew_world w) /\
    forall s p, id32 p = true -> position (risk_manager_ e) s p = net_of (s, p) (w_trades (ew_world w)).
Proof. apply (engine_positions ticks engine_demo); vm_compute; reflexivity. Defined.

Lemma risk_reject_leaves_books_witness :
  exists rs (e : Engine MapBook.OrderBookMap) w r e' w',
    engine_run ticks (new_engine ∅) engine_demo eworld0 = Some (rs, e, w) /\
    submit_order ticks e (buy 0 101 9 7) w = Some (r, e', w') /\
    er_reject_reason r = RiskMaxPosition /\
    er_status r = Rejected /\ books_ e' = books_ e /\ w_trades (ew_world w') = w_trades (ew_world w) /\
    forall s p, id32 p = true -> position (risk_manager_ e') s p = position (risk_manager_ e) s p.
Proof.
  do 6 eexists. split; [vm_compute; reflexivity|]. split; [vm_compute; reflexivity|]. split; [vm_compute; reflexivity|].
  eapply (risk_reject_leaves_books ticks engine_demo (buy 0 101 9 7)); vm_compute; reflexivity.
Defined.

Definition one_more : OrderRequest := buy 0 103 3 7.

Lemma taker_within_position_limit_witness :
  exists rs (e : Engine Arr.OrderBookArray) w r e' w',
    engine_run ticks (new_engine ∅) engine_demo eworld0 = Some (rs, e, w) /\
    submit_order ticks e one_more w = Some (r, e', w') /\
    (Z.abs (position (risk_manager_ e') (rq_symbol one_more) (rq_participant_id one_more)) <=
     Z.max (Z.abs (position (risk_manager_ e) (rq_symbol one_more) (rq_participant_id one_more)))
       (max_position (limits_for (risk_manager_ e) (rq_symbol one_more) (rq_participant_id one_more))))%Z.
Proof.
  do 6 eexists. split; [vm_compute; reflexivity|]. split; [vm_compute; reflexivity|].
  eapply (taker_within_position_limit ticks engine_demo one_more); [vm_compute; reflexivity..].
Defined.

Lemma engine_map_vector_witness :
  exists rs (em : Engine MapBook.OrderBookMap) (ev : Engine Vec.OrderBookVector) w,
    engine_run ticks (new_engine ∅) engine_demo eworld0 = Some (rs, em, w) /\
    engine_run ticks (new_engine ∅) engine_demo eworld0 = Some (rs, ev, w) /\
    risk_manager_ em = risk_manager_ ev /\
    forall s, option_Forall2 (fun bm bv => forall side n, bk_best side bm = bk_best side bv /\ bk_depth side bm n = bk_depth side bv n)
      (books_ em !! s) (books_ ev !! s).
Proof. apply (engine_map_vector ticks engine_demo); vm_compute; reflexivity. Defined.
