(* ===== verification/Typing.v ===== *)
(** The machine types of include/lightninglob/types.hpp, order.hpp and
    matching_engine.hpp.

    The model computes with unbounded numbers, checked where C++ arithmetic is
    signed and wrapped where it is unsigned.  This file says which values a
    field of each C++ type can hold ([Typed]) and shows that an engine that is
    given such values keeps to them: no identifier, price, quantity, timestamp
    or count that it returns, reports or shows is one that the program's types
    could not represent. *)

From S2P Require Import Prelude Types OrderPool BookCore BookSpec BookSpecFacts BookTrades BookInterface.
From S2P Require Import OrderBookVector VectorRefinement OrderBookMap MapRefinement OrderBookArray ArrayRefinement.
From S2P Require Import Books RiskManager MatchingEngine EngineFacts EngineTheorems.

Definition uint32 (n : N) : Prop := (n < two32)%N.
Definition uint64 (n : N) : Prop := (n < two64)%N.
Definition int64 (z : Z) : Prop := (int64_min <= z <= int64_max)%Z.

Class Typed (A : Type) := typed : A -> Prop.

Record request_typed (r : OrderRequest) : Prop := {
  rt_id : uint64 (rq_client_order_id r);
  rt_ids : uint32 (rq_symbol r) /\ uint32 (rq_participant_id r);
  rt_amounts : int64 (rq_price r) /\ int64 (rq_quantity r)
}.

Record order_typed (o : Order) : Prop := {
  ot_id : uint64 (o_id o) /\ uint64 (o_timestamp o);
  ot_ids : uint32 (o_symbol o) /\ uint32 (o_participant_id o);
  ot_amounts : int64 (o_price o) /\ int64 (o_quantity o) /\ int64 (o_remaining_quantity o)
}.

Record trade_typed (t : Trade) : Prop := {
  tt_orders : uint64 (t_taker_order_id t) /\ uint64 (t_maker_order_id t) /\ uint64 (t_timestamp t);
  tt_ids : uint32 (t_symbol t) /\ uint32 (t_taker_participant_id t) /\ uint32 (t_maker_participant_id t);
  tt_amounts : int64 (t_price t) /\ int64 (t_quantity t)
}.

Record report_typed (r : ExecutionReport) : Prop := {
  et_id : uint64 (er_order_id r);
  et_amounts : int64 (er_filled_quantity r) /\ int64 (er_remaining_quantity r)
}.

Record view_typed (v : PriceLevelView) : Prop := {
  vt_amounts : int64 (v_price v) /\ int64 (v_total_quantity v);
  vt_count : uint32 (v_order_count v)
}.

#[export] Instance request_Typed : Typed OrderRequest := request_typed.
#[export] Instance order_Typed : Typed Order := order_typed.
#[export] Instance trade_Typed : Typed Trade := trade_typed.
#[export] Instance report_Typed : Typed ExecutionReport := report_typed.
#[export] Instance view_Typed : Typed PriceLevelView := view_typed.
#[export] Instance list_Typed {A} `{Typed A} : Typed (list A) := Forall typed.

#[export] Instance call_Typed : Typed EngineCall := fun c =>
  match c with
  | XSymbol s min max hint _ => uint32 s /\ int64 min /\ int64 max /\ uint64 hint
  | XSubmit rq => typed rq
  | XCancel s id => uint32 s /\ uint64 id
  | XAmend s id q p => uint32 s /\ uint64 id /\ int64 q /\ (forall price, p = Some price -> int64 price)
  | XReset s => uint32 s
  | XLimits s p _ => uint32 s /\ uint32 p
  | XCallback => True
  end.

#[export] Instance answer_Typed : Typed EngineAnswer := fun a => match a with XReport r => typed r | _ => True end.

Lemma int64_between z b : (0 <= z <= b)%Z -> (b <= int64_max)%Z -> int64 z.
Proof. unfold int64, int64_min. lia. Qed.

Lemma order_typed_set o r : typed o -> int64 r -> typed (set_remaining r o).
Proof. intros [? ? (? & ? & ?)] ?. by split. Qed.

(** * Matching *)

Section matching.
Context (now_ns : nat -> Timestamp) (clock : forall n, uint64 (now_ns n)) (cfg : Config) (symbol32 : uint32 (symbol_ cfg)).

Lemma record_typed taker maker price qty w : typed (w_trades w) -> typed taker -> typed maker -> int64 price -> int64 qty ->
  typed (w_trades (record_trade now_ns cfg taker maker price qty w)).
Proof.
  intros Hw [[A1 A2] [A3 A4] _] [[B1 B2] [B3 B4] _] Hp Hq. unfold record_trade. destruct (trade_callback_ cfg); [|done]. simpl.
  apply Forall_app. split; [done|]. constructor; [|constructor]. split; simpl; split_and!; try done; apply clock.
Qed.

Lemma fill_typed p taker q w killed taker' q' w' :
  positive_orders q -> int64 p -> typed taker -> typed q -> typed (w_trades w) -> fill now_ns cfg p taker q w = (killed, taker', q', w') ->
  typed q' /\ typed (w_trades w').
Proof.
  intros Hpos Hp. revert taker w. induction Hpos as [|m q Hm Hpos IH]; intros taker w Ht Hq Hw; simpl; [by intros [= <- <- <- <-]|].
  destruct (Z.leb_spec (o_remaining_quantity taker) 0) as [Hz|Hz]; [by intros [= <- <- <- <-]|].
  pose proof Hq as [Hmt Hqt]%Forall_cons. destruct (prevented _ _ _).
  - destruct (stp_policy_ cfg); try (by apply IH); by intros [= <- <- <- <-].
  - pose proof (ot_amounts _ Ht) as (_ & _ & [_ Htr]). pose proof (ot_amounts _ Hmt) as (_ & _ & [_ Hmr]).
    set (qty := Z.min _ _). assert (Hqty : int64 qty) by (apply (int64_between _ (o_remaining_quantity m)); lia).
    pose proof (record_typed taker m p qty w Hw Ht Hmt Hp Hqty) as Hw1. destruct (o_remaining_quantity m - qty =? 0)%Z.
    + apply IH; [|done|done]. apply order_typed_set; [done|]. apply (int64_between _ (o_remaining_quantity taker)); lia.
    + intros [= <- <- <- <-]. split; [|done]. constructor; [|done]. apply order_typed_set; [done|]. apply (int64_between _ (o_remaining_quantity m)); lia.
Qed.

Lemma level_price_typed s p q : level_ok s (p, q) -> typed q -> int64 p.
Proof.
  intros (Hne & _ & Hr) Hq. simpl in *. destruct q as [|m q]; [done|]. apply Forall_cons in Hr as [(<- & _) _]. apply Forall_cons in Hq as [[_ _ [? _]] _]. done.
Qed.

Lemma sweep_typed s taker ls w killed taker' ls' w' :
  Forall (level_ok s) ls -> (0 <= o_remaining_quantity taker)%Z -> typed taker -> typed (level_orders ls) -> typed (w_trades w) ->
  sweep now_ns cfg taker ls w = (killed, taker', ls', w') -> typed (level_orders ls') /\ typed (w_trades w').
Proof.
  intros Hls. revert taker w. induction Hls as [|[p q] ls Hl Hls IH]; intros taker w Hr Ht Ho Hw; simpl; [by intros [= <- <- <- <-]|].
  destruct (_ || _); [by intros [= <- <- <- <-]|]. rewrite level_orders_cons in Ho. apply Forall_app in Ho as [Hq Hrest].
  destruct (fill now_ns cfg p taker q w) as [[[k1 t1] q1] w1] eqn:Hf.
  assert (Hpos : positive_orders q) by (destruct Hl as (_ & _ & Hres); eapply Forall_impl; [exact Hres|]; by intros o (_ & _ & ? & _)).
  destruct (fill_typed p taker q w k1 t1 q1 w1 Hpos (level_price_typed _ _ _ Hl Hq) Ht Hq Hw Hf) as [Hq1 Hw1].
  apply fill_facts in Hf as [F1 F2 _ _ _]; [|done|done]. destruct k1.
  - intros [= <- <- <- <-]. split; [|done]. rewrite level_orders_app, keep_level_orders. by apply Forall_app.
  - destruct q1 as [|m q1].
    + apply IH; [lia| |done|done]. rewrite F1. apply order_typed_set; [done|]. pose proof (ot_amounts _ Ht) as (_ & _ & [_ ?]).
      apply (int64_between _ (o_remaining_quantity taker)); lia.
    + intros [= <- <- <- <-]. split; [|done]. rewrite level_orders_cons. by apply Forall_app.
Qed.

(** * The operations of a book *)

Context (in_range : Price -> bool).

Lemma reject_typed id reason : uint64 id -> typed (reject id reason).
Proof. intros Hid. by split. Qed.

(** A report whose quantities are between zero and the order's. *)
Lemma report_typed_parts o st filled remaining reason : typed o -> (0 <= filled <= Z.max 0 (o_quantity o))%Z -> (0 <= remaining <= Z.max 0 (o_quantity o))%Z ->
  typed (mkReport (o_id o) st filled remaining reason).
Proof.
  intros [[Hid _] _ (_ & [_ Hq] & _)] Hf Hr. split; simpl; [done|]. split; apply (int64_between _ (Z.max 0 (o_quantity o))); unfold int64_max in *; lia.
Qed.

Lemma spec_add_typed a o w r a' w' : abook_ok a -> all_orders typed a -> typed o -> typed (w_trades w) ->
  spec_add now_ns cfg in_range a o w = (r, a', w') -> typed r /\ all_orders typed a' /\ typed (w_trades w').
Proof.
  intros Hok Ha Ho Hw. unfold spec_add. pose proof (ot_id _ Ho) as [Hid _].
  assert (Hidle : forall reason, typed (reject (o_id o) reason) /\ all_orders typed a /\ typed (w_trades w)) by (split; [by apply reject_typed|done]).
  destruct (Z.leb_spec (o_quantity o) 0) as [|Hq]; [by intros [= <- <- <-]|].
  do 3 (destruct (_ && _); [by intros [= <- <- <-]|]).
  destruct (_ && _); [intros [= <- <- <-]; split; [apply report_typed_parts; [done|lia..]|done]|].
  destruct (sweep _ _ _ _ w) as [[[killed taker] ls] w1] eqn:Hsw. destruct (proj1 (all_orders_sides typed (opposite (o_side o)) a) Ha) as [Hopp _].
  pose proof (ot_amounts _ Ho) as (_ & Hqt & _).
  destruct (sweep_typed _ (set_remaining (o_quantity o) o) _ _ _ _ _ _ (side_levels _ _ (abook_sides _ Hok _)) (Z.lt_le_incl _ _ Hq) (order_typed_set o _ Ho Hqt) Hopp Hw Hsw) as [Hls Hw1].
  apply sweep_facts in Hsw as [S1 S2 _ _ _]; [|eapply side_ok_positive, Hok|simpl; lia]. rewrite set_remaining_twice in S1. simpl in S2.
  assert (Htk : typed taker) by (rewrite S1; apply order_typed_set; [done|]; apply (int64_between _ (o_quantity o)); [lia|apply Hqt]).
  pose proof (all_orders_set typed (opposite (o_side o)) ls a Ha Hls) as H1.
  unfold settle. rewrite may_rest_eq. destruct (Z.eqb_spec (o_remaining_quantity taker) 0); [intros [= <- <- <-]; split; [apply report_typed_parts; [done|lia..]|done]|].
  destruct (negb killed && rests_in_book o); [|intros [= <- <- <-]; split; [apply report_typed_parts; [done|lia..]|done]].
  intros [= <- <- <-]. split; [apply report_typed_parts; [done|lia..]|]. split; [|done]. apply all_orders_set; [done|]. rewrite insert_order_orders.
  constructor; [done|]. by destruct (proj1 (all_orders_sides typed (o_side o) _) H1).
Qed.

Lemma spec_amend_typed a id q p w r a' w' : abook_ok a -> all_orders typed a -> uint64 id -> int64 q -> (forall price, p = Some price -> int64 price) ->
  typed (w_trades w) -> spec_amend now_ns cfg in_range a id q p w = (r, a', w') -> typed r /\ all_orders typed a' /\ typed (w_trades w').
Proof.
  intros Hok Ha Hid Hq Hp Hw. unfold spec_amend.
  assert (Hidle : forall reason, typed (reject id reason) /\ all_orders typed a /\ typed (w_trades w)) by (split; [by apply reject_typed|done]).
  destruct (find_order id (orders a)) as [o|] eqn:Hf; [|by intros [= <- <- <-]].
  assert (Ho : typed o). { apply find_order_Some in Hf as [Ho _]. unfold all_orders in Ha. rewrite Forall_forall in Ha. by apply Ha. }
  destruct (q <=? 0)%Z; [by intros [= <- <- <-]|]. destruct (negb _); [by intros [= <- <- <-]|]. destruct (_ && _).
  - intros [= <- <- <-]. split; [by split|]. split; [|done]. apply all_orders_set; [done|]. rewrite update_order_orders.
    destruct (proj1 (all_orders_sides typed (o_side o) a) Ha) as [H' _]. apply Forall_fmap. eapply Forall_impl; [exact H'|].
    intros x Hx. simpl. destruct (decide _); [by apply order_typed_set|done].
  - intros Hs. eapply spec_add_typed; [| | | |exact Hs]; [by apply spec_cancel_ok|by apply spec_cancel_keeps| |done].
    destruct Ho as [[A1 A2] [A3 A4] (B1 & B2 & B3)]. split; simpl; split_and!; try done; try apply clock. destruct p as [price|]; [by apply Hp|done].
Qed.
End matching.

(** * The engine *)

Section engine.
Context (now_ns : nat -> Timestamp) (clock : forall n, uint64 (now_ns n)).
Context (refuses : Price -> Price -> option Arr.ctor_error) (band : Price -> Price -> Price -> bool).

Record state_typed (e : Engine SpecBook) (w : EngineWorld) : Prop := {
  st_books : map_Forall (fun s b => uint32 s /\ all_orders typed (sb_book b)) (books_ e);
  st_trades : typed (w_trades (ew_world w));
  st_user : typed (ew_user w)
}.

Lemma state_typed_put e w symbol b r next cb : state_typed e w -> uint32 symbol -> all_orders typed (sb_book b) ->
  state_typed (mkEngine (<[symbol := b]> (books_ e)) r next cb) w.
Proof. intros [H1 H2 H3] Hs Hb. split; simpl; [|done|done]. by apply map_Forall_insert_2. Qed.

Lemma call_trades_typed w1 w2 : typed (w_trades w2) -> typed (call_trades w1 w2).
Proof. intros Hw. by apply Forall_drop. Qed.

(** The engine after a call of a book. *)
Lemma spec_after_typed e symbol b r next a w1 w2 (w : EngineWorld) e' w' : state_typed e w -> uint32 symbol -> all_orders typed a -> typed (w_trades w2) ->
  spec_after e symbol b r next a w1 w2 (ew_user w) = (e', w') -> state_typed e' w'.
Proof.
  intros [H1 H2 H3] Hs Ha Hw2. unfold spec_after. intros [= <- <-]. split; simpl; [by apply map_Forall_insert_2|done|].
  destruct (user_trade_callback_ e); [|done]. apply Forall_app. split; [done|by apply call_trades_typed].
Qed.

Lemma spec_step_typed t n e c w r e' w' : spec_engine_ok t n e -> (N.of_nat n < kNullIndex)%N -> state_typed e w -> typed c ->
  spec_engine_step now_ns refuses band e c w = (r, e', w') -> typed r /\ state_typed e' w'.
Proof.
  intros He Hn Hst Hc. pose proof Hst as [H1 H2 H3].
  assert (Hnext : uint64 (next_order_id_ e)) by (pose proof (se_next _ _ _ He); unfold uint64, two64, kNullIndex in *; lia).
  assert (Hbook : forall s b, books_ e !! s = Some b -> abook_ok (sb_book b) /\ uint32 (symbol_ (sb_config b)) /\ all_orders typed (sb_book b)).
  { intros s b Hb. destruct (se_books _ _ _ He _ _ Hb) as [[Hok _] _ Hs _]. destruct (H1 _ _ Hb). by rewrite Hs. }
  destruct c as [s min max hint stp|rq|s id|s id q p|s|s p l|]; simpl.
  - destruct Hc as (Hs & _). unfold spec_symbol. destruct (books_ e !! s); [by intros [= <- <- <-]|]. destruct (refuses min max); intros [= <- <- <-]; [done|].
    split; [done|]. apply state_typed_put; [done|done|]. by apply Forall_nil.
  - destruct Hc as [Hid [Hs Hp] [Hpr Hq]]. unfold spec_submit. destruct (books_ e !! rq_symbol rq) as [b|] eqn:Hb; [|intros [= <- <- <-]; split; [by apply reject_typed|done]].
    destruct (Hbook _ _ Hb) as (Hok & Hcs & Ha). set (id := (if (rq_client_order_id rq =? kInvalidOrderId)%N then next_order_id_ e else rq_client_order_id rq)). assert (Hid' : uint64 id) by (unfold id; by case_match).
    destruct (default _ _) as [reason r1]. case_bool_decide; [|intros [= <- <- <-]; split; [by apply reject_typed|by split]].
    destruct (spec_add _ _ _ _ _ _) as [[report a] w2] eqn:Hadd. eapply spec_add_typed in Hadd as (Hr & Ha' & Hw2); [|done|done|done|done| |done].
    2: { split; simpl; split_and!; done. }
    destruct (spec_after _ _ _ _ _ _ _ _ _) as [e1 w3] eqn:Haf. intros [= <- <- <-]. split; [done|]. eapply spec_after_typed; [| | | |exact Haf]; done.
  - destruct (books_ e !! s) as [b|] eqn:Hb; intros [= <- <- <-]; (split; [done|]); [|done]. apply state_typed_put; [done|apply Hc|]. by apply spec_cancel_keeps, (Hbook _ _ Hb).
  - destruct Hc as (Hs & Hid & Hq & Hp). unfold spec_amend_call. destruct (books_ e !! s) as [b|] eqn:Hb; [|intros [= <- <- <-]; split; [by apply reject_typed|done]].
    destruct (Hbook _ _ Hb) as (Hok & Hcs & Ha). destruct (spec_amend _ _ _ _ _ _ _ _) as [[report a] w2] eqn:Ham.
    eapply spec_amend_typed in Ham as (Hr & Ha' & Hw2); [|done..].
    destruct (spec_after _ _ _ _ _ _ _ _ _) as [e1 w3] eqn:Haf. intros [= <- <- <-]. split; [done|]. eapply spec_after_typed; [| | | |exact Haf]; done.
  - destruct (books_ e !! s) as [b|]; intros [= <- <- <-]; (split; [done|]); [|done]. apply state_typed_put; [done|done|]. by apply Forall_nil.
  - intros [= <- <- <-]. split; [done|]. by split.
  - intros [= <- <- <-]. split; [done|]. by split.
Qed.

Lemma spec_run_typed t n e cs w rs e' w' :
  (0 <= t)%Z -> spec_engine_ok t n e -> forallb engine_call_ok cs = true -> (2 * (t + engine_total cs) <= int64_max)%Z ->
  (N.of_nat (n + length cs) < kNullIndex)%N -> state_typed e w -> typed cs ->
  spec_engine_run now_ns refuses band e cs w = (rs, e', w') -> typed rs /\ state_typed e' w'.
Proof.
  revert t n e w rs. induction cs as [|c cs IH]; intros t n e w rs Ht He Hok Hfit Hroom Hst Hc; simpl; [intros [= <- <- <-]; split; [by apply Forall_nil|done]|].
  simpl in Hok, Hfit, Hroom. apply andb_true_iff in Hok as [Hco Hok]. apply Forall_cons in Hc as [Hc Hcs]. pose proof (engine_cost_nonneg c).
  pose proof (engine_total_nonneg cs).
  destruct (spec_step_ok now_ns refuses band t n e c w Ht He Hco) as (r & e1 & w1 & ts & _ & Hs & He1 & _); [lia|lia|]. rewrite Hs.
  destruct (spec_step_typed t n e c w r e1 w1 He ltac:(lia) Hst Hc Hs) as [Hr Hst1].
  destruct (spec_engine_run now_ns refuses band e1 cs w1) as [[rs1 e2] w2] eqn:Hrun. intros [= <- <- <-].
  destruct (IH (t + engine_cost c)%Z (S n) e1 w1 rs1) as [Hrs Hst2]; [lia|done|done|lia|lia|done|done|done|]. split; [by constructor|done].
Qed.
End engine.

(** The price levels that a typed book shows. *)
Lemma depth_typed t n a s m : fits t n a -> (t <= int64_max)%Z -> (N.of_nat n < kNullIndex)%N -> all_orders typed a -> typed (depth s m a).
Proof.
  intros [Hok [Hw Hl]] Ht Hn Ha. apply Forall_take, Forall_fmap, Forall_forall. intros [p q] Hin. destruct (abook_sides _ Hok s) as [_ Hls Hsum].
  destruct (proj1 (all_orders_sides typed s a) Ha) as [Hs _]. pose proof (orders_sides s a) as Hperm. apply Permutation_length in Hperm. rewrite length_app in Hperm.
  apply list_elem_of_split in Hin as (l1 & l2 & E). rewrite E in *. clear E. apply Forall_app in Hls as [Hl1 [Hlv Hl2]%Forall_cons].
  pose proof (level_ok_positive _ _ Hl1) as P1. pose proof (level_ok_positive _ _ Hl2) as P2. rewrite level_orders_app, level_orders_cons in *.
  apply Forall_app in Hs as [_ [Hq _]%Forall_app]. rewrite !length_app in Hperm. rewrite !sum_remaining_app in Hsum.
  pose proof (sum_remaining_nonneg _ P1). pose proof (sum_remaining_nonneg _ P2).
  assert (Pq : positive_orders q) by (destruct Hlv as (_ & _ & Hr); eapply Forall_impl; [exact Hr|]; by intros o (_ & _ & ? & _)).
  pose proof (sum_remaining_nonneg _ Pq). split; simpl.
  - split; [by eapply level_price_typed|]. apply (int64_between _ int64_max); lia.
  - unfold uint32, two32, kNullIndex in *. lia.
Qed.

(** C11. Within its budget, the engine keeps to the machine types of its
    interface.  The budget of a workload: the absolute quantities of all
    submitted and amended orders add up to at most half of the largest
    [Quantity], there are fewer calls than pool handles, capacity hints are at
    most [2 ^ 62], and no position limit is the smallest 64-bit number (which
    the code cannot negate).  Then, if every argument of the calls is a value of
    its C++ type and so is every reading of the clock, every report that is
    returned, every trade given to the books' and to the user's callback, the
    next order id, the participants' positions and the price levels that the
    books show are values of theirs: nothing that a caller can see has left the
    range of a 32-bit or 64-bit field.  (Without the budget it can: two resting
    orders near [2 ^ 63] at one price overflow the level's total.) *)
Theorem engine_typed {B} `{BookCtorLaws B} now_ns cs :
  (forall n, uint64 (now_ns n)) -> engine_workload_ok cs = true -> typed cs ->
  exists rs (e : Engine B) w, engine_run now_ns (new_engine ∅) cs eworld0 = Some (rs, e, w) /\
    typed rs /\ typed (w_trades (ew_world w)) /\ typed (ew_user w) /\ uint64 (next_order_id_ e) /\
    (forall s p, int64 (position (risk_manager_ e) s p)) /\
    forall symbol b s n, books_ e !! symbol = Some b -> uint32 symbol /\ exists views, bk_depth s b n = Some views /\ typed views.
Proof.
  intros Hclock Hok Hc. destruct (engine_reached (B := B) now_ns false cs eworld0 Hok) as (rs & e & es & w & ts & Hrun & Hspec & Hsim & He & _).
  apply andb_true_iff in Hok as [[Hcalls Ht%Z.leb_le]%andb_true_iff Hn%N.ltb_lt].
  destruct (spec_run_typed now_ns Hclock bk_refuses bk_band 0 0 (mkEngine ∅ ∅ 1 false) cs eworld0 rs es w) as [Hrs [S1 S2 S3]];
    [done|apply new_spec_engine_ok|done|lia|done|split; [apply map_Forall_empty|by apply Forall_nil|by apply Forall_nil]|done|done|].
  exists rs, e, w. destruct Hsim as [Hb Hr Hnx _]. destruct He as [B1 B2 B3]. split_and!; try done.
  - rewrite Hnx. unfold uint64, two64, kNullIndex in *. lia.
  - intros s p. rewrite Hr, position_state. pose proof (engine_total_nonneg cs). destruct (risk_within_at (2 * (0 + engine_total cs)) _ (pack_key s p) ltac:(lia) B2) as [Hnp _]. unfold int64, int64_min, int64_max in *. lia.
  - intros symbol b s m Hbk. specialize (Hb symbol). rewrite Hbk in Hb. inversion Hb as [b' sb (Hrep & _) E1 E2|]. symmetry in E2.
    destruct (S1 _ _ E2) as [Hsy Ha]. destruct (B1 _ _ E2) as [Hfits _ _ _]. split; [done|]. eexists. split; [by apply bk_depth_law|].
    eapply depth_typed; [exact Hfits| |done|done]. unfold int64_max in *. lia.
Qed.

(** A session whose arguments go to the limits of their types. *)
Definition late (n : nat) : N := 18446744073709551615.

Definition wide_session : list EngineCall :=
  [XSymbol 4294967295 1 1000 16 CancelBoth; XCallback;
   XSubmit (mkRequest 18446744073709551615 4294967295 4294967295 Sell Limit 1000 4611686018427387901 GTC);
   XSubmit (mkRequest 0 4294967295 7 Buy Market (-9223372036854775808) 2 IOC); XSubmit (mkRequest 0 4294967295 7 Buy Limit 9223372036854775807 0 FOK);
   XAmend 4294967295 18446744073709551615 0 (Some (-1)%Z); XCancel 4294967295 18446744073709551615].

Lemma engine_typed_witness :
  (forall n, uint64 (late n)) /\ engine_workload_ok wide_session = true /\ typed wide_session /\
  exists rs (e : Engine Arr.OrderBookArray) w, engine_run late (new_engine ∅) wide_session eworld0 = Some (rs, e, w) /\
    typed rs /\ typed (w_trades (ew_world w)) /\ typed (ew_user w) /\ uint64 (next_order_id_ e) /\
    (forall s p, int64 (position (risk_manager_ e) s p)) /\
    forall symbol b s n, books_ e !! symbol = Some b -> uint32 symbol /\ exists views, bk_depth s b n = Some views /\ typed views.
Proof.
  assert (Hc : forall n : nat, uint64 (late n)) by (intros n; reflexivity).
  assert (Ht : typed wide_session).
  { repeat (apply Forall_cons; split); [..|by apply Forall_nil]; simpl; repeat split; try discriminate;
      match goal with H : Some _ = Some _ |- _ => injection H as <-; discriminate end. }
  split; [exact Hc|]. split; [vm_compute; reflexivity|]. split; [exact Ht|].
  apply (engine_typed late wide_session Hc); [vm_compute; reflexivity|exact Ht].
Defined.
