(* ===== verification/LockfreeQueue.v ===== *)
(** include/lightninglob/lockfree_queue.hpp: [SpscRingBuffer<T, Capacity>], the
    bounded single-producer single-consumer ring.

    The first part has the operations as one thread runs them alone.  The
    second is the two-thread protocol: a step per memory access of [try_push]
    and [try_pop], in any interleaving.  Each atomic index is its modification
    order, the list of the values stored; an acquire load may return any value
    at or after the one its thread has already seen, so loads may be stale.
    The buffer is plain memory: the theorems show that its accesses never
    race.  [Capacity] is [2 ^ k] with [1 <= k], as the class asserts. *)

From stdpp Require Import relations.
From S2P Require Import Prelude.

Section ring.
Context {T : Type} (k : N).

Definition ring_capacity : N := 2 ^ k.
Definition kMask : N := ring_capacity - 1.

(** [capacity()]: one slot stays empty. *)
Definition capacity : N := ring_capacity - 1.

(** ** The operations, alone *)

Record Ring := mkRing {
  write_idx_ : N;
  read_idx_ : N;
  buffer_ : list T
}.

Definition new_ring (d : T) : Ring := mkRing 0 0 (replicate (N.to_nat ring_capacity) d).

Definition next_idx (i : N) : N := N.land (i + 1) kMask.

Definition try_push (r : Ring) (item : T) : option (bool * Ring) :=
  let write := write_idx_ r in
  let next := next_idx write in
  if (next =? read_idx_ r)%N then Some (false, r)
  else
    buf ← vset (buffer_ r) write item;
    Some (true, mkRing next (read_idx_ r) buf).

(** The value popped, or none: [try_pop(out)] and the [std::optional] form. *)
Definition try_pop (r : Ring) : option (option T * Ring) :=
  let read := read_idx_ r in
  if (read =? write_idx_ r)%N then Some (None, r)
  else
    x ← vget (buffer_ r) read;
    Some (Some x, mkRing (write_idx_ r) (next_idx read) (buffer_ r)).

Definition ring_empty (r : Ring) : bool := (read_idx_ r =? write_idx_ r)%N.

(** Unsigned subtraction wraps before the mask. *)
Definition size_approx (r : Ring) : N := N.land (wrap64 (write_idx_ r + (two64 - read_idx_ r))) kMask.

(** ** The protocol of the two threads *)

(** Where the producer is in [try_push(item)]: before its first load; having
    loaded its own index; having found room; having written the slot. *)
Inductive Producer :=
| PIdle
| PLoaded (item : T) (write next : N)
| PRoom (item : T) (write next : N)
| PWritten (item : T) (next : N).

Inductive Consumer :=
| CIdle
| CLoaded (read : N)
| CReady (read : N)
| CTaken (read : N) (x : T).

(** [s_writes] and [s_reads] are the modification orders of the two indices,
    [s_pview] and [s_cview] the positions in them that the other thread has
    seen; [s_pushed] and [s_popped] record the values that calls accepted and
    returned. *)
Record State := mkState {
  s_writes : list N;
  s_reads : list N;
  s_buffer : list T;
  s_producer : Producer;
  s_pview : nat;
  s_consumer : Consumer;
  s_cview : nat;
  s_pushed : list T;
  s_popped : list T
}.

Definition init_state (d : T) : State :=
  mkState [0%N] [0%N] (replicate (N.to_nat ring_capacity) d) PIdle 0 CIdle 0 [] [].

Inductive producer_step : State -> State -> Prop :=
| push_load item write s :
    s_producer s = PIdle -> last (s_writes s) = Some write ->
    producer_step s (mkState (s_writes s) (s_reads s) (s_buffer s) (PLoaded item write (next_idx write)) (s_pview s)
      (s_consumer s) (s_cview s) (s_pushed s) (s_popped s))
| push_full item write next j s :
    s_producer s = PLoaded item write next -> (s_pview s <= j)%nat -> s_reads s !! j = Some next ->
    producer_step s (mkState (s_writes s) (s_reads s) (s_buffer s) PIdle j (s_consumer s) (s_cview s) (s_pushed s) (s_popped s))
| push_room item write next j read s :
    s_producer s = PLoaded item write next -> (s_pview s <= j)%nat -> s_reads s !! j = Some read -> next <> read ->
    producer_step s (mkState (s_writes s) (s_reads s) (s_buffer s) (PRoom item write next) j (s_consumer s) (s_cview s)
      (s_pushed s) (s_popped s))
| push_write item write next buf s :
    s_producer s = PRoom item write next -> vset (s_buffer s) write item = Some buf ->
    producer_step s (mkState (s_writes s) (s_reads s) buf (PWritten item next) (s_pview s) (s_consumer s) (s_cview s)
      (s_pushed s) (s_popped s))
| push_store item next s :
    s_producer s = PWritten item next ->
    producer_step s (mkState (s_writes s ++ [next]) (s_reads s) (s_buffer s) PIdle (s_pview s) (s_consumer s) (s_cview s)
      (s_pushed s ++ [item]) (s_popped s)).

Inductive consumer_step : State -> State -> Prop :=
| pop_load read s :
    s_consumer s = CIdle -> last (s_reads s) = Some read ->
    consumer_step s (mkState (s_writes s) (s_reads s) (s_buffer s) (s_producer s) (s_pview s) (CLoaded read) (s_cview s)
      (s_pushed s) (s_popped s))
| pop_empty read j s :
    s_consumer s = CLoaded read -> (s_cview s <= j)%nat -> s_writes s !! j = Some read ->
    consumer_step s (mkState (s_writes s) (s_reads s) (s_buffer s) (s_producer s) (s_pview s) CIdle j (s_pushed s) (s_popped s))
| pop_ready read j write s :
    s_consumer s = CLoaded read -> (s_cview s <= j)%nat -> s_writes s !! j = Some write -> read <> write ->
    consumer_step s (mkState (s_writes s) (s_reads s) (s_buffer s) (s_producer s) (s_pview s) (CReady read) j
      (s_pushed s) (s_popped s))
| pop_read read x s :
    s_consumer s = CReady read -> vget (s_buffer s) read = Some x ->
    consumer_step s (mkState (s_writes s) (s_reads s) (s_buffer s) (s_producer s) (s_pview s) (CTaken read x) (s_cview s)
      (s_pushed s) (s_popped s))
| pop_store read x s :
    s_consumer s = CTaken read x ->
    consumer_step s (mkState (s_writes s) (s_reads s ++ [next_idx read]) (s_buffer s) (s_producer s) (s_pview s) CIdle
      (s_cview s) (s_pushed s) (s_popped s ++ [x])).

Inductive ring_step (s s' : State) : Prop :=
| step_producer : producer_step s s' -> ring_step s s'
| step_consumer : consumer_step s s' -> ring_step s s'.

Inductive reachable (d : T) : State -> Prop :=
| reach_init : reachable d (init_state d)
| reach_step s s' : reachable d s -> ring_step s s' -> reachable d s'.
End ring.

Arguments Ring T : clear implicits.
Arguments State T : clear implicits.
Arguments Producer T : clear implicits.
Arguments Consumer T : clear implicits.

(** * Slots *)

Section facts.
Context {T : Type} (k : N) (k_pos : (1 <= k)%N).
Implicit Types (d x : T) (s : State T).

Definition cap : nat := N.to_nat (ring_capacity k).

(** The slot of the n-th value ever pushed. *)
Definition slot (n : nat) : N := N.of_nat n mod ring_capacity k.

Lemma cap_N : N.of_nat cap = ring_capacity k.
Proof. unfold cap. lia. Qed.

Lemma cap_ge2 : (2 <= cap)%nat.
Proof.
  assert (H : (2 ^ 1 <= 2 ^ k)%N) by (apply N.pow_le_mono_r; [done|exact k_pos]).
  change (2 ^ 1)%N with 2%N in H. unfold cap, ring_capacity. lia.
Qed.

Lemma ring_capacity_pos : (ring_capacity k <> 0)%N.
Proof. pose proof cap_ge2. pose proof cap_N. lia. Qed.

Lemma next_idx_slot n : next_idx k (slot n) = slot (S n).
Proof.
  unfold next_idx, slot, kMask, ring_capacity. rewrite N.sub_1_r, <- N.ones_equiv, N.land_ones.
  rewrite N.Div0.add_mod_idemp_l. f_equal. lia.
Qed.

Lemma slot_lt n : (slot n < ring_capacity k)%N.
Proof. apply N.mod_lt, ring_capacity_pos. Qed.

Lemma slot_inj i j : slot i = slot j -> (i <= j)%nat -> (j < i + cap)%nat -> i = j.
Proof.
  unfold slot. intros He Hle Hlt. pose proof cap_N as Hc. pose proof ring_capacity_pos as Hp. rewrite <- Hc in *.
  pose proof (N.div_mod (N.of_nat i) (N.of_nat cap) Hp) as Hi. pose proof (N.div_mod (N.of_nat j) (N.of_nat cap) Hp) as Hj.
  rewrite He in Hi. revert Hi Hj. generalize (N.of_nat j mod N.of_nat cap)%N (N.of_nat i / N.of_nat cap)%N (N.of_nat j / N.of_nat cap)%N.
  intros m a b Hi Hj. assert (Hab : a = b); [|subst; lia].
  destruct (N.lt_trichotomy a b) as [H|[H|H]]; [|done|]; exfalso; nia.
Qed.

(** The modification order of an index after [n] stores. *)
Definition history (n : nat) : list N := slot <$> seq 0 (S n).

Lemma history_snoc n : history (S n) = history n ++ [slot (S n)].
Proof. unfold history. by rewrite (seq_S (S n)), fmap_app. Qed.

Lemma history_last n : last (history n) = Some (slot n).
Proof. unfold history. rewrite seq_S, fmap_app. simpl. by rewrite last_snoc. Qed.

Lemma history_lookup n j i : history n !! j = Some i -> (j <= n)%nat /\ i = slot j.
Proof.
  unfold history. rewrite list_lookup_fmap. intros (m & Hm & ->)%fmap_Some. apply lookup_seq in Hm as [-> Hj]. split; [lia|done].
Qed.

(** * The invariant *)

Record ring_inv (s : State T) : Prop := {
  inv_writes : s_writes s = history (length (s_pushed s));
  inv_reads : s_reads s = history (length (s_popped s));
  inv_buffer : length (s_buffer s) = cap;
  inv_pview : (s_pview s <= length (s_popped s))%nat;
  inv_cview : (length (s_popped s) <= s_cview s <= length (s_pushed s))%nat;
  inv_room : (length (s_pushed s) < s_pview s + cap)%nat;
  inv_fifo : s_popped s `prefix_of` s_pushed s;
  inv_slots : forall i x, (length (s_popped s) <= i)%nat -> s_pushed s !! i = Some x -> vget (s_buffer s) (slot i) = Some x;
  inv_producer :
    match s_producer s with
    | PIdle => True
    | PLoaded _ write next => write = slot (length (s_pushed s)) /\ next = slot (S (length (s_pushed s)))
    | PRoom _ write next => write = slot (length (s_pushed s)) /\ next = slot (S (length (s_pushed s))) /\
        (S (length (s_pushed s)) < s_pview s + cap)%nat
    | PWritten item next => next = slot (S (length (s_pushed s))) /\ (S (length (s_pushed s)) < s_pview s + cap)%nat /\
        vget (s_buffer s) (slot (length (s_pushed s))) = Some item
    end;
  inv_consumer :
    match s_consumer s with
    | CIdle => True
    | CLoaded read => read = slot (length (s_popped s))
    | CReady read => read = slot (length (s_popped s)) /\ (length (s_popped s) < s_cview s)%nat
    | CTaken read x => read = slot (length (s_popped s)) /\ (length (s_popped s) < s_cview s)%nat /\
        s_pushed s !! length (s_popped s) = Some x
    end
}.

Lemma init_inv d : ring_inv (init_state k d).
Proof.
  pose proof cap_ge2. split; simpl; try done; try lia.
  by rewrite length_replicate.
Qed.

Lemma producer_inv s s' : ring_inv s -> producer_step k s s' -> ring_inv s'.
Proof.
  intros Hi Hs. pose proof Hi as [Hw Hr Hb Hpv Hcv Hroom Hf Hsl Hp Hc]. pose proof cap_ge2.
  destruct Hs as [item write s HP HL|item write next j s HP Hj HL|item write next j read s HP Hj HL Hne|item write next buf s HP HB|item next s HP];
    rewrite HP in Hp; try (rewrite Hr in HL; apply history_lookup in HL as [Hjr ->]).
  - rewrite Hw, history_last in HL. injection HL as <-. split; simpl; try done. split; [done|apply next_idx_slot].
  - split; simpl; try done. lia.
  - split; simpl; try done; [lia|]. destruct Hp as [-> ->]. split_and!; [done|done|].
    destruct (decide (S (length (s_pushed s)) = j + cap)%nat) as [Heq|]; [|lia].
    exfalso. apply Hne. unfold slot. rewrite Heq, Nat2N.inj_add, cap_N.
    replace (N.of_nat j + ring_capacity k)%N with (N.of_nat j + 1 * ring_capacity k)%N by lia. apply N.Div0.mod_add.
  - destruct Hp as (-> & -> & Hlt). rewrite vset_ok in HB by (unfold vsize; rewrite Hb, cap_N; apply slot_lt). injection HB as <-.
    split; simpl; try done; [by rewrite length_insert| |].
    + intros i x Hi1 Hi2. rewrite vget_insert_ne; [by apply Hsl|]. intros He. apply lookup_lt_Some in Hi2 as Hlt2.
      symmetry in He. apply slot_inj in He; lia.
    + split_and!; [done|done|]. apply vget_insert_eq. unfold vsize. rewrite Hb, cap_N. apply slot_lt.
  - destruct Hp as (-> & Hlt & Hg). split; simpl; rewrite ?length_app; simpl; rewrite ?Nat.add_1_r; try done; try lia.
    + by rewrite Hw, history_snoc.
    + by apply prefix_app_r.
    + intros i x Hi1 [[_ Hi2]|[Hi2 Hi3]]%lookup_snoc_Some; [by apply Hsl|]. subst. done.
    + destruct (s_consumer s); try done. destruct Hc as (? & ? & Hx). split_and!; try done. by apply lookup_app_l_Some.
Qed.

Lemma consumer_inv s s' : ring_inv s -> consumer_step k s s' -> ring_inv s'.
Proof.
  intros Hi Hs. pose proof Hi as [Hw Hr Hb Hpv Hcv Hroom Hf Hsl Hp Hc].
  destruct Hs as [read s HP HL|read j s HP Hj HL|read j write s HP Hj HL Hne|read x s HP HG|read x s HP];
    rewrite HP in Hc; try (rewrite Hw in HL; apply history_lookup in HL as [Hjr ->]).
  - rewrite Hr, history_last in HL. injection HL as <-. by split.
  - split; simpl; try done. lia.
  - split; simpl; try done; [lia|]. subst read. split; [done|].
    destruct (decide (length (s_popped s) = j)) as [Heq|]; [exfalso; apply Hne; by rewrite Heq|lia].
  - destruct Hc as [-> Hlt]. split; simpl; try done. split_and!; try done.
    destruct (lookup_lt_is_Some_2 (s_pushed s) (length (s_popped s))) as [y Hy]; [lia|].
    rewrite (Hsl _ _ (le_n _) Hy) in HG. by injection HG as ->.
  - destruct Hc as (-> & Hlt & Hx). split; simpl; rewrite ?length_app; simpl; rewrite ?Nat.add_1_r; try done; try lia.
    + rewrite Hr, history_snoc. by rewrite next_idx_slot.
    + destruct Hf as [rest Hf]. rewrite Hf in Hx |- *. rewrite lookup_app_r, Nat.sub_diag in Hx by done.
      destruct rest as [|y rest]; [done|]. injection Hx as ->. exists rest. by rewrite <- app_assoc.
    + intros i y Hi1. apply Hsl. lia.
Qed.

Lemma reachable_inv d s : reachable k d s -> ring_inv s.
Proof.
  induction 1 as [|s s' _ IH [Hs|Hs]]; [apply init_inv|by eapply producer_inv|by eapply consumer_inv].
Qed.

(** * Progress *)

Lemma producer_write_store s item write next :
  ring_inv s -> s_producer s = PRoom item write next ->
  exists s', nsteps (producer_step k) 2 s s' /\ s_producer s' = PIdle.
Proof.
  intros [_ _ Hb _ _ _ _ _ Hp _] HP. rewrite HP in Hp. destruct Hp as (-> & _).
  eexists. split; [|shelve]. eapply nsteps_l; [|eapply nsteps_once].
  - eapply push_write; [exact HP|]. apply vset_ok. unfold vsize. rewrite Hb, cap_N. apply slot_lt.
  - by eapply push_store.
  Unshelve. done.
Qed.

Lemma producer_completes s : ring_inv s ->
  exists n s', (n <= 3)%nat /\ nsteps (producer_step k) n s s' /\ s_producer s' = PIdle.
Proof.
  intros Hi. pose proof Hi as [_ Hr _ Hpv _ _ _ _ _ _].
  destruct (s_producer s) as [|item write next|item write next|item next] eqn:HP.
  - exists 0%nat, s. split_and!; [lia|constructor|done].
  - assert (HL : s_reads s !! s_pview s = Some (slot (s_pview s))).
    { rewrite Hr. unfold history. rewrite list_lookup_fmap, lookup_seq_lt by lia. done. }
    destruct (decide (next = slot (s_pview s))) as [->|Hne].
    + eexists 1%nat, _. split; [lia|]. split; [apply nsteps_once; exact (push_full k item write _ _ s HP (le_n _) HL)|done].
    + pose proof (push_room k item write next _ _ s HP (le_n _) HL Hne) as Hs1.
      destruct (producer_write_store _ item write next (producer_inv _ _ Hi Hs1) eq_refl) as (s' & Hs' & HP').
      exists 3%nat, s'. split_and!; [lia|by eapply nsteps_l|done].
  - destruct (producer_write_store s item write next Hi HP) as (s' & Hs' & HP'). exists 2%nat, s'. split_and!; [lia|done|done].
  - eexists 1%nat, _. split; [lia|]. split; [apply nsteps_once; exact (push_store k item next s HP)|done].
Qed.

Lemma consumer_read_store s read :
  ring_inv s -> s_consumer s = CReady read -> exists s', nsteps (consumer_step k) 2 s s' /\ s_consumer s' = CIdle.
Proof.
  intros [_ _ Hb _ Hcv _ _ Hsl _ Hc] HP. rewrite HP in Hc. destruct Hc as [-> Hlt].
  destruct (lookup_lt_is_Some_2 (s_pushed s) (length (s_popped s))) as [x Hx]; [lia|].
  eexists. split; [|shelve]. eapply nsteps_l; [|eapply nsteps_once].
  - eapply pop_read; [exact HP|]. by apply Hsl.
  - by eapply pop_store.
  Unshelve. done.
Qed.

Lemma consumer_completes s : ring_inv s ->
  exists n s', (n <= 3)%nat /\ nsteps (consumer_step k) n s s' /\ s_consumer s' = CIdle.
Proof.
  intros Hi. pose proof Hi as [Hw _ _ _ Hcv _ _ _ _ _].
  destruct (s_consumer s) as [|read|read|read x] eqn:HP.
  - exists 0%nat, s. split_and!; [lia|constructor|done].
  - assert (HL : s_writes s !! s_cview s = Some (slot (s_cview s))).
    { rewrite Hw. unfold history. rewrite list_lookup_fmap, lookup_seq_lt by lia. done. }
    destruct (decide (read = slot (s_cview s))) as [->|Hne].
    + eexists 1%nat, _. split; [lia|]. split; [apply nsteps_once; exact (pop_empty k _ _ s HP (le_n _) HL)|done].
    + pose proof (pop_ready k read _ _ s HP (le_n _) HL Hne) as Hs1.
      destruct (consumer_read_store _ read (consumer_inv _ _ Hi Hs1) eq_refl) as (s' & Hs' & HP').
      exists 3%nat, s'. split_and!; [lia|by eapply nsteps_l|done].
  - destruct (consumer_read_store s read Hi HP) as (s' & Hs' & HP'). exists 2%nat, s'. split_and!; [lia|done|done].
  - eexists 1%nat, _. split; [lia|]. split; [apply nsteps_once; exact (pop_store k read x s HP)|done].
Qed.

(** * The ring as a bounded queue *)

(** The ring holds the values of [q], pushed as numbers [n], [n + 1], ... *)
Record ring_rep (r : Ring T) (q : list T) : Prop := {
  rr_index : exists n, write_idx_ r = slot (n + length q) /\ read_idx_ r = slot n /\
    forall i x, q !! i = Some x -> vget (buffer_ r) (slot (n + i)) = Some x;
  rr_buffer : length (buffer_ r) = cap;
  rr_room : (length q < cap)%nat
}.

Lemma new_ring_rep d : ring_rep (new_ring k d) [].
Proof.
  pose proof cap_ge2. split; simpl; [|by rewrite length_replicate|lia]. exists 0%nat. split_and!; done.
Qed.

Lemma try_push_rep r q x : ring_rep r q ->
  exists r', try_push k r x = Some (bool_decide (N.of_nat (length q) < capacity k)%N, r') /\
    ring_rep r' (if bool_decide (N.of_nat (length q) < capacity k)%N then q ++ [x] else q).
Proof.
  intros Hr. pose proof Hr as [(n & Hw & Hrd & Hq) Hb Hroom]. pose proof cap_N as Hc. pose proof cap_ge2.
  unfold try_push. rewrite Hw, Hrd, next_idx_slot. unfold capacity. rewrite <- Hc. case_bool_decide as Hlt.
  - rewrite (proj2 (N.eqb_neq _ _)).
    2: { intros He. symmetry in He. apply slot_inj in He; lia. }
    rewrite vset_ok by (unfold vsize; rewrite Hb, Hc; apply slot_lt). simpl. eexists. split; [done|].
    split; simpl; [|by rewrite length_insert|rewrite length_app; simpl; lia]. exists n. split_and!; [|done|].
    + rewrite length_app. simpl. f_equal. lia.
    + intros i y [[Hi Hy]|[-> ->]]%lookup_snoc_Some.
      * rewrite vget_insert_ne; [by apply Hq|]. intros He. symmetry in He. apply slot_inj in He; lia.
      * apply vget_insert_eq. unfold vsize. rewrite Hb, Hc. apply slot_lt.
  - rewrite (proj2 (N.eqb_eq _ _)); [by exists r|]. replace (S (n + length q)) with (n + cap)%nat by lia.
    unfold slot. rewrite Nat2N.inj_add, Hc. replace (N.of_nat n + ring_capacity k)%N with (N.of_nat n + 1 * ring_capacity k)%N by lia.
    apply N.Div0.mod_add.
Qed.

Lemma try_pop_rep r q : ring_rep r q -> exists r', try_pop k r = Some (head q, r') /\ ring_rep r' (tail q).
Proof.
  intros Hr. pose proof Hr as [(n & Hw & Hrd & Hq) Hb Hroom]. unfold try_pop. rewrite Hw, Hrd.
  destruct q as [|x q]; simpl in *.
  - rewrite Nat.add_0_r, N.eqb_refl. by exists r.
  - rewrite (proj2 (N.eqb_neq _ _)).
    2: { intros He. apply slot_inj in He; lia. }
    pose proof (Hq 0%nat x eq_refl) as H0. rewrite Nat.add_0_r in H0. rewrite H0. simpl. eexists. split; [done|].
    split; simpl; [|done|lia]. exists (S n). split_and!; [f_equal; lia|apply next_idx_slot|].
    intros i y Hi. rewrite Nat.add_succ_l, <- Nat.add_succ_r. by apply Hq.
Qed.

Lemma rep_capacity r q : ring_rep r q -> (N.of_nat (length q) <= capacity k)%N.
Proof. intros [_ _ Hroom]. pose proof cap_N as Hc. unfold capacity. lia. Qed.

Lemma ring_empty_rep r q : ring_rep r q -> ring_empty r = bool_decide (q = []).
Proof.
  intros [(n & Hw & Hrd & _) _ Hroom]. unfold ring_empty. rewrite Hw, Hrd. case_bool_decide as He.
  - subst q. simpl. by rewrite Nat.add_0_r, N.eqb_refl.
  - apply N.eqb_neq. intros Hs. destruct q as [|x q]; [done|]. simpl in *. apply slot_inj in Hs; lia.
Qed.

(** Two slots [l] apart, one lap or none between them. *)
Lemma slot_distance n l : (l < cap)%nat ->
  (slot (n + l) = slot n + N.of_nat l \/ slot (n + l) + ring_capacity k = slot n + N.of_nat l)%N.
Proof.
  intros Hl. pose proof cap_N as Hc. pose proof ring_capacity_pos as Hp. pose proof (slot_lt n) as H1. pose proof (slot_lt (n + l)) as H2.
  pose proof (N.div_mod (N.of_nat n) _ Hp) as E1. pose proof (N.div_mod (N.of_nat (n + l)) _ Hp) as E2.
  fold (slot n) in E1. fold (slot (n + l)) in E2. rewrite Nat2N.inj_add in E2. rewrite <- Hc in *.
  revert E1 E2. generalize (N.of_nat n / N.of_nat cap)%N ((N.of_nat n + N.of_nat l) / N.of_nat cap)%N. intros a b E1 E2.
  assert (b = a \/ b = a + 1)%N as [->| ->] by nia; lia.
Qed.

Lemma size_approx_rep r q : (k <= 63)%N -> ring_rep r q -> size_approx k r = N.of_nat (length q).
Proof.
  intros Hk [(n & Hw & Hrd & _) _ Hroom]. unfold size_approx, kMask. rewrite Hw, Hrd. pose proof cap_N as Hc.
  pose proof (slot_lt n) as Hn. pose proof (slot_lt (n + length q)) as Hn'. pose proof (slot_distance n (length q) Hroom) as Hd.
  assert (Hp : (2 ^ k <= 2 ^ 63)%N) by (apply N.pow_le_mono_r; done). change (2 ^ 63)%N with 9223372036854775808%N in Hp.
  assert (H64 : exists m, two64 = ((m + 1) * ring_capacity k)%N).
  { exists (2 ^ (64 - k) - 1)%N. unfold ring_capacity. assert (0 < 2 ^ (64 - k))%N by (apply N.neq_0_lt_0, N.pow_nonzero; done).
    rewrite N.sub_add by lia. rewrite <- N.pow_add_r. replace (64 - k + k)%N with 64%N by lia. done. }
  destruct H64 as [m Hm]. unfold ring_capacity in *. rewrite N.sub_1_r, <- N.ones_equiv, N.land_ones. unfold wrap64.
  destruct Hd as [Hd|Hd].
  - replace (slot (n + length q) + (two64 - slot n))%N with (N.of_nat (length q) + 1 * two64)%N by (unfold two64 in *; lia).
    rewrite N.Div0.mod_add, (N.mod_small _ two64) by (unfold two64; lia). apply N.mod_small. lia.
  - replace (slot (n + length q) + (two64 - slot n))%N with (N.of_nat (length q) + m * 2 ^ k)%N by lia.
    rewrite (N.mod_small _ two64) by lia. rewrite N.Div0.mod_add. apply N.mod_small. lia.
Qed.
End facts.

(** * Calls of one thread *)

Inductive RingCall (T : Type) := RPush (x : T) | RPop | RSize | REmpty.
Arguments RPush {T}.
Arguments RPop {T}.
Arguments RSize {T}.
Arguments REmpty {T}.

Inductive RingAnswer (T : Type) := RAccepted (b : bool) | RPopped (x : option T) | ROccupancy (n : N) | RIsEmpty (b : bool).
Arguments RAccepted {T}.
Arguments RPopped {T}.
Arguments ROccupancy {T}.
Arguments RIsEmpty {T}.

Definition ring_call {T} (k : N) (r : Ring T) (c : RingCall T) : option (RingAnswer T * Ring T) :=
  match c with
  | RPush x => '(b, r1) ← try_push k r x; Some (RAccepted b, r1)
  | RPop => '(x, r1) ← try_pop k r; Some (RPopped x, r1)
  | RSize => Some (ROccupancy (size_approx k r), r)
  | REmpty => Some (RIsEmpty (ring_empty r), r)
  end.

Fixpoint ring_run {T} (k : N) (r : Ring T) (cs : list (RingCall T)) : option (list (RingAnswer T)) :=
  match cs with
  | [] => Some []
  | c :: cs' => '(a, r1) ← ring_call k r c; rs ← ring_run k r1 cs'; Some (a :: rs)
  end.

(** The same calls on a queue of at most [n] values. *)
Definition queue_call {T} (n : N) (q : list T) (c : RingCall T) : RingAnswer T * list T :=
  match c with
  | RPush x => if bool_decide (N.of_nat (length q) < n)%N then (RAccepted true, q ++ [x]) else (RAccepted false, q)
  | RPop => (RPopped (head q), tail q)
  | RSize => (ROccupancy (N.of_nat (length q)), q)
  | REmpty => (RIsEmpty (match q with [] => true | _ => false end), q)
  end.

Fixpoint queue_answers {T} (n : N) (q : list T) (cs : list (RingCall T)) : list (RingAnswer T) :=
  match cs with
  | [] => []
  | c :: cs' => let '(a, q1) := queue_call n q c in a :: queue_answers n q1 cs'
  end.

Lemma ring_call_rep {T} k (r : Ring T) q c : (1 <= k <= 63)%N -> ring_rep k r q ->
  exists r', ring_call k r c = Some ((queue_call (capacity k) q c).1, r') /\ ring_rep k r' (queue_call (capacity k) q c).2.
Proof.
  intros [Hk1 Hk2] Hr. destruct c as [x| | |]; simpl.
  - destruct (try_push_rep k Hk1 r q x Hr) as (r' & -> & Hr'). simpl. exists r'. by case_bool_decide.
  - destruct (try_pop_rep k Hk1 r q Hr) as (r' & -> & Hr'). simpl. by exists r'.
  - rewrite (size_approx_rep k Hk1 r q Hk2 Hr). by exists r.
  - rewrite (ring_empty_rep k Hk1 r q Hr). exists r. split; [|done]. by destruct q.
Qed.

(** * Theorems *)

(** C25. Used by one thread, the ring is a bounded FIFO queue of [Capacity - 1]
    values: every sequence of [try_push], [try_pop], [size_approx] and [empty]
    calls is defined and answers as the queue does, through any number of
    wrap-arounds. *)
Theorem ring_is_bounded_queue {T} k (d : T) cs :
  (1 <= k <= 63)%N -> ring_run k (new_ring k d) cs = Some (queue_answers (capacity k) [] cs).
Proof.
  intros Hk. assert (Hr : ring_rep k (new_ring k d) []) by (apply new_ring_rep; lia). revert Hr.
  generalize (new_ring k d) (@nil T). induction cs as [|c cs IH]; intros r q Hr; [done|]. simpl.
  destruct (ring_call_rep k r q c Hk Hr) as (r' & -> & Hr'). simpl. rewrite (IH r' _ Hr'). simpl. by destruct (queue_call _ q c).
Qed.

(** C21. Between a producer and a consumer thread, in every interleaving of
    their memory accesses and with stale loads of each other's index, the
    values popped are the values pushed, in order, none lost or repeated; and
    never more than [Capacity - 1] are in flight.  (Copying a value in or out of
    a slot is one step here; that no two copies overlap is race freedom, the
    next theorem.) *)
Theorem spsc_fifo {T} k (d : T) s :
  (1 <= k)%N -> reachable k d s ->
  s_popped s `prefix_of` s_pushed s /\ (N.of_nat (length (s_pushed s)) <= N.of_nat (length (s_popped s)) + capacity k)%N.
Proof.
  intros Hk Hs. destruct (reachable_inv k Hk d s Hs) as [_ _ _ Hpv _ Hroom Hf _ _ _]. split; [done|].
  pose proof (cap_N k). unfold capacity. lia.
Qed.

(** C22. The buffer accesses never race: the producer writes a slot only when it
    has seen the read index move past every value that the slot has held, the
    consumer reads a slot only when it has seen the write index move past the
    value in it, and the two are never at the same slot. *)
Theorem spsc_race_free {T} k (d : T) s :
  (1 <= k)%N -> reachable k d s ->
  (forall item write next, s_producer s = PRoom item write next ->
     forall i, (i < length (s_pushed s))%nat -> slot k i = write -> (i < s_pview s)%nat) /\
  (forall read, s_consumer s = CReady read -> read = slot k (length (s_popped s)) /\ (length (s_popped s) < s_cview s)%nat) /\
  (forall item write next read, s_producer s = PRoom item write next -> s_consumer s = CReady read -> write <> read).
Proof.
  intros Hk Hs. destruct (reachable_inv k Hk d s Hs) as [_ _ _ Hpv Hcv Hroom _ _ Hp Hc].
  assert (Hw : forall item write next, s_producer s = PRoom item write next ->
    forall i, (i < length (s_pushed s))%nat -> slot k i = write -> (i < s_pview s)%nat).
  { intros item write next HP i Hi He. rewrite HP in Hp. destruct Hp as (-> & _ & Hlt).
    destruct (decide (i < s_pview s)%nat); [done|]. apply slot_inj in He; [lia|done|lia|lia]. }
  split_and!; [done|intros read HC; by rewrite HC in Hc|].
  intros item write next read HP HC. rewrite HC in Hc. destruct Hc as [-> Hlt]. intros He.
  pose proof (Hw item write next HP (length (s_popped s)) ltac:(lia) (eq_sym He)). lia.
Qed.

(** The steps that a [try_push] or a [try_pop] under way has left, at most. *)
Definition push_left {T} (s : State T) : nat :=
  match s_producer s with PIdle => 0 | PLoaded _ _ _ => 3 | PRoom _ _ _ => 2 | PWritten _ _ => 1 end.

Definition pop_left {T} (s : State T) : nat :=
  match s_consumer s with CIdle => 0 | CLoaded _ => 3 | CReady _ => 2 | CTaken _ _ => 1 end.

(** C26. Both operations are wait-free, in every interleaving: a call under way
    always has a step of its own to take, each such step brings it nearer to
    its end, of which it is at most three away, and no step of the other
    thread changes that. *)
Theorem spsc_wait_free {T} k (d : T) s :
  (1 <= k)%N -> reachable k d s ->
  (s_producer s <> PIdle -> exists s', producer_step k s s') /\
  (forall s', producer_step k s s' -> s_producer s <> PIdle -> (push_left s' < push_left s <= 3)%nat) /\
  (forall s', consumer_step k s s' -> push_left s' = push_left s) /\
  (s_consumer s <> CIdle -> exists s', consumer_step k s s') /\
  (forall s', consumer_step k s s' -> s_consumer s <> CIdle -> (pop_left s' < pop_left s <= 3)%nat) /\
  (forall s', producer_step k s s' -> pop_left s' = pop_left s).
Proof.
  intros Hk Hs. pose proof (reachable_inv k Hk d s Hs) as Hi. split_and!.
  - intros Hne. destruct (producer_completes k Hk s Hi) as (n & s' & _ & Hn & Hp). destruct Hn as [|n s s1 s' H1 _]; [done|eauto].
  - intros s' Hst Hne. unfold push_left. destruct Hst as [? ? ? E|? ? ? ? ? E|? ? ? ? ? ? E|? ? ? ? ? E|? ? ? E]; rewrite E; simpl; done || lia.
  - intros s' Hst. by destruct Hst.
  - intros Hne. destruct (consumer_completes k Hk s Hi) as (n & s' & _ & Hn & Hp). destruct Hn as [|n s s1 s' H1 _]; [done|eauto].
  - intros s' Hst Hne. unfold pop_left. destruct Hst as [? ? E|? ? ? E|? ? ? ? E|? ? ? E|? ? ? E]; rewrite E; simpl; done || lia.
  - intros s' Hst. by destruct Hst.
Qed.

(** * A concrete execution *)

(** A push of 7 is published; the producer has then found room for 8 while the
    consumer is about to read 7. *)
Definition midway : State N :=
  mkState [0; 1]%N [0%N] [7; 0; 0; 0]%N (PRoom 8%N 1 2) 0 (CReady 0) 1 [7%N] [].

Lemma midway_reachable : reachable 2 0%N midway.
Proof.
  assert (Hp : forall s s', reachable 2 0%N s -> producer_step 2 s s' -> reachable 2 0%N s')
    by (intros; eapply reach_step; [done|by constructor]).
  assert (Hc : forall s s', reachable 2 0%N s -> consumer_step 2 s s' -> reachable 2 0%N s')
    by (intros; eapply reach_step; [done|by constructor]).
  pose proof (reach_init 2 0%N) as H.
  eapply Hp in H; [|apply (push_load 2 7%N 0%N); reflexivity]. vm_compute in H.
  eapply Hp in H; [|apply (push_room 2 7%N 0 1 0 0%N); [reflexivity|done|reflexivity|done]]. vm_compute in H.
  eapply Hp in H; [|apply (push_write 2 7%N 0 1 [7; 0; 0; 0]%N); reflexivity]. vm_compute in H.
  eapply Hp in H; [|apply (push_store 2 7%N 1); reflexivity]. vm_compute in H.
  eapply Hc in H; [|apply (pop_load 2 0); reflexivity]. vm_compute in H.
  eapply Hc in H; [|apply (pop_ready 2 0 1 1); [reflexivity|simpl; lia|reflexivity|done]]. vm_compute in H.
  eapply Hp in H; [|apply (push_load 2 8%N 1); reflexivity]. vm_compute in H.
  eapply Hp in H; [|apply (push_room 2 8%N 1 2 0 0%N); [reflexivity|done|reflexivity|done]]. vm_compute in H.
  exact H.
Qed.

Lemma ring_is_bounded_queue_witness :
  ring_run 1 (new_ring 1 0%N) [RPush 4%N; RPush 5%N; RSize; RPop; RPush 6%N; RPop; RPop; REmpty] =
    Some (queue_answers (capacity 1) [] [RPush 4%N; RPush 5%N; RSize; RPop; RPush 6%N; RPop; RPop; REmpty]).
Proof. apply (ring_is_bounded_queue 1). lia. Defined.

Lemma spsc_fifo_witness :
  s_popped midway `prefix_of` s_pushed midway /\
  (N.of_nat (length (s_pushed midway)) <= N.of_nat (length (s_popped midway)) + capacity 2)%N.
Proof. apply (spsc_fifo 2 0%N midway); [lia|exact midway_reachable]. Defined.

Lemma spsc_race_free_witness :
  (forall item write next, s_producer midway = PRoom item write next ->
     forall i, (i < length (s_pushed midway))%nat -> slot 2 i = write -> (i < s_pview midway)%nat) /\
  (forall read, s_consumer midway = CReady read ->
     read = slot 2 (length (s_popped midway)) /\ (length (s_popped midway) < s_cview midway)%nat) /\
  (forall item write next read, s_producer midway = PRoom item write next -> s_consumer midway = CReady read -> write <> read).
Proof. apply (spsc_race_free 2 0%N midway); [lia|exact midway_reachable]. Defined.

Lemma spsc_wait_free_witness :
  (s_producer midway <> PIdle -> exists s', producer_step 2 midway s') /\
  (forall s', producer_step 2 midway s' -> s_producer midway <> PIdle -> (push_left s' < push_left midway <= 3)%nat) /\
  (forall s', consumer_step 2 midway s' -> push_left s' = push_left midway) /\
  (s_consumer midway <> CIdle -> exists s', consumer_step 2 midway s') /\
  (forall s', consumer_step 2 midway s' -> s_consumer midway <> CIdle -> (pop_left s' < pop_left midway <= 3)%nat) /\
  (forall s', producer_step 2 midway s' -> pop_left s' = pop_left midway).
Proof. apply (spsc_wait_free 2 0%N midway); [lia|exact midway_reachable]. Defined.
