(* ===== verification/LockfreeAccess.v ===== *)
(** include/lightninglob/lockfree_queue.hpp: the two-thread protocol of
    LockfreeQueue.v as functions, for the threads that use a ring.

    [push_access] and [pop_access] take a [try_push] or [try_pop] one memory
    access further.  What is left open by the memory model, the value that a
    load of the other thread's index returns, is an argument: the position in
    the index's modification order, cut to what the load may return.  With the
    new state they give what the call returns, if the access was its last.  The
    functions have exactly the steps of the relations. *)

From stdpp Require Import relations.
From S2P Require Import Prelude LockfreeQueue.

(** The position from which a load returns its value, when position [j] is
    asked for: not before what its thread has seen, and within the order. *)
Definition load_at {A} (view j : nat) (order : list A) : nat := (view `max` j) `min` (length order - 1).

Lemma load_at_bounds {A} view j (order : list A) : view < length order -> view <= load_at view j order < length order.
Proof. unfold load_at. lia. Qed.

Lemma load_at_lookup {A} view j (order : list A) x : view <= j -> order !! j = Some x -> load_at view j order = j.
Proof. intros Hv Hj%lookup_lt_Some. unfold load_at. lia. Qed.

Lemma load_at_last {A} view j (order : list A) : length order <= S j -> load_at view j order = length order - 1.
Proof. unfold load_at. lia. Qed.

Section access.
Context {T : Type} (k : N).
Implicit Types (s : State T).

Definition with_producer (P : Producer T) (view : nat) s : State T :=
  mkState (s_writes s) (s_reads s) (s_buffer s) P view (s_consumer s) (s_cview s) (s_pushed s) (s_popped s).

Definition with_consumer (C : Consumer T) (view : nat) s : State T :=
  mkState (s_writes s) (s_reads s) (s_buffer s) (s_producer s) (s_pview s) C view (s_pushed s) (s_popped s).

Definition push_access (item : T) (j : nat) s : option (option bool * State T) :=
  match s_producer s with
  | PIdle =>
      write ← last (s_writes s);
      Some (None, with_producer (PLoaded item write (next_idx k write)) (s_pview s) s)
  | PLoaded it write next =>
      let j' := load_at (s_pview s) j (s_reads s) in
      read ← s_reads s !! j';
      if decide (next = read) then Some (Some false, with_producer PIdle j' s)
      else Some (None, with_producer (PRoom it write next) j' s)
  | PRoom it write next =>
      buf ← vset (s_buffer s) write it;
      Some (None, mkState (s_writes s) (s_reads s) buf (PWritten it next) (s_pview s) (s_consumer s) (s_cview s) (s_pushed s) (s_popped s))
  | PWritten it next =>
      Some (Some true, mkState (s_writes s ++ [next]) (s_reads s) (s_buffer s) PIdle (s_pview s) (s_consumer s) (s_cview s) (s_pushed s ++ [it]) (s_popped s))
  end.

Definition pop_access (j : nat) s : option (option (option T) * State T) :=
  match s_consumer s with
  | CIdle =>
      read ← last (s_reads s);
      Some (None, with_consumer (CLoaded read) (s_cview s) s)
  | CLoaded read =>
      let j' := load_at (s_cview s) j (s_writes s) in
      write ← s_writes s !! j';
      if decide (read = write) then Some (Some None, with_consumer CIdle j' s)
      else Some (None, with_consumer (CReady read) j' s)
  | CReady read =>
      x ← vget (s_buffer s) read;
      Some (None, with_consumer (CTaken read x) (s_cview s) s)
  | CTaken read x =>
      Some (Some (Some x), mkState (s_writes s) (s_reads s ++ [next_idx k read]) (s_buffer s) (s_producer s) (s_pview s) CIdle (s_cview s)
        (s_pushed s) (s_popped s ++ [x]))
  end.

(** The load of the write index in [empty()], called by the consumer. *)
Definition load_writes (j : nat) s : option (N * State T) :=
  let j' := load_at (s_cview s) j (s_writes s) in
  write ← s_writes s !! j';
  Some (write, with_consumer (s_consumer s) j' s).

(** The consumer learns from elsewhere of the writes up to position [view]. *)
Definition see_writes (view : nat) s : State T := with_consumer (s_consumer s) (s_cview s `max` view) s.

(** The item that a [try_push] under way is to push. *)
Definition in_flight (P : Producer T) : option T :=
  match P with PIdle => None | PLoaded it _ _ | PRoom it _ _ | PWritten it _ => Some it end.

(** What the ring holds: the values pushed and not yet popped. *)
Definition held s : list T := drop (length (s_popped s)) (s_pushed s).
End access.

(** * The functions against the relations *)

Section facts.
Context {T : Type} (k : N) (k_pos : (1 <= k)%N).
Implicit Types (s : State T).

Lemma history_length n : length (history k n) = S n.
Proof. unfold history. by rewrite length_fmap, length_seq. Qed.

Lemma history_get n j : j <= n -> history k n !! j = Some (slot k j).
Proof. intros Hj. unfold history. rewrite list_lookup_fmap, lookup_seq_lt by lia. done. Qed.

(** A load returns the slot of a position within the bounds. *)
Lemma loaded n view j : view <= n ->
  exists j', load_at view j (history k n) = j' /\ view <= j' <= n /\ history k n !! j' = Some (slot k j').
Proof.
  intros Hv. eexists. split; [reflexivity|]. pose proof (load_at_bounds view j (history k n)) as Hp. rewrite history_length in Hp.
  split; [lia|]. apply history_get. lia.
Qed.

(** Every access of the function is a step of the relation. *)
Lemma push_access_step item j s : ring_inv k s -> exists r s', push_access k item j s = Some (r, s') /\ producer_step k s s'.
Proof.
  intros [Hw Hr Hb Hpv _ _ _ _ Hp _]. unfold push_access. destruct (s_producer s) as [|it write next|it write next|it next] eqn:HP.
  - rewrite Hw, history_last. simpl. do 2 eexists. split; [done|]. apply push_load; [done|]. by rewrite Hw, history_last.
  - destruct (loaded (length (s_popped s)) (s_pview s) j Hpv) as (j' & Ej & Hj & HL). rewrite <- Hr in Ej, HL. rewrite Ej, HL. cbn [mbind option_bind].
    case_decide as Hd; do 2 eexists; (split; [done|]).
    + eapply push_full; [done|lia|by rewrite Hd].
    + eapply push_room; [done|lia|done|done].
  - destruct Hp as (-> & _). assert (Hv : vset (s_buffer s) (slot k (length (s_pushed s))) it = Some (<[N.to_nat (slot k (length (s_pushed s))) := it]> (s_buffer s))).
    { apply vset_ok. unfold vsize. rewrite Hb, (cap_N k) by done. by apply slot_lt. }
    rewrite Hv. do 2 eexists. split; [done|]. by eapply push_write.
  - do 2 eexists. split; [done|]. by eapply push_store.
Qed.

Lemma pop_access_step j s : ring_inv k s -> exists r s', pop_access k j s = Some (r, s') /\ consumer_step k s s'.
Proof.
  intros [Hw Hr Hb _ Hcv _ _ Hsl _ Hc]. unfold pop_access. destruct (s_consumer s) as [|read|read|read x] eqn:HC.
  - rewrite Hr, history_last. simpl. do 2 eexists. split; [done|]. apply pop_load; [done|]. by rewrite Hr, history_last.
  - destruct (loaded (length (s_pushed s)) (s_cview s) j ltac:(lia)) as (j' & Ej & Hj & HL). rewrite <- Hw in Ej, HL. rewrite Ej, HL. cbn [mbind option_bind].
    case_decide as Hd; do 2 eexists; (split; [done|]).
    + eapply pop_empty; [done|lia|by rewrite Hd].
    + eapply pop_ready; [done|lia|done|done].
  - destruct Hc as [-> Hlt]. destruct (lookup_lt_is_Some_2 (s_pushed s) (length (s_popped s))) as [x Hx]; [lia|]. pose proof (Hsl _ _ (le_n _) Hx) as Hv.
    rewrite Hv. simpl. do 2 eexists. split; [done|]. by eapply pop_read.
  - do 2 eexists. split; [done|]. by eapply pop_store.
Qed.

(** And every step of the relation is an access of the function. *)
Lemma push_step_access s s' : producer_step k s s' -> exists item j r, push_access k item j s = Some (r, s').
Proof.
  unfold push_access. destruct 1 as [item write s HP HL|item write next j s HP Hj HL|item write next j read s HP Hj HL Hne|item write next buf s HP HB|item next s HP];
    exists item; rewrite HP.
  1,4,5: exists 0. 4,5: exists j.
  - rewrite HL. by eexists.
  - rewrite HB. by eexists.
  - by eexists.
  - rewrite (load_at_lookup _ _ _ _ Hj HL), HL. simpl. rewrite decide_True by done. by eexists.
  - rewrite (load_at_lookup _ _ _ _ Hj HL), HL. simpl. rewrite decide_False by done. by eexists.
Qed.

Lemma pop_step_access s s' : consumer_step k s s' -> exists j r, pop_access k j s = Some (r, s').
Proof.
  unfold pop_access. destruct 1 as [read s HP HL|read j s HP Hj HL|read j write s HP Hj HL Hne|read x s HP HG|read x s HP]; rewrite HP.
  1,4,5: exists 0. 4,5: exists j.
  - rewrite HL. by eexists.
  - rewrite HG. by eexists.
  - by eexists.
  - rewrite (load_at_lookup _ _ _ _ Hj HL), HL. simpl. rewrite decide_True by done. by eexists.
  - rewrite (load_at_lookup _ _ _ _ Hj HL), HL. simpl. rewrite decide_False by done. by eexists.
Qed.

(** * What an access changes *)

Lemma push_access_inv item j s r s' : ring_inv k s -> push_access k item j s = Some (r, s') -> ring_inv k s'.
Proof. intros Hi E. destruct (push_access_step item j s Hi) as (r1 & s1 & E1 & Hs). simplify_eq. by eapply producer_inv. Qed.

Lemma pop_access_inv j s r s' : ring_inv k s -> pop_access k j s = Some (r, s') -> ring_inv k s'.
Proof. intros Hi E. destruct (pop_access_step j s Hi) as (r1 & s1 & E1 & Hs). simplify_eq. by eapply consumer_inv. Qed.

(** The last access of a [try_push] adds the item in flight or nothing; the
    others start it and carry it on. *)
Lemma push_access_effect item j s r s' : push_access k item j s = Some (r, s') ->
  s_popped s' = s_popped s /\ s_reads s' = s_reads s /\ s_consumer s' = s_consumer s /\ s_cview s' = s_cview s /\
  match r with
  | None => s_pushed s' = s_pushed s /\ in_flight (s_producer s') = Some (default item (in_flight (s_producer s)))
  | Some b => s_producer s' = PIdle /\ exists it, in_flight (s_producer s) = Some it /\ s_pushed s' = if b then s_pushed s ++ [it] else s_pushed s
  end.
Proof.
  unfold push_access. destruct (s_producer s) as [|it write next|it write next|it next] eqn:HP.
  - destruct (last _); [|done]. intros [= <- <-]. done.
  - destruct (_ !! _); [|done]. cbn [mbind option_bind]. case_decide; intros [= <- <-]; simpl; split_and!; try done. by exists it.
  - destruct (vset _ _ _); [|done]. intros [= <- <-]. done.
  - intros [= <- <-]. simpl. split_and!; try done. by exists it.
Qed.

(** The last access of a [try_pop] removes the oldest value or nothing. *)
Lemma pop_access_effect j s r s' : ring_inv k s -> pop_access k j s = Some (r, s') ->
  s_pushed s' = s_pushed s /\ s_writes s' = s_writes s /\ s_producer s' = s_producer s /\ s_pview s' = s_pview s /\ s_cview s <= s_cview s' /\
  match r with
  | Some (Some x) => s_popped s' = s_popped s ++ [x] /\ s_pushed s !! length (s_popped s) = Some x
  | _ => s_popped s' = s_popped s
  end.
Proof.
  intros [Hw Hr Hb _ Hcv _ _ Hsl _ Hc]. unfold pop_access. destruct (s_consumer s) as [|read|read|read x] eqn:HC.
  - destruct (last _); [|done]. intros [= <- <-]. done.
  - destruct (loaded (length (s_pushed s)) (s_cview s) j ltac:(lia)) as (j' & Ej & Hj & HL). rewrite <- Hw in Ej, HL. rewrite Ej, HL. cbn [mbind option_bind].
    case_decide; intros [= <- <-]; simpl; split_and!; done || lia.
  - destruct (vget _ _); [|done]. intros [= <- <-]. done.
  - intros [= <- <-]. simpl. split_and!; try done. by destruct Hc as (_ & _ & ?).
Qed.

Lemma load_writes_ok j s : ring_inv k s -> exists j', s_cview s <= j' <= length (s_pushed s) /\
  load_writes j s = Some (slot k j', with_consumer (s_consumer s) j' s) /\ (length (s_pushed s) <= j -> j' = length (s_pushed s)).
Proof.
  intros Hi. pose proof (inv_writes _ _ Hi) as Hw. pose proof (inv_cview _ _ Hi) as Hcv.
  destruct (loaded (length (s_pushed s)) (s_cview s) j ltac:(lia)) as (j' & Ej & Hj & HL).
  exists j'. split; [done|]. unfold load_writes. rewrite Hw, Ej, HL. split; [done|]. intros Hl. rewrite <- Ej, load_at_last; rewrite history_length; lia.
Qed.

(** A view of the consumer's may grow up to the last write. *)
Lemma view_inv j s : ring_inv k s -> s_cview s <= j <= length (s_pushed s) -> ring_inv k (with_consumer (s_consumer s) j s).
Proof.
  intros Hi Hj. pose proof Hi as [Hw Hr Hb Hpv Hcv Hroom Hf Hsl Hp Hc]. split; simpl; try done; [lia|].
  destruct (s_consumer s); try done; intuition lia.
Qed.

Lemma see_writes_inv view s : ring_inv k s -> view <= length (s_pushed s) -> ring_inv k (see_writes view s).
Proof. intros Hi Hv. apply view_inv; [done|]. pose proof (inv_cview _ _ Hi). lia. Qed.

(** * What the ring holds *)

Lemma held_length s : ring_inv k s -> length (held s) = length (s_pushed s) - length (s_popped s) /\ length (s_popped s) <= length (s_pushed s).
Proof. intros Hi. unfold held. rewrite length_drop. pose proof (inv_cview _ _ Hi). lia. Qed.

Lemma pushed_held s : ring_inv k s -> s_pushed s = s_popped s ++ held s.
Proof. intros Hi. destruct (inv_fifo _ _ Hi) as [q Hq]. unfold held. by rewrite Hq, drop_app_length. Qed.

(** Equal indices mean that the ring is empty, once all writes are seen. *)
Lemma slots_empty s : ring_inv k s -> slot k (length (s_popped s)) = slot k (length (s_pushed s)) <-> held s = [].
Proof.
  intros Hi. pose proof (inv_room _ _ Hi). pose proof (inv_pview _ _ Hi). destruct (held_length s Hi) as [Hl Hle]. split.
  - intros He%(slot_inj k k_pos); [|lia..]. apply nil_length_inv. lia.
  - intros He. rewrite He in Hl. simpl in Hl. f_equal. lia.
Qed.

(** * Accesses whose loads return the latest value *)

Lemma slots_full s : ring_inv k s -> slot k (S (length (s_pushed s))) = slot k (length (s_popped s)) <-> ~ (N.of_nat (length (held s)) < capacity k)%N.
Proof.
  intros Hi. pose proof (inv_room _ _ Hi). pose proof (inv_pview _ _ Hi). destruct (held_length s Hi) as [-> Hle].
  pose proof (cap_N k k_pos) as Hc. pose proof (cap_ge2 k k_pos). unfold capacity. rewrite <- Hc. split.
  - intros He Hlt. symmetry in He. apply (slot_inj k k_pos) in He; lia.
  - intros Hnl. replace (S (length (s_pushed s))) with (length (s_popped s) + cap k) by lia. unfold slot. rewrite Nat2N.inj_add, Hc.
    replace (N.of_nat (length (s_popped s)) + ring_capacity k)%N with (N.of_nat (length (s_popped s)) + 1 * ring_capacity k)%N by lia. apply N.Div0.mod_add.
Qed.

Lemma push_latest item j s it write next : ring_inv k s -> s_producer s = PLoaded it write next -> length (s_popped s) <= j ->
  push_access k item j s = Some (if decide (N.of_nat (length (held s)) < capacity k)%N
    then (None, with_producer (PRoom it write next) (length (s_popped s)) s) else (Some false, with_producer PIdle (length (s_popped s)) s)).
Proof.
  intros Hi HP Hj. pose proof Hi as [_ Hr _ _ _ _ _ _ Hp _]. rewrite HP in Hp. destruct Hp as [_ ->]. unfold push_access. rewrite HP, Hr.
  rewrite load_at_last, history_length by (rewrite history_length; lia). replace (S (length (s_popped s)) - 1) with (length (s_popped s)) by lia.
  rewrite history_get by done. cbn [mbind option_bind]. pose proof (slots_full s Hi). repeat case_decide; try done; exfalso; tauto.
Qed.

Lemma pop_latest j s read : ring_inv k s -> s_consumer s = CLoaded read -> length (s_pushed s) <= j ->
  pop_access k j s = Some (if decide (held s = []) then (Some None, with_consumer CIdle (length (s_pushed s)) s) else (None, with_consumer (CReady read) (length (s_pushed s)) s)).
Proof.
  intros Hi HC Hj. pose proof Hi as [Hw _ _ _ _ _ _ _ _ Hc]. rewrite HC in Hc. unfold pop_access. rewrite HC, Hw.
  rewrite load_at_last, history_length by (rewrite history_length; lia). replace (S (length (s_pushed s)) - 1) with (length (s_pushed s)) by lia.
  rewrite history_get by done. cbn [mbind option_bind]. rewrite Hc. pose proof (slots_empty s Hi). repeat case_decide; try done; exfalso; tauto.
Qed.

(** The accesses that a call has left, at most. *)
Definition push_todo (P : Producer T) : nat := match P with PIdle => 4 | PLoaded _ _ _ => 3 | PRoom _ _ _ => 2 | PWritten _ _ => 1 end.
Definition pop_todo (C : Consumer T) : nat := match C with CIdle => 4 | CLoaded _ => 3 | CReady _ => 2 | CTaken _ _ => 1 end.

Lemma push_todo_access item j s s' : push_access k item j s = Some (None, s') -> push_todo (s_producer s') < push_todo (s_producer s).
Proof.
  unfold push_access. destruct (s_producer s) as [|it w nx|it w nx|it nx]; intros E;
    repeat (match type of E with context [mbind _ ?x] => destruct x; [|done] end; cbn [mbind option_bind] in E); try case_decide; simplify_eq/=; lia.
Qed.

Lemma pop_todo_access j s s' : pop_access k j s = Some (None, s') -> pop_todo (s_consumer s') < pop_todo (s_consumer s).
Proof.
  unfold pop_access. destruct (s_consumer s) as [|read|read|read x]; intros E;
    repeat (match type of E with context [mbind _ ?x] => destruct x; [|done] end; cbn [mbind option_bind] in E); try case_decide; simplify_eq/=; lia.
Qed.

(** With the latest value, a [try_pop] finds what there is. *)
Lemma pop_latest_none j s s' : ring_inv k s -> length (s_pushed s) <= j -> pop_access k j s = Some (Some None, s') -> held s = [].
Proof.
  intros Hi Hj Hp. destruct (s_consumer s) as [|read|read|read x] eqn:HC; [| |by unfold pop_access in Hp; rewrite HC in Hp; destruct (vget _ _)|by unfold pop_access in Hp; rewrite HC in Hp].
  - unfold pop_access in Hp. rewrite HC in Hp. by destruct (last _).
  - rewrite (pop_latest j s read Hi HC Hj) in Hp. by case_decide.
Qed.

(** A consumer that has seen all writes finds nothing only in an empty ring. *)
Lemma pop_none_empty j s s' : ring_inv k s -> s_cview s = length (s_pushed s) -> pop_access k j s = Some (Some None, s') -> held s = [].
Proof.
  intros Hi Hv. replace (pop_access k j s) with (pop_access k (length (s_pushed s)) s); [by apply pop_latest_none|].
  unfold pop_access, load_at. by rewrite (inv_writes _ _ Hi), history_length, Hv, !Nat.min_r by lia.
Qed.

(** A ring that has not been pushed to its capacity is not found full, however
    old the value of the read index. *)
Lemma push_not_full item j s s' : ring_inv k s -> (N.of_nat (length (s_pushed s)) < capacity k)%N -> push_access k item j s <> Some (Some false, s').
Proof.
  intros Hi Hlt. pose proof Hi as [_ Hr _ Hpv Hcv _ _ _ Hp _]. unfold push_access. destruct (s_producer s) as [|it write next|it write next|it next]; [by destruct (last _)| |by destruct (vset _ _ _)|done].
  destruct Hp as [_ ->]. destruct (loaded (length (s_popped s)) (s_pview s) j Hpv) as (j' & Ej & Hj & HL). rewrite <- Hr in Ej, HL. rewrite Ej, HL. cbn [mbind option_bind].
  case_decide as Hd; [|done]. exfalso. symmetry in Hd. pose proof (cap_N k k_pos). unfold capacity in Hlt. apply (slot_inj k k_pos) in Hd; lia.
Qed.

(** Positions after the last one are all the same. *)
Lemma push_access_late item j j' s : length (s_reads s) <= S j -> length (s_reads s) <= S j' -> push_access k item j s = push_access k item j' s.
Proof. intros H1 H2. unfold push_access. by rewrite !load_at_last by done. Qed.

Lemma pop_access_late j j' s : length (s_writes s) <= S j -> length (s_writes s) <= S j' -> pop_access k j s = pop_access k j' s.
Proof. intros H1 H2. unfold pop_access. by rewrite !load_at_last by done. Qed.

Lemma load_writes_late j j' s : length (s_writes s) <= S j -> length (s_writes s) <= S j' -> load_writes j s = load_writes j' s.
Proof. intros H1 H2. unfold load_writes. by rewrite !load_at_last by done. Qed.
End facts.
