(* ===== verification/OrderGateway.v ===== *)
(** include/lightninglob/order_gateway.hpp: [OrderGateway<LaneCapacity>], one
    ring per producer and a consumer that sweeps them in round-robin order.

    [LaneCapacity] is [2 ^ k].  The handler that [poll_once] is given is any
    stateful function on requests.  The specification is a list of bounded
    queues, of which a sweep takes the heads. *)

From S2P Require Import Prelude Types LockfreeQueue.

Section gateway.
Context (k : N).

Record OrderGateway := mkGateway {
  lanes_ : list (Ring OrderRequest);
  next_lane_ : N
}.

(** [OrderRequest{}]. *)
Definition default_request : OrderRequest := mkRequest kInvalidOrderId 0 kNoParticipant Buy Limit kMarketOrderPrice 0 GTC.

Definition new_gateway (num_producers : N) : OrderGateway :=
  mkGateway (replicate (N.to_nat num_producers) (new_ring k default_request)) 0.

Definition lane_count (g : OrderGateway) : N := vsize (lanes_ g).

Definition submit (g : OrderGateway) (lane_index : N) (request : OrderRequest) : option (bool * OrderGateway) :=
  lane ← vget (lanes_ g) lane_index;
  '(ok, lane1) ← try_push k lane request;
  ls ← vset (lanes_ g) lane_index lane1;
  Some (ok, mkGateway ls (next_lane_ g)).

Definition all_lanes_empty (g : OrderGateway) : bool := forallb ring_empty (lanes_ g).

(** The loop of [poll_once] over [i .. i + count - 1], with [n] lanes. *)
Fixpoint poll_loop {H} (handler : H -> OrderRequest -> option H) (count : nat) (n i : N) (g : OrderGateway) (h : H) (drained : N)
    : option (OrderGateway * H * N) :=
  match count with
  | O => Some (g, h, drained)
  | S count' =>
      let lane_index := ((next_lane_ g + i) mod n)%N in
      lane ← vget (lanes_ g) lane_index;
      '(popped, lane1) ← try_pop k lane;
      ls ← vset (lanes_ g) lane_index lane1;
      let g1 := mkGateway ls (next_lane_ g) in
      match popped with
      | Some request => h1 ← handler h request; poll_loop handler count' n (i + 1) g1 h1 (drained + 1)
      | None => poll_loop handler count' n (i + 1) g1 h drained
      end
  end.

Definition poll_once {H} (handler : H -> OrderRequest -> option H) (g : OrderGateway) (h : H)
    : option (N * OrderGateway * H) :=
  let n := vsize (lanes_ g) in
  '(g1, h1, drained) ← poll_loop handler (length (lanes_ g)) n 0 g h 0;
  Some (drained, mkGateway (lanes_ g1) (if (0 <? n)%N then ((next_lane_ g1 + 1) mod n)%N else next_lane_ g1), h1).
End gateway.

(** * The specification: a list of queues *)

(** The lanes in the order a sweep visits them. *)
Definition sweep_order (n : nat) (next : N) : list nat :=
  (fun i => N.to_nat ((next + N.of_nat i) mod N.of_nat n)) <$> seq 0 n.

(** The requests a sweep takes: the heads of the lanes that have one. *)
Definition sweep_heads (qs : list (list OrderRequest)) (next : N) : list OrderRequest :=
  omap (fun l => q ← qs !! l; head q) (sweep_order (length qs) next).

(** The lane whose turn comes after [next]. *)
Definition next_turn (n : nat) (next : N) : N := if decide (0 < n)%nat then ((next + 1) mod N.of_nat n)%N else next.

(** The handler applied to a list of requests. *)
Fixpoint handle_all {H} (handler : H -> OrderRequest -> option H) (rs : list OrderRequest) (h : H) : option H :=
  match rs with [] => Some h | r :: rs' => h1 ← handler h r; handle_all handler rs' h1 end.

(** * Sweeps *)

(** The lanes left by popping the lanes of [ls] once each. *)
Definition pop_lanes (ls : list nat) (qs : list (list OrderRequest)) : list (list OrderRequest) :=
  foldl (fun qs l => alter tail l qs) qs ls.

Definition visit (n next i : N) (count : nat) : list nat :=
  (fun j => N.to_nat ((next + (i + N.of_nat j)) mod n)) <$> seq 0 count.

Lemma visit_S n next i count : visit n next i (S count) = N.to_nat ((next + i) mod n) :: visit n next (i + 1) count.
Proof.
  unfold visit. simpl. f_equal; [f_equal; f_equal; lia|]. rewrite <- fmap_S_seq, <- list_fmap_compose. apply list_fmap_ext.
  intros _ j _. simpl. do 2 f_equal. lia.
Qed.

Lemma alter_as_insert {A} (f : A -> A) (l : list A) i x : l !! i = Some x -> alter f i l = <[i := f x]> l.
Proof. intros Hx. apply list_eq. intros j.
  destruct (decide (i = j)) as [<-|Hne].
  - rewrite list_lookup_alter_eq, list_lookup_insert_eq, Hx by (by eapply lookup_lt_Some). done.
  - by rewrite list_lookup_alter_ne, list_lookup_insert_ne.
Qed.

Lemma omap_ext_in {A B} (f g : A -> option B) (l : list A) : (forall x, x ∈ l -> f x = g x) -> omap f l = omap g l.
Proof.
  induction l as [|x l IH]; intros Hf; [done|]. cbn. rewrite (Hf x) by left. rewrite IH; [done|]. intros y Hy. apply Hf. by right.
Qed.

(** The heads of the lanes of [ls]. *)
Definition heads (ls : list nat) (qs : list (list OrderRequest)) : list OrderRequest := omap (fun l => q ← qs !! l; head q) ls.

Lemma heads_alter ls l0 qs : l0 ∉ ls -> heads ls (alter tail l0 qs) = heads ls qs.
Proof. intros Hni. apply omap_ext_in. intros j Hj. by rewrite list_lookup_alter_ne by congruence. Qed.

Lemma heads_cons l ls qs q : qs !! l = Some q ->
  heads (l :: ls) qs = match head q with Some r => r :: heads ls qs | None => heads ls qs end.
Proof. intros Hq. unfold heads. cbn. by rewrite Hq. Qed.

(** A sweep visits every lane exactly once. *)
Lemma visit_NoDup n nx count : (0 < n)%N -> (N.of_nat count <= n)%N -> NoDup (visit n nx 0 count).
Proof.
  intros Hn Hc. apply NoDup_alt. intros i j x Hi Hj. unfold visit in *.
  apply list_lookup_fmap_Some in Hi as (a & -> & Ha). apply list_lookup_fmap_Some in Hj as (b & E & Hb).
  apply lookup_seq in Ha as [-> Ha], Hb as [-> Hb]. apply N2Nat.inj in E.
  pose proof (N.div_mod (nx + (0 + N.of_nat (0 + i))) n ltac:(lia)). pose proof (N.div_mod (nx + (0 + N.of_nat (0 + j))) n ltac:(lia)).
  set (a := ((nx + (0 + N.of_nat (0 + i))) / n)%N) in *. set (b := ((nx + (0 + N.of_nat (0 + j))) / n)%N) in *.
  destruct (N.lt_trichotomy a b) as [L|[L|L]]; [nia|rewrite L in *; lia|nia].
Qed.

Lemma visit_all n nx l : (l < n)%nat -> l ∈ visit (N.of_nat n) nx 0 n.
Proof.
  intros Hl. apply list_elem_of_fmap. remember (N.of_nat n) as N0 eqn:EN.
  exists (N.to_nat ((N.of_nat l + (N0 - nx mod N0)) mod N0)). assert (HN : (0 < N0)%N) by lia. pose proof (N.mod_lt nx N0 ltac:(lia)).
  pose proof (N.mod_lt (N.of_nat l + (N0 - nx mod N0)) N0 ltac:(lia)).
  split; [|apply elem_of_seq; revert H0; generalize ((N.of_nat l + (N0 - nx mod N0)) mod N0)%N; clear -EN; lia].
  rewrite N2Nat.id, N.add_0_l. rewrite N.Div0.add_mod_idemp_r, <- N.Div0.add_mod_idemp_l.
  replace (nx mod N0 + (N.of_nat l + (N0 - nx mod N0)))%N with (N.of_nat l + 1 * N0)%N by lia.
  rewrite N.Div0.mod_add, N.mod_small by lia. lia.
Qed.

Lemma pop_lanes_lookup ls qs l : NoDup ls ->
  pop_lanes ls qs !! l = (if decide (l ∈ ls) then tail <$> qs !! l else qs !! l).
Proof.
  revert qs. induction ls as [|l0 ls IH]; intros qs Hnd; [by rewrite decide_False by apply not_elem_of_nil|]. simpl.
  apply NoDup_cons in Hnd as [Hni Hnd]. unfold pop_lanes in *. rewrite IH by done. destruct (decide (l = l0)) as [->|Hne].
  - rewrite decide_False by done. rewrite decide_True by left. by rewrite list_lookup_alter_eq.
  - rewrite list_lookup_alter_ne by done. repeat case_decide; try done; rewrite elem_of_cons in *; naive_solver.
Qed.

Lemma sweep_order_visit n nx : sweep_order n nx = visit (N.of_nat n) nx 0 n.
Proof. apply list_fmap_ext. intros _ j _. by rewrite N.add_0_l. Qed.

Lemma pop_sweep qs nx : pop_lanes (sweep_order (length qs) nx) qs = tail <$> qs.
Proof.
  rewrite sweep_order_visit. apply list_eq. intros l. destruct (decide (l < length qs)%nat) as [Hl|Hl].
  - rewrite pop_lanes_lookup by (apply visit_NoDup; lia). rewrite decide_True by by apply visit_all. by rewrite list_lookup_fmap.
  - rewrite list_lookup_fmap, (lookup_ge_None_2 qs) by lia. destruct qs as [|q qs]; [done|].
    rewrite pop_lanes_lookup by (apply visit_NoDup; simpl; lia). rewrite (lookup_ge_None_2 (q :: qs)) by lia. by case_decide.
Qed.

(** * Refinement *)

Section refinement.
Context (k : N) (k_range : (1 <= k <= 63)%N).

Record gateway_rep (g : OrderGateway) (qs : list (list OrderRequest)) : Prop := {
  gr_lanes : Forall2 (ring_rep k) (lanes_ g) qs;
  gr_next : qs <> [] -> (next_lane_ g < vsize (lanes_ g))%N
}.

Lemma rep_length g qs : Forall2 (ring_rep k) (lanes_ g) qs -> length (lanes_ g) = length qs.
Proof. apply Forall2_length. Qed.

Lemma new_gateway_rep n : gateway_rep (new_gateway k n) (replicate (N.to_nat n) []).
Proof.
  split; simpl.
  - apply Forall2_replicate, new_ring_rep; lia.
  - intros Hne. unfold vsize. rewrite length_replicate. destruct (N.to_nat n) eqn:E; [done|lia].
Qed.

Lemma submit_rep g qs lane q rq : gateway_rep g qs -> qs !! N.to_nat lane = Some q ->
  exists g', submit k g lane rq = Some (bool_decide (N.of_nat (length q) < capacity k)%N, g') /\ next_lane_ g' = next_lane_ g /\
    gateway_rep g' (if bool_decide (N.of_nat (length q) < capacity k)%N then <[N.to_nat lane := q ++ [rq]]> qs else qs).
Proof.
  intros [Hl Hn] Hq. destruct (Forall2_lookup_r _ _ _ _ _ Hl Hq) as (r & Hr & Hrep). unfold submit, vget. rewrite Hr. simpl.
  destruct (try_push_rep k ltac:(lia) r q rq Hrep) as (r' & -> & Hrep'). simpl.
  rewrite vset_ok by (unfold vsize; apply lookup_lt_Some in Hr; lia). simpl. eexists. split; [done|]. split; [done|].
  case_bool_decide.
  - split; simpl; [by apply Forall2_insert|]. intros Hne. unfold vsize. rewrite length_insert. apply Hn. by intros ->.
  - split; simpl; [|intros Hne; unfold vsize; rewrite length_insert; by apply Hn].
    rewrite <- (list_insert_id qs (N.to_nat lane) q Hq). by apply Forall2_insert.
Qed.

Lemma all_lanes_empty_rep g qs : gateway_rep g qs -> all_lanes_empty g = bool_decide (Forall (fun q => q = []) qs).
Proof.
  intros [Hl _]. unfold all_lanes_empty. induction Hl as [|r q rs qs Hr Hl IH]; simpl; [done|].
  rewrite (ring_empty_rep k ltac:(lia) r q Hr), IH. repeat case_bool_decide; try done; rewrite Forall_cons in *; naive_solver.
Qed.

(** Each visit takes the head of its lane and hands it to the handler. *)
Lemma poll_loop_rep {H} (handler : H -> OrderRequest -> option H) n nx count i g qs h drained :
  n = vsize (lanes_ g) -> nx = next_lane_ g -> (0 < n)%N -> Forall2 (ring_rep k) (lanes_ g) qs -> NoDup (visit n nx i count) ->
  poll_loop k handler count n i g h drained = None /\ handle_all handler (heads (visit n nx i count) qs) h = None \/
  exists g' h', poll_loop k handler count n i g h drained = Some (g', h', (drained + N.of_nat (length (heads (visit n nx i count) qs)))%N) /\
    handle_all handler (heads (visit n nx i count) qs) h = Some h' /\ next_lane_ g' = nx /\
    Forall2 (ring_rep k) (lanes_ g') (pop_lanes (visit n nx i count) qs).
Proof.
  revert i g qs h drained. induction count as [|count IH]; intros i g qs h drained Hsz Hnx Hn Hl Hnd.
  { right. exists g, h. simpl. rewrite N.add_0_r. done. }
  rewrite visit_S in *. set (l0 := N.to_nat _) in *. apply NoDup_cons in Hnd as [Hni Hnd].
  assert (Hlt : (l0 < length (lanes_ g))%nat).
  { unfold l0. pose proof (N.mod_lt (nx + i) n ltac:(lia)). unfold vsize in *. lia. }
  destruct (lookup_lt_is_Some_2 (lanes_ g) l0 Hlt) as [r Hr]. destruct (Forall2_lookup_l _ _ _ _ _ Hl Hr) as (q & Hq & Hrep).
  destruct (try_pop_rep k ltac:(lia) r q Hrep) as (r' & Hpop & Hrep').
  cbn [poll_loop]. rewrite <- Hnx. unfold vget. fold l0. rewrite Hr. cbn [mbind option_bind]. rewrite Hpop. cbn [mbind option_bind].
  rewrite vset_ok by (unfold vsize in *; lia). cbn [mbind option_bind]. fold l0.
  set (g1 := mkGateway _ _). assert (Hsz1 : n = vsize (lanes_ g1)) by (unfold vsize, g1 in *; simpl; by rewrite length_insert).
  assert (Hl1 : Forall2 (ring_rep k) (lanes_ g1) (alter tail l0 qs)).
  { rewrite (alter_as_insert _ _ _ _ Hq). unfold g1. simpl. by apply Forall2_insert. }
  rewrite (heads_cons _ _ _ q Hq), <- (heads_alter _ l0) by done.
  destruct q as [|rq q]; cbn [head].
  - exact (IH (i + 1)%N g1 (alter tail l0 qs) h drained Hsz1 eq_refl Hn Hl1 Hnd).
  - cbn [handle_all]. destruct (handler h rq) as [h1|]; [|by left]. cbn [mbind option_bind].
    destruct (IH (i + 1)%N g1 (alter tail l0 qs) h1 (drained + 1)%N Hsz1 eq_refl Hn Hl1 Hnd) as [?|(g' & h' & E1 & E2 & E3 & E4)]; [by left|].
    right. exists g', h'. split_and!; [|done..]. rewrite E1. do 2 f_equal. cbn [length]. lia.
Qed.

Lemma poll_once_rep {H} (handler : H -> OrderRequest -> option H) g qs h : gateway_rep g qs ->
  let taken := sweep_heads qs (next_lane_ g) in
  poll_once k handler g h = None /\ handle_all handler taken h = None \/
  exists g' h', poll_once k handler g h = Some (N.of_nat (length taken), g', h') /\ handle_all handler taken h = Some h' /\
    next_lane_ g' = next_turn (length qs) (next_lane_ g) /\ gateway_rep g' (tail <$> qs).
Proof.
  intros [Hl Hn] taken. pose proof (rep_length _ _ Hl) as Hlen. unfold poll_once, next_turn, vsize. rewrite Hlen. unfold taken.
  destruct (decide (qs = [])) as [->|Hne].
  { right. exists g, h. simpl. apply length_zero_iff_nil in Hlen. destruct g; simpl in *. subst. done. }
  assert (Hpos : (0 < vsize (lanes_ g))%N) by (unfold vsize; rewrite Hlen; destruct qs; [done|simpl; lia]).
  assert (Ev : visit (N.of_nat (length qs)) (next_lane_ g) 0 (length qs) = sweep_order (length qs) (next_lane_ g)) by by rewrite sweep_order_visit.
  destruct (poll_loop_rep handler (N.of_nat (length qs)) (next_lane_ g) (length qs) 0 g qs h 0) as [[E1 E2]|(g' & h' & E1 & E2 & E3 & E4)];
    [unfold vsize; lia|done|unfold vsize in Hpos; lia|done|apply visit_NoDup; unfold vsize in Hpos; lia| |].
  - left. rewrite E1. rewrite Ev in E2. done.
  - right. rewrite E1. rewrite Ev in E2, E4 |- *. rewrite N.add_0_l. cbn [mbind option_bind].
    rewrite pop_sweep in E4. unfold vsize in Hpos. rewrite E3, decide_True by lia.
    destruct (N.ltb_spec 0 (N.of_nat (length qs))) as [Hlt|]; [|lia]. eexists _, h'. split_and!; [done..|].
    split; simpl; [done|]. intros _. unfold vsize. rewrite (rep_length _ _ E4), length_fmap. apply N.mod_lt. lia.
Qed.
End refinement.

(** * Sessions *)

Inductive GatewayCall := SubmitTo (lane : N) (request : OrderRequest) | PollOnce.
Inductive GatewayResult := Submitted (ok : bool) | Polled (drained : N).

Section sessions.
Context {H : Type} (handler : H -> OrderRequest -> option H).

Definition gateway_call (k : N) (c : GatewayCall) (g : OrderGateway) (h : H) : option (GatewayResult * OrderGateway * H) :=
  match c with
  | SubmitTo lane rq => '(ok, g1) ← submit k g lane rq; Some (Submitted ok, g1, h)
  | PollOnce => '(drained, g1, h1) ← poll_once k handler g h; Some (Polled drained, g1, h1)
  end.

Fixpoint gateway_run (k : N) (cs : list GatewayCall) (g : OrderGateway) (h : H) : option (list GatewayResult * OrderGateway * H) :=
  match cs with
  | [] => Some ([], g, h)
  | c :: cs' => '(r, g1, h1) ← gateway_call k c g h; '(rs, g2, h2) ← gateway_run k cs' g1 h1; Some (r :: rs, g2, h2)
  end.

(** The specification of a call: bounded queues, and the lane whose turn it is. *)
Definition spec_gateway_call (k : N) (c : GatewayCall) (s : list (list OrderRequest) * N) (h : H)
    : option (GatewayResult * (list (list OrderRequest) * N) * H) :=
  match c with
  | SubmitTo lane rq =>
      q ← s.1 !! N.to_nat lane;
      if decide (N.of_nat (length q) < capacity k)%N
      then Some (Submitted true, (<[N.to_nat lane := q ++ [rq]]> s.1, s.2), h)
      else Some (Submitted false, s, h)
  | PollOnce =>
      h1 ← handle_all handler (sweep_heads s.1 s.2) h;
      Some (Polled (N.of_nat (length (sweep_heads s.1 s.2))), (tail <$> s.1, next_turn (length s.1) s.2), h1)
  end.

Fixpoint spec_gateway_run (k : N) (cs : list GatewayCall) (s : list (list OrderRequest) * N) (h : H)
    : option (list GatewayResult * (list (list OrderRequest) * N) * H) :=
  match cs with
  | [] => Some ([], s, h)
  | c :: cs' => '(r, s1, h1) ← spec_gateway_call k c s h; '(rs, s2, h2) ← spec_gateway_run k cs' s1 h1; Some (r :: rs, s2, h2)
  end.

Definition lane_ok (n : N) (c : GatewayCall) : Prop := match c with SubmitTo lane _ => (lane < n)%N | PollOnce => True end.

(** The relation that a call keeps, and what it shows. *)
Definition same_outcome (k : N) (oc : option (GatewayResult * OrderGateway * H)) (os : option (GatewayResult * (list (list OrderRequest) * N) * H)) : Prop :=
  match oc, os with
  | Some (r, g, h), Some (r', (qs, nx), h') => r = r' /\ h = h' /\ next_lane_ g = nx /\ gateway_rep k g qs
  | None, None => True
  | _, _ => False
  end.

Lemma gateway_call_sim k c g qs nx h : (1 <= k <= 63)%N -> gateway_rep k g qs -> next_lane_ g = nx -> lane_ok (N.of_nat (length qs)) c ->
  same_outcome k (gateway_call k c g h) (spec_gateway_call k c (qs, nx) h).
Proof.
  intros Hk Hg <- Hc. destruct c as [lane rq|]; simpl in *.
  - destruct (lookup_lt_is_Some_2 qs (N.to_nat lane)) as [q Hq]; [lia|]. rewrite Hq. cbn [mbind option_bind].
    destruct (submit_rep k Hk g qs lane q rq Hg Hq) as (g' & -> & Hn & Hrep). cbn [mbind option_bind].
    case_bool_decide; [rewrite decide_True by done|rewrite decide_False by done]; done.
  - destruct (poll_once_rep k Hk handler g qs h Hg) as [[-> ->]|(g' & h' & -> & -> & ? & ?)]; done.
Qed.

Lemma spec_call_length k c s h r s' h' : spec_gateway_call k c s h = Some (r, s', h') -> length s'.1 = length s.1.
Proof.
  destruct c; simpl; intros E; simplify_option_eq; try done; [apply length_insert|apply length_fmap].
Qed.

Lemma gateway_run_sim k cs g qs nx h : (1 <= k <= 63)%N -> gateway_rep k g qs -> next_lane_ g = nx ->
  Forall (lane_ok (N.of_nat (length qs))) cs ->
  match gateway_run k cs g h, spec_gateway_run k cs (qs, nx) h with
  | Some (rs, g', h'), Some (rs', (qs', nx'), h'') => rs = rs' /\ h' = h'' /\ next_lane_ g' = nx' /\ gateway_rep k g' qs' /\ length qs' = length qs
  | None, None => True
  | _, _ => False
  end.
Proof.
  intros Hk. revert g qs nx h. induction cs as [|c cs IH]; intros g qs nx h Hg Hnx Hcs; [done|].
  apply Forall_cons in Hcs as [Hc Hcs]. cbn [gateway_run spec_gateway_run].
  pose proof (gateway_call_sim k c g qs nx h Hk Hg Hnx Hc) as Hsim. unfold same_outcome in Hsim.
  destruct (gateway_call k c g h) as [[[r g1] h1]|]; destruct (spec_gateway_call k c (qs, nx) h) as [[[r' [qs1 nx1]] h1']|] eqn:Es; try done.
  destruct Hsim as (<- & <- & Hnx1 & Hg1). pose proof (spec_call_length _ _ _ _ _ _ _ Es) as Hlen. simpl in Hlen. cbn [mbind option_bind].
  specialize (IH g1 qs1 nx1 h1 Hg1 Hnx1). rewrite Hlen in IH. specialize (IH Hcs).
  destruct (gateway_run k cs g1 h1) as [[[rs g2] h2]|]; destruct (spec_gateway_run k cs (qs1, nx1) h1) as [[[rs' [qs2 nx2]] h2']|]; try done.
  cbn. destruct IH as (<- & <- & ? & ? & ?). done.
Qed.
End sessions.

(** * Delivery, lane by lane *)

(** The handler that records what it is given. *)
Definition collect (out : list OrderRequest) (rq : OrderRequest) : option (list OrderRequest) := Some (out ++ [rq]).

Section delivery.
(** [owner] tells which lane a request was sent on. *)
Context (owner : OrderRequest -> N).

Definition from_lane (l : nat) (out : list OrderRequest) : list OrderRequest := filter (fun rq => owner rq = N.of_nat l) out.

(** The requests a session's lane [l] accepted, in order. *)
Fixpoint lane_accepted (l : nat) (cs : list GatewayCall) (rs : list GatewayResult) : list OrderRequest :=
  match cs, rs with
  | SubmitTo lane rq :: cs', Submitted true :: rs' => if decide (N.to_nat lane = l) then rq :: lane_accepted l cs' rs' else lane_accepted l cs' rs'
  | _ :: cs', _ :: rs' => lane_accepted l cs' rs'
  | _, _ => []
  end.

Fixpoint polls (cs : list GatewayCall) : nat :=
  match cs with [] => O | PollOnce :: cs' => S (polls cs') | SubmitTo _ _ :: cs' => polls cs' end.

Definition own_lane (n : N) (c : GatewayCall) : Prop := match c with SubmitTo lane rq => (lane < n)%N /\ owner rq = lane | PollOnce => True end.

(** Every request waits in the lane of its owner. *)
Definition owned (qs : list (list OrderRequest)) : Prop := forall l q, qs !! l = Some q -> Forall (fun rq => owner rq = N.of_nat l) q.

Lemma from_lane_app l out1 out2 : from_lane l (out1 ++ out2) = from_lane l out1 ++ from_lane l out2.
Proof. apply filter_app. Qed.

Lemma handle_all_collect rs out : handle_all collect rs out = Some (out ++ rs).
Proof. revert out. induction rs as [|r rs IH]; intros out; simpl; [by rewrite app_nil_r|]. rewrite IH. by rewrite <- app_assoc. Qed.

Lemma from_lane_heads l ls qs q : owned qs -> NoDup ls -> qs !! l = Some q ->
  from_lane l (heads ls qs) = if decide (l ∈ ls) then option_list (head q) else [].
Proof.
  intros Ho. induction ls as [|j ls IH]; intros Hnd Hq; [by rewrite decide_False by apply not_elem_of_nil|].
  apply NoDup_cons in Hnd as [Hni Hnd]. specialize (IH Hnd Hq). destruct (qs !! j) as [qj|] eqn:Hj.
  - rewrite (heads_cons _ _ _ _ Hj). destruct (decide (l = j)) as [<-|Hne].
    + replace qj with q by congruence. rewrite (decide_True (P := l ∈ l :: ls)) by left. rewrite decide_False in IH by done.
      destruct q as [|r q]; simpl; [done|]. pose proof (Ho l _ Hq) as Hf. apply Forall_cons in Hf as [Hr _].
      unfold from_lane in *. by rewrite filter_cons_True, IH.
    + replace (from_lane l _) with (from_lane l (heads ls qs)).
      * rewrite IH. repeat case_decide; try done; rewrite elem_of_cons in *; naive_solver.
      * destruct qj as [|r qj]; simpl; [done|]. pose proof (Ho j _ Hj) as Hf. apply Forall_cons in Hf as [Hr _].
        unfold from_lane. rewrite filter_cons_False; [done|]. lia.
  - assert (heads (j :: ls) qs = heads ls qs) as -> by (unfold heads; cbn; by rewrite Hj). rewrite IH.
    destruct (decide (l = j)) as [<-|Hne]; [congruence|]. repeat case_decide; try done; rewrite elem_of_cons in *; naive_solver.
Qed.

Lemma owned_tail qs : owned qs -> owned (tail <$> qs).
Proof. intros Ho l q Hl. apply list_lookup_fmap_Some in Hl as (q0 & -> & Hq0). destruct q0; [done|]. pose proof (Ho _ _ Hq0) as Hf. by apply Forall_cons in Hf as [_ Hf]. Qed.

Lemma owned_push qs lane q rq : owned qs -> qs !! N.to_nat lane = Some q -> owner rq = lane -> owned (<[N.to_nat lane := q ++ [rq]]> qs).
Proof.
  intros Ho Hq Hr l q' Hl. apply list_lookup_insert_Some in Hl as [(<- & <- & _)|[_ Hl]]; [|by apply Ho].
  apply Forall_app. split; [by apply Ho|]. constructor; [lia|done].
Qed.

(** What calls with [sweeps] polls hand out of lane [l], where [q] waits and
    [added] is accepted: a prefix [d] of both, of at least one request a sweep. *)
Definition progress (l : nat) (q added q' out out' : list OrderRequest) (sweeps : nat) : Prop :=
  exists d, q ++ added = d ++ q' /\ from_lane l out' = from_lane l out ++ d /\ (sweeps `min` length q <= length d)%nat.

Lemma progress_refl l q out : progress l q [] q out out 0.
Proof. exists []. rewrite !app_nil_r. done. Qed.

Lemma progress_trans l q a q1 b q2 out out1 out2 s1 s2 :
  progress l q a q1 out out1 s1 -> progress l q1 b q2 out1 out2 s2 -> progress l q (a ++ b) q2 out out2 (s1 + s2).
Proof.
  intros (d1 & E1 & F1 & L1) (d2 & E2 & F2 & L2). exists (d1 ++ d2).
  split_and!; [by rewrite app_assoc, E1, <- app_assoc, E2, app_assoc|by rewrite F2, F1, app_assoc|].
  apply (f_equal length) in E1. rewrite !length_app in *. lia.
Qed.

Lemma sweep_from_lane l qs nx q : owned qs -> qs !! l = Some q -> from_lane l (sweep_heads qs nx) = option_list (head q).
Proof.
  intros Ho Hq. change (sweep_heads qs nx) with (heads (sweep_order (length qs) nx) qs). rewrite sweep_order_visit.
  apply lookup_lt_Some in Hq as Hlt. rewrite (from_lane_heads l _ qs q Ho) by (done || apply visit_NoDup; lia).
  by rewrite decide_True by by apply visit_all.
Qed.

Lemma call_progress k c qs nx out : owned qs -> own_lane (N.of_nat (length qs)) c ->
  exists r qs1 nx1 out1, spec_gateway_call collect k c (qs, nx) out = Some (r, (qs1, nx1), out1) /\ owned qs1 /\
    forall l q, qs !! l = Some q -> exists q1, qs1 !! l = Some q1 /\ progress l q (lane_accepted l [c] [r]) q1 out out1 (polls [c]).
Proof.
  intros Ho Hc. destruct c as [lane rq|]; simpl.
  - destruct Hc as [Hlane Hown]. destruct (lookup_lt_is_Some_2 qs (N.to_nat lane)) as [q0 Hq0]; [lia|].
    rewrite Hq0. cbn [mbind option_bind]. case_decide as Hroom.
    + eexists _, _, nx, out. split_and!; [done|by apply owned_push|]. intros l q Hq. destruct (decide (N.to_nat lane = l)) as [<-|Hne].
      * exists (q0 ++ [rq]). rewrite list_lookup_insert_eq by lia. split; [done|]. assert (q0 = q) as <- by congruence.
        exists []. rewrite app_nil_r. done.
      * exists q. rewrite list_lookup_insert_ne by done. split; [done|]. apply progress_refl.
    + eexists _, qs, nx, out. split_and!; [done..|]. intros l q Hq. exists q. split; [done|]. apply progress_refl.
  - rewrite handle_all_collect. cbn [mbind option_bind]. eexists _, _, _, _. split_and!; [done|by apply owned_tail|].
    intros l q Hq. exists (tail q). split; [by rewrite list_lookup_fmap, Hq|]. exists (option_list (head q)).
    split_and!; [rewrite app_nil_r; by destruct q|by rewrite from_lane_app, (sweep_from_lane l qs nx q Ho Hq)|destruct q; simpl; lia].
Qed.

Lemma accepted_cons l c cs r rs : lane_accepted l (c :: cs) (r :: rs) = lane_accepted l [c] [r] ++ lane_accepted l cs rs.
Proof. destruct c, r as [[]|]; simpl; try done. by case_decide. Qed.

Lemma polls_cons c cs : polls (c :: cs) = (polls [c] + polls cs)%nat.
Proof. by destruct c. Qed.

Lemma run_progress k cs qs nx out : owned qs -> Forall (own_lane (N.of_nat (length qs))) cs ->
  exists rs qs' nx' out', spec_gateway_run collect k cs (qs, nx) out = Some (rs, (qs', nx'), out') /\ length rs = length cs /\
    owned qs' /\ length qs' = length qs /\
    forall l q, qs !! l = Some q -> exists q', qs' !! l = Some q' /\ progress l q (lane_accepted l cs rs) q' out out' (polls cs).
Proof.
  revert qs nx out. induction cs as [|c cs IH]; intros qs nx out Ho Hcs.
  { exists [], qs, nx, out. split_and!; try done. intros l q Hq. exists q. split; [done|]. apply progress_refl. }
  apply Forall_cons in Hcs as [Hc Hcs]. destruct (call_progress k c qs nx out Ho Hc) as (r & qs1 & nx1 & out1 & E & Ho1 & Hp1).
  pose proof (spec_call_length _ _ _ _ _ _ _ _ E) as Hlen. simpl in Hlen.
  destruct (IH qs1 nx1 out1 Ho1) as (rs & qs' & nx' & out' & E' & Hrs & Ho' & Hl' & Hp); [by rewrite Hlen|].
  exists (r :: rs), qs', nx', out'. cbn [spec_gateway_run]. rewrite E. cbn [mbind option_bind]. rewrite E'.
  split_and!; [done|simpl; lia|done|lia|]. intros l q Hq. destruct (Hp1 l q Hq) as (q1 & Hq1 & P1). destruct (Hp l q1 Hq1) as (q' & Hq' & P2).
  exists q'. split; [done|]. rewrite accepted_cons, polls_cons. by apply (progress_trans _ _ _ q1 _ _ _ out1).
Qed.

End delivery.

(** C23. A session of [submit] and [poll_once] calls on a new gateway, with any
    handler, gives the results and leaves the handler in the state of a list of
    bounded FIFO queues of which every sweep takes the heads in round-robin
    order, one lane further each time; it fails only when the handler fails,
    and [all_lanes_empty] tells whether every queue is empty. *)
Theorem gateway_session_refines {H} (handler : H -> OrderRequest -> option H) (k n : N) (cs : list GatewayCall) (h : H) :
  (1 <= k <= 63)%N -> Forall (lane_ok n) cs ->
  (fun '(rs, g, h1) => (rs, lane_count g, next_lane_ g, all_lanes_empty g, h1)) <$> gateway_run handler k cs (new_gateway k n) h =
  (fun '(rs, (qs, next), h1) => (rs, n, next, bool_decide (Forall (fun q => q = []) qs), h1)) <$>
    spec_gateway_run handler k cs (replicate (N.to_nat n) [], 0%N) h.
Proof.
  intros Hk Hcs. pose proof (new_gateway_rep k Hk n) as Hg.
  assert (Hlen : N.of_nat (length (replicate (N.to_nat n) ([] : list OrderRequest))) = n) by (rewrite length_replicate; lia).
  pose proof (gateway_run_sim handler k cs _ _ 0%N h Hk Hg eq_refl) as Hsim. rewrite Hlen in Hsim. specialize (Hsim Hcs).
  destruct (gateway_run handler k cs (new_gateway k n) h) as [[[rs g] h1]|];
    destruct (spec_gateway_run handler k cs _ h) as [[[rs' [qs nx]] h1']|]; try done.
  destruct Hsim as (<- & <- & <- & Hrep & Hl). cbn. do 5 f_equal; [|by apply all_lanes_empty_rep with (k := k)].
  unfold lane_count, vsize. rewrite (rep_length k g qs (gr_lanes _ _ _ Hrep)), Hl, length_replicate. lia.
Qed.

Definition sample_request (id lane : N) : OrderRequest := mkRequest id lane kNoParticipant Buy Limit 100 10 GTC.
Definition sample_calls : list GatewayCall :=
  [SubmitTo 0 (sample_request 1 0); SubmitTo 0 (sample_request 2 0); SubmitTo 0 (sample_request 3 0); SubmitTo 1 (sample_request 4 1);
   PollOnce; SubmitTo 1 (sample_request 5 1); PollOnce; PollOnce].

Lemma gateway_session_refines_witness :
  (1 <= 2 <= 63)%N /\ Forall (lane_ok 2) sample_calls /\
  (fun '(rs, g, h1) => (rs, lane_count g, next_lane_ g, all_lanes_empty g, h1)) <$> gateway_run collect 2 sample_calls (new_gateway 2 2) [] =
  (fun '(rs, (qs, next), h1) => (rs, 2%N, next, bool_decide (Forall (fun q => q = []) qs), h1)) <$>
    spec_gateway_run collect 2 sample_calls (replicate (N.to_nat 2) [], 0%N) [].
Proof. split; [lia|]. split; [repeat constructor|]. apply gateway_session_refines; [lia|repeat constructor]. Defined.

Lemma gateway_run_app {H} (handler : H -> OrderRequest -> option H) k cs1 cs2 g h :
  gateway_run handler k (cs1 ++ cs2) g h =
  '(rs1, g1, h1) ← gateway_run handler k cs1 g h; '(rs2, g2, h2) ← gateway_run handler k cs2 g1 h1; Some (rs1 ++ rs2, g2, h2).
Proof.
  revert g h. induction cs1 as [|c cs1 IH]; intros g h; simpl; [by destruct (gateway_run handler k cs2 g h) as [[[? ?] ?]|]|].
  destruct (gateway_call handler k c g h) as [[[r g1] h1]|]; [|done]. simpl. rewrite IH.
  destruct (gateway_run handler k cs1 g1 h1) as [[[rs1 g2] h2]|]; [|done]. simpl.
  by destruct (gateway_run handler k cs2 g2 h2) as [[[? ?] ?]|].
Qed.

Lemma own_lane_ok owner n c : own_lane owner n c -> lane_ok n c.
Proof. destruct c; [by intros []|done]. Qed.

(** [run_progress] on the gateway itself. *)
Lemma gateway_progress owner k cs g qs out : (1 <= k <= 63)%N -> gateway_rep k g qs -> owned owner qs ->
  Forall (own_lane owner (N.of_nat (length qs))) cs ->
  exists rs g' qs' out', gateway_run collect k cs g out = Some (rs, g', out') /\ length rs = length cs /\ gateway_rep k g' qs' /\
    owned owner qs' /\ length qs' = length qs /\
    forall l q, qs !! l = Some q -> exists q', qs' !! l = Some q' /\ progress owner l q (lane_accepted l cs rs) q' out out' (polls cs).
Proof.
  intros Hk Hg Ho Hcs. destruct (run_progress owner k cs qs (next_lane_ g) out Ho Hcs) as (rs & qs' & nx' & out' & E & Hrs & Ho' & Hl & Hp).
  pose proof (gateway_run_sim collect k cs g qs _ out Hk Hg eq_refl (Forall_impl _ _ _ Hcs (own_lane_ok owner _))) as Hsim.
  rewrite E in Hsim. destruct (gateway_run collect k cs g out) as [[[rs0 g'] out0]|] eqn:Eg; [|done].
  destruct Hsim as (-> & -> & _ & Hg' & _). exists rs, g', qs', out'. done.
Qed.

(** C24. No lane is starved and no request is lost, duplicated or reordered: when
    every request names the lane it is sent on ([owner]), what a session hands
    to the handler from a lane is a prefix of what the lane accepted, and every
    request accepted before the last [capacity] sweeps has been handed over. *)
Theorem gateway_delivery (owner : OrderRequest -> N) (k n : N) (before after : list GatewayCall) (l : nat) :
  (1 <= k <= 63)%N -> Forall (own_lane owner n) (before ++ after) -> (N.of_nat l < n)%N ->
  exists rs1 rs2 g out, gateway_run collect k (before ++ after) (new_gateway k n) [] = Some (rs1 ++ rs2, g, out) /\
    length rs1 = length before /\
    from_lane owner l out `prefix_of` lane_accepted l before rs1 ++ lane_accepted l after rs2 /\
    ((capacity k <= N.of_nat (polls after))%N -> lane_accepted l before rs1 `prefix_of` from_lane owner l out).
Proof.
  intros Hk Hcs Hl. apply Forall_app in Hcs as [Hc1 Hc2]. pose proof (new_gateway_rep k Hk n) as Hg.
  set (qs0 := replicate (N.to_nat n) ([] : list OrderRequest)) in *.
  assert (Hlen : N.of_nat (length qs0) = n) by (unfold qs0; rewrite length_replicate; lia).
  assert (Ho : owned owner qs0) by (intros j q Hj; apply lookup_replicate in Hj as [-> _]; constructor).
  destruct (gateway_progress owner k before (new_gateway k n) qs0 [] Hk Hg Ho) as (rs1 & g1 & qs1 & out1 & E1 & Hr1 & Hg1 & Ho1 & Hl1 & P1); [by rewrite Hlen|].
  destruct (gateway_progress owner k after g1 qs1 out1 Hk Hg1 Ho1) as (rs2 & g2 & qs2 & out2 & E2 & Hr2 & Hg2 & Ho2 & Hl2 & P2); [by rewrite Hl1, Hlen|].
  exists rs1, rs2, g2, out2. rewrite gateway_run_app, E1. simpl. rewrite E2. split_and!; [done..| |].
  all: destruct (P1 l []) as (q1 & Hq1 & D1); [apply lookup_replicate; split; [done|lia]|]; destruct (P2 l q1 Hq1) as (q2 & Hq2 & D2).
  - destruct (progress_trans owner l _ _ _ _ _ _ _ _ _ _ D1 D2) as (d & Ed & Eo & _). simpl in Ed, Eo. rewrite Eo, Ed. by apply prefix_app_r.
  - intros Hp. destruct D1 as (d1 & Ed1 & Eo1 & _). destruct D2 as (d2 & Ed2 & Eo2 & Hd2). simpl in Ed1, Eo1.
    destruct (Forall2_lookup_r _ _ _ _ _ (gr_lanes _ _ _ Hg1) Hq1) as (r & _ & Hrep). pose proof (rep_capacity k ltac:(lia) r q1 Hrep) as Hcap.
    rewrite Eo2, Eo1, Ed1. apply prefix_app. destruct (prefix_weak_total q1 d2 (q1 ++ lane_accepted l after rs2)) as [Hpre|Hpre];
      [by apply prefix_app_r|rewrite Ed2; by apply prefix_app_r|done|].
    apply prefix_length_eq in Hpre; [by rewrite Hpre|]. lia.
Qed.

Lemma gateway_delivery_witness :
  (1 <= 1 <= 63)%N /\ Forall (own_lane rq_symbol 2) ([SubmitTo 0 (sample_request 1 0); SubmitTo 1 (sample_request 2 1); SubmitTo 0 (sample_request 3 0)] ++ [PollOnce]) /\ (N.of_nat 0 < 2)%N /\
  exists rs1 rs2 g out, gateway_run collect 1 ([SubmitTo 0 (sample_request 1 0); SubmitTo 1 (sample_request 2 1); SubmitTo 0 (sample_request 3 0)] ++ [PollOnce]) (new_gateway 1 2) [] = Some (rs1 ++ rs2, g, out) /\
    length rs1 = length [SubmitTo 0 (sample_request 1 0); SubmitTo 1 (sample_request 2 1); SubmitTo 0 (sample_request 3 0)] /\
    from_lane rq_symbol 0 out `prefix_of` lane_accepted 0 [SubmitTo 0 (sample_request 1 0); SubmitTo 1 (sample_request 2 1); SubmitTo 0 (sample_request 3 0)] rs1 ++ lane_accepted 0 [PollOnce] rs2 /\
    ((capacity 1 <= N.of_nat (polls [PollOnce]))%N -> lane_accepted 0 [SubmitTo 0 (sample_request 1 0); SubmitTo 1 (sample_request 2 1); SubmitTo 0 (sample_request 3 0)] rs1 `prefix_of` from_lane rq_symbol 0 out).
Proof. split; [lia|]. split; [repeat constructor|]. split; [lia|]. apply gateway_delivery; [lia|repeat constructor|lia]. Defined.
