(* ===== verification/Text.v ===== *)
(** Text as the program reads and writes it: characters, decimal numbers
    ([std::from_chars] and the integer replacement fields of [std::format]),
    and the padding of [std::format].

    Text is [list ascii].  [std::from_chars] for a type of [w] bits reads the
    longest run of digits (with a minus sign before it for a signed type) and
    leaves the rest; a value that the type cannot hold is an error. *)

From Stdlib Require Import Ascii String.
From S2P Require Import Prelude.

Abbreviation text := (list ascii) (only parsing).

#[export] Instance ascii_eq_dec : EqDecision ascii := ascii_dec.

(** A string literal. *)
Definition lit (s : string) : text := list_ascii_of_string s.

Definition newline : ascii := "010"%char.
Definition carriage_return : ascii := "013"%char.
Definition nul : ascii := "000"%char.

(** [std::isdigit]. *)
Definition isdigit (c : ascii) : bool := (48 <=? N_of_ascii c)%N && (N_of_ascii c <=? 57)%N.

Definition digit_value (c : ascii) : N := (N_of_ascii c - 48)%N.
Definition digit_char (d : N) : ascii := ascii_of_N (48 + d).

Definition digits_value (ds : text) : N := foldl (fun acc c => (10 * acc + digit_value c)%N) 0%N ds.

(** ** Printing *)

Fixpoint print_loop (fuel : nat) (n : N) (acc : text) : text :=
  match fuel with
  | O => acc
  | S fuel' =>
      let acc1 := digit_char (n mod 10) :: acc in
      if (n / 10 =? 0)%N then acc1 else print_loop fuel' (n / 10) acc1
  end.

(** As many rounds as [n] has binary digits are enough. *)
Definition print_N (n : N) : text := print_loop (S (N.size_nat n)) n [].

Definition print_Z (z : Z) : text := if (z <? 0)%Z then "-"%char :: print_N (Z.to_N (- z)) else print_N (Z.to_N z).

(** [{:>w}] and [{:<w}]. *)
Definition pad_left (w : nat) (s : text) : text := replicate (w - length s) " "%char ++ s.
Definition pad_right (w : nat) (s : text) : text := s ++ replicate (w - length s) " "%char.

(** ** Cutting *)

(** The fields of a line between its delimiters, and the lines of a text. *)
Fixpoint fields_of (delim : ascii) (line : text) : list text :=
  match line with
  | [] => [[]]
  | c :: line' =>
      if decide (c = delim) then [] :: fields_of delim line'
      else match fields_of delim line' with f :: fs => (c :: f) :: fs | [] => [[c]] end
  end.

Fixpoint lines_of (s : text) : list text :=
  match s with
  | [] => []
  | c :: s' =>
      if decide (c = newline) then [] :: lines_of s'
      else match lines_of s' with l :: ls => (c :: l) :: ls | [] => [[c]] end
  end.

(** ** [std::from_chars] *)

Inductive IntType := UInt (width : N) | SInt (width : N).

Definition representable (ty : IntType) (z : Z) : bool :=
  match ty with
  | UInt w => (0 <=? z)%Z && (z <? 2 ^ Z.of_N w)%Z
  | SInt w => (- 2 ^ (Z.of_N w - 1) <=? z)%Z && (z <? 2 ^ (Z.of_N w - 1))%Z
  end.

Inductive errc := invalid_argument | result_out_of_range.

Fixpoint take_digits (s : text) : text * text :=
  match s with
  | c :: s' => if isdigit c then let '(ds, rest) := take_digits s' in (c :: ds, rest) else ([], s)
  | [] => ([], [])
  end.

(** The value and where reading stopped. *)
Definition from_chars (ty : IntType) (s : text) : errc + Z * text :=
  let '(negative, s1) :=
    match ty, s with
    | SInt _, c :: s' => if bool_decide (c = "-"%char) then (true, s') else (false, s)
    | _, _ => (false, s)
    end in
  let '(ds, rest) := take_digits s1 in
  match ds with
  | [] => inl invalid_argument
  | _ =>
      let v := if (negative : bool) then (- Z.of_N (digits_value ds))%Z else Z.of_N (digits_value ds) in
      if representable ty v then inr (v, rest) else inl result_out_of_range
  end.

(** * Facts *)

Lemma digit_char_digit d : (d < 10)%N -> isdigit (digit_char d) = true /\ digit_value (digit_char d) = d.
Proof.
  intros Hd. unfold isdigit, digit_value, digit_char. rewrite N_ascii_embedding by lia.
  rewrite (proj2 (N.leb_le _ _)), (proj2 (N.leb_le _ _)) by lia. split; [done|lia].
Qed.

Definition all_digits (s : text) : Prop := Forall (fun c => isdigit c = true) s.

Lemma digits_value_app ds1 ds2 :
  digits_value (ds1 ++ ds2) = (digits_value ds1 * 10 ^ N.of_nat (length ds2) + digits_value ds2)%N.
Proof.
  unfold digits_value. rewrite foldl_app. generalize (foldl (fun acc c => (10 * acc + digit_value c)%N) 0%N ds1) as a.
  assert (H : forall ds a b, foldl (fun acc c => (10 * acc + digit_value c)%N) (a + b)%N ds =
    (a * 10 ^ N.of_nat (length ds) + foldl (fun acc c => (10 * acc + digit_value c)%N) b ds)%N).
  { induction ds as [|c ds IH]; intros a b; simpl foldl; [simpl; lia|].
    replace (10 * (a + b) + digit_value c)%N with (10 * a + (10 * b + digit_value c))%N by lia.
    rewrite IH. simpl length. rewrite Nat2N.inj_succ, N.pow_succ_r' . lia. }
  intros a. rewrite <- (N.add_0_r a) at 1. apply H.
Qed.

(** The loop prints every number below [10 ^ fuel]. *)
Lemma print_loop_spec fuel n acc : (n < 10 ^ N.of_nat fuel)%N ->
  exists ds, print_loop fuel n acc = ds ++ acc /\ all_digits ds /\ digits_value ds = n /\ (fuel <> O -> ds <> []).
Proof.
  revert n acc. induction fuel as [|fuel IH]; intros n acc Hn.
  { exists []. simpl in *. split_and!; [done|constructor|unfold digits_value; simpl; lia|done]. }
  rewrite Nat2N.inj_succ, N.pow_succ_r' in Hn. cbn [print_loop].
  pose proof (N.mod_lt n 10 ltac:(lia)) as Hm. destruct (digit_char_digit (n mod 10) Hm) as [Hd Hv].
  pose proof (N.div_mod n 10 ltac:(lia)) as Hdm. destruct (N.eqb_spec (n / 10) 0) as [Hz|Hz].
  - exists [digit_char (n mod 10)]. split_and!; [done|by repeat constructor| |done].
    unfold digits_value. cbn [foldl]. rewrite Hv. lia.
  - destruct (IH (n / 10)%N (digit_char (n mod 10) :: acc)) as (ds & -> & Hall & Hval & Hne).
    { apply N.Div0.div_lt_upper_bound. lia. }
    exists (ds ++ [digit_char (n mod 10)]). split_and!; [by rewrite <- app_assoc|apply Forall_app; split; [done|by repeat constructor]| |by destruct ds].
    rewrite digits_value_app, Hval. simpl length. change (digits_value [digit_char (n mod 10)]) with (0 + digit_value (digit_char (n mod 10)))%N.
    rewrite Hv. simpl. lia.
Qed.

Lemma size_nat_pow n : (n < 10 ^ N.of_nat (S (N.size_nat n)))%N.
Proof.
  apply N.lt_le_trans with (2 ^ N.size n)%N; [apply N.size_gt|].
  apply N.le_trans with (10 ^ N.size n)%N; [apply N.pow_le_mono_l; lia|].
  apply N.pow_le_mono_r; [lia|]. destruct n as [|p]; simpl; [lia|]. induction p; simpl; lia.
Qed.

Lemma print_N_spec n : all_digits (print_N n) /\ digits_value (print_N n) = n /\ print_N n <> [].
Proof.
  destruct (print_loop_spec (S (N.size_nat n)) n [] (size_nat_pow n)) as (ds & Hp & Hall & Hv & Hne).
  unfold print_N. rewrite Hp, app_nil_r. split_and!; [done|done|by apply Hne].
Qed.

Definition no_digit (s : text) : Prop := match s with c :: _ => isdigit c = false | [] => True end.

Lemma take_digits_app ds rest : all_digits ds -> no_digit rest -> take_digits (ds ++ rest) = (ds, rest).
Proof.
  induction 1 as [|c ds Hc Hds IH]; intros Hr; simpl.
  - destruct rest as [|c rest]; simpl in *; [done|]. by rewrite Hr.
  - rewrite Hc, IH by done. done.
Qed.

Lemma digit_not_minus c : isdigit c = true -> c <> "-"%char.
Proof. by intros H ->. Qed.

(** Reading back what is printed, whatever follows. *)
Lemma from_chars_print_N ty n rest : representable ty (Z.of_N n) = true -> no_digit rest ->
  from_chars ty (print_N n ++ rest) = inr (Z.of_N n, rest).
Proof.
  intros Hr Hrest. destruct (print_N_spec n) as (Hall & Hv & Hne). unfold from_chars.
  assert (E : match ty, print_N n ++ rest with
    | SInt _, c :: s' => if bool_decide (c = "-"%char) then (true, s') else (false, print_N n ++ rest)
    | _, _ => (false, print_N n ++ rest) end = (false, print_N n ++ rest)).
  { destruct ty; [done|]. destruct (print_N n) as [|c ds]; [done|]. simpl. apply Forall_cons in Hall as [Hc _].
    by rewrite bool_decide_eq_false_2 by by apply digit_not_minus. }
  rewrite E, (take_digits_app _ _ Hall Hrest). destruct (print_N n) as [|c ds]; [done|]. by rewrite Hv, Hr.
Qed.

Lemma from_chars_print_Z w z rest : representable (SInt w) z = true -> no_digit rest ->
  from_chars (SInt w) (print_Z z ++ rest) = inr (z, rest).
Proof.
  intros Hr Hrest. unfold print_Z. destruct (Z.ltb_spec z 0) as [Hz|Hz].
  - destruct (print_N_spec (Z.to_N (- z))) as (Hall & Hv & Hne). unfold from_chars. cbn [app].
    rewrite bool_decide_eq_true_2 by done. rewrite (take_digits_app _ _ Hall Hrest).
    destruct (print_N (Z.to_N (- z))) as [|c ds]; [done|]. rewrite Hv. cbn zeta.
    replace (- Z.of_N (Z.to_N (- z)))%Z with z by lia. by rewrite Hr.
  - rewrite from_chars_print_N; [by rewrite Z2N.id by lia| by rewrite Z2N.id by lia|done].
Qed.

(** The characters of a printed number. *)
Definition number_char (c : ascii) : Prop := isdigit c = true \/ c = "-"%char.

Lemma print_N_chars n : Forall number_char (print_N n).
Proof. eapply Forall_impl; [apply print_N_spec|]. by left. Qed.

Lemma print_Z_chars z : Forall number_char (print_Z z).
Proof. unfold print_Z. destruct (z <? 0)%Z; [constructor; [by right|]|]; apply print_N_chars. Qed.

(** ** Cutting *)

Lemma fields_none delim s : delim ∉ s -> fields_of delim s = [s].
Proof.
  induction s as [|c s IH]; intros Hn; simpl; [done|]. apply not_elem_of_cons in Hn as [Hc Hn]. rewrite decide_False by done. by rewrite IH.
Qed.

Lemma fields_app delim a b : delim ∉ a -> fields_of delim (a ++ delim :: b) = a :: fields_of delim b.
Proof.
  induction a as [|c a IH]; intros Hn; simpl; [by rewrite decide_True|]. apply not_elem_of_cons in Hn as [Hc Hn].
  rewrite decide_False by done. by rewrite IH.
Qed.

Lemma lines_none s : newline ∉ s -> s <> [] -> lines_of s = [s].
Proof.
  induction s as [|c s IH]; intros Hn Hne; simpl; [done|]. apply not_elem_of_cons in Hn as [Hc Hn]. rewrite decide_False by done.
  destruct s as [|c' s]; [done|]. by rewrite IH.
Qed.

Lemma lines_app a b : newline ∉ a -> lines_of (a ++ newline :: b) = a :: lines_of b.
Proof.
  induction a as [|c a IH]; intros Hn; simpl; [done|]. apply not_elem_of_cons in Hn as [Hc Hn].
  rewrite decide_False by done. by rewrite IH.
Qed.

Lemma lines_mjoin ls : Forall (fun l => newline ∉ l) ls -> lines_of (mjoin ((fun l => l ++ [newline]) <$> ls)) = ls.
Proof.
  induction 1 as [|l ls Hl _ IH]; [done|]. cbn [fmap list_fmap mjoin list_join]. rewrite <- app_assoc. cbn [app]. rewrite lines_app by done. by f_equal.
Qed.
