(* ===== verification/Double.v ===== *)
(** Floating-point numbers, as far as the program computes with them: the
    conversion of an integer to [double], the quotient of two doubles, and the
    fields [{:.0f}] and [{:.3f}] of [std::format].

    A double is a mantissa and an exponent.  Both operations round the exact
    result to the nearest number of 53 bits, and to the one with the even
    mantissa when two are equally near, as IEEE 754 demands; the exponents
    stay far inside the format's range (proved below), so that overflow,
    subnormal numbers, infinities and NaN need no representation.  No negative
    zero arises: a quotient is zero only when its dividend is the integer
    zero. *)

From Stdlib Require Import Ascii String QArith Qpower Qabs Lqa SetoidTactics.
From S2P Require Import Prelude Text.

#[local] Open Scope Z_scope.

(** The number [d_mant * 2 ^ d_exp]. *)
Record double := mkDouble { d_mant : Z; d_exp : Z }.

(** The integer nearest to [a / b], ties to even. *)
Definition div_even (a b : Z) : Z :=
  let q := a / b in
  let r := a mod b in
  if 2 * r <? b then q else if b <? 2 * r then q + 1 else if Z.even q then q else q + 1.

(** Numerator and denominator of [a / (b * 2 ^ e)]. *)
Definition scaled (a b e : Z) : Z * Z := if e <? 0 then (a * 2 ^ (- e), b) else (a, b * 2 ^ e).

(** The exponent for which [a / b] has a mantissa of 53 bits: the logarithms
    leave a choice of two. *)
Definition exponent_of (a b : Z) : Z :=
  let e := Z.log2 a - Z.log2 b - 53 in
  let '(x, y) := scaled a b e in
  if 2 ^ 53 * y <=? x then e + 1 else e.

(** The double nearest to [a / b], for [b] positive. *)
Definition round_quotient (a b : Z) : double :=
  if a =? 0 then mkDouble 0 0
  else
    let e := exponent_of (Z.abs a) b in
    let '(x, y) := scaled (Z.abs a) b e in
    mkDouble (Z.sgn a * div_even x y) e.

(** [static_cast<double>]. *)
Definition to_double (z : Z) : double := round_quotient z 1.

(** [x / y], for [y] positive. *)
Definition double_div (x y : double) : double :=
  let '(a, b) := scaled (d_mant x) (d_mant y) (d_exp y - d_exp x) in round_quotient a b.

(** [x > 0.0]. *)
Definition double_positive (x : double) : bool := 0 <? d_mant x.

Definition double_zero : double := mkDouble 0 0.

(** ** The fields [{:.pf}] *)

(** [|d| * 10 ^ p], to the nearest integer. *)
Definition fixed_digits (p : N) (d : double) : Z :=
  let '(x, y) := scaled (Z.abs (d_mant d) * 10 ^ Z.of_N p) 1 (- d_exp d) in div_even x y.

Definition zero_pad (w : nat) (s : list ascii) : list ascii := replicate (w - length s) "0"%char ++ s.

Definition print_fixed (p : N) (d : double) : list ascii :=
  let n := Z.to_N (fixed_digits p d) in
  let sign := if d_mant d <? 0 then ["-"%char] else [] in
  if (p =? 0)%N then sign ++ print_N n
  else sign ++ print_N (n / 10 ^ p) ++ ["."%char] ++ zero_pad (N.to_nat p) (print_N (n mod 10 ^ p)).

(** A duration in seconds: [duration<double>(d).count()] divides the count of
    nanoseconds by the period's denominator. *)
Definition seconds (elapsed_ns : Z) : double := double_div (to_double elapsed_ns) (to_double 1000000000).

(** The quotient that both [ReplayStats::orders_per_second] and the
    multi-threaded demo compute. *)
Definition rate (count : N) (elapsed_ns : Z) : double :=
  if double_positive (seconds elapsed_ns) then double_div (to_double (Z.of_N count)) (seconds elapsed_ns) else double_zero.

Definition milliseconds (elapsed_ns : Z) : double := double_div (to_double elapsed_ns) (to_double 1000000).


(** * Rounding *)

Lemma div_even_near a b : 0 < b -> 2 * Z.abs (div_even a b * b - a) <= b.
Proof.
  intros Hb. pose proof (Z.div_mod a b ltac:(lia)) as Hd. pose proof (Z.mod_pos_bound a b Hb). unfold div_even.
  repeat case_match; breflect; nia.
Qed.

Lemma div_even_nonneg a b : 0 <= a -> 0 < b -> 0 <= div_even a b.
Proof. intros Ha Hb. pose proof (Z.div_pos a b Ha Hb). unfold div_even. repeat case_match; lia. Qed.

Lemma scaled_pos a b e x y : 0 < a -> 0 < b -> scaled a b e = (x, y) -> 0 < x /\ 0 < y.
Proof.
  intros Ha Hb. unfold scaled. destruct (Z.ltb_spec e 0); intros [= <- <-]; split; try done; apply Z.mul_pos_pos; try done; apply Z.pow_pos_nonneg; lia.
Qed.

Lemma scaled_succ a b e x y x' y' : scaled a b e = (x, y) -> scaled a b (e + 1) = (x', y') -> (x = 2 * x' /\ y' = y) \/ (x' = x /\ y' = 2 * y).
Proof.
  unfold scaled. destruct (Z.ltb_spec e 0) as [He|He].
  - intros [= <- <-]. destruct (Z.ltb_spec (e + 1) 0); intros [= <- <-]; left; (split; [|try done]).
    + replace (- e) with (1 + - (e + 1)) by lia. rewrite Z.pow_add_r by lia. lia.
    + replace e with (-1) by lia. simpl. lia.
    + replace e with (-1) by lia. simpl. lia.
  - intros [= <- <-]. rewrite (proj2 (Z.ltb_ge _ _)) by lia. intros [= <- <-]. right. split; [done|]. rewrite Z.pow_add_r by lia. lia.
Qed.

Lemma scaled_log a b x y : 0 < a -> 0 < b -> scaled a b (Z.log2 a - Z.log2 b - 53) = (x, y) -> 2 ^ 52 * y <= x < 2 ^ 54 * y.
Proof.
  intros Ha Hb. pose proof (Z.log2_spec a Ha) as [La Ua]. pose proof (Z.log2_spec b Hb) as [Lb Ub].
  pose proof (Z.log2_nonneg a) as Na. pose proof (Z.log2_nonneg b) as Nb. rewrite <- Z.add_1_r in *. rewrite Z.pow_add_r in Ua, Ub by lia.
  set (la := Z.log2 a) in *. set (lb := Z.log2 b) in *. clearbody la lb. unfold scaled. destruct (Z.ltb_spec (la - lb - 53) 0); intros [= <- <-].
  - replace (- (la - lb - 53)) with (lb + 53 - la) by lia. assert (E : 2 ^ la * 2 ^ (lb + 53 - la) = 2 ^ 53 * 2 ^ lb) by (rewrite <- !Z.pow_add_r by lia; f_equal; lia).
    pose proof (Z.pow_pos_nonneg 2 (lb + 53 - la) ltac:(lia) ltac:(lia)). nia.
  - assert (E : 2 ^ lb * 2 ^ (la - lb - 53) * 2 ^ 53 = 2 ^ la) by (rewrite <- !Z.pow_add_r by lia; f_equal; lia).
    pose proof (Z.pow_pos_nonneg 2 (la - lb - 53) ltac:(lia) ltac:(lia)). nia.
Qed.

(** The mantissa before rounding has 53 bits. *)
Lemma exponent_of_spec a b x y : 0 < a -> 0 < b -> scaled a b (exponent_of a b) = (x, y) -> 2 ^ 52 * y <= x < 2 ^ 53 * y.
Proof.
  intros Ha Hb. unfold exponent_of. set (e := Z.log2 a - Z.log2 b - 53). destruct (scaled a b e) as [x0 y0] eqn:E0.
  pose proof (scaled_log a b x0 y0 Ha Hb E0) as Hl. destruct (Z.leb_spec (2 ^ 53 * y0) x0) as [Hle|Hlt].
  - intros E1. destruct (scaled_succ _ _ _ _ _ _ _ E0 E1) as [[-> ->]|[-> ->]]; lia.
  - intros E1. rewrite E0 in E1. injection E1 as <- <-. lia.
Qed.

Lemma exponent_of_range a b : Z.log2 a - Z.log2 b - 53 <= exponent_of a b <= Z.log2 a - Z.log2 b - 52.
Proof. unfold exponent_of. destruct (scaled _ _ _). case_match; lia. Qed.

(** A positive quotient, rounded: a mantissa of 53 bits, half a unit from the
    exact one. *)
Lemma round_quotient_pos a b : 0 < a -> 0 < b ->
  exists x y, scaled a b (exponent_of a b) = (x, y) /\ round_quotient a b = mkDouble (div_even x y) (exponent_of a b) /\
    0 < y /\ 2 ^ 52 <= div_even x y <= 2 ^ 53 /\ 2 ^ 53 * Z.abs (div_even x y * y - x) <= x.
Proof.
  intros Ha Hb. unfold round_quotient. rewrite (proj2 (Z.eqb_neq _ _)) by lia. rewrite Z.abs_eq, Z.sgn_pos by lia.
  destruct (scaled a b (exponent_of a b)) as [x y] eqn:E. destruct (scaled_pos _ _ _ _ _ Ha Hb E) as [Hx Hy].
  pose proof (exponent_of_spec a b x y Ha Hb E) as [Hl Hu]. pose proof (div_even_near x y Hy) as Hn. exists x, y. rewrite Z.mul_1_l. split_and!; try done; try nia.
Qed.

(** * Accuracy *)

#[local] Open Scope Q_scope.

#[local] Instance Q_default_relation : DefaultRelation Qeq := {}.

Definition Qval (d : double) : Q := inject_Z (d_mant d) * 2 ^ d_exp d.

(** [x] lies between two multiples of [y]. *)
Definition between (lo hi x y : Q) : Prop := lo * y <= x /\ x <= hi * y.

#[export] Instance between_proper : Proper (Qeq ==> Qeq ==> Qeq ==> Qeq ==> iff) between.
Proof. intros l l' El h h' Eh x x' Ex y y' Ey. unfold between. by rewrite El, Eh, Ex, Ey. Qed.

(** Comparisons of constants. *)
Ltac qconst := vm_compute; first [reflexivity | discriminate].

(** Half a unit in the last place of 53 bits. *)
Definition roundoff : Q := 1 # 9007199254740992.

Lemma two_pow_pos e : 0 < 2 ^ e.
Proof. by apply Qpower_0_lt. Qed.

Lemma inject_Z_pos z : (0 < z)%Z -> 0 < inject_Z z.
Proof. intros Hz. by rewrite (Zlt_Qlt 0 z) in Hz. Qed.

Lemma inject_Z_pow e : (0 <= e)%Z -> inject_Z (2 ^ e) == 2 ^ e.
Proof. intros He. by apply (Zpower_Qpower 2 e). Qed.

Lemma scaled_val a b e x y : (0 < b)%Z -> scaled a b e = (x, y) -> inject_Z x / inject_Z y * 2 ^ e == inject_Z a / inject_Z b.
Proof.
  intros Hb%inject_Z_pos. pose proof (two_pow_pos e) as Hp. unfold scaled. destruct (Z.ltb_spec e 0) as [He|He]; intros [= <- <-]; rewrite inject_Z_mult, inject_Z_pow by lia.
  - rewrite Qpower_opp. field. lra.
  - field. split; lra.
Qed.

Lemma between_compose l1 h1 l2 h2 x y z : 0 <= l1 -> 0 <= h1 -> between l1 h1 x y -> between l2 h2 y z -> between (l1 * l2) (h1 * h2) x z.
Proof.
  intros Hl Hh [A1 A2] [B1 B2]. split.
  - apply Qle_trans with (l1 * y); [|done]. rewrite <- Qmult_assoc. rewrite (Qmult_comm l1), (Qmult_comm l1). by apply Qmult_le_compat_r.
  - apply Qle_trans with (h1 * y); [done|]. rewrite <- Qmult_assoc. rewrite (Qmult_comm h1), (Qmult_comm h1). by apply Qmult_le_compat_r.
Qed.

Lemma between_weaken l h l' h' x y : 0 <= y -> l' <= l -> h <= h' -> between l h x y -> between l' h' x y.
Proof. intros Hy Hl Hh [A B]. split; [apply Qle_trans with (l * y)|apply Qle_trans with (h * y)]; try done; by apply Qmult_le_compat_r. Qed.

Lemma between_div l1 h1 l2 h2 x y a b : 0 < a -> 0 < b -> 0 <= l1 -> 0 < l2 -> 0 < h2 -> between l1 h1 x a -> between l2 h2 y b ->
  between (l1 / h2) (h1 / l2) (x / y) (a / b).
Proof.
  intros Ha Hb Hl1 Hl2 Hh2 [A1 A2] [B1 B2]. assert (Hl2b : 0 < l2 * b) by (by apply Qmult_lt_0_compat). assert (Hy : 0 < y) by lra.
  assert (Hla : 0 <= l1 * a) by (apply Qmult_le_0_compat; lra). split.
  - apply Qle_shift_div_l; [done|]. setoid_replace (l1 / h2 * (a / b) * y) with (l1 * a * y / (h2 * b)) by (field; split; lra).
    apply Qle_shift_div_r; [by apply Qmult_lt_0_compat|]. apply Qle_trans with (l1 * a * (h2 * b)).
    + rewrite (Qmult_comm (l1 * a) y), (Qmult_comm (l1 * a)). by apply Qmult_le_compat_r.
    + apply Qmult_le_compat_r; [done|]. assert (0 < h2 * b) by (by apply Qmult_lt_0_compat). lra.
  - apply Qle_shift_div_r; [done|]. setoid_replace (h1 / l2 * (a / b) * y) with (h1 * a * y / (l2 * b)) by (field; split; lra).
    apply Qle_shift_div_l; [done|]. apply Qle_trans with (h1 * a * (l2 * b)).
    + apply Qmult_le_compat_r; [done|lra].
    + rewrite !(Qmult_comm (h1 * a)). apply Qmult_le_compat_r; [done|lra].
Qed.

Lemma between_scale l h x y c : 0 <= c -> between l h x y -> between l h (x * c) (y * c).
Proof. intros Hc [A B]. split; rewrite Qmult_assoc; by apply Qmult_le_compat_r. Qed.

(** One rounding. *)
Lemma round_quotient_accurate a b : (0 < a)%Z -> (0 < b)%Z ->
  between (1 - roundoff) (1 + roundoff) (Qval (round_quotient a b)) (inject_Z a / inject_Z b).
Proof.
  intros Ha Hb. destruct (round_quotient_pos a b Ha Hb) as (x & y & E & -> & Hy & _ & Hn). rewrite <- (scaled_val _ _ _ _ _ Hb E). unfold Qval. cbn [d_mant d_exp].
  set (m := div_even x y) in *. pose proof (two_pow_pos (exponent_of a b)) as Hp. pose proof (inject_Z_pos y Hy) as Hy'.
  assert (H1 : (9007199254740992 * (m * y) <= 9007199254740993 * x)%Z) by lia. assert (H2 : (9007199254740991 * x <= 9007199254740992 * (m * y))%Z) by lia.
  rewrite Zle_Qle, !inject_Z_mult in H1, H2. unfold between, roundoff. split; rewrite Qmult_assoc; (apply Qmult_le_compat_r; [|lra]).
  - setoid_replace ((1 - (1 # 9007199254740992)) * (inject_Z x / inject_Z y)) with ((1 - (1 # 9007199254740992)) * inject_Z x / inject_Z y) by (field; lra).
    apply Qle_shift_div_r; [done|]. change (inject_Z 9007199254740991) with 9007199254740991 in *. change (inject_Z 9007199254740992) with 9007199254740992 in *. lra.
  - setoid_replace ((1 + (1 # 9007199254740992)) * (inject_Z x / inject_Z y)) with ((1 + (1 # 9007199254740992)) * inject_Z x / inject_Z y) by (field; lra).
    apply Qle_shift_div_l; [done|]. change (inject_Z 9007199254740993) with 9007199254740993 in *. change (inject_Z 9007199254740992) with 9007199254740992 in *. lra.
Qed.

(** ** Quotients of doubles *)

(** A positive number of 53 bits, within exponents [lo] and [hi]. *)
Record normal (lo hi : Z) (d : double) : Prop := {
  normal_mant : (2 ^ 52 <= d_mant d <= 2 ^ 53)%Z;
  normal_exp : (lo <= d_exp d <= hi)%Z
}.

Lemma normal_val lo hi d : normal lo hi d -> 0 < Qval d.
Proof. intros [Hm _]. apply Qmult_lt_0_compat; [apply inject_Z_pos; lia|apply two_pow_pos]. Qed.

Lemma scaled_log2 a b e x y : (0 < a)%Z -> (0 < b)%Z -> scaled a b e = (x, y) -> (Z.log2 x - Z.log2 y = Z.log2 a - Z.log2 b - e)%Z.
Proof. intros Ha Hb. unfold scaled. destruct (Z.ltb_spec e 0); intros [= <- <-]; rewrite Z.log2_mul_pow2 by lia; lia. Qed.

Lemma round_quotient_normal a b : (0 < a)%Z -> (0 < b)%Z -> normal (Z.log2 a - Z.log2 b - 53) (Z.log2 a - Z.log2 b - 52) (round_quotient a b).
Proof.
  intros Ha Hb. destruct (round_quotient_pos a b Ha Hb) as (x & y & _ & -> & _ & Hm & _). split; [done|apply exponent_of_range].
Qed.

Lemma normal_log lo hi d : normal lo hi d -> (52 <= Z.log2 (d_mant d) <= 53)%Z.
Proof. intros [[Hl Hu] _]. apply Z.log2_le_mono in Hl, Hu. rewrite Z.log2_pow2 in Hl, Hu by lia. lia. Qed.

Lemma double_div_normal l1 h1 l2 h2 x y : normal l1 h1 x -> normal l2 h2 y ->
  normal (l1 - h2 - 54) (h1 - l2 - 51) (double_div x y) /\ between (1 - roundoff) (1 + roundoff) (Qval (double_div x y)) (Qval x / Qval y).
Proof.
  intros Hx Hy. pose proof (normal_log _ _ _ Hx). pose proof (normal_log _ _ _ Hy). pose proof (normal_val _ _ _ Hy) as Hyv.
  destruct Hx as [Hmx Hex], Hy as [Hmy Hey]. unfold double_div. destruct (scaled _ _ _) as [a b] eqn:E.
  assert (Hmx' : (0 < d_mant x)%Z) by lia. assert (Hmy' : (0 < d_mant y)%Z) by lia.
  destruct (scaled_pos _ _ _ _ _ Hmx' Hmy' E) as [Ha Hb]. pose proof (scaled_log2 _ _ _ _ _ Hmx' Hmy' E) as Hl. split.
  - destruct (round_quotient_normal a b Ha Hb) as [Hm He]. split; [done|lia].
  - assert (Ev : inject_Z a / inject_Z b == Qval x / Qval y).
    { pose proof (scaled_val _ _ _ _ _ Hmy' E) as Hs. pose proof (two_pow_pos (d_exp x)). pose proof (two_pow_pos (d_exp y)). apply inject_Z_pos in Hmy', Hb.
      rewrite Qpower_minus in Hs by lra. unfold Qval. setoid_replace (inject_Z (d_mant x) * 2 ^ d_exp x / (inject_Z (d_mant y) * 2 ^ d_exp y)) with
        (inject_Z (d_mant x) / inject_Z (d_mant y) * 2 ^ d_exp x / 2 ^ d_exp y) by (field; split; lra). rewrite <- Hs. field. split_and!; lra. }
    rewrite <- Ev. by apply round_quotient_accurate.
Qed.

Lemma to_double_normal z : (0 < z < 2 ^ 64)%Z -> normal (-53) 11 (to_double z) /\ between (1 - roundoff) (1 + roundoff) (Qval (to_double z)) (inject_Z z).
Proof.
  intros [Hz Hz']. pose proof (Z.log2_nonneg z). apply Z.log2_lt_pow2 in Hz'; [|done]. change (Z.log2 1) with 0%Z in *. split.
  - destruct (round_quotient_normal z 1 Hz) as [Hm He]; [done|]. change (Z.log2 1) with 0%Z in He. split; [done|]. unfold to_double. lia.
  - pose proof (round_quotient_accurate z 1 Hz ltac:(done)) as Ha. assert (E : inject_Z z / inject_Z 1 == inject_Z z) by (unfold inject_Z at 2; field). by rewrite E in Ha.
Qed.

(** The divisors of the program are exact. *)
Lemma giga_exact : Qval (to_double 1000000000) == inject_Z 1000000000 /\ normal (-53) 11 (to_double 1000000000).
Proof. split; [reflexivity|]. by apply to_double_normal. Qed.

Lemma mega_exact : Qval (to_double 1000000) == inject_Z 1000000 /\ normal (-53) 11 (to_double 1000000).
Proof. split; [reflexivity|]. by apply to_double_normal. Qed.

(** A duration in a unit of [u] nanoseconds: two roundings. *)
Lemma duration_accurate elapsed u : (0 < elapsed < 2 ^ 64)%Z -> (0 < u)%Z -> Qval (to_double u) == inject_Z u -> normal (-53) 11 (to_double u) ->
  let d := double_div (to_double elapsed) (to_double u) in
  normal (-118) 13 d /\ between ((1 - roundoff) * (1 - roundoff)) ((1 + roundoff) * (1 + roundoff)) (Qval d) (inject_Z elapsed / inject_Z u).
Proof.
  intros He Hu Eu Nu d. destruct (to_double_normal elapsed He) as [Ne Be]. destruct (double_div_normal _ _ _ _ _ _ Ne Nu) as [Nd Bd].
  split; [destruct Nd as [Hm Hx]; split; [done|unfold d; lia]|]. rewrite Eu in Bd. apply inject_Z_pos in Hu.
  refine (between_compose _ _ _ _ _ _ _ _ _ Bd _); [qconst..|]. apply between_scale; [|done]. apply Qlt_le_weak. by apply Qinv_lt_0_compat.
Qed.

(** The quotient that is printed as orders per second: four roundings. *)
Lemma rate_accurate count elapsed : (0 < Z.of_N count < 2 ^ 64)%Z -> (0 < elapsed < 2 ^ 64)%Z ->
  normal (-1074) 970 (rate count elapsed) /\
  between (1 - (1 # 1125899906842624)) (1 + (1 # 1125899906842624)) (Qval (rate count elapsed)) (inject_Z (Z.of_N count) * 1000000000 / inject_Z elapsed).
Proof.
  intros Hc He. destruct giga_exact as [Eg Ng]. destruct (duration_accurate elapsed 1000000000 He ltac:(done) Eg Ng) as [Ns Bs].
  destruct (to_double_normal _ Hc) as [Nc Bc]. destruct (double_div_normal _ _ _ _ _ _ Nc Ns) as [Nr Br]. fold (seconds elapsed) in *.
  assert (Ep : double_positive (seconds elapsed) = true) by (destruct Ns as [Hm _]; apply Z.ltb_lt; lia). unfold rate. rewrite Ep.
  split; [destruct Nr as [Hm Hx]; split; [done|lia]|]. destruct Hc as [Hc _], He as [He _]. apply inject_Z_pos in Hc, He.
  assert (Hs : 0 < inject_Z elapsed / inject_Z 1000000000) by (apply Qlt_shift_div_l; [done|lra]).
  pose proof (fun A1 A2 A3 => between_div _ _ _ _ _ _ _ _ Hc Hs A1 A2 A3 Bc Bs) as Bd. specialize (Bd ltac:(qconst) ltac:(qconst) ltac:(qconst)).
  pose proof (fun A1 A2 => between_compose _ _ _ _ _ _ _ A1 A2 Br Bd) as B. specialize (B ltac:(qconst) ltac:(qconst)).
  assert (Ev : inject_Z (Z.of_N count) / (inject_Z elapsed / inject_Z 1000000000) == inject_Z (Z.of_N count) * 1000000000 / inject_Z elapsed) by (change (inject_Z 1000000000) with 1000000000; field; lra).
  rewrite Ev in B. refine (between_weaken _ _ _ _ _ _ _ _ _ B); [|qconst..]. apply Qle_shift_div_l; [done|lra].
Qed.

Lemma milliseconds_accurate elapsed : (0 < elapsed < 2 ^ 64)%Z ->
  normal (-1074) 970 (milliseconds elapsed) /\
  between (1 - (1 # 1125899906842624)) (1 + (1 # 1125899906842624)) (Qval (milliseconds elapsed)) (inject_Z elapsed / 1000000).
Proof.
  intros He. destruct mega_exact as [Em Nm]. destruct (duration_accurate elapsed 1000000 He ltac:(done) Em Nm) as [Nd Bd]. fold (milliseconds elapsed) in *.
  split; [destruct Nd as [Hm Hx]; split; [done|lia]|]. refine (between_weaken _ _ _ _ _ _ _ _ _ Bd); [|qconst..].
  destruct He as [He%inject_Z_pos _]. apply Qle_shift_div_l; [done|lra].
Qed.

(** ** Printing *)

Lemma fixed_digits_near p d : (0 <= d_mant d)%Z ->
  (0 <= fixed_digits p d)%Z /\ Qabs (inject_Z (fixed_digits p d) - Qval d * inject_Z (10 ^ Z.of_N p)) <= 1 # 2.
Proof.
  intros Hm. unfold fixed_digits. rewrite Z.abs_eq by done. destruct (scaled _ 1 _) as [x y] eqn:E.
  assert (Hxy : (0 <= x /\ 0 < y)%Z).
  { assert (0 <= d_mant d * 10 ^ Z.of_N p)%Z by (apply Z.mul_nonneg_nonneg; [done|apply Z.pow_nonneg; lia]).
    unfold scaled in E. destruct (Z.ltb_spec (- d_exp d) 0); injection E as <- <-; (split; [|try done]); try done;
      [apply Z.mul_nonneg_nonneg; [done|apply Z.pow_nonneg; lia]|rewrite Z.mul_1_l; apply Z.pow_pos_nonneg; lia]. }
  destruct Hxy as [Hx Hy]. split; [by apply div_even_nonneg|]. pose proof (scaled_val _ 1 _ x y eq_refl E) as Hs.
  pose proof (two_pow_pos (d_exp d)) as Hp. pose proof (div_even_near x y Hy) as Hn. set (n := div_even x y) in *. apply inject_Z_pos in Hy.
  assert (Ev : Qval d * inject_Z (10 ^ Z.of_N p) == inject_Z x / inject_Z y).
  { rewrite Qpower_opp, inject_Z_mult in Hs. unfold Qval. setoid_replace (inject_Z x / inject_Z y) with (inject_Z x / inject_Z y * / 2 ^ d_exp d * 2 ^ d_exp d) by (field; split; lra).
    rewrite Hs. change (inject_Z 1) with 1. field. }
  rewrite Ev. assert (H1 : (2 * (n * y) <= 2 * x + y)%Z) by lia. assert (H2 : (2 * x <= 2 * (n * y) + y)%Z) by lia.
  rewrite Zle_Qle, !inject_Z_plus, !inject_Z_mult in H1, H2. change (inject_Z 2) with 2 in *.
  apply Qabs_Qle_condition. split.
  - cut (inject_Z x / inject_Z y <= inject_Z n + (1 # 2)); [lra|]. apply Qle_shift_div_r; [done|]. lra.
  - cut (inject_Z n - (1 # 2) <= inject_Z x / inject_Z y); [lra|]. apply Qle_shift_div_l; [done|]. lra.
Qed.

(** A number printed with [p] decimals is half a unit of the last one from its
    value, and the value as close to [x] as [between] says. *)
Lemma printed_near p d x : (0 <= d_mant d)%Z -> between (1 - (1 # 1125899906842624)) (1 + (1 # 1125899906842624)) (Qval d) x ->
  Qabs (inject_Z (fixed_digits p d) - x * inject_Z (10 ^ Z.of_N p)) <= (1 # 2) + x * inject_Z (10 ^ Z.of_N p) * (1 # 1125899906842624).
Proof.
  intros Hm [B1 B2]. destruct (fixed_digits_near p d Hm) as [_ Hn]. apply Qabs_Qle_condition in Hn as [N1 N2].
  assert (Hp : 0 <= inject_Z (10 ^ Z.of_N p)) by (rewrite <- (Zle_Qle 0); apply Z.pow_nonneg; lia). set (s := inject_Z (10 ^ Z.of_N p)) in *.
  apply (Qmult_le_compat_r _ _ s) in B1, B2; [|done..]. apply Qabs_Qle_condition. split; lra.
Qed.

Lemma print_whole d : (0 <= d_mant d)%Z -> print_fixed 0 d = print_N (Z.to_N (fixed_digits 0 d)).
Proof. intros Hm. unfold print_fixed. by rewrite (proj2 (Z.ltb_ge _ _)). Qed.

Lemma print_thousandths d : (0 <= d_mant d)%Z ->
  print_fixed 3 d = print_N (Z.to_N (fixed_digits 3 d) / 1000) ++ ["."%char] ++ zero_pad 3 (print_N (Z.to_N (fixed_digits 3 d) mod 1000)).
Proof. intros Hm. unfold print_fixed. by rewrite (proj2 (Z.ltb_ge _ _)). Qed.

(** ** When nothing was counted or no time has passed *)

Lemma round_quotient_nonpos a b : (a <= 0)%Z -> (0 < b)%Z -> (d_mant (round_quotient a b) <= 0)%Z.
Proof.
  intros Ha Hb. unfold round_quotient. destruct (Z.eqb_spec a 0); [done|]. destruct (scaled _ _ _) as [x y] eqn:E. destruct (scaled_pos (Z.abs a) b _ x y ltac:(lia) Hb E).
  cbn [d_mant]. pose proof (div_even_nonneg x y ltac:(lia) ltac:(lia)). rewrite Z.sgn_neg by lia. lia.
Qed.

Lemma rate_no_time count elapsed : (elapsed <= 0)%Z -> rate count elapsed = double_zero.
Proof.
  intros He. unfold rate. replace (double_positive (seconds elapsed)) with false; [done|]. symmetry. apply Z.ltb_ge.
  unfold seconds, double_div. set (g := to_double 1000000000). assert (Hg : (0 < d_mant g)%Z) by (vm_compute; reflexivity).
  pose proof (round_quotient_nonpos elapsed 1 He ltac:(lia)) as Hm. fold (to_double elapsed) in Hm. unfold scaled.
  destruct (Z.ltb_spec (d_exp g - d_exp (to_double elapsed)) 0); apply round_quotient_nonpos; try done.
  - apply Z.mul_nonpos_nonneg; [done|]. apply Z.pow_nonneg. lia.
  - apply Z.mul_pos_pos; [done|]. apply Z.pow_pos_nonneg; lia.
Qed.

Lemma rate_none elapsed : rate 0 elapsed = double_zero.
Proof. unfold rate. case_match; [|done]. unfold double_div, scaled. change (to_double (Z.of_N 0)) with double_zero. cbn [d_mant double_zero]. by destruct (_ <? 0)%Z. Qed.
