(* ===== verification/Replay.v ===== *)
(** src/replay.cpp: [OrderReplay::load_csv], the CSV loader.

    A file is its text, or nothing when it cannot be opened.  An exception
    ([std::runtime_error]) is a value of [LoadError] with what its message
    quotes; [None] is an undefined outcome or a loop out of fuel, which
    [load_csv_by_rows] rules out.  The fuel is the length of what is left to
    read plus one: every [std::getline] takes at least one character. *)

From Stdlib Require Import Ascii String.
From S2P Require Import Prelude Types Text.

Inductive LoadError :=
| could_not_open
| bad_number (field : text)
| bad_side (field : text)
| bad_type (field : text)
| bad_tif (field : text)
| malformed_line (line : text).

(** Sequencing of computations that may throw or be undefined. *)
Definition Res (A : Type) : Type := option (LoadError + A).

Definition throw {A} (e : LoadError) : Res A := Some (inl e).
Definition ret {A} (a : A) : Res A := Some (inr a).

(** A step that may be undefined but does not throw. *)
Definition lift {A} (o : option A) : Res A := match o with Some a => ret a | None => None end.

Definition res_bind {A B} (m : Res A) (f : A -> Res B) : Res B :=
  match m with None => None | Some (inl e) => Some (inl e) | Some (inr a) => f a end.

Notation "x <-- m ; k" := (res_bind m (fun x => k)) (at level 100, m at next level, right associativity) : lob_scope.
Notation "m ;; k" := (res_bind m (fun _ => k)) (at level 100, right associativity) : lob_scope.

(** * The loader *)

(** [line.find(delim, start)]. *)
Definition find (line : text) (delim : ascii) (start : nat) : option nat :=
  '(i, _) ← list_find (fun c => c = delim) (drop start line); Some (start + i).

Fixpoint split_loop (fuel : nat) (line : text) (delim : ascii) (start : nat) (fields : list text) : option (list text) :=
  match fuel with
  | O => None
  | S fuel' =>
      if start <=? length line then
        match find line delim start with
        | None => Some (fields ++ [drop start line])
        | Some pos => split_loop fuel' line delim (S pos) (fields ++ [take (pos - start) (drop start line)])
        end
      else Some fields
  end.

Definition split (line : text) (delim : ascii) : option (list text) := split_loop (length line + 2) line delim 0 [].

Definition parse_number (ty : IntType) (field : text) : Res Z :=
  match from_chars ty field with
  | inl _ => throw (bad_number field)
  | inr (value, _) => ret value
  end.

Definition parse_side (field : text) : Res Side :=
  if bool_decide (field = lit "BUY") then ret Buy
  else if bool_decide (field = lit "SELL") then ret Sell
  else throw (bad_side field).

Definition parse_type (field : text) : Res OrderType :=
  if bool_decide (field = lit "LIMIT") then ret Limit
  else if bool_decide (field = lit "MARKET") then ret Market
  else throw (bad_type field).

Definition parse_tif (field : text) : Res TimeInForce :=
  if bool_decide (field = lit "GTC") || bool_decide (field = []) then ret GTC
  else if bool_decide (field = lit "IOC") then ret IOC
  else throw (bad_tif field).

(** [OrderId], [Timestamp], [SymbolId], [Price] and [Quantity]. *)
Definition order_id_type := UInt 64.
Definition timestamp_type := UInt 64.
Definition symbol_type := UInt 32.
Definition price_type := SInt 64.
Definition quantity_type := SInt 64.

(** [fields[i]]: undefined out of range. *)
Definition field (fields : list text) (i : nat) : Res text := lift (fields !! i).

(** The body of the loop for a data line. *)
Definition parse_line (line : text) : Res OrderRequest :=
  fields <-- lift (split line ","%char);
  if length fields <? 7 then throw (malformed_line line)
  else
    f0 <-- field fields 0; id <-- parse_number order_id_type f0;
    f1 <-- field fields 1; parse_number timestamp_type f1;;
    f2 <-- field fields 2; symbol <-- parse_number symbol_type f2;
    f3 <-- field fields 3; side <-- parse_side f3;
    f4 <-- field fields 4; type <-- parse_type f4;
    f5 <-- field fields 5; price <-- parse_number price_type f5;
    f6 <-- field fields 6; quantity <-- parse_number quantity_type f6;
    tif <-- (if 7 <? length fields then f7 <-- field fields 7; parse_tif f7 else ret GTC);
    ret (mkRequest (Z.to_N id) (Z.to_N symbol) kNoParticipant side type price quantity tif).

(** [std::getline]: fails at the end of the file, drops the newline. *)
Definition getline (s : text) : option (text * text) :=
  match s with
  | [] => None
  | _ =>
      match list_find (fun c => c = newline) s with
      | Some (i, _) => Some (take i s, drop (S i) s)
      | None => Some (s, [])
      end
  end.

Definition strip_cr (line : text) : text :=
  match last line with
  | Some c => if bool_decide (c = carriage_return) then take (length line - 1) line else line
  | None => line
  end.

Definition starts_with_digit (line : text) : bool := match line with c :: _ => isdigit c | [] => false end.

Fixpoint load_loop (fuel : nat) (file : text) (first_line : bool) (orders : list OrderRequest) : Res (list OrderRequest) :=
  match fuel with
  | O => None
  | S fuel' =>
      match getline file with
      | None => ret orders
      | Some (raw, rest) =>
          let line := strip_cr raw in
          match line with
          | [] => load_loop fuel' rest first_line orders
          | _ =>
              if first_line && negb (starts_with_digit line) then load_loop fuel' rest false orders
              else request <-- parse_line line; load_loop fuel' rest false (orders ++ [request])
          end
      end
  end.

Definition load_csv (file : option text) : Res (list OrderRequest) :=
  match file with
  | None => throw could_not_open
  | Some content => load_loop (S (length content)) content true []
  end.

(** * The specification: rows of fields *)

(** The data rows: the lines that are not blank, less a first one that is a
    header. *)
Definition data_lines (content : text) : list text :=
  let ls := filter (fun l => l <> []) (strip_cr <$> lines_of content) in
  match ls with l :: rest => if starts_with_digit l then ls else rest | [] => [] end.

(** A row's request or its first bad field. *)
Definition spec_number (ty : IntType) (f : text) : LoadError + Z :=
  match from_chars ty f with inl _ => inl (bad_number f) | inr (v, _) => inr v end.

Definition spec_word {A} (bad : text -> LoadError) (words : list (text * A)) (f : text) : LoadError + A :=
  match list_find (fun '(w, _) => w = f) words with Some (_, (_, a)) => inr a | None => inl (bad f) end.

Definition sum_bind {A B} (m : LoadError + A) (f : A -> LoadError + B) : LoadError + B :=
  match m with inl e => inl e | inr a => f a end.

Definition spec_row (line : text) : LoadError + OrderRequest :=
  match fields_of ","%char line with
  | id :: ts :: symbol :: side :: type :: price :: quantity :: more =>
      sum_bind (spec_number (UInt 64) id) (fun id =>
      sum_bind (spec_number (UInt 64) ts) (fun _ =>
      sum_bind (spec_number (UInt 32) symbol) (fun symbol =>
      sum_bind (spec_word bad_side [(lit "BUY", Buy); (lit "SELL", Sell)] side) (fun side =>
      sum_bind (spec_word bad_type [(lit "LIMIT", Limit); (lit "MARKET", Market)] type) (fun type =>
      sum_bind (spec_number (SInt 64) price) (fun price =>
      sum_bind (spec_number (SInt 64) quantity) (fun quantity =>
      sum_bind (spec_word bad_tif [(lit "GTC", GTC); ([], GTC); (lit "IOC", IOC)] (default [] (head more))) (fun tif =>
      inr (mkRequest (Z.to_N id) (Z.to_N symbol) kNoParticipant side type price quantity tif)))))))))
  | _ => inl (malformed_line line)
  end.

(** All the rows, or the error of the first bad one. *)
Fixpoint spec_rows (ls : list text) : LoadError + list OrderRequest :=
  match ls with
  | [] => inr []
  | l :: ls' => sum_bind (spec_row l) (fun r => sum_bind (spec_rows ls') (fun rs => inr (r :: rs)))
  end.

(** * Splitting *)

(** [list_find] cuts a list at the first match. *)
Lemma find_cut (c : ascii) (s : text) i x : list_find (fun d => d = c) s = Some (i, x) ->
  c ∉ take i s /\ s = take i s ++ c :: drop (S i) s /\ i < length s.
Proof.
  intros (Hx & -> & Hmin)%list_find_Some. pose proof (lookup_lt_Some _ _ _ Hx) as Hlt. split_and!; [|by rewrite take_drop_middle|done].
  intros Hin. apply list_elem_of_lookup in Hin as (j & Hj). apply lookup_take_Some in Hj as [Hj Hji]. by apply (Hmin j c).
Qed.

Lemma find_none (c : ascii) (s : text) : list_find (fun d => d = c) s = None -> c ∉ s.
Proof. intros Hf%list_find_None Hin. rewrite Forall_forall in Hf. by apply (Hf c). Qed.

Lemma split_loop_fields fuel line delim start fields :
  start <= length line -> length line - start + 2 <= fuel ->
  split_loop fuel line delim start fields = Some (fields ++ fields_of delim (drop start line)).
Proof.
  revert start fields. induction fuel as [|fuel IH]; intros start fields Hs Hf; [lia|]. cbn [split_loop].
  rewrite (proj2 (Nat.leb_le _ _)) by done. unfold find. destruct (list_find _ _) as [[i x]|] eqn:E; cbn [mbind option_bind].
  - destruct (find_cut _ _ _ _ E) as (Hni & Hcut & Hlt). rewrite length_drop in Hlt. rewrite IH by lia.
    replace (start + i - start) with i by lia. rewrite (f_equal (fields_of delim) Hcut), fields_app by done.
    rewrite drop_drop. replace (start + S i) with (S (start + i)) by lia. by rewrite <- app_assoc.
  - by rewrite fields_none by by apply find_none.
Qed.

Lemma split_fields line delim : split line delim = Some (fields_of delim line).
Proof. unfold split. rewrite split_loop_fields by lia. by rewrite drop_0. Qed.

Lemma getline_lines s : match getline s with
  | None => lines_of s = [] | Some (l, rest) => lines_of s = l :: lines_of rest /\ length rest < length s end.
Proof.
  unfold getline. destruct s as [|c s]; [done|]. destruct (list_find _ _) as [[i x]|] eqn:E.
  - destruct (find_cut _ _ _ _ E) as (Hni & Hcut & Hlt). split; [by rewrite Hcut at 1; rewrite lines_app|].
    rewrite length_drop. lia.
  - split; [by rewrite lines_none by (done || by apply find_none)|]. simpl. lia.
Qed.

(** * Rows *)

Lemma parse_number_spec ty f : parse_number ty f = Some (spec_number ty f).
Proof. unfold parse_number, spec_number. by destruct (from_chars ty f) as [|[]]. Qed.

Lemma word_cons {A} bad w (a : A) ws f : spec_word bad ((w, a) :: ws) f = if decide (w = f) then inr a else spec_word bad ws f.
Proof. unfold spec_word. simpl. repeat case_decide; try done. by destruct (list_find _ ws) as [[? []]|]. Qed.

Lemma parse_words f :
  parse_side f = Some (spec_word bad_side [(lit "BUY", Buy); (lit "SELL", Sell)] f) /\
  parse_type f = Some (spec_word bad_type [(lit "LIMIT", Limit); (lit "MARKET", Market)] f) /\
  parse_tif f = Some (spec_word bad_tif [(lit "GTC", GTC); ([], GTC); (lit "IOC", IOC)] f).
Proof.
  unfold parse_side, parse_type, parse_tif. rewrite !word_cons.
  split_and!; repeat (case_bool_decide; simplify_eq; try rewrite decide_True by done; try rewrite decide_False by done); done.
Qed.

Lemma bind_some {A B} (m : LoadError + A) (f : A -> Res B) (g : A -> LoadError + B) :
  (forall a, f a = Some (g a)) -> res_bind (Some m) f = Some (sum_bind m g).
Proof. intros Hf. destruct m; simpl; [done|apply Hf]. Qed.

Lemma parse_line_spec line : parse_line line = Some (spec_row line).
Proof.
  unfold parse_line, spec_row. rewrite split_fields. cbn [lift res_bind ret].
  destruct (fields_of ","%char line) as [|f0 [|f1 [|f2 [|f3 [|f4 [|f5 [|f6 more]]]]]]]; try done.
  change (length (f0 :: f1 :: f2 :: f3 :: f4 :: f5 :: f6 :: more) <? 7) with false. cbn [field lookup list_lookup lift res_bind ret].
  rewrite !parse_number_spec. apply bind_some. intros id. apply bind_some. intros _. apply bind_some. intros symbol.
  rewrite (proj1 (parse_words _)). apply bind_some. intros side. rewrite (proj1 (proj2 (parse_words _))). apply bind_some. intros type.
  apply bind_some. intros price. apply bind_some. intros quantity.
  replace (if 7 <? _ then _ else _) with (parse_tif (default [] (head more))) by by destruct more.
  rewrite (proj2 (proj2 (parse_words _))). by apply bind_some.
Qed.

Lemma load_rows fuel file first orders : length file < fuel ->
  load_loop fuel file first orders =
  Some (sum_bind (spec_rows (let ls := filter (fun l => l <> []) (strip_cr <$> lines_of file) in
      match ls with l :: rest => if first && negb (starts_with_digit l) then rest else ls | [] => [] end))
    (fun rs => inr (orders ++ rs))).
Proof.
  revert file first orders. induction fuel as [|fuel IH]; intros file first orders Hf; [lia|]. cbn [load_loop].
  pose proof (getline_lines file) as Hl. destruct (getline file) as [[raw rest]|].
  - destruct Hl as [-> Hlen]. cbn [fmap list_fmap]. destruct (strip_cr raw) as [|c l] eqn:E.
    + rewrite filter_cons_False by auto. by rewrite IH by lia.
    + rewrite filter_cons_True by done. cbn zeta. destruct (first && negb (starts_with_digit (c :: l))) eqn:Eh.
      * rewrite IH by lia. by destruct (filter _ _).
      * rewrite parse_line_spec. cbn [spec_rows]. destruct (spec_row (c :: l)) as [e|r]; [done|]. cbn [res_bind sum_bind].
        rewrite IH by lia. replace (match filter _ _ with [] => _ | _ => _ end) with (filter (fun l => l <> []) (strip_cr <$> lines_of rest)) by by destruct (filter _ _).
        destruct (spec_rows _) as [e|rs]; [done|]. cbn [sum_bind]. by rewrite <- app_assoc.
  - rewrite Hl. simpl. by rewrite app_nil_r.
Qed.

Lemma load_csv_rows (content : text) : load_csv (Some content) = Some (spec_rows (data_lines content)).
Proof.
  unfold load_csv. rewrite load_rows by lia. unfold data_lines.
  replace (match filter _ _ with [] => _ | _ => _ end)
    with (match filter (fun l => l <> []) (strip_cr <$> lines_of content) with
          | [] => [] | l :: rest => if starts_with_digit l then filter (fun l => l <> []) (strip_cr <$> lines_of content) else rest end)
    by (destruct (filter _ _) as [|l ?]; [done|]; by destruct (starts_with_digit l)).
  by destruct (spec_rows _).
Qed.

(** * Writing the format

    A CSV file as include/lightninglob/replay.hpp documents it: an optional
    header, LF or CRLF line ends, and a last column that may be left out. *)

Fixpoint join (delim : ascii) (fields : list text) : text :=
  match fields with [] => [] | [f] => f | f :: fs => f ++ delim :: join delim fs end.

Record CsvRow := mkRow { row_request : OrderRequest; row_timestamp : N; row_short : bool }.

Definition csv_fields (r : CsvRow) : list text :=
  let q := row_request r in
  [print_N (rq_client_order_id q); print_N (row_timestamp r); print_N (rq_symbol q); lit (side_to_string (rq_side q));
   lit (type_to_string (rq_type q)); print_Z (rq_price q); print_Z (rq_quantity q)] ++
  if row_short r then [] else [lit (tif_to_string (rq_time_in_force q))].

Definition csv_header : text := lit "order_id,timestamp_ns,symbol_id,side,type,price,quantity,time_in_force".

Definition csv_text (header crlf : bool) (rows : list CsvRow) : text :=
  mjoin ((fun l => l ++ if crlf then [carriage_return; newline] else [newline]) <$>
    ((if header then [csv_header] else []) ++ (join ","%char ∘ csv_fields <$> rows))).

(** What the format can say: values of their types' widths, no participant, GTC
    or IOC, and GTC when the last column is left out. *)
Definition row_ok (r : CsvRow) : bool :=
  let q := row_request r in
  representable (UInt 64) (Z.of_N (rq_client_order_id q)) && representable (UInt 64) (Z.of_N (row_timestamp r)) &&
  representable (UInt 32) (Z.of_N (rq_symbol q)) && representable (SInt 64) (rq_price q) && representable (SInt 64) (rq_quantity q) &&
  (rq_participant_id q =? kNoParticipant)%N && negb (bool_decide (rq_time_in_force q = FOK)) &&
  (negb (row_short r) || bool_decide (rq_time_in_force q = GTC)).

(** Characters that do not end a field or a line. *)
Definition plain (c : ascii) : Prop := c <> ","%char /\ c <> newline /\ c <> carriage_return.

#[local] Instance plain_dec c : Decision (plain c).
Proof. unfold plain. apply _. Defined.

Lemma number_plain s : Forall number_char s -> Forall plain s.
Proof. intros Hs. eapply Forall_impl; [exact Hs|]. intros c [Hd| ->]; [|done]. split_and!; by intros ->. Qed.

Lemma csv_fields_plain r : Forall (Forall plain) (csv_fields r).
Proof.
  unfold csv_fields. apply Forall_app. split.
  - repeat constructor; try (apply number_plain; apply print_N_chars || apply print_Z_chars).
    + by destruct (rq_side _); apply (bool_decide_unpack _).
    + by destruct (rq_type _); apply (bool_decide_unpack _).
  - destruct (row_short r); repeat constructor. by destruct (rq_time_in_force _); apply (bool_decide_unpack _).
Qed.

Lemma plain_not s c : Forall plain s -> c = ","%char \/ c = newline \/ c = carriage_return -> c ∉ s.
Proof. intros Hs Hc Hin. rewrite Forall_forall in Hs. destruct (Hs c Hin) as (? & ? & ?). naive_solver. Qed.

Lemma fields_join fs : fs <> [] -> Forall (Forall plain) fs -> fields_of ","%char (join ","%char fs) = fs.
Proof.
  induction fs as [|f fs IH]; intros Hne Hp; [done|]. apply Forall_cons in Hp as [Hf Hfs].
  assert (","%char ∉ f) as Hni by (apply plain_not; auto). destruct fs as [|f' fs]; [by apply fields_none|].
  change (join ","%char (f :: f' :: fs)) with (f ++ ","%char :: join ","%char (f' :: fs)). rewrite fields_app by done. by rewrite IH.
Qed.

(** A line that can be written and read back. *)
Definition line_ok (l : text) : Prop := l <> [] /\ newline ∉ l /\ carriage_return ∉ l.

Lemma strip_cr_plain l : carriage_return ∉ l -> strip_cr l = l /\ strip_cr (l ++ [carriage_return]) = l.
Proof.
  intros Hn. unfold strip_cr. rewrite last_snoc, bool_decide_eq_true_2 by done. rewrite length_app, Nat.add_sub, take_app_length. split; [|done].
  destruct (last l) as [c|] eqn:E; [|done]. apply last_Some_elem_of in E. rewrite bool_decide_eq_false_2; [done|]. by intros ->.
Qed.

Lemma read_lines (crlf : bool) ls : Forall line_ok ls ->
  filter (fun l => l <> []) (strip_cr <$> lines_of (mjoin ((fun l => l ++ if crlf then [carriage_return; newline] else [newline]) <$> ls))) = ls.
Proof.
  induction 1 as [|l ls (Hne & Hnl & Hcr) _ IH]; [done|]. cbn [fmap list_fmap mjoin list_join]. destruct (strip_cr_plain l Hcr) as [E1 E2].
  destruct crlf; rewrite <- app_assoc; cbn [app].
  - change (carriage_return :: newline :: ?x) with ([carriage_return] ++ newline :: x). rewrite app_assoc, lines_app.
    + cbn [fmap list_fmap]. rewrite E2, filter_cons_True by done. by f_equal.
    + intros [?|Hin%list_elem_of_singleton]%elem_of_app; [done|]. done.
  - rewrite lines_app by done. cbn [fmap list_fmap]. rewrite E1, filter_cons_True by done. by f_equal.
Qed.

Lemma join_elem fs c : c ∈ join ","%char fs -> c = ","%char \/ exists f, f ∈ fs /\ c ∈ f.
Proof.
  induction fs as [|f fs IH]; [by intros ?%elem_of_nil|]. destruct fs as [|f' fs].
  - intros Hc. right. exists f. split; [left|done].
  - change (join ","%char (f :: f' :: fs)) with (f ++ ","%char :: join ","%char (f' :: fs)).
    intros [Hc|[Hc|Hc]%elem_of_cons]%elem_of_app; [right; exists f; split; [left|done]|by left|].
    destruct (IH Hc) as [?|(g & Hg & Hin)]; [by left|right]. exists g. split; [by right|done].
Qed.

Lemma row_line_ok r : line_ok (join ","%char (csv_fields r)) /\ starts_with_digit (join ","%char (csv_fields r)) = true.
Proof.
  assert (Hc : forall c, c = newline \/ c = carriage_return -> c ∉ join ","%char (csv_fields r)).
  { intros c Hc [->|(f & Hf & Hin)]%join_elem; [destruct Hc; done|]. pose proof (csv_fields_plain r) as Hp. rewrite Forall_forall in Hp.
    by apply (plain_not f c (Hp f Hf)); [right|]. }
  destruct (print_N_spec (rq_client_order_id (row_request r))) as (Hd & _ & Hne). unfold line_ok, csv_fields in *. cbn [app join] in *.
  destruct (print_N (rq_client_order_id (row_request r))) as [|c s]; [done|]. apply Forall_cons in Hd as [Hd _].
  split; [|done]. split_and!; [done|apply Hc; auto|apply Hc; auto].
Qed.

Lemma number_back ty n : representable ty (Z.of_N n) = true -> spec_number ty (print_N n) = inr (Z.of_N n).
Proof. intros Hr. unfold spec_number. rewrite <- (app_nil_r (print_N n)). by rewrite from_chars_print_N. Qed.

Lemma signed_back w z : representable (SInt w) z = true -> spec_number (SInt w) (print_Z z) = inr z.
Proof. intros Hr. unfold spec_number. rewrite <- (app_nil_r (print_Z z)). by rewrite from_chars_print_Z. Qed.

Lemma row_back r : row_ok r = true -> spec_row (join ","%char (csv_fields r)) = inr (row_request r).
Proof.
  unfold row_ok. intros [[[[[[[H1 H2]%andb_true_iff H3]%andb_true_iff H4]%andb_true_iff H5]%andb_true_iff H6%N.eqb_eq]%andb_true_iff H7%negb_true_iff]%andb_true_iff H8]%andb_true_iff.
  apply bool_decide_eq_false in H7. unfold spec_row. rewrite fields_join; [|done|apply csv_fields_plain]. unfold csv_fields. cbn [app].
  rewrite (number_back _ _ H1), (number_back _ _ H2), (number_back _ _ H3), (signed_back _ _ H4), (signed_back _ _ H5). cbn [sum_bind].
  destruct r as [q ts short]. destruct q as [id sym part side type price qty tif]. simpl in *. subst part.
  destruct side, type, short, tif; try done; cbn; by rewrite !N2Z.id.
Qed.

Lemma rows_back rows : Forall (fun r => row_ok r = true) rows ->
  spec_rows (join ","%char ∘ csv_fields <$> rows) = inr (row_request <$> rows).
Proof. induction 1 as [|r rows Hr _ IH]; [done|]. cbn [fmap list_fmap spec_rows compose]. by rewrite (row_back r Hr), IH. Qed.

Lemma data_lines_text (header crlf : bool) rows : data_lines (csv_text header crlf rows) = join ","%char ∘ csv_fields <$> rows.
Proof.
  unfold data_lines, csv_text. rewrite read_lines.
  - destruct header; [done|]. destruct rows as [|r rows]; [done|]. cbn [app fmap list_fmap].
    change ((join ","%char ∘ csv_fields) r) with (join ","%char (csv_fields r)). by rewrite (proj2 (row_line_ok r)).
  - apply Forall_app. split; [destruct header; repeat constructor; try done; by apply (bool_decide_unpack _)|].
    apply Forall_fmap, Forall_true. intros r. apply row_line_ok.
Qed.

Lemma load_csv_text header crlf rows :
  forallb row_ok rows = true -> load_csv (Some (csv_text header crlf rows)) = Some (inr (row_request <$> rows)).
Proof.
  intros Hok. rewrite load_csv_rows, data_lines_text. rewrite rows_back; [done|]. apply Forall_forall. intros r Hr.
  rewrite forallb_forall in Hok. apply Hok. by apply list_elem_of_In.
Qed.


(** C28. What the documented format can say is read back exactly: a file of any
    orders, with or without the header, with LF or CRLF line ends, loads as
    those orders in that order. *)
Theorem load_csv_roundtrip (header crlf : bool) (rows : list CsvRow) :
  forallb row_ok rows = true -> load_csv (Some (csv_text header crlf rows)) = Some (inr (row_request <$> rows)).
Proof. apply load_csv_text. Qed.

(** Two orders, one of them without the last column. *)
Definition sample_rows : list CsvRow :=
  [mkRow (mkRequest 18446744073709551615 1 kNoParticipant Buy Limit 10050 100 IOC) 1000 false;
   mkRow (mkRequest 2 4294967295 kNoParticipant Sell Market 0 (-9223372036854775808) GTC) 0 true].

Lemma load_csv_roundtrip_witness :
  forallb row_ok sample_rows = true /\
  load_csv (Some (csv_text true true sample_rows)) = Some (inr (row_request <$> sample_rows)).
Proof. split; [vm_compute; reflexivity|]. apply load_csv_roundtrip. vm_compute. reflexivity. Defined.

(** A numeric field is read up to its first character that is not a digit, and
    what follows is ignored: [12.5] loads as 12 and [100O] as 100. *)
Example trailing_characters_ignored :
  load_csv (Some (lit "7,0,1,BUY,LIMIT,12.5,100O,GTC")) = Some (inr [mkRequest 7 1 kNoParticipant Buy Limit 12 100 GTC]).
Proof. vm_compute. reflexivity. Qed.

(** A first row whose first field does not start with a digit is taken for a
    header and dropped without an error. *)
Example first_row_dropped : load_csv (Some (lit " 7,0,1,BUY,LIMIT,12,100,GTC")) = Some (inr []).
Proof. vm_compute. reflexivity. Qed.

(** Errors name the first bad field. *)
Example bad_rows :
  load_csv (Some (lit "7,0,1,BUY,LIMIT,12,100" ++ [newline] ++ lit "8,0,1,HOLD,LIMIT,x,1")) = Some (inl (bad_side (lit "HOLD"))) /\
  load_csv (Some (lit "7,0,4294967296,BUY,LIMIT,12,100")) = Some (inl (bad_number (lit "4294967296"))) /\
  load_csv (Some (lit "7,0,1,BUY,LIMIT,12")) = Some (inl (malformed_line (lit "7,0,1,BUY,LIMIT,12"))) /\
  load_csv (Some (lit "7,0,1,BUY,LIMIT,12,100,FOK")) = Some (inl (bad_tif (lit "FOK"))).
Proof. repeat split. Qed.
