(* ===== verification/ReplayRun.v ===== *)
(** include/lightninglob/replay.hpp: [OrderReplay::replay], which feeds the
    orders of a file through a matching engine and counts the outcomes.

    The two readings of the steady clock are readings of [now_ns]'s clock. *)

From S2P Require Import Prelude Types Text Double OrderPool BookCore BookSpec BookSpecFacts BookTrades BookInterface.
From S2P Require Import OrderBookVector VectorRefinement OrderBookMap MapRefinement OrderBookArray ArrayRefinement.
From S2P Require Import Books RiskManager MatchingEngine EngineFacts EngineTheorems.

Record ReplayStats := mkStats {
  rs_total : N;
  rs_accepted : N;
  rs_rejected : N;
  rs_filled : N;
  rs_partially_filled : N;
  rs_elapsed : Z
}.

Definition orders_per_second (s : ReplayStats) : double := rate (rs_total s) (rs_elapsed s).

(** A reading of the clock. *)
Definition tick (w : EngineWorld) : EngineWorld :=
  mkEWorld (mkWorld (S (w_reads (ew_world w))) (w_trades (ew_world w))) (ew_user w).

(** The counters after one report. *)
Definition count_report (s : ReplayStats) (report : ExecutionReport) : ReplayStats :=
  if bool_decide (er_status report = Rejected)
  then mkStats (rs_total s) (rs_accepted s) (inc64 (rs_rejected s)) (rs_filled s) (rs_partially_filled s) (rs_elapsed s)
  else
    let s1 := mkStats (rs_total s) (inc64 (rs_accepted s)) (rs_rejected s) (rs_filled s) (rs_partially_filled s) (rs_elapsed s) in
    if bool_decide (er_status report = Filled)
    then mkStats (rs_total s1) (rs_accepted s1) (rs_rejected s1) (inc64 (rs_filled s1)) (rs_partially_filled s1) (rs_elapsed s1)
    else if bool_decide (er_status report = PartiallyFilled)
    then mkStats (rs_total s1) (rs_accepted s1) (rs_rejected s1) (rs_filled s1) (inc64 (rs_partially_filled s1)) (rs_elapsed s1)
    else s1.

Section replay.
Context {B : Type} `{BookOps B} `{BookCtor B} (now_ns : nat -> Timestamp).

Fixpoint replay_loop (e : Engine B) (orders : list OrderRequest) (s : ReplayStats) (w : EngineWorld)
    : option (ReplayStats * Engine B * EngineWorld) :=
  match orders with
  | [] => Some (s, e, w)
  | request :: orders' =>
      '(report, e1, w1) ← submit_order now_ns e request w;
      replay_loop e1 orders' (count_report s report) w1
  end.

Definition replay (e : Engine B) (orders : list OrderRequest) (w : EngineWorld)
    : option (ReplayStats * Engine B * EngineWorld) :=
  let stats := mkStats (vsize orders) 0 0 0 0 0 in
  let start := now_ns (w_reads (ew_world w)) in
  '(s, e1, w1) ← replay_loop e orders stats (tick w);
  let stop := now_ns (w_reads (ew_world w1)) in
  Some (mkStats (rs_total s) (rs_accepted s) (rs_rejected s) (rs_filled s) (rs_partially_filled s) (Z.of_N stop - Z.of_N start), e1, tick w1).
End replay.

(** * The counts of a list of reports *)

Definition with_status (st : OrderStatus) (reports : list ExecutionReport) : N :=
  N.of_nat (length (filter (fun r => er_status r = st) reports)).

Definition count_accepted (reports : list ExecutionReport) : N := N.of_nat (length (filter (fun r => er_status r <> Rejected) reports)).

Definition tally (elapsed : Z) (reports : list ExecutionReport) : ReplayStats :=
  mkStats (N.of_nat (length reports)) (count_accepted reports) (with_status Rejected reports) (with_status Filled reports)
    (with_status PartiallyFilled reports) elapsed.

Lemma with_status_cons st r reports : with_status st (r :: reports) = ((if decide (er_status r = st) then 1 else 0) + with_status st reports)%N.
Proof. unfold with_status. rewrite filter_cons. case_decide; simpl; lia. Qed.

Lemma count_accepted_cons r reports : count_accepted (r :: reports) = ((if decide (er_status r = Rejected) then 0 else 1) + count_accepted reports)%N.
Proof. unfold count_accepted. rewrite filter_cons. repeat case_decide; try done; simpl; lia. Qed.

Lemma with_status_le st reports : (with_status st reports <= N.of_nat (length reports))%N.
Proof. unfold with_status. pose proof (length_filter (fun r => er_status r = st) reports). lia. Qed.

Lemma tally_sums reports :
  (count_accepted reports + with_status Rejected reports = N.of_nat (length reports))%N /\
  (with_status Filled reports + with_status PartiallyFilled reports <= count_accepted reports)%N.
Proof.
  induction reports as [|r reports [IH1 IH2]]; [done|]. rewrite !with_status_cons, count_accepted_cons. simpl length.
  destruct (er_status r); simpl; lia.
Qed.

(** The counters, which wrap at 64 bits, against the counts. *)
Lemma count_reports s reports :
  (rs_accepted s + N.of_nat (length reports) < two64)%N -> (rs_rejected s + N.of_nat (length reports) < two64)%N ->
  (rs_filled s + N.of_nat (length reports) < two64)%N -> (rs_partially_filled s + N.of_nat (length reports) < two64)%N ->
  foldl count_report s reports =
  mkStats (rs_total s) (rs_accepted s + count_accepted reports) (rs_rejected s + with_status Rejected reports)
    (rs_filled s + with_status Filled reports) (rs_partially_filled s + with_status PartiallyFilled reports) (rs_elapsed s).
Proof.
  revert s. induction reports as [|r reports IH]; intros s H1 H2 H3 H4; simpl length in *.
  { destruct s; simpl. by rewrite !N.add_0_r. }
  cbn [foldl]. rewrite !with_status_cons, count_accepted_cons. unfold count_report.
  destruct (er_status r); simpl; rewrite IH by (simpl; rewrite ?inc64_small by lia; lia); simpl; rewrite ?inc64_small by lia; f_equal; lia.
Qed.

Section runs.
Context {B : Type} `{BookCtorLaws B} (now_ns : nat -> Timestamp).

(** The loop is the engine's run on the orders, with the reports counted. *)
Lemma replay_loop_run (e : Engine B) orders s w rs e' w' :
  engine_run now_ns e (XSubmit <$> orders) w = Some (rs, e', w') ->
  exists reports, rs = XReport <$> reports /\ length reports = length orders /\
    replay_loop now_ns e orders s w = Some (foldl count_report s reports, e', w').
Proof.
  revert e s w rs. induction orders as [|rq orders IH]; intros e s w rs; simpl; [intros [= <- <- <-]; by exists []|].
  destruct (submit_order now_ns e rq w) as [[[r e1] w1]|]; [|done]. simpl.
  intros ([[rs1 e2] w2] & Hrun & [= <- <- <-])%bind_Some. destruct (IH e1 (count_report s r) w1 rs1 Hrun) as (reports & -> & Hlen & Hl).
  exists (r :: reports). split_and!; [done|simpl; lia|done].
Qed.

Definition elapsed_between (w w' : EngineWorld) : Z :=
  Z.of_N (now_ns (w_reads (ew_world w'))) - Z.of_N (now_ns (w_reads (ew_world w))).

(** A replay is a run of submissions, and counts its reports. *)
Lemma replay_run (e : Engine B) orders w rs e' w' : (vsize orders < two64)%N ->
  engine_run now_ns e (XSubmit <$> orders) (tick w) = Some (rs, e', w') ->
  exists reports, rs = XReport <$> reports /\ length reports = length orders /\
    replay now_ns e orders w = Some (tally (elapsed_between w w') reports, e', tick w').
Proof.
  intros Hn Hr. destruct (replay_loop_run e orders (mkStats (vsize orders) 0 0 0 0 0) (tick w) rs e' w' Hr) as (reports & -> & Hlen & Hl).
  unfold vsize in Hn. rewrite count_reports in Hl by (simpl; lia). simpl in Hl.
  exists reports. split_and!; [done|done|]. unfold replay. rewrite Hl. cbn [mbind option_bind]. unfold tally, vsize. simpl. by rewrite Hlen.
Qed.

Lemma engine_total_app cs1 cs2 : engine_total (cs1 ++ cs2) = (engine_total cs1 + engine_total cs2)%Z.
Proof. induction cs1; simpl; lia. Qed.

(** A workload may be resumed, at any later reading of the clock. *)
Lemma engine_resumes cb cs1 cs2 w0 rs (e : Engine B) w w1 :
  engine_workload_ok (cs1 ++ cs2) = true -> engine_run now_ns (mkEngine ∅ ∅ 1 cb) cs1 w0 = Some (rs, e, w) ->
  exists es rs2 e' es' w' ts,
    spec_engine_run now_ns bk_refuses bk_band (mkEngine ∅ ∅ 1 cb) cs1 w0 = (rs, es, w) /\
    engine_run now_ns e cs2 w1 = Some (rs2, e', w') /\
    spec_engine_run now_ns bk_refuses bk_band es cs2 w1 = (rs2, es', w') /\ engine_sim e' es' /\ engine_effect es w1 es' w' ts /\
    (Z.of_nat (length ts) <= engine_total cs2)%Z.
Proof.
  unfold engine_workload_ok. rewrite forallb_app, length_app, engine_total_app.
  pose proof (engine_total_nonneg cs1). pose proof (engine_total_nonneg cs2).
  intros [[[Hc1 Hc2]%andb_true_iff Ht%Z.leb_le]%andb_true_iff Hn%N.ltb_lt]%andb_true_iff Hrun.
  destruct (engine_reached now_ns cb cs1 w0) as (rs1 & e1 & es & w2 & ts & Hrun1 & Hspec & Hsim & Hok & _).
  { unfold engine_workload_ok. rewrite Hc1, (proj2 (Z.leb_le _ _)), (proj2 (N.ltb_lt _ _)) by lia. done. }
  rewrite Hrun in Hrun1. injection Hrun1 as <- <- <-.
  destruct (spec_engine_run_ok now_ns bk_refuses bk_band (engine_total cs1) (length cs1) es cs2 w1) as (rs2 & es' & w' & ts2 & Hr2 & Hs2 & _ & Hcount & Heff); [done..|lia|lia|].
  destruct (engine_run_sim now_ns (engine_total cs1) (length cs1) e es cs2 w1 rs2 es' w' Hsim Hok) as (e' & Hr' & Hsim'); [done..|lia|lia|done|].
  exists es, rs2, e', es', w', ts2. done.
Qed.

(** A replay submits the orders to the engine in their order and counts
    what the engine reported: the statistics are those of the specification's
    reports; every order is accepted or rejected, and the filled and partially
    filled ones are accepted. *)
Theorem replay_counts_reports cs orders rs (e : Engine B) w :
  engine_workload_ok (cs ++ (XSubmit <$> orders)) = true -> engine_run now_ns (new_engine ∅) cs eworld0 = Some (rs, e, w) ->
  exists es es' e' w' reports elapsed,
    spec_engine_run now_ns bk_refuses bk_band (new_engine ∅) cs eworld0 = (rs, es, w) /\
    spec_engine_run now_ns bk_refuses bk_band es (XSubmit <$> orders) (tick w) = (XReport <$> reports, es', w') /\
    replay now_ns e orders w = Some (tally elapsed reports, e', tick w') /\
    length reports = length orders /\
    elapsed = (Z.of_N (now_ns (w_reads (ew_world w'))) - Z.of_N (now_ns (w_reads (ew_world w))))%Z /\
    (rs_accepted (tally elapsed reports) + rs_rejected (tally elapsed reports) = rs_total (tally elapsed reports))%N /\
    (rs_filled (tally elapsed reports) + rs_partially_filled (tally elapsed reports) <= rs_accepted (tally elapsed reports))%N /\
    forall s, option_Forall2 (fun b sb => shows b (sb_book sb)) (books_ e' !! s) (books_ es' !! s).
Proof.
  intros Hok Hrun. destruct (engine_resumes false cs _ eworld0 rs e w (tick w) Hok Hrun) as (es & rs2 & e' & es' & w' & ts & Hs1 & Hr & Hs & Hsim & _).
  apply andb_true_iff in Hok as [_ Hn%N.ltb_lt]. rewrite length_app, length_fmap in Hn. unfold kNullIndex in Hn.
  destruct (replay_run e orders w rs2 e' w') as (reports & -> & Hlen & Hl); [unfold vsize, two64; lia|done|].
  exists es, es', e', w', reports, (elapsed_between w w'). split_and!; [done..| | |].
  - apply tally_sums.
  - apply tally_sums.
  - intros s. destruct Hsim as [Hb _ _ _]. specialize (Hb s). inversion Hb as [b sb (Hrep & _)|]; constructor. by apply rep_shows.
Qed.
End runs.

Definition replay_orders : list OrderRequest := [sell 0 101 5 0; buy 0 101 3 0; buy 0 102 4 0; buy 0 99 0 0; sell 0 98 0 0; buy 0 97 6 0].

Lemma replay_counts_reports_witness :
  exists rs (e : Engine Arr.OrderBookArray) w es es' e' w' reports elapsed,
    engine_run ticks (new_engine ∅) [XSymbol 1 95 105 16 STPNone] eworld0 = Some (rs, e, w) /\
    spec_engine_run ticks bk_refuses bk_band (new_engine ∅) [XSymbol 1 95 105 16 STPNone] eworld0 = (rs, es, w) /\
    spec_engine_run ticks bk_refuses bk_band es (XSubmit <$> replay_orders) (tick w) = (XReport <$> reports, es', w') /\
    replay ticks e replay_orders w = Some (tally elapsed reports, e', tick w') /\
    length reports = length replay_orders /\
    elapsed = (Z.of_N (ticks (w_reads (ew_world w'))) - Z.of_N (ticks (w_reads (ew_world w))))%Z /\
    (rs_accepted (tally elapsed reports) + rs_rejected (tally elapsed reports) = rs_total (tally elapsed reports))%N /\
    (rs_filled (tally elapsed reports) + rs_partially_filled (tally elapsed reports) <= rs_accepted (tally elapsed reports))%N /\
    forall s, option_Forall2 (fun b sb => shows b (sb_book sb)) (books_ e' !! s) (books_ es' !! s).
Proof.
  destruct (engine_run ticks (new_engine ∅ : Engine Arr.OrderBookArray) [XSymbol 1 95 105 16 STPNone] eworld0) as [[[rs e] w]|] eqn:Hrun;
    [|vm_compute in Hrun; discriminate].
  exists rs, e, w.
  destruct (replay_counts_reports ticks [XSymbol 1 95 105 16 STPNone] replay_orders rs e w ltac:(vm_compute; reflexivity) Hrun)
    as (es & es' & e' & w' & reports & elapsed & Hall).
  exists es, es', e', w', reports, elapsed. split; [done|exact Hall].
Defined.

(** The same session evaluated: one order filled, one filled in part, two of
    quantity zero rejected, nine readings of the clock. *)
Example replay_example :
  (r ← engine_run ticks (new_engine ∅ : Engine Arr.OrderBookArray) [XSymbol 1 95 105 16 STPNone] eworld0;
   '(s, _, _) ← replay ticks r.1.2 replay_orders r.2; Some s) = Some (mkStats 6 4 2 1 1 9).
Proof. vm_compute. reflexivity. Qed.
