(* ===== verification/ReplayFigures.v ===== *)
(** include/lightninglob/replay.hpp and src/main.cpp: the accuracy of the two
    floating-point figures that the replay mode prints, its throughput
    ([ReplayStats::orders_per_second]) and its elapsed time in milliseconds. *)

From Stdlib Require Import Ascii String QArith Qabs.
From S2P Require Import Prelude Text Double ReplayRun.

#[local] Open Scope Q_scope.

(** C38. The figures of a replay are right to the digits printed: the
    throughput is the whole number nearest to orders per second, the elapsed
    time the number of microseconds nearest to it, with the decimal point put
    in, both up to a relative error of [2 ^ -50] from the four roundings of
    floating-point arithmetic; no operation overflows or loses precision to
    underflow; and when no time has passed or there was no order, the
    throughput is printed as zero rather than divided by zero. *)
Theorem replay_figures_accurate stats : (rs_total stats < two64)%N -> (rs_elapsed stats <= int64_max)%Z ->
  ((rs_elapsed stats <= 0)%Z \/ rs_total stats = 0%N -> print_fixed 0 (orders_per_second stats) = ["0"%char]) /\
  ((0 < rs_elapsed stats)%Z -> rs_total stats <> 0%N ->
    normal (-1074) 970 (orders_per_second stats) /\ normal (-1074) 970 (milliseconds (rs_elapsed stats)) /\
    exists per_second microseconds : N,
      print_fixed 0 (orders_per_second stats) = print_N per_second /\
      print_fixed 3 (milliseconds (rs_elapsed stats)) = print_N (microseconds / 1000) ++ ["."%char] ++ zero_pad 3 (print_N (microseconds mod 1000)) /\
      (let exact := inject_Z (Z.of_N (rs_total stats)) * 1000000000 / inject_Z (rs_elapsed stats) in
       Qabs (inject_Z (Z.of_N per_second) - exact) <= (1 # 2) + exact * (1 # 1125899906842624)) /\
      let exact := inject_Z (rs_elapsed stats) / 1000 in
      Qabs (inject_Z (Z.of_N microseconds) - exact) <= (1 # 2) + exact * (1 # 1125899906842624)).
Proof.
  unfold two64, int64_max, orders_per_second. intros Ht He. split.
  { intros [H0|H0]; [by rewrite rate_no_time|by rewrite H0, rate_none]. }
  intros Hpos Hne. destruct (rate_accurate (rs_total stats) (rs_elapsed stats)) as [Nr Br]; [lia..|].
  destruct (milliseconds_accurate (rs_elapsed stats)) as [Nm Bm]; [lia|].
  assert (Mr : (0 <= d_mant (rate (rs_total stats) (rs_elapsed stats)))%Z) by (destruct Nr as [? _]; lia).
  assert (Mm : (0 <= d_mant (milliseconds (rs_elapsed stats)))%Z) by (destruct Nm as [? _]; lia).
  split; [done|]. split; [done|].
  eexists (Z.to_N _), (Z.to_N _). split; [by apply print_whole|]. split; [by apply print_thousandths|]. split; cbn zeta.
  - rewrite Z2N.id by (by apply fixed_digits_near). pose proof (printed_near 0 _ _ Mr Br) as Hp. change (inject_Z (10 ^ Z.of_N 0)) with 1 in Hp. by rewrite !Qmult_1_r in Hp.
  - rewrite Z2N.id by (by apply fixed_digits_near). pose proof (printed_near 3 _ _ Mm Bm) as Hp. change (inject_Z (10 ^ Z.of_N 3)) with 1000 in Hp.
    assert (E : inject_Z (rs_elapsed stats) / 1000000 * 1000 == inject_Z (rs_elapsed stats) / 1000) by field. by rewrite E in Hp.
Qed.

(** Three orders in two seconds: one and a half, printed as the even 2. *)
Definition small_stats : ReplayStats := mkStats 3 3 0 0 0 2000000000.

Lemma replay_figures_accurate_witness :
  (rs_total small_stats < two64)%N /\ (rs_elapsed small_stats <= int64_max)%Z /\ (0 < rs_elapsed small_stats)%Z /\
  ((rs_elapsed small_stats <= 0)%Z \/ rs_total small_stats = 0%N -> print_fixed 0 (orders_per_second small_stats) = ["0"%char]) /\
  ((0 < rs_elapsed small_stats)%Z -> rs_total small_stats <> 0%N ->
    normal (-1074) 970 (orders_per_second small_stats) /\ normal (-1074) 970 (milliseconds (rs_elapsed small_stats)) /\
    exists per_second microseconds : N,
      print_fixed 0 (orders_per_second small_stats) = print_N per_second /\
      print_fixed 3 (milliseconds (rs_elapsed small_stats)) = print_N (microseconds / 1000) ++ ["."%char] ++ zero_pad 3 (print_N (microseconds mod 1000)) /\
      (let exact := inject_Z (Z.of_N (rs_total small_stats)) * 1000000000 / inject_Z (rs_elapsed small_stats) in
       Qabs (inject_Z (Z.of_N per_second) - exact) <= (1 # 2) + exact * (1 # 1125899906842624)) /\
      let exact := inject_Z (rs_elapsed small_stats) / 1000 in
      Qabs (inject_Z (Z.of_N microseconds) - exact) <= (1 # 2) + exact * (1 # 1125899906842624)).
Proof.
  split; [reflexivity|]. split; [discriminate|]. split; [reflexivity|]. apply (replay_figures_accurate small_stats); [reflexivity|discriminate].
Defined.

Example figures : let show s e := (print_fixed 0 (orders_per_second (mkStats s 0 0 0 0 e)), print_fixed 3 (milliseconds e)) in
  [show 1000000%N 123456789%Z; show 3%N 2000000000%Z; show 7%N 0%Z] =
  [(lit "8100000", lit "123.457"); (lit "2", lit "2000.000"); (lit "0", lit "0.000")].
Proof. vm_compute. reflexivity. Qed.
