(* ===== verification/BookPrint.v ===== *)
(** The [print] member of the three order books: a header and a table with one
    row per level, bids on the left and asks on the right.

    The three bodies are the same but for the book's own depth functions and
    its [kApproachName].  The table can be read back: [read_table] takes the
    words of every row. *)

From Stdlib Require Import Ascii String.
From S2P Require Import Prelude Types Text OrderPool BookCore BookSpec BookSpecFacts BookRep BookInterface.
From S2P Require Import OrderBookVector VectorRefinement OrderBookMap MapRefinement OrderBookArray ArrayRefinement Books BookTheorems.

Definition space : ascii := " "%char.

Definition print_header (symbol : SymbolId) (name : string) : text :=
  lit "Order Book [symbol=" ++ print_N symbol ++ lit "] (" ++ lit name ++ lit ")" ++ [newline] ++
  pad_left 12 (lit "BID QTY") ++ lit " " ++ pad_left 10 (lit "BID PX") ++ lit " | " ++
  pad_right 10 (lit "ASK PX") ++ lit " " ++ pad_right 12 (lit "ASK QTY") ++ [newline] ++
  replicate 48 "-"%char ++ [newline].

Definition print_row (bid ask : option PriceLevelView) : text :=
  match bid with
  | Some v => pad_left 12 (print_Z (v_total_quantity v)) ++ lit " " ++ pad_left 10 (print_Z (v_price v))
  | None => pad_left 12 [] ++ lit " " ++ pad_left 10 []
  end ++
  lit " | " ++
  match ask with
  | Some v => pad_right 10 (print_Z (v_price v)) ++ lit " " ++ pad_right 12 (print_Z (v_total_quantity v))
  | None => pad_right 10 [] ++ lit " " ++ pad_right 12 []
  end ++ [newline].

Definition print_book (symbol : SymbolId) (name : string) (bids asks : list PriceLevelView) : text :=
  print_header symbol name ++
  mjoin ((fun i => print_row (bids !! i) (asks !! i)) <$> seq 0 (Nat.max (length bids) (length asks))).

Definition vec_name : string := "sorted std::vector".
Definition map_name : string := "std::map".
Definition arr_name : string := "direct-indexed array".

Definition vec_print (b : Vec.OrderBookVector) (depth : nat) : text :=
  print_book (symbol_ (config_ (Vec.core_ b))) vec_name (Vec.bid_depth b depth) (Vec.ask_depth b depth).

Definition map_print (b : MapBook.OrderBookMap) (depth : nat) : text :=
  print_book (symbol_ (config_ (MapBook.core_ b))) map_name (MapBook.bid_depth b depth) (MapBook.ask_depth b depth).

Definition arr_print (b : Arr.OrderBookArray) (depth : nat) : option text :=
  bids ← Arr.bid_depth b depth;
  asks ← Arr.ask_depth b depth;
  Some (print_book (symbol_ (config_ (Arr.core_ b))) arr_name bids asks).

(** * Reading a table back *)

Definition words (s : text) : list text := filter (fun w => w <> []) (fields_of space s).

Definition read_pair (a b : text) : option (Z * Z) :=
  match from_chars (SInt 64) a, from_chars (SInt 64) b with
  | inr (x, []), inr (y, []) => Some (x, y)
  | _, _ => None
  end.

(** The quantity and price left of the bar, the price and quantity right of it,
    one of the two sides at least; any other row cannot be read. *)
Definition read_row (row : text) : option (option (Z * Z) * option (Z * Z)) :=
  match words row with
  | [bq; bp; bar; ap; aq] =>
      if decide (bar = lit "|") then bid ← read_pair bp bq; ask ← read_pair ap aq; Some (Some bid, Some ask) else None
  | [a; b; c] =>
      if decide (a = lit "|") then ask ← read_pair b c; Some (None, Some ask)
      else if decide (c = lit "|") then bid ← read_pair b a; Some (Some bid, None)
      else None
  | _ => None
  end.

(** The prices and quantities of the rows below the three header lines, if every
    one of them can be read. *)
Definition read_table (s : text) : option (list (Z * Z) * list (Z * Z)) :=
  rows ← mapM read_row (drop 3 (lines_of s));
  Some (omap fst rows, omap snd rows).

Definition shown (v : PriceLevelView) : Z * Z := (v_price v, v_total_quantity v).

Definition view_ok (v : PriceLevelView) : Prop :=
  representable (SInt 64) (v_price v) = true /\ representable (SInt 64) (v_total_quantity v) = true.

#[export] Instance view_ok_dec v : Decision (view_ok v).
Proof. unfold view_ok. apply _. Defined.

(** ** Words *)

Lemma words_space s : words (space :: s) = words s.
Proof. unfold words. cbn [fields_of]. rewrite decide_True by done. by rewrite filter_cons_False by auto. Qed.

Lemma words_spaces n s : words (replicate n space ++ s) = words s.
Proof. induction n as [|n IH]; [done|]. cbn [replicate app]. by rewrite words_space. Qed.

Lemma words_word w s : space ∉ w -> w <> [] -> words (w ++ space :: s) = w :: words s.
Proof. intros Hn Hne. unfold words. rewrite fields_app by done. by rewrite filter_cons_True. Qed.

Lemma words_last w n : space ∉ w -> w <> [] -> words (w ++ replicate n space) = [w].
Proof.
  intros Hn Hne. destruct n as [|n].
  - rewrite app_nil_r. unfold words. rewrite fields_none by done. by rewrite filter_cons_True.
  - cbn [replicate]. rewrite words_word by done. f_equal. rewrite <- (app_nil_r (replicate n space)). by rewrite words_spaces.
Qed.

Lemma number_not s c : Forall number_char s -> isdigit c = false -> c <> "-"%char -> c ∉ s.
Proof. intros Hs Hc Hm Hin. rewrite Forall_forall in Hs. destruct (Hs c Hin) as [|]; congruence. Qed.

Lemma print_Z_word z : space ∉ print_Z z /\ newline ∉ print_Z z /\ print_Z z <> [].
Proof.
  split_and!; [by apply number_not; [apply print_Z_chars|..]..|]. unfold print_Z.
  destruct (z <? 0)%Z; [done|]. apply print_N_spec.
Qed.

Lemma read_pair_print x y : representable (SInt 64) x = true -> representable (SInt 64) y = true ->
  read_pair (print_Z x) (print_Z y) = Some (x, y).
Proof.
  intros Hx Hy. unfold read_pair. rewrite <- (app_nil_r (print_Z x)), <- (app_nil_r (print_Z y)). by rewrite !from_chars_print_Z.
Qed.

(** ** Rows *)

(** A row less its newline. *)
Definition row_body (bid ask : option PriceLevelView) : text :=
  match bid with
  | Some v => pad_left 12 (print_Z (v_total_quantity v)) ++ space :: pad_left 10 (print_Z (v_price v))
  | None => replicate 23 space
  end ++ space :: "|"%char :: space ::
  match ask with
  | Some v => pad_right 10 (print_Z (v_price v)) ++ space :: pad_right 12 (print_Z (v_total_quantity v))
  | None => replicate 23 space
  end.

Lemma print_row_body bid ask : print_row bid ask = row_body bid ask ++ [newline].
Proof. unfold print_row, row_body. destruct bid, ask; cbn [lit list_ascii_of_string]; repeat (rewrite <- app_assoc; cbn [app]); done. Qed.

Lemma pad_right_words w x s : space ∉ x -> x <> [] -> words (pad_right w x ++ space :: s) = x :: words s.
Proof.
  intros Hn Hne. unfold pad_right. rewrite <- app_assoc. destruct (w - length x) as [|m]; [by apply words_word|].
  cbn [replicate app]. rewrite words_word by done. f_equal. by rewrite words_spaces, words_space.
Qed.

Lemma ask_words ask : words (match ask with
    | Some v => pad_right 10 (print_Z (v_price v)) ++ space :: pad_right 12 (print_Z (v_total_quantity v))
    | None => replicate 23 space end) =
  match ask with Some v => [print_Z (v_price v); print_Z (v_total_quantity v)] | None => [] end.
Proof.
  destruct ask as [v|]; [|done]. destruct (print_Z_word (v_price v)) as (? & _ & ?), (print_Z_word (v_total_quantity v)) as (? & _ & ?).
  rewrite pad_right_words by done. f_equal. by apply words_last.
Qed.

Lemma row_words bid ask : words (row_body bid ask) =
  match bid with Some v => [print_Z (v_total_quantity v); print_Z (v_price v)] | None => [] end ++ lit "|" ::
  match ask with Some v => [print_Z (v_price v); print_Z (v_total_quantity v)] | None => [] end.
Proof.
  assert (Hbar : forall s, words (space :: "|"%char :: space :: s) = lit "|" :: words s).
  { intros s. rewrite words_space. apply (words_word ["|"%char]); [|done]. by intros ?%list_elem_of_singleton. }
  unfold row_body. destruct bid as [v|].
  - destruct (print_Z_word (v_price v)) as (? & _ & ?), (print_Z_word (v_total_quantity v)) as (? & _ & ?).
    unfold pad_left. rewrite <- !app_assoc, words_spaces. cbn [app]. rewrite words_word by done. rewrite <- app_assoc, words_spaces.
    rewrite words_word by done. rewrite <- (words_space ("|"%char :: _)), Hbar, ask_words. done.
  - by rewrite words_spaces, Hbar, ask_words.
Qed.

Lemma print_Z_not_bar z : print_Z z <> lit "|".
Proof. intros E. pose proof (print_Z_chars z) as H. rewrite E in H. apply Forall_cons in H as [[H|H] _]; discriminate. Qed.

Lemma read_row_body bid ask : option_Forall2 (fun v _ => view_ok v) bid bid -> option_Forall2 (fun v _ => view_ok v) ask ask ->
  (bid <> None \/ ask <> None) -> read_row (row_body bid ask) = Some (shown <$> bid, shown <$> ask).
Proof.
  intros Hb Ha Hne. unfold read_row. rewrite row_words. unfold shown.
  destruct bid as [v|], ask as [v'|]; cbn [app fmap option_fmap option_map]; [| | |naive_solver].
  - inversion Hb as [? ? [? ?]|]. inversion Ha as [? ? [? ?]|]. rewrite decide_True by done. by rewrite !read_pair_print.
  - inversion Hb as [? ? [? ?]|]. rewrite decide_False by apply print_Z_not_bar. rewrite decide_True by done. by rewrite !read_pair_print.
  - inversion Ha as [? ? [? ?]|]. rewrite decide_True by done. by rewrite read_pair_print.
Qed.

Lemma row_no_newline bid ask : newline ∉ row_body bid ask.
Proof.
  assert (Hpad : forall n, newline ∉ replicate n space) by (intros n [Hn _]%elem_of_replicate; done).
  assert (Hnum : forall z, newline ∉ print_Z z) by (intros z; apply print_Z_word).
  unfold row_body, pad_left, pad_right. destruct bid, ask; 
    repeat (rewrite not_elem_of_app || rewrite not_elem_of_cons); repeat split; done || apply Hpad || apply Hnum.
Qed.

(** The three lines above the rows. *)
Definition header_lines (symbol : SymbolId) (name : string) : list text :=
  [lit "Order Book [symbol=" ++ print_N symbol ++ lit "] (" ++ lit name ++ lit ")"; lit "     BID QTY     BID PX | ASK PX     ASK QTY     "; replicate 48 "-"%char].

Lemma print_book_lines symbol name bids asks : newline ∉ lit name ->
  lines_of (print_book symbol name bids asks) =
  header_lines symbol name ++ ((fun i => row_body (bids !! i) (asks !! i)) <$> seq 0 (Nat.max (length bids) (length asks))).
Proof.
  intros Hname. set (body := (fun i => row_body (bids !! i) (asks !! i)) <$> _).
  assert (E : print_book symbol name bids asks = mjoin ((fun l => l ++ [newline]) <$> (header_lines symbol name ++ body))).
  { unfold print_book, body. rewrite fmap_app, join_app. f_equal.
    - unfold print_header, header_lines. cbn [fmap list_fmap mjoin list_join]. rewrite app_nil_r. by rewrite <- !app_assoc.
    - rewrite <- list_fmap_compose. f_equal. apply list_fmap_ext. intros _ i _. apply print_row_body. }
  rewrite E. apply lines_mjoin, Forall_app. split.
  - repeat constructor; try by apply (bool_decide_unpack _).
    repeat (rewrite not_elem_of_app); split_and!; try done; try by apply (bool_decide_unpack _).
    apply number_not; [apply print_N_chars|done|done].
  - apply Forall_fmap, Forall_true. intros i. apply row_no_newline.
Qed.

Lemma omap_of_fmap {A B C} (f : A -> B) (g : B -> option C) (l : list A) : omap g (f <$> l) = omap (fun x => g (f x)) l.
Proof. induction l as [|x l IH]; [done|]. cbn. by rewrite <- IH. Qed.

Lemma omap_lookup {A B} (f : A -> B) (l : list A) n : length l <= n -> omap (fun i => f <$> l !! i) (seq 0 n) = f <$> l.
Proof.
  revert n. induction l as [|x l IH]; intros n Hn; simpl in *.
  - induction (seq 0 n); [done|]. by cbn.
  - destruct n as [|n]; [lia|]. cbn [seq omap list_omap]. cbn. f_equal. rewrite <- fmap_S_seq. rewrite omap_of_fmap. apply (IH n). lia.
Qed.

Lemma read_print_book symbol name bids asks : newline ∉ lit name -> Forall view_ok bids -> Forall view_ok asks ->
  read_table (print_book symbol name bids asks) = Some (shown <$> bids, shown <$> asks).
Proof.
  intros Hname Hb Ha. unfold read_table. rewrite print_book_lines by done. change (drop 3 (header_lines symbol name ++ ?x)) with x.
  assert (E : mapM read_row ((fun i => row_body (bids !! i) (asks !! i)) <$> seq 0 (Nat.max (length bids) (length asks))) =
    Some ((fun i => (shown <$> bids !! i, shown <$> asks !! i)) <$> seq 0 (Nat.max (length bids) (length asks)))).
  { apply mapM_Some, Forall2_fmap, Forall_Forall2_diag, Forall_forall. intros j [_ Hi]%elem_of_seq. apply read_row_body.
    - destruct (bids !! j) eqn:E; constructor. by eapply Forall_lookup_1 in E.
    - destruct (asks !! j) eqn:E; constructor. by eapply Forall_lookup_1 in E.
    - destruct (decide (j < length bids)) as [Hj|Hj]; [left|right]; apply not_eq_None_Some, lookup_lt_is_Some; lia. }
  rewrite E. cbn [mbind option_bind]. rewrite !omap_of_fmap. do 2 f_equal; apply omap_lookup; lia.
Qed.

Lemma arr_print_rep (b : Arr.OrderBookArray) a n : bk_rep b a ->
  arr_print b n = Some (print_book (symbol_ (bk_config b)) arr_name (depth Buy n a) (depth Sell n a)).
Proof. intros Hr. pose proof (bk_depth_law Buy b a n Hr) as E1. pose proof (bk_depth_law Sell b a n Hr) as E2. cbn in E1, E2.
  unfold arr_print. by rewrite E1, E2. Qed.

Lemma read_arr_table symbol bids asks : Forall view_ok bids -> Forall view_ok asks ->
  read_table (print_book symbol arr_name bids asks) = Some (shown <$> bids, shown <$> asks).
Proof. apply read_print_book. by apply (bool_decide_unpack _). Qed.

(** C39. What [print] writes can be read back: the rows of the printed table hold,
    in order, the price and quantity of every level of the depth asked for, on
    both sides, and nothing else (a row with anything else in it makes the table
    unreadable), whichever book prints and however long the numbers are. *)
Theorem print_reads_back (a : abook) (n : nat) :
  Forall view_ok (depth Buy n a) -> Forall view_ok (depth Sell n a) ->
  (forall b : Vec.OrderBookVector, bk_rep b a -> read_table (vec_print b n) = Some (shown <$> depth Buy n a, shown <$> depth Sell n a)) /\
  (forall b : MapBook.OrderBookMap, bk_rep b a -> read_table (map_print b n) = Some (shown <$> depth Buy n a, shown <$> depth Sell n a)) /\
  (forall b : Arr.OrderBookArray, bk_rep b a ->
     exists t, arr_print b n = Some t /\ read_table t = Some (shown <$> depth Buy n a, shown <$> depth Sell n a)).
Proof.
  intros Hb Ha. split_and!; intros b Hr; pose proof (bk_depth_law Buy b a n Hr) as E1; pose proof (bk_depth_law Sell b a n Hr) as E2; cbn in E1, E2.
  - injection E1 as E1. injection E2 as E2. unfold vec_print. rewrite E1, E2. apply read_print_book; [by apply (bool_decide_unpack _)|done..].
  - injection E1 as E1. injection E2 as E2. unfold map_print. rewrite E1, E2. apply read_print_book; [by apply (bool_decide_unpack _)|done..].
  - rewrite (arr_print_rep b a n Hr). eexists. split; [done|]. by apply read_arr_table.
Qed.

(** The abstract book after [demo]. *)
Definition demo_book : abook := (spec_run BookTheorems.tick (mkConfig 1 true STPNone) (fun _ => true) empty_abook demo world0).1.2.

Lemma print_reads_back_witness :
  exists b : Vec.OrderBookVector, bk_rep b demo_book /\
    Forall view_ok (depth Buy 5 demo_book) /\ Forall view_ok (depth Sell 5 demo_book) /\
    read_table (vec_print b 5) = Some ([(98, 2)], [(101, 11); (103, 4)])%Z.
Proof.
  destruct (vec_session_inv BookTheorems.tick 1 16 STPNone eq_refl) as (b0 & Hr0 & Hc & _).
  destruct (spec_run BookTheorems.tick (bk_config b0) (bk_in_range b0) empty_abook demo world0) as [[rs a] w] eqn:E.
  destruct (run_refines_empty BookTheorems.tick b0 demo world0 rs a w Hr0 eq_refl E) as (b & _ & Hr & _).
  rewrite Hc in E. assert (a = demo_book) as -> by (change (bk_in_range b0) with (fun _ : Price => true) in E; unfold demo_book; by rewrite E).
  exists b. assert (H1 : Forall view_ok (depth Buy 5 demo_book)) by (apply (bool_decide_unpack _); vm_compute; exact I).
  assert (H2 : Forall view_ok (depth Sell 5 demo_book)) by (apply (bool_decide_unpack _); vm_compute; exact I).
  split; [exact Hr|]. split; [exact H1|]. split; [exact H2|]. rewrite (proj1 (print_reads_back demo_book 5 H1 H2) b Hr). vm_compute. reflexivity.
Defined.
