(* ===== verification/Demo.v ===== *)
(** src/main.cpp: the replay mode and the scripted walkthrough, over the engine
    with the array book.

    A mode's console output is the list of its [Event]s: log messages in the
    order of the calls, flushes, and text written to [std::cout]. *)

From Stdlib Require Import Ascii String.
From S2P Require Import Prelude Types Text Double OrderPool BookCore BookSpec BookSpecFacts BookTrades BookInterface.
From S2P Require Import OrderBookVector VectorRefinement OrderBookMap MapRefinement OrderBookArray ArrayRefinement.
From S2P Require Import Books RiskManager MatchingEngine EngineFacts EngineTheorems BookPrint Replay ReplayRun.

(** [using Engine = MatchingEngine<OrderBookArray>]. *)
Abbreviation DemoEngine := (Engine Arr.OrderBookArray) (only parsing).

Inductive Event := Logged (message : text) | Flushed | Console (output : text).

(** [order_capacity_hint = 4096]. *)
Definition default_hint : N := 4096.

Definition print_symbol (e : DemoEngine) (depth : nat) : option text := b ← book e 1; arr_print b depth.

(** A line of output: a label and a value. *)
Definition row (label : string) (value : text) : text := lit label ++ value ++ [newline].

(** * Replay mode *)

Definition replay_summary (stats : ReplayStats) (trade_count : N) : text :=
  [newline] ++ row "Replay complete:" [] ++
  row "  orders processed:  " (print_N (rs_total stats)) ++
  row "  accepted:          " (print_N (rs_accepted stats)) ++
  row "  rejected:          " (print_N (rs_rejected stats)) ++
  row "  fully filled:      " (print_N (rs_filled stats)) ++
  row "  partially filled:  " (print_N (rs_partially_filled stats)) ++
  row "  trades generated:  " (print_N trade_count) ++
  row "  elapsed:           " (print_fixed 3 (milliseconds (rs_elapsed stats)) ++ lit " ms") ++
  row "  throughput:        " (print_fixed 0 (orders_per_second stats) ++ lit " orders/sec") ++ [newline].

Section replay_mode.
Context (now_ns : nat -> Timestamp).

Definition run_replay_mode (path : text) (file : option text)
    : Res (list Event * DemoEngine * EngineWorld) :=
  let event1 := Logged (lit "loading replay data from " ++ path) in
  orders <-- load_csv file;
  let event2 := Logged (lit "loaded " ++ print_N (vsize orders) ++ lit " orders") in
  added <-- lift (add_symbol (new_engine ∅) 1 1 200000 default_hint STPNone);
  let engine := set_trade_callback added.2 in
  replayed <-- lift (replay now_ns engine orders eworld0);
  let '(stats, engine1, w) := replayed in
  let trade_count := vsize (ew_user w) in
  book <-- lift (print_symbol engine1 8);
  ret ([event1; event2; Flushed; Console (replay_summary stats trade_count); Console book], engine1, w).
End replay_mode.

(** The engine calls before the replay. *)
Definition replay_setup : list EngineCall := [XSymbol 1 1 200000 default_hint STPNone; XCallback].

(** * Scripted walkthrough *)

Definition report_line (r : ExecutionReport) : text :=
  lit "order " ++ print_N (er_order_id r) ++ lit " -> " ++ lit (status_to_string (er_status r)) ++ lit " filled=" ++ print_Z (er_filled_quantity r) ++
  lit " remaining=" ++ print_Z (er_remaining_quantity r) ++ lit " reason=" ++ lit (reason_to_string (er_reject_reason r)).

Definition trade_line (t : Trade) : text :=
  lit "TRADE symbol=" ++ print_N (t_symbol t) ++ lit " price=" ++ print_Z (t_price t) ++ lit " qty=" ++ print_Z (t_quantity t) ++
  lit " taker_order=" ++ print_N (t_taker_order_id t) ++ lit " maker_order=" ++ print_N (t_maker_order_id t) ++
  lit " taker_side=" ++ lit (side_to_string (t_taker_side t)).

Record Script := mkScript { sc_engine : DemoEngine; sc_world : EngineWorld; sc_events : list Event }.

Definition emit (ev : list Event) (s : Script) : Script := mkScript (sc_engine s) (sc_world s) (sc_events s ++ ev).

Section script.
Context (now_ns : nat -> Timestamp).

(** The trades of a call reach the log through the callback, before the report. *)
Definition log_call (report : ExecutionReport) (e : DemoEngine) (w : EngineWorld) (s : Script) : Script :=
  mkScript e w (sc_events s ++ (Logged ∘ trade_line <$> drop (length (ew_user (sc_world s))) (ew_user w)) ++ [Logged (report_line report)]).

Definition script_submit (side : Side) (type : OrderType) (price : Price) (qty : Quantity) (tif : TimeInForce) (s : Script) : option (OrderId * Script) :=
  let req := mkRequest 0 1 kNoParticipant side type price qty tif in
  '(report, e, w) ← submit_order now_ns (sc_engine s) req (sc_world s);
  Some (er_order_id report, log_call report e w s).

Definition run_scripted_demo : option Script :=
  '(_, e0) ← add_symbol (new_engine ∅) 1 1 100000 default_hint STPNone;
  let e1 := set_risk_limits e0 1 kNoParticipant (mkLimits 10000 100000 100000) in
  let s0 := mkScript (set_trade_callback e1) eworld0 [Logged (lit "LightningLOB scripted walkthrough starting"); Logged (lit "--- resting some liquidity ---")] in
  '(_, s1) ← script_submit Buy Limit 9995 50 GTC s0;
  '(_, s2) ← script_submit Buy Limit 9990 100 GTC s1;
  '(_, s3) ← script_submit Sell Limit 10005 40 GTC s2;
  '(_, s4) ← script_submit Sell Limit 10010 80 GTC s3;
  table1 ← print_symbol (sc_engine s4) 5;
  let s5 := emit [Flushed; Console [newline]; Console table1; Logged (lit "--- an order that crosses the spread ---")] s4 in
  '(_, s6) ← script_submit Buy Limit 10005 60 GTC s5;
  let s7 := emit [Logged (lit "--- cancel + amend ---")] s6 in
  '(resting_id, s8) ← script_submit Buy Limit 9980 30 GTC s7;
  '(amend_report, e9, w9) ← amend_order now_ns (sc_engine s8) 1 resting_id 15 None (sc_world s8);
  let s9 := log_call amend_report e9 w9 s8 in
  '(cancelled, e10) ← cancel_order e9 1 resting_id;
  let s10 := mkScript e10 (sc_world s9) (sc_events s9 ++
    [Logged (lit "cancel of order " ++ print_N resting_id ++ lit " -> " ++ if (cancelled : bool) then lit "OK" else lit "FAILED");
     Logged (lit "--- a market order sweep ---")]) in
  '(_, s11) ← script_submit Sell Market kMarketOrderPrice 25 GTC s10;
  table2 ← print_symbol (sc_engine s11) 5;
  Some (emit [Flushed; Console ([newline] ++ lit "Final book:" ++ [newline]); Console table2;
    Console ([newline] ++ lit "Net position (symbol 1): " ++ print_Z (position (risk_manager_ (sc_engine s11)) 1 kNoParticipant) ++ [newline])] s11).
End script.

(** * The command line *)

Inductive Mode := Help | ReplayUsage | ReplayFile (path : text) | MtMode | Scripted.

(** The mode that [main] chooses from its arguments. *)
Definition choose_mode (args : list text) : Mode :=
  match args with
  | [] => Scripted
  | a0 :: rest =>
      if bool_decide (a0 = lit "--help") || bool_decide (a0 = lit "-h") then Help
      else if bool_decide (a0 = lit "replay") then match rest with [] => ReplayUsage | path :: _ => ReplayFile path end
      else if bool_decide (a0 = lit "mt-demo") then MtMode
      else Scripted
  end.

Section spec_books.
Context (now_ns : nat -> Timestamp) (refuses : Price -> Price -> option Arr.ctor_error) (band : Price -> Price -> Price -> bool).

(** Submissions keep every symbol's book. *)
Lemma spec_submit_keeps (e : Engine SpecBook) rq w s :
  is_Some (books_ e !! s) -> is_Some (books_ (spec_submit now_ns e rq w).1.2 !! s).
Proof.
  intros Hs. unfold spec_submit. destruct (books_ e !! rq_symbol rq) as [b|]; [|done].
  destruct (default _ _) as [reason r1]. case_bool_decide; [|done]. destruct (spec_add _ _ _ _ _ _) as [[report a] w2]. simpl.
  apply lookup_insert_is_Some. destruct (decide (rq_symbol rq = s)); auto.
Qed.

Lemma spec_submits_keep orders (e : Engine SpecBook) w s :
  is_Some (books_ e !! s) -> is_Some (books_ (spec_engine_run now_ns refuses band e (XSubmit <$> orders) w).1.2 !! s).
Proof.
  revert e w. induction orders as [|rq orders IH]; intros e w Hs; [done|]. cbn [fmap list_fmap spec_engine_run spec_engine_step].
  pose proof (spec_submit_keeps e rq w s Hs) as H1. destruct (spec_submit now_ns e rq w) as [[r e1] w1]. simpl in H1.
  specialize (IH e1 w1 H1). by destruct (spec_engine_run now_ns refuses band e1 _ w1) as [[rs e2] w2].
Qed.
End spec_books.

(** The engine before the replay. *)
Lemma replay_setup_run now_ns rs (e : DemoEngine) w :
  engine_run now_ns (new_engine ∅) replay_setup eworld0 = Some (rs, e, w) ->
  w = eworld0 /\ exists r e0, add_symbol (new_engine ∅) 1 1 200000 default_hint STPNone = Some (r, e0) /\ e = set_trade_callback e0.
Proof.
  unfold replay_setup. cbn [engine_run engine_step]. destruct (add_symbol _ _ _ _ _ _) as [[r e0]|]; [|done].
  cbn [mbind option_bind]. intros [= _ <- <-]. eauto.
Qed.

Lemma replay_setup_spec now_ns rs (es : Engine SpecBook) w :
  spec_engine_run now_ns arr_refuses (fun min max p => (min <=? p)%Z && (p <=? max)%Z) (new_engine ∅) replay_setup eworld0 = (rs, es, w) ->
  user_trade_callback_ es = true /\ is_Some (books_ es !! 1%N).
Proof. cbn. intros [= _ <- _]. split; [done|]. by eexists. Qed.

(** The table printed at the end. *)
Lemma print_symbol_sim (e : DemoEngine) es sb n : engine_sim e es -> books_ es !! 1%N = Some sb ->
  exists symbol, print_symbol e n = Some (print_book symbol arr_name (depth Buy n (sb_book sb)) (depth Sell n (sb_book sb))).
Proof.
  intros Hsim Hsb. pose proof (sim_books _ _ Hsim 1%N) as Hb. rewrite Hsb in Hb. unfold print_symbol, book.
  inversion Hb as [b sb' (Hrep & _) E1 E2|]. cbn [mbind option_bind]. rewrite (arr_print_rep b _ n Hrep). eauto.
Qed.

(** A file that loads within the engine's budget is replayed to the end. *)
Lemma replay_mode_loaded now_ns path file orders : load_csv file = ret orders -> engine_workload_ok (replay_setup ++ (XSubmit <$> orders)) = true ->
  exists rs es es' w w' reports sb e symbol,
    spec_engine_run now_ns bk_refuses bk_band (new_engine ∅) replay_setup eworld0 = (rs, es, w) /\
    spec_engine_run now_ns bk_refuses bk_band es (XSubmit <$> orders) (tick w) = (XReport <$> reports, es', w') /\
    run_replay_mode now_ns path file =
      ret ([Logged (lit "loading replay data from " ++ path); Logged (lit "loaded " ++ print_N (vsize orders) ++ lit " orders"); Flushed;
            Console (replay_summary (tally (elapsed_between now_ns w w') reports) (vsize (w_trades (ew_world w'))));
            Console (print_book symbol arr_name (depth Buy 8 (sb_book sb)) (depth Sell 8 (sb_book sb)))], e, tick w') /\
    length reports = length orders /\ books_ es' !! 1%N = Some sb.
Proof.
  intros Hload Hok. assert (Hset : engine_workload_ok replay_setup = true) by (vm_compute; reflexivity).
  destruct (engine_reached (B := Arr.OrderBookArray) now_ns false replay_setup eworld0 Hset) as (rs & e & es & w & ts0 & Hrun & Hspec & _).
  destruct (engine_resumes now_ns false replay_setup _ eworld0 rs e w (tick w) Hok Hrun)
    as (es2 & rs2 & e' & es' & w' & ts & Hs1 & Hr & Hs & Hsim & [E1 E2 _ _] & _).
  rewrite Hspec in Hs1. injection Hs1 as <-.
  apply andb_true_iff in Hok as [_ Hn%N.ltb_lt]. rewrite length_app, length_fmap in Hn. unfold kNullIndex in Hn.
  destruct (replay_run now_ns e orders w rs2 e' w') as (reports & -> & Hlen & Hl); [unfold vsize, two64; lia|done|].
  destruct (replay_setup_run _ _ _ _ Hrun) as (-> & r0 & e0 & Hadd & ->). destruct (replay_setup_spec _ _ _ _ Hspec) as [Hcb Hbook].
  destruct (E2 Hcb) as [Hu _]. simpl in E1, Hu.
  assert (is_Some (books_ es' !! 1%N)) as [sb Hsb].
  { replace es' with (spec_engine_run now_ns bk_refuses bk_band es (XSubmit <$> orders) (tick eworld0)).1.2 by by rewrite Hs.
    by apply spec_submits_keep. }
  destruct (print_symbol_sim e' es' sb 8 Hsim Hsb) as (symbol & Hprint).
  exists rs, es, es', eworld0, w', reports, sb, e', symbol. split_and!; [done|done| |done|done].
  unfold run_replay_mode. rewrite Hload. cbn [res_bind ret]. rewrite Hadd. cbn [lift res_bind ret snd].
  rewrite Hl. cbn [lift res_bind ret]. rewrite Hprint. cbn [lift res_bind ret]. simpl. unfold vsize. by rewrite Hu, E1.
Qed.

(** ** What a book of 64-bit prices shows *)

Definition wide (o : Order) : Prop := representable (SInt 64) (o_price o) = true.

Lemma depth_view_ok a s m : abook_ok a -> all_orders wide a -> Forall view_ok (depth s m a).
Proof.
  intros Hok Ha. apply Forall_take, Forall_fmap, Forall_forall. intros [p q] Hin. destruct (abook_sides _ Hok s) as [_ Hls Hsum].
  destruct (proj1 (all_orders_sides wide s a) Ha) as [Hw _]. apply list_elem_of_split in Hin as (l1 & l2 & E). rewrite E in *. clear E.
  apply Forall_app in Hls as [Hl1 [Hlv Hl2]%Forall_cons]. pose proof (sum_remaining_nonneg _ (level_ok_positive _ _ Hl1)). pose proof (sum_remaining_nonneg _ (level_ok_positive _ _ Hl2)).
  rewrite level_orders_app, level_orders_cons in *. rewrite !sum_remaining_app in Hsum. apply Forall_app in Hw as [_ [Hq _]%Forall_app].
  destruct Hlv as (Hne & Hp & Hr). simpl in *. assert (Hpos : positive_orders q) by (eapply Forall_impl; [exact Hr|]; by intros o (_ & _ & ? & _)).
  pose proof (sum_remaining_nonneg _ Hpos). split; simpl.
  - destruct q as [|o q]; [done|]. apply Forall_cons in Hr as [(<- & _) _], Hq as [Ho _]. exact Ho.
  - apply andb_true_iff. split; [apply Z.leb_le|apply Z.ltb_lt]; unfold int64_max in *; lia.
Qed.

(** The books keep to such prices if the orders do. *)
Lemma submits_wide now_ns refuses band t n (e : Engine SpecBook) rqs w rs e' w' :
  (0 <= t)%Z -> spec_engine_ok t n e -> forallb engine_call_ok (XSubmit <$> rqs) = true -> (2 * (t + engine_total (XSubmit <$> rqs)) <= int64_max)%Z ->
  (N.of_nat (n + length rqs) < kNullIndex)%N -> Forall (fun rq => representable (SInt 64) (rq_price rq) = true) rqs ->
  map_Forall (fun _ b => all_orders wide (sb_book b)) (books_ e) -> spec_engine_run now_ns refuses band e (XSubmit <$> rqs) w = (rs, e', w') ->
  map_Forall (fun _ b => abook_ok (sb_book b) /\ all_orders wide (sb_book b)) (books_ e').
Proof.
  revert t n e w rs. induction rqs as [|rq rqs IH]; intros t n e w rs Ht He Hok Hfit Hroom Hp Hb.
  - intros [= _ <- _]. intros s b E. split; [apply (se_books _ _ _ He _ _ E)|by eapply Hb].
  - cbn [fmap list_fmap forallb engine_total length] in *. apply andb_true_iff in Hok as [Hc Hok]. apply Forall_cons in Hp as [Hp Hps].
    pose proof (engine_cost_nonneg (XSubmit rq)). pose proof (engine_total_nonneg (XSubmit <$> rqs)).
    destruct (spec_step_ok now_ns refuses band t n e (XSubmit rq) w Ht He Hc) as (r & e1 & w1 & ts & _ & Hs & He1 & _); [unfold fmap in *; lia|lia|].
    cbn [spec_engine_run]. rewrite Hs. destruct (spec_engine_run now_ns refuses band e1 _ w1) as [[rs1 e2] w2] eqn:Hrun. intros [= _ <- <-].
    eapply (IH (t + engine_cost (XSubmit rq))%Z (S n)); [lia|done|done|unfold fmap in *; lia|lia|done| |exact Hrun].
    cbn [spec_engine_step] in Hs. unfold spec_submit in Hs. destruct (books_ e !! rq_symbol rq) as [b|] eqn:Hbk; [|by injection Hs as _ <- _].
    destruct (default _ _) as [reason r1]. case_bool_decide; [|by injection Hs as _ <- _].
    destruct (spec_add _ _ _ _ _ _) as [[report a] w3] eqn:Hadd. destruct (spec_after _ _ _ _ _ _ _ _ _) as [e3 w4] eqn:Haf. injection Hs as _ <- _.
    unfold spec_after in Haf. injection Haf as <- _. apply map_Forall_insert_2; [|done].
    eapply (spec_add_keeps now_ns _ _ wide); [by intros|apply (se_books _ _ _ He _ _ Hbk)|by eapply Hb| |exact Hadd]. done.
Qed.

Lemma replayed_wide now_ns rows rs es w w1 reports es' w' :
  forallb row_ok rows = true -> engine_workload_ok (replay_setup ++ (XSubmit <$> (row_request <$> rows))) = true ->
  spec_engine_run now_ns bk_refuses bk_band (new_engine ∅) replay_setup eworld0 = (rs, es, w) ->
  spec_engine_run now_ns bk_refuses bk_band es (XSubmit <$> (row_request <$> rows)) w1 = (reports, es', w') ->
  map_Forall (fun _ b => abook_ok (sb_book b) /\ all_orders wide (sb_book b)) (books_ es').
Proof.
  intros Hrows Hok H1 H2. assert (Hset : engine_workload_ok replay_setup = true) by (vm_compute; reflexivity).
  destruct (engine_reached (B := Arr.OrderBookArray) now_ns false replay_setup eworld0 Hset) as (rs1 & e & es1 & w2 & _ & _ & Hspec & _ & He & _).
  fold (new_engine (B := SpecBook) ∅) in Hspec. rewrite H1 in Hspec. injection Hspec as <- <- <-.
  revert Hok. unfold engine_workload_ok. rewrite forallb_app, length_app, engine_total_app, length_fmap. intros [[[_ Hc]%andb_true_iff Ht%Z.leb_le]%andb_true_iff Hn%N.ltb_lt]%andb_true_iff.
  eapply (submits_wide now_ns _ _ (engine_total replay_setup) (length replay_setup) es); [done|done|done|exact Ht|exact Hn| | |exact H2].
  - apply Forall_fmap, Forall_forall. intros r Hr. rewrite forallb_forall in Hrows. apply list_elem_of_In, Hrows in Hr. unfold row_ok in Hr.
    repeat (apply andb_true_iff in Hr as [Hr ?]). done.
  - cbn in H1. injection H1 as _ <- _. apply map_Forall_insert_2; [by apply Forall_nil|apply map_Forall_empty].
Qed.

(** C12. The replay mode, end to end: on a file in the documented format, with
    quantities within the engine's budget, it reports the number of orders in
    the file, the statistics of the specification's reports on them in file
    order, and one count for every trade; and it prints a table from which the
    final depth of the specification's book can be read. *)
Theorem replay_mode_end_to_end now_ns path header crlf rows :
  forallb row_ok rows = true -> engine_workload_ok (replay_setup ++ (XSubmit <$> (row_request <$> rows))) = true ->
  exists rs es es' w w' reports sb e t,
    spec_engine_run now_ns bk_refuses bk_band (new_engine ∅) replay_setup eworld0 = (rs, es, w) /\
    spec_engine_run now_ns bk_refuses bk_band es (XSubmit <$> (row_request <$> rows)) (tick w) = (XReport <$> reports, es', w') /\
    run_replay_mode now_ns path (Some (csv_text header crlf rows)) =
      ret ([Logged (lit "loading replay data from " ++ path); Logged (lit "loaded " ++ print_N (vsize rows) ++ lit " orders"); Flushed;
            Console (replay_summary (tally (elapsed_between now_ns w w') reports) (vsize (w_trades (ew_world w')))); Console t], e, tick w') /\
    length reports = length rows /\ books_ es' !! 1%N = Some sb /\
    read_table t = Some (shown <$> depth Buy 8 (sb_book sb), shown <$> depth Sell 8 (sb_book sb)).
Proof.
  intros Hrows Hok.
  destruct (replay_mode_loaded now_ns path _ _ (load_csv_text header crlf rows Hrows) Hok) as (rs & es & es' & w & w' & reports & sb & e & symbol & H1 & H2 & H3 & H4 & H5).
  eexists rs, es, es', w, w', reports, sb, e, _. rewrite length_fmap in H4. unfold vsize in H3. rewrite length_fmap in H3.
  split_and!; [done|done|exact H3|done|done|].
  destruct (replayed_wide now_ns rows rs es w (tick w) (XReport <$> reports) es' w' Hrows Hok H1 H2 1%N sb H5) as [Hsb Hw]. apply read_arr_table; by apply depth_view_ok.
Qed.

Definition demo_rows : list CsvRow :=
  [mkRow (mkRequest 1 1 kNoParticipant Sell Limit 10005 40 GTC) 1000 false; mkRow (mkRequest 2 1 kNoParticipant Buy Limit 10005 60 GTC) 1001 true;
   mkRow (mkRequest 3 2 kNoParticipant Buy Market 0 5 IOC) 1002 false].

Lemma replay_mode_end_to_end_witness :
  forallb row_ok demo_rows = true /\ engine_workload_ok (replay_setup ++ (XSubmit <$> (row_request <$> demo_rows))) = true /\
  exists rs es es' w w' reports sb e t,
    spec_engine_run ticks bk_refuses bk_band (new_engine ∅) replay_setup eworld0 = (rs, es, w) /\
    spec_engine_run ticks bk_refuses bk_band es (XSubmit <$> (row_request <$> demo_rows)) (tick w) = (XReport <$> reports, es', w') /\
    run_replay_mode ticks (lit "orders.csv") (Some (csv_text true false demo_rows)) =
      ret ([Logged (lit "loading replay data from " ++ lit "orders.csv"); Logged (lit "loaded " ++ print_N (vsize demo_rows) ++ lit " orders"); Flushed;
            Console (replay_summary (tally (elapsed_between ticks w w') reports) (vsize (w_trades (ew_world w')))); Console t], e, tick w') /\
    length reports = length demo_rows /\ books_ es' !! 1%N = Some sb /\
    read_table t = Some (shown <$> depth Buy 8 (sb_book sb), shown <$> depth Sell 8 (sb_book sb)).
Proof.
  split; [vm_compute; reflexivity|]. split; [vm_compute; reflexivity|].
  apply (replay_mode_end_to_end ticks (lit "orders.csv") true false demo_rows); vm_compute; reflexivity.
Defined.

(** The messages of the walkthrough. *)
Definition logged (ev : Event) : option string := match ev with Logged m => Some (string_of_list_ascii m) | _ => None end.

(** The walkthrough's log: three trades at the makers' prices, the better bid
    first. *)
Example scripted_demo_log : (fun s => omap logged (sc_events s)) <$> run_scripted_demo ticks = Some
  ["LightningLOB scripted walkthrough starting"; "--- resting some liquidity ---";
   "order 1 -> NEW filled=0 remaining=50 reason=NONE"; "order 2 -> NEW filled=0 remaining=100 reason=NONE";
   "order 3 -> NEW filled=0 remaining=40 reason=NONE"; "order 4 -> NEW filled=0 remaining=80 reason=NONE";
   "--- an order that crosses the spread ---";
   "TRADE symbol=1 price=10005 qty=40 taker_order=5 maker_order=3 taker_side=BUY";
   "order 5 -> PARTIALLY_FILLED filled=40 remaining=20 reason=NONE";
   "--- cancel + amend ---"; "order 6 -> NEW filled=0 remaining=30 reason=NONE"; "order 6 -> NEW filled=0 remaining=15 reason=NONE";
   "cancel of order 6 -> OK"; "--- a market order sweep ---";
   "TRADE symbol=1 price=10005 qty=20 taker_order=7 maker_order=5 taker_side=SELL";
   "TRADE symbol=1 price=9995 qty=5 taker_order=7 maker_order=1 taker_side=SELL";
   "order 7 -> FILLED filled=25 remaining=0 reason=NONE"]%string.
Proof. vm_compute. reflexivity. Qed.

(** The tables it prints, read back, and the position line. *)
Definition console (ev : Event) : option text := match ev with Console t => Some t | _ => None end.

Example scripted_demo_tables :
  (fun s => let out := omap console (sc_events s) in (out !! 1 ≫= read_table, out !! 3 ≫= read_table, out !! 4)) <$> run_scripted_demo ticks =
  Some (Some ([(9995, 50); (9990, 100)], [(10005, 40); (10010, 80)])%Z, Some ([(9995, 45); (9990, 100)], [(10010, 80)])%Z,
        Some ([newline] ++ lit "Net position (symbol 1): 0" ++ [newline])).
Proof. vm_compute. reflexivity. Qed.

(** * The walkthrough with any clock *)

Section books_kept.
Context {B : Type} `{BookOps B} `{BookCtor B} (now_ns : nat -> Timestamp).

Lemma on_trades_books (e : Engine B) ts u e' u' : on_trades e ts u = Some (e', u') -> books_ e' = books_ e.
Proof.
  revert e u. induction ts as [|t ts IH]; intros e u; simpl; [by intros [= <- _]|].
  intros ([e1 u1] & E1 & E2)%bind_Some. rewrite (IH _ _ E2). unfold on_trade in E1. inv_opt. by subst.
Qed.

Lemma set_book_keeps (e : Engine B) symbol b s : is_Some (books_ e !! s) -> is_Some (books_ (set_book symbol b e) !! s).
Proof. intros Hs. simpl. apply lookup_insert_is_Some. destruct (decide (symbol = s)); auto. Qed.

Lemma step_keeps (e : Engine B) c w a e' w' s : engine_step now_ns e c w = Some (a, e', w') -> is_Some (books_ e !! s) -> is_Some (books_ e' !! s).
Proof.
  intros E Hs. destruct c; simpl in E; unfold add_symbol, submit_order, cancel_order, amend_order, reset_symbol in E;
    do 4 (repeat case_match; inv_opt; subst; try done); try by apply set_book_keeps.
  all: match goal with Ht : on_trades _ _ _ = Some _ |- _ => rewrite (on_trades_books _ _ _ _ _ Ht) end; by apply set_book_keeps.
Qed.

Lemma run_keeps (e : Engine B) cs w rs e' w' s : engine_run now_ns e cs w = Some (rs, e', w') -> is_Some (books_ e !! s) -> is_Some (books_ e' !! s).
Proof.
  revert e w rs. induction cs as [|c cs IH]; intros e w rs; simpl; [by intros [= _ <- _]|].
  intros ([[r e1] w1] & E1 & ([[rs1 e2] w2] & E2 & [= _ <- <-])%bind_Some)%bind_Some Hs. eapply IH; [exact E2|]. by eapply step_keeps.
Qed.

Lemma engine_run_app (e : Engine B) cs1 cs2 w rs e1 w1 : engine_run now_ns e cs1 w = Some (rs, e1, w1) ->
  engine_run now_ns e (cs1 ++ cs2) w = '(rs2, e2, w2) ← engine_run now_ns e1 cs2 w1; Some (rs ++ rs2, e2, w2).
Proof.
  revert e w rs. induction cs1 as [|c cs1 IH]; intros e w rs; simpl.
  - intros [= <- <- <-]. by destruct (engine_run now_ns e cs2 w) as [[[rs2 e2] w2]|].
  - intros ([[r e'] w'] & E1 & ([[rs' e2] w2] & E2 & [= <- <- <-])%bind_Some)%bind_Some. rewrite E1. simpl. rewrite (IH _ _ _ E2).
    by destruct (engine_run now_ns e2 cs2 w2) as [[[rs2 e3] w3]|].
Qed.
End books_kept.

Section scripted.
Context (now_ns : nat -> Timestamp).

(** The engine of the script after the calls [cs], which start with the
    symbol's book. *)
Definition script_at (cs : list EngineCall) (e : DemoEngine) (w : EngineWorld) : Prop :=
  (exists rs, engine_run now_ns (new_engine ∅) cs eworld0 = Some (rs, e, w)) /\ engine_workload_ok cs = true /\ is_Some (books_ e !! 1%N).

Lemma script_next cs c e w : script_at cs e w -> engine_workload_ok (cs ++ [c]) = true ->
  exists a e' w', engine_step now_ns e c w = Some (a, e', w') /\ script_at (cs ++ [c]) e' w'.
Proof.
  intros ((rs & Hr) & _ & Hb) Hok. destruct (engine_resumes now_ns false cs [c] eworld0 rs e w w Hok Hr) as (_ & rs2 & e' & _ & w' & _ & _ & Hc & _).
  pose proof Hc as Hc'. simpl in Hc'. destruct (engine_step now_ns e c w) as [[[a e1] w1]|] eqn:E; [|done]. simpl in Hc'. injection Hc' as <- -> ->.
  exists a, e', w'. split; [done|]. split_and!; [|done|by eapply step_keeps]. eexists. by rewrite (engine_run_app _ _ _ _ _ _ _ _ Hr), Hc.
Qed.

Lemma script_submit_next cs side type price qty tif s :
  script_at cs (sc_engine s) (sc_world s) ->
  engine_workload_ok (cs ++ [XSubmit (mkRequest 0 1 kNoParticipant side type price qty tif)]) = true ->
  exists id s', script_submit now_ns side type price qty tif s = Some (id, s') /\
    script_at (cs ++ [XSubmit (mkRequest 0 1 kNoParticipant side type price qty tif)]) (sc_engine s') (sc_world s').
Proof.
  intros Ha Hok. destruct (script_next _ _ _ _ Ha Hok) as (a & e' & w' & Hs & Ha'). simpl in Hs. unfold script_submit.
  destruct (submit_order now_ns (sc_engine s) _ (sc_world s)) as [[[r e1] w1]|]; [|done]. simpl in Hs. injection Hs as _ -> ->. simpl. eauto.
Qed.

Lemma script_print cs e w n : script_at cs e w -> exists t, print_symbol e n = Some t.
Proof.
  intros ((rs & Hr) & Hok & [b Hb]). destruct (engine_reached (B := Arr.OrderBookArray) now_ns false cs eworld0 Hok) as (rs' & e' & es & w' & ts & Hr' & _ & Hsim & _).
  unfold new_engine in Hr. rewrite Hr in Hr'. injection Hr' as <- <- <-. pose proof (sim_books _ _ Hsim 1%N) as Hbs. rewrite Hb in Hbs. inversion Hbs as [b' sb _ E1 E2|].
  destruct (print_symbol_sim e es sb n Hsim) as [symbol Hp]; [done|]. eauto.
Qed.

(** The next submission of the script: [H] says where the engine is. *)
Ltac submit_next H s :=
  let id := fresh "id" in let E := fresh "E" in let Ha := fresh "Ha" in
  match goal with |- context [script_submit _ ?sd ?ty ?p ?q ?tif ?s0] =>
    destruct (script_submit_next _ sd ty p q tif s0 H ltac:(vm_compute; reflexivity)) as (id & s & E & Ha);
    rewrite E; clear E; cbn [mbind option_bind]; clear H; rename Ha into H
  end.

Definition script_setup : list EngineCall := [XSymbol 1 1 100000 default_hint STPNone; XLimits 1 kNoParticipant (mkLimits 10000 100000 100000); XCallback].

Lemma script_start : exists r e0, add_symbol (new_engine ∅) 1 1 100000 default_hint STPNone = Some (r, e0) /\
  script_at script_setup (set_trade_callback (set_risk_limits e0 1 kNoParticipant (mkLimits 10000 100000 100000))) eworld0.
Proof.
  assert (Hok : engine_workload_ok script_setup = true) by (vm_compute; reflexivity).
  destruct (engine_reached (B := Arr.OrderBookArray) now_ns false script_setup eworld0 Hok) as (rs & e & es & w & ts & Hrun & Hspec & Hsim & _).
  fold (new_engine (B := Arr.OrderBookArray) ∅) in Hrun. pose proof Hrun as Hrun'. unfold script_setup in Hrun'. cbn [engine_run engine_step] in Hrun'.
  destruct (add_symbol _ _ _ _ _ _) as [[r e0]|]; [|done]. cbn [mbind option_bind] in Hrun'. injection Hrun' as _ <- <-.
  exists r, e0. split; [done|]. split_and!; [by eexists|done|]. cbn in Hspec. injection Hspec as _ <-. pose proof (sim_books _ _ Hsim 1%N) as Hb. cbn in Hb. by inversion Hb.
Qed.

(** The user's callback has had no more trades than units were submitted. *)
Lemma script_trades rest e w : script_at (script_setup ++ rest) e w -> (Z.of_nat (length (ew_user w)) <= engine_total rest)%Z.
Proof.
  intros ((rs & Hr) & Hok & _). destruct script_start as (_ & e0 & _ & (rs0 & Hr0) & _).
  destruct (engine_resumes now_ns false script_setup rest eworld0 rs0 _ eworld0 eworld0 Hok Hr0) as (es & rs2 & e' & es' & w' & ts & Hs & Hr2 & _ & _ & Heff & Hc).
  rewrite (engine_run_app _ _ _ _ _ _ _ _ Hr0), Hr2 in Hr. cbn [mbind option_bind] in Hr. injection Hr as _ _ <-.
  destruct (ee_user _ _ _ _ _ Heff) as [Hu _]; [|by rewrite Hu]. cbn in Hs. by injection Hs as _ <-.
Qed.

(** The walkthrough is defined whatever the clock says. *)
Lemma scripted_demo_defined : exists s, run_scripted_demo now_ns = Some s /\ length (ew_user (sc_world s)) <= 400.
Proof.
  unfold run_scripted_demo. destruct script_start as (r & e0 & -> & H0). cbn [mbind option_bind].
  match goal with |- context [mkScript (set_trade_callback ?e) eworld0 ?ev] => set (s0 := mkScript (set_trade_callback e) eworld0 ev) end.
  change (script_at script_setup (sc_engine s0) (sc_world s0)) in H0. clearbody s0. clear e0 r.
  submit_next H0 s1. submit_next H0 s2. submit_next H0 s3. submit_next H0 s4.
  destruct (script_print _ _ _ 5 H0) as [t1 ->]. cbn [mbind option_bind]. submit_next H0 s6. submit_next H0 s8.
  match goal with |- context [amend_order now_ns (sc_engine s8) 1 ?id 15 None _] =>
    destruct (script_next _ (XAmend 1 id 15 None) _ _ H0 ltac:(vm_compute; reflexivity)) as (a & e9 & w9 & E9 & H9);
    simpl in E9; destruct (amend_order now_ns (sc_engine s8) 1 id 15 None (sc_world s8)) as [[[r9 e9'] w9']|]; [|done];
    simpl in E9; injection E9 as _ -> ->; cbn [mbind option_bind];
    destruct (script_next _ (XCancel 1 id) _ _ H9 ltac:(vm_compute; reflexivity)) as (a' & e10 & w10 & E10 & H10);
    simpl in E10; destruct (cancel_order e9 1 id) as [[r10 e10']|]; [|done]; simpl in E10; injection E10 as _ -> <-; cbn [mbind option_bind]
  end.
  submit_next H10 s11. destruct (script_print _ _ _ 5 H10) as [t2 ->]. eexists. split; [reflexivity|].
  cbn [emit sc_world]. rewrite <- !app_assoc in H10. apply script_trades in H10. vm_compute (engine_total _) in H10. lia.
Qed.
End scripted.

Example modes : choose_mode <$> [[]; [lit "-h"]; [lit "replay"]; [lit "replay"; lit "a.csv"; lit "x"]; [lit "mt-demo"]; [lit "other"]] =
  [Scripted; Help; ReplayUsage; ReplayFile (lit "a.csv"); MtMode; Scripted].
Proof. reflexivity. Qed.
