(* ===== verification/Logger.v ===== *)
(** include/lightninglob/logger.hpp and src/logger.cpp: the asynchronous
    [Logger], a caller thread that pushes records into a ring buffer and a
    worker thread that writes them.

    The queue's 8192 slots are [2 ^ k] with [k = 13]; nothing depends on [k].
    The two threads take one memory access at a time, in any interleaving: the
    accesses of the ring are those of LockfreeAccess.v.  [pushed_count_] and
    [dropped_] are accessed by the caller only.  [processed_count_] is its
    modification order: an increment of the worker's is a release operation
    that publishes how far the stream is written, and the caller's load in
    [flush] is an acquire operation, which may return an older value.  The stop
    token is set with the caller's view of the queue, which the worker gets
    when it sees it set.  The position from which a load returns its value is an
    argument of the step.

    The caller's program is any sequence of [log] and [flush] calls and of its
    own writes to the stream, ended by the destructor.  A write of its own is
    undefined while a record that it has logged may still be on its way, as the
    two would come in any order. *)

From Stdlib Require Import Ascii String.
From S2P Require Import Prelude Types Text LockfreeQueue LockfreeAccess.

Inductive LogLevel := Debug | Info | Warn | Error.

Definition level_number (l : LogLevel) : N := match l with Debug => 0 | Info => 1 | Warn => 2 | Error => 3 end.

Definition level_to_string (level : LogLevel) : string :=
  match level with Debug => "DEBUG" | Info => "INFO" | Warn => "WARN" | Error => "ERROR" end.

Record LogRecord := mkRecord {
  lr_timestamp : Timestamp;
  lr_level : LogLevel;
  lr_message : text
}.

(** [sizeof(record.message)]. *)
Definition message_size : nat := 120.

Definition default_record : LogRecord := mkRecord 0 Info (replicate message_size nul).

(** [memcpy] of at most 119 characters and the terminator, over the zeros of
    the new record. *)
Definition make_record (now : Timestamp) (level : LogLevel) (message : text) : LogRecord :=
  let n := Nat.min (length message) (message_size - 1) in
  let copied := take n message ++ drop n (lr_message default_record) in
  mkRecord now level (<[n := nul]> copied).

(** A [char] array formatted as a C string. *)
Fixpoint c_string (s : text) : text :=
  match s with [] => [] | c :: s' => if bool_decide (c = nul) then [] else c :: c_string s' end.

(** [std::format("[{:>14}ns] [{:<5}] {}\n", ...)]. *)
Definition format_record (r : LogRecord) : text :=
  lit "[" ++ pad_left 14 (print_N (lr_timestamp r)) ++ lit "ns] [" ++ pad_right 5 (lit (level_to_string (lr_level r))) ++ lit "] " ++
  c_string (lr_message r) ++ [newline].

(** A call of [log]: the time that it reads from the clock, level and message. *)
Definition Entered : Type := Timestamp * LogLevel * text.

Definition call_record (c : Entered) : LogRecord := let '(now, level, msg) := c in make_record now level msg.

(** ** Lines *)

(** The line of a call: the time and the level in columns, and the message up
    to 119 characters or its first NUL. *)
Definition line_of (c : Timestamp * LogLevel * text) : text :=
  let '(now, level, msg) := c in
  lit "[" ++ pad_left 14 (print_N now) ++ lit "ns] [" ++ pad_right 5 (lit (level_to_string level)) ++ lit "] " ++ c_string (take 119 msg) ++ [newline].

Lemma c_string_nul a b : c_string (a ++ nul :: b) = c_string a.
Proof. induction a as [|c a IH]; simpl; [done|]. by rewrite IH. Qed.

Lemma call_line_eq c : format_record (call_record c) = line_of c.
Proof.
  destruct c as [[now level] msg]. unfold call_record, format_record, line_of, make_record. cbn [lr_timestamp lr_level lr_message default_record].
  do 5 f_equal. f_equal. set (n := Nat.min (length msg) (message_size - 1)).
  assert (Hn : n <= 119) by (unfold n, message_size; lia). assert (Hlen : length (take n msg) = n) by (rewrite length_take; unfold n; lia).
  rewrite insert_app_r_alt by lia. rewrite Hlen, Nat.sub_diag, drop_replicate.
  assert (exists m, message_size - n = S m) as [m ->] by (exists (119 - n); unfold message_size; lia). simpl.
  rewrite c_string_nul. f_equal. unfold n. rewrite Nat.min_comm. apply take_min_length.
Qed.


(** ** The members *)

(** The members of [Logger] but the thread; the stream is the text written.  A
    value of [processed_count_] comes with the length of the stream that was
    released with it. *)
Record Logger := mkLogger {
  queue_ : State LogRecord;
  out_ : text;
  min_level_ : LogLevel;
  dropped_ : N;
  pushed_count_ : N;
  processed_count_ : list (N * nat)
}.

(** What the caller's program does next; [Print] is its own output. *)
Inductive LogCall := Log (now : Timestamp) (level : LogLevel) (message : text) | Flush | Print (output : text) | Destroy.

Definition debug (now : Timestamp) (msg : text) : LogCall := Log now Debug msg.
Definition info (now : Timestamp) (msg : text) : LogCall := Log now Info msg.
Definition warn (now : Timestamp) (msg : text) : LogCall := Log now Warn msg.
Definition error (now : Timestamp) (msg : text) : LogCall := Log now Error msg.

Definition dropped_count (l : Logger) : N := dropped_ l.

Definition set_queue (q : State LogRecord) (l : Logger) : Logger :=
  mkLogger q (out_ l) (min_level_ l) (dropped_ l) (pushed_count_ l) (processed_count_ l).

(** The counters after [try_push] has returned [ok]. *)
Definition log_count (ok : bool) (l : Logger) : Logger :=
  if ok then mkLogger (queue_ l) (out_ l) (min_level_ l) (dropped_ l) (inc64 (pushed_count_ l)) (processed_count_ l)
  else mkLogger (queue_ l) (out_ l) (min_level_ l) (inc64 (dropped_ l)) (pushed_count_ l) (processed_count_ l).

Definition write (t : text) (l : Logger) : Logger :=
  mkLogger (queue_ l) (out_ l ++ t) (min_level_ l) (dropped_ l) (pushed_count_ l) (processed_count_ l).

(** [processed_count_.fetch_add(1, release)]. *)
Definition count_processed (l : Logger) : option Logger :=
  m ← last (processed_count_ l);
  Some (mkLogger (queue_ l) (out_ l) (min_level_ l) (dropped_ l) (pushed_count_ l) (processed_count_ l ++ [(inc64 m.1, length (out_ l))])).

(** ** The threads *)

(** Where the caller is: between calls; in [log], in its [try_push] or after it;
    in [flush], waiting for [target], called by the destructor or not; in the
    destructor of the thread, before [request_stop] and before the join; done. *)
Inductive Caller :=
| Idle | Pushing (c : Entered) | Counting (ok : bool) | Flushing (in_destructor : bool) (target : N) | Stopping | Joining | Destroyed.

(** Where the worker is: at the test of the stop token; in [try_pop], in the
    loop or in the final drain; in [write_record], before and after the write;
    returned. *)
Inductive Worker :=
| Testing | Popping (draining : bool) | Writing (draining : bool) (r : LogRecord) | Wrote (draining : bool) | Returned.

(** What has to appear on the stream. *)
Inductive Entry := Line (c : Entered) | Plain (t : text).

(** [st_seen] is the caller's position in the order of [processed_count_],
    [st_visible] the length of the stream that is visible to it, and
    [st_synced] says that it has logged nothing since its last [flush].
    [st_stop] is the stop token, with the position of the queue released with
    it.  [st_history] and [st_refused] record the calls that were accepted, with
    the caller's own output, and those that found the queue full, for the
    statements only. *)
Record LogState := mkLogState {
  st_logger : Logger;
  st_caller : Caller;
  st_seen : nat;
  st_visible : nat;
  st_synced : bool;
  st_worker : Worker;
  st_stop : option nat;
  st_history : list Entry;
  st_refused : nat
}.

Section logger.
Context (k : N).

Definition new_logger (min_level : LogLevel) : Logger := mkLogger (init_state k default_record) [] min_level 0 0 [(0%N, 0)].

Definition init_log (min_level : LogLevel) : LogState := mkLogState (new_logger min_level) Idle 0 0 true Testing None [] 0.

(** *** The caller *)

Definition at_caller (c : Caller) (s : LogState) : LogState :=
  mkLogState (st_logger s) c (st_seen s) (st_visible s) (st_synced s) (st_worker s) (st_stop s) (st_history s) (st_refused s).

Definition with_logger (l : Logger) (s : LogState) : LogState :=
  mkLogState l (st_caller s) (st_seen s) (st_visible s) (st_synced s) (st_worker s) (st_stop s) (st_history s) (st_refused s).

(** [try_push] has returned. *)
Definition entered (c : Entered) (ok : bool) (s : LogState) : LogState :=
  mkLogState (st_logger s) (Counting ok) (st_seen s) (st_visible s) (if ok then false else st_synced s) (st_worker s) (st_stop s)
    (if ok then st_history s ++ [Line c] else st_history s) (if ok then st_refused s else S (st_refused s)).

(** The caller's own output. *)
Definition print (t : text) (s : LogState) : option LogState :=
  if st_synced s then
    Some (mkLogState (write t (st_logger s)) (st_caller s) (st_seen s) (length (out_ (st_logger s) ++ t)) true (st_worker s) (st_stop s)
      (st_history s ++ [Plain t]) (st_refused s))
  else None.

(** [processed_count_.load(acquire)] from position [j]. *)
Definition load_processed (j : nat) (s : LogState) : option (N * LogState) :=
  let j' := load_at (st_seen s) j (processed_count_ (st_logger s)) in
  m ← processed_count_ (st_logger s) !! j';
  Some (m.1, mkLogState (st_logger s) (st_caller s) j' (st_visible s `max` m.2) (st_synced s) (st_worker s) (st_stop s) (st_history s) (st_refused s)).

(** [flush] returns, to the program or to the destructor. *)
Definition flush_done (in_destructor : bool) (s : LogState) : LogState :=
  mkLogState (st_logger s) (if in_destructor then Stopping else Idle) (st_seen s) (st_visible s) true (st_worker s) (st_stop s) (st_history s) (st_refused s).

Definition request_stop (s : LogState) : LogState :=
  mkLogState (st_logger s) Joining (st_seen s) (st_visible s) (st_synced s) (st_worker s) (Some (length (s_writes (queue_ (st_logger s))) - 1))
    (st_history s) (st_refused s).

Definition joined (s : LogState) : LogState :=
  mkLogState (st_logger s) Destroyed (st_seen s) (length (out_ (st_logger s))) (st_synced s) (st_worker s) (st_stop s) (st_history s) (st_refused s).

(** The caller's next access, [call] being what its program does next and [j]
    the position for a load. *)
Definition caller_next (call : LogCall) (j : nat) (s : LogState) : option LogState :=
  let l := st_logger s in
  match st_caller s with
  | Idle =>
      match call with
      | Log now level msg => Some (if (level_number level <? level_number (min_level_ l))%N then s else at_caller (Pushing (now, level, msg)) s)
      | Flush => Some (at_caller (Flushing false (pushed_count_ l)) s)
      | Print t => print t s
      | Destroy => Some (at_caller (Flushing true (pushed_count_ l)) s)
      end
  | Pushing c =>
      '(r, q) ← push_access k (call_record c) j (queue_ l);
      let s1 := with_logger (set_queue q l) s in
      Some (match r with None => s1 | Some ok => entered c ok s1 end)
  | Counting ok => Some (at_caller Idle (with_logger (log_count ok l) s))
  | Flushing d target =>
      '(processed, s1) ← load_processed j s;
      Some (if (processed <? target)%N then s1 else flush_done d s1)
  | Stopping => Some (request_stop s)
  | Joining => Some (match st_worker s with Returned => joined s | _ => s end)
  | Destroyed => None
  end.

(** *** The worker *)

Definition at_worker (w : Worker) (l : Logger) (s : LogState) : LogState :=
  mkLogState l (st_caller s) (st_seen s) (st_visible s) (st_synced s) w (st_stop s) (st_history s) (st_refused s).

Definition after_write (draining : bool) : Worker := if draining then Popping true else Testing.

(** [stoken.stop_requested()] from position [j] of the token's values: not set,
    then set. *)
Definition stop_requested (j : nat) (s : LogState) : option nat := if decide (1 <= j) then st_stop s else None.

(** The worker's next access, [j] being the position for a load. *)
Definition worker_next (j : nat) (s : LogState) : option LogState :=
  let l := st_logger s in
  match st_worker s with
  | Testing =>
      Some match stop_requested j s with
           | Some view => at_worker (Popping true) (set_queue (see_writes view (queue_ l)) l) s
           | None => at_worker (Popping false) l s
           end
  | Popping draining =>
      '(r, q) ← pop_access k j (queue_ l);
      let l1 := set_queue q l in
      Some match r with
           | None => at_worker (Popping draining) l1 s
           | Some None => at_worker (if draining then Returned else Testing) l1 s
           | Some (Some record) => at_worker (Writing draining record) l1 s
           end
  | Writing draining record => Some (at_worker (Wrote draining) (write (format_record record) l) s)
  | Wrote draining => l1 ← count_processed l; Some (at_worker (after_write draining) l1 s)
  | Returned => None
  end.

(** ** Executions *)

Inductive LogThread := CallerT | WorkerT.

Definition log_next (t : LogThread) (call : LogCall) (j : nat) (s : LogState) : option LogState :=
  match t with CallerT => caller_next call j s | WorkerT => worker_next j s end.

Inductive log_step (s s' : LogState) : Prop :=
| log_thread_step t call j : log_next t call j s = Some s' -> log_step s s'.

Definition log_reachable (min_level : LogLevel) (s : LogState) : Prop := rtc log_step (init_log min_level) s.

Fixpoint run_log (sched : list (LogThread * LogCall * nat)) (s : LogState) : option LogState :=
  match sched with
  | [] => Some s
  | (t, call, j) :: sched' => s1 ← log_next t call j s; run_log sched' s1
  end.

Lemma run_log_reaches sched min_level s s' : log_reachable min_level s -> run_log sched s = Some s' -> log_reachable min_level s'.
Proof.
  revert s. induction sched as [|[[t call] j] sched IH]; intros s Hr; simpl; [by intros [= <-]|].
  destruct (log_next t call j s) as [s1|] eqn:E; [|done]. apply IH. eapply rtc_r; [exact Hr|]. by exists t call j.
Qed.

(** * The invariant *)

Definition line_call (e : Entry) : option Entered := match e with Line c => Some c | Plain _ => None end.

(** The calls that were accepted. *)
Definition accepted (s : LogState) : list Entered := omap line_call (st_history s).

(** The text of an entry. *)
Definition render (e : Entry) : text := match e with Line c => line_of c | Plain t => t end.

(** The record the worker holds, and whether one is written and not counted. *)
Definition in_hand (w : Worker) : list LogRecord := match w with Writing _ r => [r] | _ => [] end.
Definition uncounted (w : Worker) : nat := match w with Wrote _ => 1 | _ => 0 end.

Definition draining (w : Worker) : bool := match w with Popping d | Writing d _ | Wrote d => d | Returned => true | Testing => false end.

(** Every accepted call is written and counted. *)
Definition all_counted (s : LogState) : Prop := length (processed_count_ (st_logger s)) = S (length (accepted s)).

(** Everything is on the stream, and the caller can see it. *)
Definition complete (s : LogState) : Prop :=
  out_ (st_logger s) = mjoin (render <$> st_history s) /\ st_visible s = length (out_ (st_logger s)).

(** The stream holds all entries but the last calls, which are in the worker's
    hands and in the queue. *)
Definition flow (s : LogState) (done : list Entry) (waiting : list Entered) : Prop :=
  st_history s = done ++ (Line <$> waiting) /\ out_ (st_logger s) = mjoin (render <$> done) /\
  s_popped (queue_ (st_logger s)) = (call_record <$> omap line_call done) ++ in_hand (st_worker s) /\
  in_hand (st_worker s) ++ held (queue_ (st_logger s)) = call_record <$> waiting.

Record log_inv (min_level : LogLevel) (s : LogState) : Prop := {
  li_queue : ring_inv k (queue_ (st_logger s));
  li_level : min_level_ (st_logger s) = min_level /\ Forall (fun c => (level_number min_level <= level_number c.1.2)%N) (accepted s);
  li_flow : exists done waiting, flow s done waiting;
  li_processed : length (processed_count_ (st_logger s)) + uncounted (st_worker s) + length (in_hand (st_worker s)) = S (length (s_popped (queue_ (st_logger s))));
  li_values : forall j v view, processed_count_ (st_logger s) !! j = Some (v, view) -> v = wrap64 (N.of_nat j) /\ view <= length (out_ (st_logger s));
  li_pushed : pushed_count_ (st_logger s) = wrap64 (N.of_nat (length (accepted s) - if st_caller s is Counting true then 1 else 0)) /\
    ((if st_caller s is Counting true then 1 else 0) <= length (accepted s));
  li_dropped : dropped_ (st_logger s) = wrap64 (N.of_nat (st_refused s - if st_caller s is Counting false then 1 else 0)) /\
    ((if st_caller s is Counting false then 1 else 0) <= st_refused s);
  li_pushing : match st_caller s with
    | Pushing c => (level_number min_level <= level_number c.1.2)%N /\ forall r, in_flight (s_producer (queue_ (st_logger s))) = Some r -> r = call_record c
    | _ => s_producer (queue_ (st_logger s)) = PIdle
    end;
  li_flushing : forall d target, st_caller s = Flushing d target -> target = pushed_count_ (st_logger s);
  li_seen : st_seen s < length (processed_count_ (st_logger s));
  li_visible : st_visible s <= length (out_ (st_logger s));
  li_last : all_counted s -> st_synced s = true \/ exists v, last (processed_count_ (st_logger s)) = Some (v, length (out_ (st_logger s)));
  li_synced : st_synced s = true -> all_counted s /\ st_visible s = length (out_ (st_logger s));
  li_ending : match st_caller s with
    | Stopping => st_synced s = true /\ st_stop s = None
    | Joining | Destroyed => st_synced s = true /\ st_stop s = Some (length (s_pushed (queue_ (st_logger s))))
    | _ => st_stop s = None
    end;
  li_draining : draining (st_worker s) = true -> is_Some (st_stop s) /\ s_cview (queue_ (st_logger s)) = length (s_pushed (queue_ (st_logger s)));
  li_returned : st_worker s = Returned -> held (queue_ (st_logger s)) = [];
  li_destroyed : st_caller s = Destroyed -> st_worker s = Returned
}.

Lemma inc64_wrap n m : m = S n -> inc64 (wrap64 (N.of_nat n)) = wrap64 (N.of_nat m).
Proof. intros ->. unfold inc64, wrap64. rewrite N.Div0.add_mod_idemp_l. f_equal. lia. Qed.

Lemma lines_of_calls (cs : list Entered) : omap line_call (Line <$> cs) = cs.
Proof. induction cs as [|c cs IH]; [done|]. simpl. f_equal. exact IH. Qed.

Lemma accepted_flow s done waiting : flow s done waiting -> accepted s = omap line_call done ++ waiting.
Proof. intros (Hh & _). unfold accepted. by rewrite Hh, omap_app, lines_of_calls. Qed.

Context (k_range : (1 <= k <= 63)%N).

(** The queue has had the accepted calls' records, in order. *)
Lemma pushed_accepted min_level s : log_inv min_level s -> s_pushed (queue_ (st_logger s)) = call_record <$> accepted s.
Proof.
  intros Hi. destruct (li_flow _ _ Hi) as (done & waiting & Hf). rewrite (accepted_flow _ _ _ Hf). destruct Hf as (_ & _ & Hp & Hw).
  by rewrite (pushed_held k _ (li_queue _ _ Hi)), Hp, <- app_assoc, Hw, fmap_app.
Qed.

Lemma counts min_level s : log_inv min_level s -> length (s_pushed (queue_ (st_logger s))) = length (accepted s) /\
  length (s_popped (queue_ (st_logger s))) <= length (accepted s) /\ length (processed_count_ (st_logger s)) <= S (length (accepted s)).
Proof.
  intros Hi. rewrite (pushed_accepted _ _ Hi), length_fmap. pose proof (held_length k ltac:(lia) _ (li_queue _ _ Hi)) as [_ Hle].
  rewrite (pushed_accepted _ _ Hi), length_fmap in Hle. pose proof (li_processed _ _ Hi). lia.
Qed.

(** When all is counted, nothing is waiting and the worker holds nothing. *)
Lemma counted_idle min_level s : log_inv min_level s -> all_counted s ->
  in_hand (st_worker s) = [] /\ uncounted (st_worker s) = 0 /\ held (queue_ (st_logger s)) = [] /\ out_ (st_logger s) = mjoin (render <$> st_history s).
Proof.
  intros Hi Hc. destruct (counts _ _ Hi) as (H1 & H2 & _). pose proof (li_processed _ _ Hi) as H3. unfold all_counted in Hc.
  assert (Hh : in_hand (st_worker s) = []) by (apply nil_length_inv; lia). assert (Hq : held (queue_ (st_logger s)) = []).
  { apply nil_length_inv. destruct (held_length k ltac:(lia) _ (li_queue _ _ Hi)) as [-> _]. lia. }
  split_and!; [done|lia|done|]. destruct (li_flow _ _ Hi) as (done & waiting & Hd & Ho & _ & Hw). rewrite Hh, Hq in Hw.
  destruct waiting; [|done]. simpl in Hd. by rewrite Ho, Hd, app_nil_r.
Qed.

Lemma init_log_inv min_level : log_inv min_level (init_log min_level).
Proof.
  split; simpl; try done.
  - apply init_inv. lia.
  - by exists [], [].
  - intros [|j] v view; [|done]. by intros [= <- <-].
  - lia.
  - auto.
Qed.

(** ** The caller *)

(** The caller is somewhere else between two calls. *)
Lemma at_caller_inv min_level s c : log_inv min_level s -> st_caller s = Idle ->
  match c with
  | Idle => True
  | Pushing e => (level_number min_level <= level_number e.1.2)%N
  | Flushing _ target => target = pushed_count_ (st_logger s)
  | _ => False
  end -> log_inv min_level (at_caller c s).
Proof.
  intros Hi Hc Hm. pose proof Hi as [H1 H2 H3 H4 H5 H6 H7 H8 H9 H10 H11 H12 H13 H14 H15 H16 H17]. rewrite Hc in H6, H7, H8, H14.
  destruct c; try done; split; simpl; try done.
  - split; [done|]. rewrite H8. done.
  - intros ? ? [= <- <-]. done.
Qed.

Lemma push_next_inv min_level s c j r q : log_inv min_level s -> st_caller s = Pushing c -> push_access k (call_record c) j (queue_ (st_logger s)) = Some (r, q) ->
  let s1 := with_logger (set_queue q (st_logger s)) s in log_inv min_level (match r with None => s1 | Some ok => entered c ok s1 end).
Proof.
  intros Hi Hc Hp. pose proof Hi as [H1 [H2 H2'] (done & waiting & F1 & F2 & F3 & F4) H4 H5 [H6 H6'] [H7 H7'] H8 H9 H10 H11 H12 H13 H14 H15 H16 H17].
  rewrite Hc in H6, H6', H7, H7', H8, H9, H14, H17. destruct H8 as [Hlev Hfl]. rewrite Nat.sub_0_r in H6, H7.
  pose proof (push_access_inv k ltac:(lia) _ _ _ _ _ H1 Hp) as Hq. destruct (push_access_effect k _ _ _ _ _ Hp) as (Epo & _ & _ & Ecv & He).
  assert (Hrun : draining (st_worker s) = false).
  { destruct (draining (st_worker s)) eqn:E; [|done]. destruct (H15 eq_refl) as [[w Hw] _]. congruence. }
  destruct r as [ok|]; simpl.
  - destruct He as (HP & it & Hit & Epu). apply Hfl in Hit as ->. destruct ok.
    + assert (Eh : held q = held (queue_ (st_logger s)) ++ [call_record c]).
      { unfold held. rewrite Epu, Epo. apply drop_app_le. pose proof (held_length k ltac:(lia) _ H1). lia. }
      assert (Ea : accepted (entered c true (with_logger (set_queue q (st_logger s)) s)) = accepted s ++ [c]) by (unfold accepted; simpl; by rewrite omap_app).
      pose proof (counts _ _ Hi) as (_ & _ & Hcnt).
      split; simpl; rewrite ?Ea, ?length_app, ?Nat.add_sub, ?Epo; simpl; try done; try lia.
      * split; [done|]. apply Forall_app. split; [done|]. by constructor.
      * exists done, (waiting ++ [c]). unfold flow. simpl. rewrite F1, Epo, Eh, fmap_app, fmap_app, <- F4, <- !app_assoc. split_and!; done.
      * split; [by rewrite H7, Nat.sub_0_r|lia].
      * unfold all_counted. simpl. rewrite Ea, length_app. simpl. lia.
      * by rewrite Hrun.
      * intros E. by rewrite E in Hrun.
    + assert (Eh : held q = held (queue_ (st_logger s))) by (unfold held; by rewrite Epu, Epo).
      split; simpl; rewrite ?Epo, ?Eh, ?Nat.sub_0_r; try done.
      * exists done, waiting. unfold flow. simpl. by rewrite Epo, Eh.
      * split; [done|lia].
      * by rewrite Hrun.
  - destruct He as (Epu & HP). assert (Eh : held q = held (queue_ (st_logger s))) by (unfold held; by rewrite Epu, Epo).
    split; simpl; rewrite ?Hc, ?Epo, ?Eh, ?Nat.sub_0_r; try done.
    + exists done, waiting. unfold flow. simpl. by rewrite Epo, Eh.
    + split; [done|]. rewrite HP. intros r [= <-]. destruct (in_flight _) as [it|] eqn:E; simpl; [by apply Hfl|done].
    + by rewrite Hrun.
Qed.

Lemma count_inv min_level s ok : log_inv min_level s -> st_caller s = Counting ok -> log_inv min_level (at_caller Idle (with_logger (log_count ok (st_logger s)) s)).
Proof.
  intros Hi Hc. pose proof Hi as [H1 H2 H3 H4 H5 [H6 H6'] [H7 H7'] H8 H9 H10 H11 H12 H13 H14 H15 H16 H17]. rewrite Hc in H6, H6', H7, H7', H8, H14.
  destruct ok; split; simpl; try done.
  - split; [|lia]. rewrite H6, Nat.sub_0_r. apply inc64_wrap. unfold accepted in *. simpl. lia.
  - split; [|lia]. rewrite H7, Nat.sub_0_r. apply inc64_wrap. lia.
Qed.

(** The caller's own output comes after all that it has logged. *)
Lemma print_inv min_level s t s' : log_inv min_level s -> st_caller s = Idle -> print t s = Some s' -> log_inv min_level s'.
Proof.
  intros Hi Hc. unfold print. destruct (st_synced s) eqn:Hs; [|done]. intros [= <-].
  pose proof Hi as [H1 H2 H3 H4 H5 H6 H7 H8 H9 H10 H11 H12 H13 H14 H15 H16 H17]. destruct (H13 Hs) as [Hall _]. destruct (counted_idle _ _ Hi Hall) as (Hh & _ & Hq & Ho).
  set (s' := mkLogState _ _ _ _ _ _ _ _ _). assert (Ea : accepted s' = accepted s) by (unfold accepted; simpl; rewrite omap_app; simpl; by rewrite app_nil_r).
  assert (Hall' : all_counted s') by (unfold all_counted; by rewrite Ea). split; rewrite ?Ea; simpl; try done; try (by auto).
  - exists (st_history s'), []. unfold flow. simpl. rewrite Hh, Hq, !app_nil_r, fmap_app, join_app, omap_app. simpl.
    rewrite !app_nil_r, Ho. split_and!; try done. destruct H3 as (done & waiting & F1 & F2 & F3 & F4). rewrite Hh, Hq in *. destruct waiting; [|done].
    rewrite app_nil_r in F3. simpl in F1. by rewrite F3, F1, !app_nil_r.
  - intros j v view Hj. destruct (H5 j v view Hj) as [-> ?]. split; [done|]. rewrite length_app. lia.
  - by rewrite Hc in *.
Qed.

(** What the load in [flush] returns: a count that may be out of date; when it
    has reached the target, everything is written and visible. *)
Lemma load_processed_ok min_level s j : log_inv min_level s -> exists j' view, st_seen s <= j' < length (processed_count_ (st_logger s)) /\
  processed_count_ (st_logger s) !! j' = Some (wrap64 (N.of_nat j'), view) /\ view <= length (out_ (st_logger s)) /\
  (length (processed_count_ (st_logger s)) <= S j -> j' = length (processed_count_ (st_logger s)) - 1) /\
  load_processed j s = Some (wrap64 (N.of_nat j'),
    mkLogState (st_logger s) (st_caller s) j' (st_visible s `max` view) (st_synced s) (st_worker s) (st_stop s) (st_history s) (st_refused s)).
Proof.
  intros Hi. pose proof (load_at_bounds (st_seen s) j _ (li_seen _ _ Hi)) as Hb. unfold load_processed.
  set (j' := load_at (st_seen s) j (processed_count_ (st_logger s))) in *. destruct (lookup_lt_is_Some_2 (processed_count_ (st_logger s)) j') as [[v view] Hm]; [lia|].
  destruct (li_values _ _ Hi _ _ _ Hm) as [-> Hv]. exists j', view. rewrite Hm. split_and!; try done; try lia. intros Hl. by apply load_at_last.
Qed.

Lemma flush_next_inv min_level s d target j s' : log_inv min_level s -> (N.of_nat (length (accepted s)) < two64)%N -> st_caller s = Flushing d target ->
  caller_next Flush j s = Some s' -> log_inv min_level s' /\ (st_caller s' = Flushing d target \/ (st_caller s' = (if d then Stopping else Idle) /\ complete s' /\ st_synced s' = true)) /\
  st_history s' = st_history s /\ st_worker s' = st_worker s /\ st_logger s' = st_logger s /\
  (length (processed_count_ (st_logger s)) <= S j -> all_counted s -> st_caller s' = if d then Stopping else Idle).
Proof.
  intros Hi Hlt Hc. unfold caller_next. rewrite Hc. destruct (load_processed_ok _ s j Hi) as (j' & view & Hj & Hm & Hv & Hlate & ->). cbn [mbind option_bind]. intros [= <-].
  pose proof Hi as [H1 H2 H3 H4 H5 [H6 H6'] H7 H8 H9 H10 H11 H12 H13 H14 H15 H16 H17]. rewrite Hc in H6, H6', H7, H8, H14, H17. rewrite Nat.sub_0_r in H6, H7.
  destruct (counts _ _ Hi) as (_ & _ & Hle). rewrite wrap64_small by lia. pose proof (H9 d target Hc) as Et. rewrite H6, wrap64_small in Et by lia.
  set (s1 := mkLogState _ _ _ _ _ _ _ _ _). assert (Hi1 : log_inv min_level s1).
  { split; simpl; rewrite ?Hc, ?Nat.sub_0_r; try done; try lia; [intros ? ? [= <- <-]; by eapply H9|]. intros Hs. destruct (H13 Hs). split; [done|lia]. }
  destruct (N.ltb_spec (N.of_nat j') target) as [Hl|Hl].
  { split_and!; try done; [by left|]. intros Hlast Hall. specialize (Hlate Hlast). unfold all_counted in Hall. lia. }
  assert (Hall : all_counted s) by (unfold all_counted; lia).
  assert (Hvis : st_visible s `max` view = length (out_ (st_logger s))).
  { destruct (H12 Hall) as [Hs|[v Hv']]; [destruct (H13 Hs); lia|]. rewrite last_lookup in Hv'. replace (pred _) with j' in Hv' by (unfold all_counted in Hall; lia).
    rewrite Hm in Hv'. injection Hv' as _ ->. lia. }
  split; [|split; [right|by destruct d]].
  - split; simpl; rewrite ?Nat.sub_0_r; try done; try lia; try (by destruct d).
    all: destruct d; rewrite ?Nat.sub_0_r; (split; [exact H6 || apply H7|lia]).
  - split_and!; [done| |done]. split; simpl; [|done]. by apply (counted_idle _ _ Hi Hall).
Qed.

(** What the program does next matters between calls only. *)
Lemma call_irrelevant c c' j s : st_caller s <> Idle -> caller_next c j s = caller_next c' j s.
Proof. unfold caller_next. by destruct (st_caller s). Qed.

Lemma request_stop_inv min_level s : log_inv min_level s -> st_caller s = Stopping -> log_inv min_level (request_stop s).
Proof.
  intros Hi Hc. pose proof Hi as [H1 H2 H3 H4 H5 H6 H7 H8 H9 H10 H11 H12 H13 H14 H15 H16 H17]. rewrite Hc in H6, H7, H8, H14.
  split; simpl; try done.
  - rewrite (inv_writes _ _ H1), history_length by lia. simpl. rewrite Nat.sub_0_r. by destruct H14.
  - intros Hd. destruct (H15 Hd) as [_ E]. split; [by eexists|done].
Qed.

Lemma joined_inv min_level s : log_inv min_level s -> st_caller s = Joining -> st_worker s = Returned -> log_inv min_level (joined s).
Proof.
  intros Hi Hc Hw. pose proof Hi as [H1 H2 H3 H4 H5 H6 H7 H8 H9 H10 H11 H12 H13 H14 H15 H16 H17]. rewrite Hc in H6, H7, H8, H14.
  split; simpl; try done. intros Hs. by destruct (H13 Hs).
Qed.

Lemma caller_next_inv min_level s call j s' : log_inv min_level s -> (N.of_nat (length (accepted s)) < two64)%N ->
  caller_next call j s = Some s' -> log_inv min_level s'.
Proof.
  intros Hi Hlt E. destruct (st_caller s) as [|c|ok|d target| | |] eqn:Hc.
  - unfold caller_next in E. rewrite Hc in E. destruct call as [now level msg| |t|]; [injection E as <-|injection E as <-|by eapply print_inv|injection E as <-].
    + destruct (N.ltb_spec (level_number level) (level_number (min_level_ (st_logger s)))); [done|]. apply at_caller_inv; [done|done|]. simpl.
      by destruct (li_level _ _ Hi) as [<- _].
    + by apply at_caller_inv.
    + by apply at_caller_inv.
  - unfold caller_next in E. rewrite Hc in E. destruct (push_access _ _ _ _) as [[r q]|] eqn:Hp; [|done]. cbn [mbind option_bind] in E. injection E as <-.
    by eapply push_next_inv.
  - unfold caller_next in E. rewrite Hc in E. injection E as <-. by apply count_inv.
  - rewrite (call_irrelevant _ Flush) in E by congruence. by apply (flush_next_inv _ s d target j s').
  - unfold caller_next in E. rewrite Hc in E. injection E as <-. by apply request_stop_inv.
  - unfold caller_next in E. rewrite Hc in E. injection E as <-. destruct (st_worker s) eqn:Hw; try done. by apply joined_inv.
  - unfold caller_next in E. by rewrite Hc in E.
Qed.

(** ** The worker *)

(** The worker's position and views change, and nothing else. *)
Lemma worker_moves_inv min_level s w q : log_inv min_level s -> st_caller s <> Destroyed -> ring_inv k q ->
  s_pushed q = s_pushed (queue_ (st_logger s)) -> s_popped q = s_popped (queue_ (st_logger s)) -> s_producer q = s_producer (queue_ (st_logger s)) ->
  in_hand w = in_hand (st_worker s) -> uncounted w = uncounted (st_worker s) ->
  (draining w = true -> is_Some (st_stop s) /\ s_cview q = length (s_pushed q)) -> (w = Returned -> held q = []) ->
  log_inv min_level (at_worker w (set_queue q (st_logger s)) s).
Proof.
  intros Hi Hnd Hq Epu Epo Epr Eh Eu Hd Hr. pose proof Hi as [H1 H2 (done & waiting & F) H4 H5 H6 H7 H8 H9 H10 H11 H12 H13 H14 H15 H16 H17].
  split; simpl; rewrite ?Epu, ?Epo, ?Epr, ?Eh, ?Eu; try done.
  - exists done, waiting. unfold flow, held. simpl. rewrite Epu, Epo, Eh. exact F.
  - by rewrite Epu in Hd.
Qed.

Lemma pop_next_inv min_level s d j r q : log_inv min_level s -> st_caller s <> Destroyed -> st_worker s = Popping d -> pop_access k j (queue_ (st_logger s)) = Some (r, q) ->
  log_inv min_level (match r with
    | None => at_worker (Popping d) (set_queue q (st_logger s)) s
    | Some None => at_worker (if d then Returned else Testing) (set_queue q (st_logger s)) s
    | Some (Some record) => at_worker (Writing d record) (set_queue q (st_logger s)) s
    end).
Proof.
  intros Hi Hnd Hw Hp. pose proof Hi as [H1 H2 (done & waiting & F1 & F2 & F3 & F4) H4 H5 H6 H7 H8 H9 H10 H11 H12 H13 H14 H15 H16 H17]. rewrite Hw in F3, F4, H4, H15. simpl in F3, F4, H4, H15.
  pose proof (pop_access_inv k ltac:(lia) _ _ _ _ H1 Hp) as Hq. destruct (pop_access_effect k ltac:(lia) _ _ _ _ H1 Hp) as (Epu & _ & Epr & _ & Hcv & He).
  assert (Hdr : d = true -> is_Some (st_stop s) /\ s_cview q = length (s_pushed q)).
  { intros Hd. destruct (H15 Hd) as [Hst E]. split; [done|]. pose proof (inv_cview _ _ Hq). rewrite Epu in *. lia. }
  destruct r as [[x|]|].
  - destruct He as [Epo Hx]. assert (Eh : held (queue_ (st_logger s)) = x :: held q).
    { unfold held. rewrite Epu, Epo, length_app. simpl. rewrite Nat.add_1_r. by apply drop_S. }
    rewrite app_nil_r in F3. rewrite Eh in F4. split; simpl; rewrite ?Epu, ?Epr, ?Epo, ?length_app; simpl; try done; [|lia|by rewrite Epu in Hdr].
    exists done, waiting. unfold flow. simpl. rewrite Epo, F3. done.
  - destruct d; apply worker_moves_inv; try done; try (by rewrite Hw); try auto. intros _. unfold held. rewrite Epu, He.
    destruct (H15 eq_refl) as [_ Hseen]. by apply (pop_none_empty k ltac:(lia) j _ q H1).
  - apply worker_moves_inv; try done; by rewrite Hw.
Qed.

Lemma write_inv min_level s d r : log_inv min_level s -> st_caller s <> Destroyed -> st_worker s = Writing d r ->
  log_inv min_level (at_worker (Wrote d) (write (format_record r) (st_logger s)) s).
Proof.
  intros Hi Hnd Hw. pose proof Hi as [H1 H2 (done & waiting & F1 & F2 & F3 & F4) H4 H5 H6 H7 H8 H9 H10 H11 H12 H13 H14 H15 H16 H17]. rewrite Hw in F3, F4, H4, H15. simpl in F3, F4, H4, H15.
  assert (Hno : ~ all_counted s) by (intros Hall; destruct (counted_idle _ _ Hi Hall) as (Hh & _); by rewrite Hw in Hh).
  destruct waiting as [|c waiting]; [done|]. injection F4 as Er F4. split; simpl; rewrite ?length_app; try done; try lia.
  - exists (done ++ [Line c]), waiting. unfold flow. simpl. rewrite fmap_app, join_app, omap_app, fmap_app. simpl.
    rewrite !app_nil_r, <- call_line_eq, <- Er, <- F2, F1, F3, <- app_assoc. split_and!; done.
  - intros j v view Hj. destruct (H5 j v view Hj) as [-> ?]. split; [done|]. lia.
  - intros Hs. by destruct (H13 Hs).
Qed.

Lemma counted_inv min_level s d l : log_inv min_level s -> st_caller s <> Destroyed -> st_worker s = Wrote d -> count_processed (st_logger s) = Some l ->
  log_inv min_level (at_worker (after_write d) l s).
Proof.
  intros Hi Hnd Hw. pose proof Hi as [H1 H2 (done & waiting & F) H4 H5 H6 H7 H8 H9 H10 H11 H12 H13 H14 H15 H16 H17]. rewrite Hw in H4, H15. simpl in H4, H15.
  assert (Hno : ~ all_counted s) by (intros Hall; destruct (counted_idle _ _ Hi Hall) as (_ & Hh & _); by rewrite Hw in Hh).
  unfold count_processed. destruct (last (processed_count_ (st_logger s))) as [[v view]|] eqn:Hl; [|done]. cbn [mbind option_bind]. intros [= <-].
  rewrite last_lookup in Hl. destruct (H5 _ _ _ Hl) as [-> _]. assert (Ha : in_hand (after_write d) = [] /\ uncounted (after_write d) = 0 /\ draining (after_write d) = d /\ after_write d <> Returned)
    by (by destruct d). destruct Ha as (A1 & A2 & A3 & A4).
  split; simpl; rewrite ?A1, ?A2, ?A3, ?length_app, ?last_snoc; simpl; try done; try lia.
  - exists done, waiting. destruct F as (F1 & F2 & F3 & F4). unfold flow. simpl. rewrite A1. by rewrite Hw in F3, F4.
  - intros j v view' [[_ Hj]|[-> [= <- <-]]]%lookup_snoc_Some; [by eapply H5|]. split; [|done]. apply inc64_wrap. lia.
  - eauto.
  - intros Hs. by destruct (H13 Hs).
Qed.

Lemma worker_next_inv min_level s j s' : log_inv min_level s -> worker_next j s = Some s' -> log_inv min_level s'.
Proof.
  intros Hi. unfold worker_next. assert (Hnd : st_worker s <> Returned -> st_caller s <> Destroyed) by (intros Hw Hc; by apply Hw, (li_destroyed _ _ Hi)).
  pose proof (li_queue _ _ Hi) as Hq. assert (Hself : set_queue (queue_ (st_logger s)) (st_logger s) = st_logger s) by (by destruct (st_logger s)).
  destruct (st_worker s) as [|d|d r|d|] eqn:Hw; [| | | |done]; specialize (Hnd ltac:(done)).
  - intros [= <-]. unfold stop_requested. case_decide; [destruct (st_stop s) as [view|] eqn:Hst|].
    + pose proof (li_ending _ _ Hi) as He. assert (Ev : view = length (s_pushed (queue_ (st_logger s)))) by (revert He; destruct (st_caller s); try (intros [_ ?]; congruence); congruence).
      apply worker_moves_inv; try done; try (by rewrite Hw); [apply see_writes_inv; [lia|done|lia]|]. intros _. rewrite Hst. split; [by eexists|].
      simpl. pose proof (inv_cview _ _ Hq). lia.
    + rewrite <- Hself. apply worker_moves_inv; try done; by rewrite Hw.
    + rewrite <- Hself. apply worker_moves_inv; try done; by rewrite Hw.
  - destruct (pop_access _ _ _) as [[r q]|] eqn:Hp; [|done]. cbn [mbind option_bind]. intros [= <-]. by eapply pop_next_inv.
  - intros [= <-]. by apply write_inv.
  - destruct (count_processed (st_logger s)) as [l|] eqn:Hl; [|done]. cbn [mbind option_bind]. intros [= <-]. by apply counted_inv.
Qed.

(** ** Reachable states *)

Lemma load_processed_keeps j s v s1 : load_processed j s = Some (v, s1) -> st_history s1 = st_history s.
Proof. unfold load_processed. destruct (_ !! _); [|done]. by intros [= _ <-]. Qed.

Lemma history_grows t call j s s' : log_next t call j s = Some s' -> st_history s `prefix_of` st_history s'.
Proof.
  assert (Happ : forall e, st_history s `prefix_of` st_history s ++ e) by (intros e; by apply prefix_app_r).
  destruct t; simpl; unfold caller_next, worker_next.
  - destruct (st_caller s) as [|c|ok|d target| | |]; [destruct call as [now level msg| |t|]| | | | | |]; unfold print; intros E; try done.
    7: destruct (load_processed j s) as [[v s1]|] eqn:El; [|done]; apply load_processed_keeps in El.
    5: destruct (push_access _ _ _ _) as [[[[]|] q]|]; [| | |done].
    all: repeat case_match; simplify_eq/=; try done; try apply Happ.
    destruct (v <? target)%N; simpl; by rewrite El.
  - destruct (st_worker s) as [|d|d r|d|]; [|destruct (pop_access _ _ _) as [[[[]|] q]|]; [| | |done]| |destruct (count_processed _) as [l|]; [|done]|done]; intros [= <-]; try done.
    by destruct (stop_requested j s).
Qed.

Lemma accepted_grows t call j s s' : log_next t call j s = Some s' -> length (accepted s) <= length (accepted s').
Proof. intros [e He]%history_grows. unfold accepted. rewrite He, omap_app, length_app. lia. Qed.

Lemma log_next_inv min_level t call j s s' : log_inv min_level s -> (N.of_nat (length (accepted s)) < two64)%N -> log_next t call j s = Some s' -> log_inv min_level s'.
Proof. intros Hi Hlt. destruct t; [by apply caller_next_inv|by apply worker_next_inv]. Qed.

Lemma log_reachable_inv min_level s : log_reachable min_level s -> (N.of_nat (length (accepted s)) < two64)%N -> log_inv min_level s.
Proof.
  intros Hr. apply (rtc_ind_r (fun s => (N.of_nat (length (accepted s)) < two64)%N -> log_inv min_level s) (init_log min_level)) with (3 := Hr); [intros _; apply init_log_inv|].
  intros s1 s2 _ [t call j E] IH Hlt. pose proof (accepted_grows _ _ _ _ _ E). eapply log_next_inv; [apply IH; lia|lia|exact E].
Qed.

(** ** No thread gets stuck *)

Lemma caller_defined min_level s call j : log_inv min_level s -> st_caller s <> Destroyed -> st_synced s = true \/ (forall t, call <> Print t) ->
  is_Some (caller_next call j s).
Proof.
  intros Hi Hnd Hp. unfold caller_next. destruct (st_caller s) as [|c|ok|d target| | |]; [|  |by eexists| |by eexists..|done].
  - destruct call; try by eexists. unfold print. destruct Hp as [->|Hp]; [by eexists|by destruct (Hp output)].
  - destruct (push_access_step k ltac:(lia) (call_record c) j _ (li_queue _ _ Hi)) as (r & q & -> & _). by eexists.
  - destruct (load_processed_ok _ s j Hi) as (? & ? & _ & _ & _ & _ & ->). by eexists.
Qed.

Lemma worker_defined min_level s j : log_inv min_level s -> st_worker s <> Returned -> is_Some (worker_next j s).
Proof.
  intros Hi Hnr. unfold worker_next. destruct (st_worker s) as [|d|d r|d|]; [by eexists| |by eexists| |done].
  - destruct (pop_access_step k ltac:(lia) j _ (li_queue _ _ Hi)) as (r & q & -> & _). by eexists.
  - unfold count_processed. pose proof (li_seen _ _ Hi). destruct (last _) as [m|] eqn:E; [by eexists|]. apply last_None in E. rewrite E in *. simpl in *. lia.
Qed.
End logger.

Section claims.
Context (k : N) (k_range : (1 <= k <= 63)%N) (min_level : LogLevel) (s : LogState).
Context (s_reached : log_reachable k min_level s) (s_bound : (N.of_nat (length (accepted s)) < two64)%N).

(** C30. In every interleaving of the memory accesses of the caller and the
    worker, and whatever older values their loads return, no thread gets stuck,
    and the stream holds the lines of the accepted calls and the caller's own
    output, whole and in the order of the program, but for the last calls (at
    most the queue and one record in the worker's hands), which are still to
    come.  Only calls at or above the minimum level are accepted, and between
    calls the counter of dropped records is the number of calls that found the
    queue full. *)
Theorem logger_output :
  (exists done waiting, st_history s = done ++ (Line <$> waiting) /\ out_ (st_logger s) = mjoin (render <$> done) /\
    (N.of_nat (length waiting) <= capacity k + 1)%N) /\
  Forall (fun c => (level_number min_level <= level_number c.1.2)%N) (accepted s) /\
  (st_caller s = Idle -> dropped_count (st_logger s) = wrap64 (N.of_nat (st_refused s))) /\
  (forall call j, st_caller s <> Destroyed -> st_synced s = true \/ (forall t, call <> Print t) -> is_Some (caller_next k call j s)) /\
  (forall j, st_worker s <> Returned -> is_Some (worker_next k j s)).
Proof.
  pose proof (log_reachable_inv k k_range min_level s s_reached s_bound) as Hi. split_and!.
  - destruct (li_flow _ _ _ Hi) as (done & waiting & F1 & F2 & F3 & F4). exists done, waiting. split_and!; [done|done|].
    apply (f_equal length) in F4. rewrite length_app, length_fmap in F4. pose proof (inv_room _ _ (li_queue _ _ _ Hi)). pose proof (inv_pview _ _ (li_queue _ _ _ Hi)).
    destruct (held_length k ltac:(lia) _ (li_queue _ _ _ Hi)) as [Hh _]. pose proof (cap_N k). pose proof (cap_ge2 k).
    assert (length (in_hand (st_worker s)) <= 1)%nat by (destruct (st_worker s); simpl; lia). unfold capacity. lia.
  - apply Hi.
  - intros Hc. destruct (li_dropped _ _ _ Hi) as [Hd _]. unfold dropped_count. by rewrite Hd, Hc, Nat.sub_0_r.
  - intros call j. by apply (caller_defined k k_range min_level).
  - intros j. by apply (worker_defined k k_range min_level).
Qed.

(** C31. [flush] and the destructor wait for everything: when [flush] returns,
    and when the logger has been destroyed, every call accepted so far is on the
    stream, in order with the caller's own output, and all of it is visible to
    the caller, who may then write to the stream himself. *)
Theorem logger_flush_complete :
  (forall call d target j s', st_caller s = Flushing d target -> caller_next k call j s = Some s' ->
     st_caller s' = Flushing d target \/ (complete s' /\ st_synced s' = true)) /\
  (st_caller s = Destroyed -> complete s).
Proof.
  pose proof (log_reachable_inv k k_range min_level s s_reached s_bound) as Hi. split.
  - intros call d target j s' Hc E. rewrite (call_irrelevant k call Flush) in E by congruence.
    destruct (flush_next_inv k k_range min_level s d target j s' Hi s_bound Hc E) as (_ & [?|(_ & ?)] & _); auto.
  - intros Hc. pose proof (li_ending _ _ _ Hi) as He. rewrite Hc in He. destruct (li_synced _ _ _ Hi (proj1 He)) as [Hall Hv].
    split; [by apply (counted_idle k k_range min_level s Hi Hall)|done].
Qed.
End claims.

(** * A concrete execution

    A queue of one record: a debug message is filtered out, a warning accepted,
    an error finds the queue full, and [flush] waits, longer than it has to
    because its first load after the worker's increment is out of date. *)

Definition hello : Entered := (5%N, Warn, lit "hello").

Definition caller (call : LogCall) (j : nat) : LogThread * LogCall * nat := (CallerT, call, j).
Definition worker (j : nat) : LogThread * LogCall * nat := (WorkerT, Flush, j).

Definition waiting_schedule : list (LogThread * LogCall * nat) :=
  caller (debug 3 (lit "hi")) 0 :: replicate 6 (caller (warn 5 (lit "hello")) 0) ++ replicate 4 (caller (error 6 (lit "lost")) 0) ++
  [caller Flush 0; caller Flush 0] ++ replicate 7 (worker 1) ++ [caller Flush 0].

Definition state_after (sched : list (LogThread * LogCall * nat)) : LogState := default (init_log 1 Info) (run_log 1 sched (init_log 1 Info)).

Definition waiting_state : LogState := state_after waiting_schedule.
Definition printed_state : LogState := state_after (waiting_schedule ++ [caller Flush 1; caller (Print (lit "done")) 0]).

Lemma waiting_reachable : log_reachable 1 Info waiting_state.
Proof. apply (run_log_reaches 1 waiting_schedule Info (init_log 1 Info)); [apply rtc_refl|vm_compute; reflexivity]. Qed.

Lemma printed_reachable : log_reachable 1 Info printed_state.
Proof. apply (run_log_reaches 1 (waiting_schedule ++ [caller Flush 1; caller (Print (lit "done")) 0]) Info (init_log 1 Info)); [apply rtc_refl|vm_compute; reflexivity]. Qed.

Lemma logger_output_witness :
  st_caller printed_state = Idle /\ st_refused printed_state = 1 /\ st_history printed_state = [Line hello; Plain (lit "done")] /\
  (exists done waiting, st_history printed_state = done ++ (Line <$> waiting) /\ out_ (st_logger printed_state) = mjoin (render <$> done) /\
    (N.of_nat (length waiting) <= capacity 1 + 1)%N) /\
  Forall (fun c => (level_number Info <= level_number c.1.2)%N) (accepted printed_state) /\
  (st_caller printed_state = Idle -> dropped_count (st_logger printed_state) = wrap64 (N.of_nat (st_refused printed_state))) /\
  (forall call j, st_caller printed_state <> Destroyed -> st_synced printed_state = true \/ (forall t, call <> Print t) -> is_Some (caller_next 1 call j printed_state)) /\
  (forall j, st_worker printed_state <> Returned -> is_Some (worker_next 1 j printed_state)).
Proof.
  split; [vm_compute; reflexivity|]. split; [vm_compute; reflexivity|]. split; [vm_compute; reflexivity|].
  apply (logger_output 1 ltac:(lia) Info printed_state printed_reachable). vm_compute. reflexivity.
Defined.

Lemma logger_flush_complete_witness :
  st_caller waiting_state = Flushing false 1 /\
  (forall call d target j s', st_caller waiting_state = Flushing d target -> caller_next 1 call j waiting_state = Some s' ->
     st_caller s' = Flushing d target \/ (complete s' /\ st_synced s' = true)) /\
  (st_caller waiting_state = Destroyed -> complete waiting_state).
Proof.
  split; [vm_compute; reflexivity|]. apply (logger_flush_complete 1 ltac:(lia) Info waiting_state waiting_reachable). vm_compute. reflexivity.
Defined.
