(* ===== verification/Fairness.v ===== *)
(** Termination of threads under a fair scheduler.

    Threads share a state; [turn t s] is what thread [t] does when it is given
    the processor in state [s] (nothing, when it is blocked or has ended).  A
    schedule is an infinite sequence of turns, and it is fair when each of the
    threads that exist gets infinitely many of them.  The section proves the
    rule used for the program's threads: it is enough to name in every state a
    thread whose turn lowers a rank, if the turns of the other threads lower
    the rank too or change neither it nor the helpful thread.

    What a thread does in its turn may depend on more than its state, such as
    the value that a load returns; then the schedule gives the thread and a
    label.  If the labels are of no consequence from some turn on, the rule
    still applies ([labelled_termination]).  That is the case when every store
    becomes visible after a finite time ([visible]) and stores are finite in
    number. *)

From S2P Require Import Prelude.

Section fair.
Context {St T : Type} (turn : T -> St -> St) (exists_ : T -> Prop).

(** The state before the [n]-th turn. *)
Fixpoint exec (sched : nat -> T) (s : St) (n : nat) : St :=
  match n with O => s | S n' => turn (sched n') (exec sched s n') end.

Definition fair (sched : nat -> T) : Prop := forall t, exists_ t -> forall n, exists m, n <= m /\ sched m = t.

(** What a rank with a helpful thread has to satisfy, under an invariant. *)
Class Ranked (inv stopped : St -> Prop) (rank : St -> nat) (helpful : St -> T) := {
  ranked_inv t s : inv s -> inv (turn t s);
  ranked_exists s : inv s -> ~ stopped s -> exists_ (helpful s);
  ranked_helpful s : inv s -> ~ stopped s -> rank (turn (helpful s) s) < rank s;
  ranked_others t s : inv s -> ~ stopped s ->
    rank (turn t s) < rank s \/ (rank (turn t s) = rank s /\ helpful (turn t s) = helpful s)
}.

Context (inv stopped : St -> Prop) `{forall s, Decision (stopped s)} (rank : St -> nat) (helpful : St -> T).
Context `{!Ranked inv stopped rank helpful}.
Context (sched : nat -> T) (s0 : St) (Hfair : fair sched) (Hinv : inv s0).

Lemma exec_inv n : inv (exec sched s0 n).
Proof. induction n; simpl; [done|]. by apply ranked_inv. Qed.

(** Up to the helpful thread's next turn, the rank is lowered or nothing
    relevant changes. *)
Lemma rank_lowered d n : sched (n + d) = helpful (exec sched s0 n) ->
  exists m, n <= m /\ (stopped (exec sched s0 m) \/ rank (exec sched s0 m) < rank (exec sched s0 n)).
Proof.
  revert n. induction d as [|d IH]; intros n Hd.
  all: destruct (decide (stopped (exec sched s0 n))) as [Hs|Hs]; [exists n; auto|].
  - rewrite Nat.add_0_r in Hd. exists (S n). split; [lia|]. right. simpl. rewrite Hd. by apply ranked_helpful; [apply exec_inv|].
  - destruct (ranked_others (sched n) _ (exec_inv n) Hs) as [Hlt|[Heq Hsame]]; [exists (S n); split; [lia|auto]|].
    destruct (IH (S n)) as (m & Hm & Hr); [rewrite <- Nat.add_succ_comm in Hd; simpl exec; congruence|].
    exists m. split; [lia|]. simpl exec in Hr. by rewrite Heq in Hr.
Qed.

(** Every fair schedule stops. *)
Theorem fair_termination : exists n, stopped (exec sched s0 n).
Proof.
  cut (forall r n, rank (exec sched s0 n) <= r -> exists m, stopped (exec sched s0 m)); [intros Hr; by eapply (Hr _ 0)|].
  induction r as [|r IH]; intros n Hn; (destruct (decide (stopped (exec sched s0 n))) as [Hs|Hs]; [by exists n|]);
    destruct (Hfair _ (ranked_exists _ (exec_inv n) Hs) n) as (m & Hle & Hm);
    (destruct (rank_lowered (m - n) n) as (m' & _ & [Hst|Hlt]); [by replace (n + (m - n)) with m by lia|by exists m'|]).
  - lia.
  - apply (IH m'). lia.
Qed.
End fair.

(** ** Turns with labels *)

(** Every store is visible to the loads from some turn on: the positions that
    they ask for grow beyond any bound.  (A load that asks for a position after
    the last one gets the last value, so nothing is lost by asking for ever
    later ones.) *)
Definition visible {T} (sched : nat -> T * nat) : Prop := forall v, exists m, forall i, m <= i -> v <= (sched i).2.

Section labelled.
Context {St T L : Type} (thread : L -> T) (turn : L -> St -> St) (late_turn : T -> St -> St) (exists_ : T -> Prop).
Context (inv stopped : St -> Prop) `{forall s, Decision (stopped s)} (rank : St -> nat) (helpful : St -> T).
Context (turn_keeps : forall x s, inv s -> inv (turn x s)).

(** Once the labels do not matter, the execution is one of late turns. *)
Lemma exec_late sched s0 m : inv s0 -> (forall i s, m <= i -> inv s -> turn (sched i) s = late_turn (thread (sched i)) s) ->
  forall i, exec turn sched s0 (m + i) = exec late_turn (fun i => thread (sched (m + i))) (exec turn sched s0 m) i.
Proof.
  intros Hi Hm. assert (Hinv : forall i, inv (exec turn sched s0 i)) by (intros i; induction i; simpl; [done|by apply turn_keeps]).
  induction i as [|i IH]; [by rewrite Nat.add_0_r|]. rewrite Nat.add_succ_r. simpl. rewrite <- IH. apply Hm; [lia|done].
Qed.

Lemma labelled_termination sched s0 : Ranked late_turn exists_ inv stopped rank helpful -> inv s0 -> fair exists_ (fun i => thread (sched i)) ->
  (exists m, forall i s, m <= i -> inv s -> turn (sched i) s = late_turn (thread (sched i)) s) -> exists i, stopped (exec turn sched s0 i).
Proof.
  intros HR Hi Hf [m Hm]. destruct (fair_termination late_turn exists_ inv stopped rank helpful (fun i => thread (sched (m + i))) (exec turn sched s0 m)) as [i Hd].
  - intros t Ht i. destruct (Hf t Ht (m + i)) as (i' & Hle & E). exists (i' - m). split; [lia|]. by replace (m + (i' - m)) with i' by lia.
  - clear Hm. induction m as [|m IH]; simpl; [done|by apply turn_keeps].
  - exists (m + i). by rewrite exec_late.
Qed.
End labelled.

(** ** Up to a stop *)

Section until.
Context {St L : Type} (turn : L -> St -> St) (stopped : St -> Prop) `{forall s, Decision (stopped s)}.

(** Turns that leave a stopped state alone. *)
Definition until (x : L) (s : St) : St := if decide (stopped s) then s else turn x s.

Lemma exec_until sched s0 i : exists i', exec turn sched s0 i' = exec until sched s0 i /\ (i' = i \/ stopped (exec until sched s0 i)).
Proof.
  induction i as [|i (i' & E & Hi)]; [by exists 0; auto|]. simpl. unfold until at 1 3. case_decide as Hs; [exists i'; auto|].
  destruct Hi as [->|]; [|done]. exists (S i). simpl. rewrite E. auto.
Qed.
End until.
