(* ===== verification/LoggerFair.v ===== *)
(** src/logger.cpp: [flush] and the destructor return.

    [flush] waits for the worker, and the destructor for its end.  Both return
    if the two threads run again and again and stores become visible after a
    finite time (Fairness.v): from the moment at which all that has been stored
    is visible, the rank below goes down.  It counts the records that are not
    yet processed and the accesses that the worker needs for the next one, and
    at the end those of its final drain. *)

From Stdlib Require Import Ascii String.
From S2P Require Import Prelude Types Text LockfreeQueue LockfreeAccess Fairness Logger.

(** The worker leaves the caller alone. *)
Lemma worker_keeps k j s s' : worker_next k j s = Some s' ->
  st_caller s' = st_caller s /\ st_history s' = st_history s /\ st_stop s' = st_stop s /\ st_visible s' = st_visible s /\
  st_synced s' = st_synced s /\ st_refused s' = st_refused s /\
  length (processed_count_ (st_logger s)) <= length (processed_count_ (st_logger s')).
Proof.
  unfold worker_next. destruct (st_worker s) as [|d|d r|d|]; intros E.
  - destruct (stop_requested j s); injection E as <-; done.
  - destruct (pop_access _ _ _) as [[[[]|] q]|]; [| | |done]; injection E as <-; done.
  - injection E as <-. done.
  - unfold count_processed in E. destruct (last _); [|done]. injection E as <-. simpl. rewrite length_app. split_and!; done || lia.
  - done.
Qed.

(** Positions after all that is stored are all the same. *)
Lemma log_next_late k min_level t call j j' s : (1 <= k <= 63)%N -> log_inv k min_level s -> length (accepted s) < j -> length (accepted s) < j' ->
  log_next k t call j s = log_next k t call j' s.
Proof.
  intros Hk Hi Hj Hj'. destruct (counts k Hk _ _ Hi) as (Hp & Hr & Hc). pose proof (inv_writes _ _ (li_queue _ _ _ Hi)) as Hw. pose proof (inv_reads _ _ (li_queue _ _ _ Hi)) as Hr'.
  destruct t; simpl; unfold caller_next, worker_next.
  - destruct (st_caller s); try done.
    + by rewrite (push_access_late k _ j j') by (rewrite Hr', history_length; lia).
    + unfold load_processed. by rewrite !load_at_last by lia.
  - destruct (st_worker s); try done.
    + unfold stop_requested. by rewrite !decide_True by lia.
    + by rewrite (pop_access_late k j j') by (rewrite Hw, history_length; lia).
Qed.

(** ** The rank *)

Definition unprocessed (s : LogState) : nat := S (length (accepted s)) - length (processed_count_ (st_logger s)).

(** The worker's accesses up to the next increment. *)
Definition record_todo (s : LogState) : nat :=
  match st_worker s with
  | Testing => 7
  | Popping _ => 2 + pop_todo (s_consumer (queue_ (st_logger s)))
  | Writing _ _ => 2
  | Wrote _ => 1
  | Returned => 0
  end.

(** Its accesses up to its end, with the queue empty. *)
Definition drain_todo (s : LogState) : nat :=
  match st_worker s with
  | Popping false => 5 + pop_todo (s_consumer (queue_ (st_logger s)))
  | Testing => 5
  | Popping true => pop_todo (s_consumer (queue_ (st_logger s)))
  | _ => 0
  end.

Definition worker_awaited (s : LogState) : bool :=
  match st_caller s with Flushing _ _ => bool_decide (unprocessed s <> 0) | Joining => match st_worker s with Returned => false | _ => true end | _ => false end.

Definition log_helpful (s : LogState) : LogThread := if worker_awaited s then WorkerT else CallerT.

Definition log_rank (s : LogState) : nat :=
  match st_caller s with
  | Flushing _ _ => if worker_awaited s then 40 + 8 * unprocessed s + record_todo s else 30
  | Stopping => 20
  | Joining => if worker_awaited s then 2 + drain_todo s else 1
  | _ => 0
  end.

Lemma pop_todo_bound (c : Consumer LogRecord) : 1 <= pop_todo c <= 4.
Proof. destruct c; simpl; lia. Qed.

Lemma drain_bound s : drain_todo s <= 9.
Proof. unfold drain_todo. pose proof (pop_todo_bound (s_consumer (queue_ (st_logger s)))). destruct (st_worker s) as [|[]| | |]; lia. Qed.

(** ** A call of [flush] or of the destructor *)

Section flush.
Context (k : N) (k_range : (1 <= k <= 63)%N) (min_level : LogLevel).
Context (history : list Entry) (in_destructor : bool) (bound : (N.of_nat (length (omap line_call history)) < two64)%N).

(** A thread that has ended does nothing in its turn. *)
Definition log_turn (x : LogThread * LogCall * nat) (s : LogState) : LogState := default s (log_next k x.1.1 x.1.2 x.2 s).

(** The call under way has returned. *)
Definition over (s : LogState) : Prop := match st_caller s with Flushing _ _ | Stopping | Joining => False | _ => True end.

#[local] Instance over_dec s : Decision (over s).
Proof. unfold over. destruct (st_caller s); apply _. Defined.

(** What holds from the beginning of the call to its end. *)
Definition under_way (s : LogState) : Prop :=
  log_inv k min_level s /\ st_history s = history /\
  match st_caller s with
  | Idle => in_destructor = false /\ complete s
  | Flushing d _ => d = in_destructor
  | Stopping | Joining | Destroyed => in_destructor = true
  | _ => False
  end.

(** A position after all that is stored by then. *)
Definition log_late : nat := S (length (omap line_call history)).

Definition flush_turn (x : LogThread * LogCall * nat) : LogState -> LogState := until log_turn over x.
Definition late_flush_turn (t : LogThread) (s : LogState) : LogState := flush_turn (t, Flush, log_late) s.

(** ** The turns *)

Lemma under_way_accepted s : under_way s -> accepted s = omap line_call history.
Proof. intros (_ & E & _). unfold accepted. by rewrite E. Qed.

Lemma unprocessed_zero s : log_inv k min_level s -> unprocessed s = 0 <-> all_counted s.
Proof. intros Hi. destruct (counts k k_range _ _ Hi) as (_ & _ & Hle). unfold unprocessed, all_counted. lia. Qed.

Lemma flush_turn_keeps x s : under_way s -> under_way (flush_turn x s).
Proof.
  intros Hu. unfold flush_turn, until. case_decide as Ho; [done|]. unfold log_turn. destruct (log_next k x.1.1 x.1.2 x.2 s) as [s'|] eqn:E; [|done]. change (default s (Some s')) with s'.
  pose proof (under_way_accepted s Hu) as Ea. destruct Hu as (Hi & Hh & Hc). assert (Hb : (N.of_nat (length (accepted s)) < two64)%N) by (by rewrite Ea).
  pose proof (log_next_inv k k_range _ _ _ _ _ _ Hi Hb E) as Hi'. split; [done|]. destruct x as [[[] call] j]; cbn [log_next fst snd] in E.
  - unfold over in Ho. destruct (st_caller s) as [| | |d target| | |] eqn:Hst; try (by destruct Ho).
    + rewrite (call_irrelevant k call Flush) in E by congruence. destruct (flush_next_inv k k_range _ _ _ _ _ _ Hi Hb Hst E) as (_ & Hd & Eh & _).
      split; [congruence|]. destruct Hd as [->|(-> & Hd & _)]; [done|]. subst in_destructor. by destruct d.
    + unfold caller_next in E. rewrite Hst in E. injection E as <-. done.
    + unfold caller_next in E. rewrite Hst in E. injection E as <-. destruct (st_worker s); simpl; rewrite ?Hst; done.
  - destruct (worker_keeps _ _ _ _ E) as (Ec & Eh & _). split; [congruence|]. rewrite Ec. unfold over in Ho. destruct (st_caller s); try done; by destruct Ho.
Qed.

Lemma late_flush_same t call j s : under_way s -> log_late <= j -> flush_turn (t, call, j) s = late_flush_turn t s.
Proof.
  intros Hu Hj. unfold late_flush_turn, flush_turn, until. case_decide as Ho; [done|]. unfold log_turn. simpl. f_equal.
  pose proof (under_way_accepted s Hu) as Ea. destruct Hu as (Hi & _ & _). unfold log_late in *.
  rewrite (log_next_late k min_level t call j (S (length (omap line_call history))) s) by (done || rewrite Ea; lia).
  destruct t; [|done]. apply call_irrelevant. intros Hc. apply Ho. unfold over. by rewrite Hc.
Qed.

(** A worker's late turn. *)
Lemma late_worker s s' : ~ over s -> worker_next k log_late s = Some s' -> late_flush_turn WorkerT s = s'.
Proof. intros Ho E. unfold late_flush_turn, flush_turn, until. rewrite decide_False by done. unfold log_turn. simpl. by rewrite E. Qed.

Lemma late_caller s s' : ~ over s -> caller_next k Flush log_late s = Some s' -> late_flush_turn CallerT s = s'.
Proof. intros Ho E. unfold late_flush_turn, flush_turn, until. rewrite decide_False by done. unfold log_turn. simpl. by rewrite E. Qed.

(** With a record to come, the worker gets closer to its increment. *)
Lemma record_turn s s' : under_way s -> st_stop s = None -> unprocessed s <> 0 -> worker_next k log_late s = Some s' ->
  8 * unprocessed s' + record_todo s' < 8 * unprocessed s + record_todo s.
Proof.
  intros Hu Hstop Hun E. pose proof (under_way_accepted s Hu) as Ea. destruct Hu as (Hi & _ & _). pose proof (unprocessed_zero s Hi) as Hz.
  destruct (counts k k_range _ _ Hi) as (Hp & _ & Hc). destruct (worker_keeps _ _ _ _ E) as (_ & Eh & _).
  assert (Eacc : accepted s' = accepted s) by (unfold accepted; by rewrite Eh). unfold unprocessed, record_todo. rewrite Eacc. unfold unprocessed in Hun, Hz.
  unfold worker_next in E. pose proof (pop_todo_bound (s_consumer (queue_ (st_logger s)))) as Hb. destruct (st_worker s) as [|d|d r|d|] eqn:Hw.
  - unfold stop_requested in E. rewrite Hstop in E. destruct (decide _); injection E as <-; simpl; lia.
  - destruct (pop_access k log_late (queue_ (st_logger s))) as [[r q]|] eqn:Ep; [|done]. cbn [mbind option_bind] in E. injection E as <-. destruct r as [[x|]|]; simpl.
    + lia.
    + exfalso. apply Hun, Hz. pose proof (pop_latest_none k ltac:(lia) log_late _ q (li_queue _ _ _ Hi)) as He. rewrite Hp, Ea in He.
      specialize (He ltac:(unfold log_late; lia) Ep). pose proof (li_processed _ _ _ Hi) as Hpr. rewrite Hw in Hpr. simpl in Hpr.
      destruct (held_length k ltac:(lia) _ (li_queue _ _ _ Hi)) as [Hl _]. rewrite He in Hl. simpl in Hl. unfold all_counted. lia.
    + apply (pop_todo_access k ltac:(lia)) in Ep. lia.
  - injection E as <-. simpl. lia.
  - unfold count_processed in E. destruct (last _) as [m|]; [|done]. injection E as <-. simpl. rewrite length_app. simpl. destruct d; simpl; [|lia].
    pose proof (pop_todo_bound (s_consumer (queue_ (st_logger s)))). lia.
  - done.
Qed.

(** With nothing to come and the stop token set, it gets closer to its end. *)
Lemma drain_turn s s' : under_way s -> is_Some (st_stop s) -> all_counted s -> worker_next k log_late s = Some s' ->
  st_worker s' = Returned \/ drain_todo s' < drain_todo s.
Proof.
  intros Hu [view Hstop] Hall E. destruct Hu as (Hi & _ & _). destruct (counted_idle k k_range _ _ Hi Hall) as (Hh & Huc & Hq & _).
  unfold worker_next in E. pose proof (pop_todo_bound (s_consumer (queue_ (st_logger s)))) as Hb. unfold drain_todo. destruct (st_worker s) as [|d|d r|d|] eqn:Hw; try done.
  - unfold stop_requested, log_late in E. rewrite decide_True, Hstop in E by lia. injection E as <-. right. simpl. lia.
  - destruct (pop_access k log_late (queue_ (st_logger s))) as [[r q]|] eqn:Ep; [|done]. cbn [mbind option_bind] in E. injection E as <-. destruct r as [[x|]|]; simpl.
    + destruct (pop_access_effect k ltac:(lia) _ _ _ _ (li_queue _ _ _ Hi) Ep) as (_ & _ & _ & _ & _ & _ & Hx). apply lookup_lt_Some in Hx.
      destruct (held_length k ltac:(lia) _ (li_queue _ _ _ Hi)) as [Hl _]. rewrite Hq in Hl. simpl in Hl. lia.
    + destruct d; [by left|right; simpl; lia].
    + apply (pop_todo_access k ltac:(lia)) in Ep. right. destruct d; simpl; lia.
Qed.

(** The rank depends on the members, the places of the two threads and the
    accepted calls. *)
Lemma same_log_rank s s' : st_logger s' = st_logger s -> st_caller s' = st_caller s -> st_worker s' = st_worker s -> st_history s' = st_history s ->
  log_rank s' = log_rank s /\ log_helpful s' = log_helpful s.
Proof.
  intros E1 E2 E3 E4. unfold log_rank, log_helpful, worker_awaited, unprocessed, record_todo, drain_todo, accepted. by rewrite E1, E2, E3, E4.
Qed.

Lemma worker_rank s : under_way s -> ~ over s ->
  (worker_awaited s = true -> log_rank (late_flush_turn WorkerT s) < log_rank s) /\
  (worker_awaited s = false -> log_rank (late_flush_turn WorkerT s) = log_rank s /\ log_helpful (late_flush_turn WorkerT s) = log_helpful s).
Proof.
  intros Hu Ho. pose proof Hu as (Hi & _ & _). pose proof (li_ending _ _ _ Hi) as He. destruct (worker_next k log_late s) as [s'|] eqn:E.
  - rewrite (late_worker s s' Ho E). destruct (worker_keeps _ _ _ _ E) as (Ec & Eh & _ & _ & _ & _ & Hle). unfold log_helpful, log_rank, worker_awaited. rewrite Ec.
    assert (Hlt : unprocessed s' <= unprocessed s) by (unfold unprocessed, accepted; rewrite Eh; lia).
    unfold over in Ho. destruct (st_caller s) as [| | |d target| | |] eqn:Hc; try (by destruct Ho); (split; intros Ha).
    + apply bool_decide_eq_true in Ha. rewrite (bool_decide_true (unprocessed s <> 0)) by done. pose proof (record_turn s s' Hu He Ha E). case_bool_decide; lia.
    + apply bool_decide_eq_false in Ha. rewrite !bool_decide_false by lia. done.
    + done.
    + done.
    + rewrite Ha. destruct He as [Hs He]. destruct (li_synced _ _ _ Hi Hs) as [Hall _].
      destruct (drain_turn s s' Hu ltac:(by eexists) Hall E) as [->|Hd]; [lia|]. destruct (st_worker s'); lia.
    + unfold worker_next in E. by destruct (st_worker s).
  - assert (Hr : st_worker s = Returned).
    { destruct (st_worker s) eqn:Hw; [..|done]; (destruct (worker_defined k k_range _ s log_late Hi); [by rewrite Hw|congruence]). }
    assert (Es : late_flush_turn WorkerT s = s) by (unfold late_flush_turn, flush_turn, until; rewrite decide_False by done; unfold log_turn; simpl; by rewrite E).
    rewrite Es. split; [|done]. unfold worker_awaited. rewrite Hr. destruct (li_draining _ _ _ Hi) as [[w Hw] _]; [by rewrite Hr|].
    destruct (st_caller s); try done. congruence.
Qed.

Lemma caller_rank s : under_way s -> ~ over s ->
  (worker_awaited s = false -> log_rank (late_flush_turn CallerT s) < log_rank s) /\
  (worker_awaited s = true -> log_rank (late_flush_turn CallerT s) = log_rank s /\ log_helpful (late_flush_turn CallerT s) = log_helpful s).
Proof.
  intros Hu Ho. pose proof (under_way_accepted s Hu) as Ea. pose proof Hu as (Hi & _ & _). assert (Hb : (N.of_nat (length (accepted s)) < two64)%N) by (by rewrite Ea).
  destruct (caller_defined k k_range _ s Flush log_late Hi) as [s' E]; [intros Hc; apply Ho; unfold over; by rewrite Hc|right; intros t; discriminate|].
  rewrite (late_caller s s' Ho E). unfold over in Ho. destruct (st_caller s) as [| | |d target| | |] eqn:Hc; try (by destruct Ho).
  - destruct (flush_next_inv k k_range _ _ _ _ _ _ Hi Hb Hc E) as (Hi' & Hd & Eh & Ew & El & Hlate). destruct (counts k k_range _ _ Hi) as (_ & _ & Hcnt).
    unfold worker_awaited. rewrite Hc. split; intros Ha.
    + apply bool_decide_eq_false in Ha. assert (Hall : all_counted s) by (apply unprocessed_zero; [done|lia]).
      specialize (Hlate ltac:(rewrite Ea in Hcnt; unfold log_late; lia) Hall). unfold log_rank. rewrite Hlate, Hc. unfold worker_awaited. rewrite Hc, (bool_decide_false (unprocessed s <> 0)) by done.
      destruct d; lia.
    + apply bool_decide_eq_true in Ha. apply same_log_rank; try done. destruct Hd as [->|(_ & _ & Hs)]; [done|]. exfalso. apply Ha.
      destruct (li_synced _ _ _ Hi' Hs) as [Hall _]. apply (unprocessed_zero _ Hi) . unfold all_counted, accepted in *. by rewrite El, Eh in Hall.
  - unfold caller_next in E. rewrite Hc in E. injection E as <-. unfold log_rank, worker_awaited. rewrite Hc. simpl. split; [intros _|done].
    pose proof (drain_bound (request_stop s)). case_match; lia.
  - unfold caller_next in E. rewrite Hc in E. injection E as <-. unfold worker_awaited. rewrite Hc. destruct (st_worker s) eqn:Hw; (split; [|done]); intros Ha; try done.
    unfold log_rank, worker_awaited. rewrite Hc, Hw. simpl. lia.
Qed.

#[local] Instance log_ranked : Ranked late_flush_turn (fun _ => True) under_way over log_rank log_helpful.
Proof.
  split.
  - intros t s. apply flush_turn_keeps.
  - done.
  - intros s Hu Ho. unfold log_helpful. destruct (worker_awaited s) eqn:E; [by apply worker_rank|by apply caller_rank].
  - intros t s Hu Ho. destruct (worker_awaited s) eqn:E, t; [right; by apply caller_rank|left; by apply worker_rank|left; by apply caller_rank|right; by apply worker_rank].
Qed.

Lemma flush_over sched s : under_way s -> fair (fun _ => True) (fun i => (sched i).1.1) -> visible sched -> exists i, under_way (exec log_turn sched s i) /\ over (exec log_turn sched s i).
Proof.
  intros Hu Hf Hv. destruct (labelled_termination (fun x : LogThread * LogCall * nat => x.1.1) flush_turn late_flush_turn (fun _ => True) under_way over log_rank log_helpful flush_turn_keeps sched s log_ranked Hu Hf) as [i Ho].
  - destruct (Hv log_late) as [m Hm]. exists m. intros i s' Hi Hs. rewrite <- (late_flush_same _ (sched i).1.2 (sched i).2) by auto. by destruct (sched i) as [[? ?] ?].
  - assert (Hk : under_way (exec flush_turn sched s i)) by (clear -Hu k_range bound; induction i; simpl; [done|by apply flush_turn_keeps]).
    destruct (exec_until log_turn over sched s i) as (i' & E & _). exists i'. rewrite E. done.
Qed.
End flush.

Lemma log_turn_reachable k min_level x s : log_reachable k min_level s -> log_reachable k min_level (log_turn k x s).
Proof.
  intros Hr. unfold log_turn. destruct (log_next k x.1.1 x.1.2 x.2 s) as [s'|] eqn:E; [|done]. eapply rtc_r; [exact Hr|]. by exists x.1.1 x.1.2 x.2.
Qed.

Lemma log_exec_reachable k min_level sched s i : log_reachable k min_level s -> log_reachable k min_level (exec (log_turn k) sched s i).
Proof. intros Hr. induction i; simpl; [done|by apply log_turn_reachable]. Qed.

(** C32. [flush] and the destructor return: from every state in which [flush]
    has begun, whatever the order in which the caller and the worker make their
    memory accesses and whatever older values their loads return, if both run
    again and again and stores become visible after a finite time, the call
    returns after finitely many turns, for the destructor with the worker
    joined; then every call accepted before it is on the stream and visible to
    the caller. *)
Theorem logger_flush_returns k min_level s d target sched :
  (1 <= k <= 63)%N -> log_reachable k min_level s -> (N.of_nat (length (accepted s)) < two64)%N -> st_caller s = Flushing d target ->
  fair (fun _ => True) (fun i => (sched i).1.1) -> visible sched ->
  exists i, let s' := exec (log_turn k) sched s i in
    log_reachable k min_level s' /\ st_caller s' = (if d then Destroyed else Idle) /\ complete s' /\ st_history s' = st_history s.
Proof.
  intros Hk Hr Hb Hc Hf Hv. pose proof (log_reachable_inv k Hk min_level s Hr Hb) as Hi.
  assert (Hu : under_way k min_level (st_history s) d s) by (split_and!; [done|done|by rewrite Hc]).
  destruct (flush_over k Hk min_level (st_history s) d Hb sched s Hu Hf Hv) as (i & (Hi' & Hh & Hw) & Ho). exists i. cbn zeta.
  split_and!; [by apply log_exec_reachable| | |done].
  - unfold over in Ho. destruct (st_caller (exec (log_turn k) sched s i)) as [| | | | | |]; try done; [by destruct Hw as [-> _]|by subst d].
  - unfold over in Ho. pose proof (li_ending _ _ _ Hi') as He. destruct (st_caller (exec (log_turn k) sched s i)) as [| | | | | |]; try done; [by destruct Hw|].
    destruct He as [Hs _]. destruct (li_synced _ _ _ Hi' Hs) as [Hall Hvis]. split; [|done]. by apply (counted_idle k Hk min_level).
Qed.

(** The caller and the worker in turns; the loads ask for a later position
    every ten turns. *)
Definition log_turns (i : nat) : LogThread * LogCall * nat := (if Nat.even i then CallerT else WorkerT, Destroy, i / 10).

Lemma log_turns_fair : fair (fun _ => True) (fun i => (log_turns i).1.1).
Proof.
  intros t _ m. unfold log_turns. destruct t.
  - exists (2 * m). split; [lia|]. cbn [fst]. by rewrite Nat.even_mul.
  - exists (2 * m + 1). split; [lia|]. cbn [fst]. by rewrite Nat.even_add, Nat.even_mul.
Qed.

Lemma log_turns_visible : visible log_turns.
Proof. intros v. exists (v * 10). intros i Hi. unfold log_turns. cbn [snd]. apply Nat.div_le_lower_bound; lia. Qed.

Lemma logger_flush_returns_witness :
  st_caller waiting_state = Flushing false 1 /\ log_reachable 1 Info waiting_state /\
  exists i, let s' := exec (log_turn 1) log_turns waiting_state i in
    log_reachable 1 Info s' /\ st_caller s' = Idle /\ complete s' /\ st_history s' = st_history waiting_state.
Proof.
  assert (Hc : st_caller waiting_state = Flushing false 1) by (vm_compute; reflexivity). split; [exact Hc|]. split; [exact waiting_reachable|].
  apply (logger_flush_returns 1 Info waiting_state false 1 log_turns); [lia|exact waiting_reachable|vm_compute; reflexivity|exact Hc|exact log_turns_fair|exact log_turns_visible].
Defined.
