(* ===== verification/ConsoleStream.v ===== *)
(** The console output of the modes of src/main.cpp: a mode logs messages
    through [Logger] (logger.cpp), whose worker thread writes them to
    [std::cout], and writes to [std::cout] itself.

    Demo.v gives the calls of a mode as its list of [Event]s, in the order of
    the program.  Here the mode's thread makes these calls on a logger as
    Logger.v has it, and destroys the logger at the end; the theorem says that
    what is on the console is the text of the events, in their order. *)

From Stdlib Require Import Ascii String.
From S2P Require Import Prelude Types Text Double OrderPool BookCore BookSpec BookSpecFacts BookTrades BookInterface.
From S2P Require Import OrderBookVector VectorRefinement OrderBookMap MapRefinement OrderBookArray ArrayRefinement.
From S2P Require Import Books RiskManager MatchingEngine EngineFacts EngineTheorems BookPrint Replay ReplayRun Demo.
From S2P Require Import LockfreeQueue LockfreeAccess Fairness Logger LoggerFair.

(** The call for an event; a message is logged at level [Info], and [now] is
    what the clock says then. *)
Definition event_call (now : Timestamp) (ev : Event) : LogCall :=
  match ev with Logged m => info now m | Flushed => Flush | Console t => Print t end.

(** Its text on the console. *)
Definition event_text (now : Timestamp) (ev : Event) : text :=
  match ev with Logged m => line_of (now, Info, m) | Flushed => [] | Console t => t end.

Definition program (nows : list Timestamp) (evs : list Event) : list LogCall := zip_with event_call nows evs ++ [Destroy].

(** Own output comes after a flush, with nothing logged in between; the mode's
    own thread is the only one that logs. *)
Fixpoint flushed_first (synced : bool) (evs : list Event) : bool :=
  match evs with
  | [] => true
  | Logged _ :: evs' => flushed_first false evs'
  | Flushed :: evs' => flushed_first true evs'
  | Console _ :: evs' => synced && flushed_first synced evs'
  end.

Definition message (ev : Event) : option text := match ev with Logged m => Some m | _ => None end.

(** The same for the calls, which end with the destructor's. *)
Fixpoint calls_ordered (synced : bool) (cs : list LogCall) : bool :=
  match cs with
  | [] => false
  | Log _ _ _ :: cs' => calls_ordered false cs'
  | Flush :: cs' => calls_ordered true cs'
  | Print _ :: cs' => synced && calls_ordered synced cs'
  | Destroy :: cs' => match cs' with [] => true | _ => false end
  end.

Definition call_entry (c : LogCall) : option Entry :=
  match c with Log now level msg => Some (Line (now, level, msg)) | Print t => Some (Plain t) | _ => None end.

Section run.
Context (k : N).

(** The threads with the calls that are left: the caller takes the next one
    when it is between calls. *)
Definition program_next (t : LogThread) (j : nat) (x : list LogCall * LogState) : option (list LogCall * LogState) :=
  let '(cs, s) := x in
  match t with
  | WorkerT => s' ← worker_next k j s; Some (cs, s')
  | CallerT =>
      match st_caller s, cs with
      | Idle, [] => None
      | Idle, c :: cs' => s' ← caller_next k c j s; Some (cs', s')
      | _, _ => s' ← caller_next k Flush j s; Some (cs, s')
      end
  end.

Inductive program_step (x x' : list LogCall * LogState) : Prop :=
| program_thread t j : program_next t j x = Some x' -> program_step x x'.

Definition program_reachable (cs : list LogCall) (x : list LogCall * LogState) : Prop := rtc program_step (cs, init_log k Info) x.

(** A step of the program is a step of the two threads. *)
Lemma program_log_step x x' : program_step x x' -> log_step k x.2 x'.2.
Proof.
  intros [t j E]. destruct x as [cs s]. destruct t; simpl in E.
  - destruct (st_caller s) eqn:Hc; [destruct cs as [|c cs]; [done|]|..];
      (destruct (caller_next _ _ _ _) as [s'|] eqn:En; [|done]; injection E as <-; by eexists CallerT _ j).
  - destruct (worker_next k j s) as [s'|] eqn:En; [|done]. injection E as <-. by eexists WorkerT Flush j.
Qed.

Lemma program_log_reachable cs x : program_reachable cs x -> log_reachable k Info x.2.
Proof.
  intros Hr. apply (rtc_ind_r (fun x => log_reachable k Info x.2) (cs, init_log k Info)) with (3 := Hr); [apply rtc_refl|].
  intros x1 x2 _ Hs IH. eapply rtc_r; [exact IH|]. by apply program_log_step.
Qed.

(** ** The invariant *)

Context (k_range : (1 <= k <= 63)%N) (all : list LogCall).
Context (all_info : Forall (fun c => match c with Log _ level _ => level = Info | _ => True end) all).
Context (all_fit : (N.of_nat (length (omap line_call (omap call_entry all))) <= capacity k)%N).

(** The entry of the call under way, and whether the caller can count on a
    complete stream when it is over. *)
Definition pending (c : Caller) : list Entry := match c with Pushing e => [Line e] | _ => [] end.

Definition synced_after (s : LogState) : bool :=
  match st_caller s with Pushing _ => false | Flushing _ _ => true | _ => st_synced s end.

Record program_inv (x : list LogCall * LogState) : Prop := {
  pi_log : log_inv k Info x.2;
  pi_history : st_history x.2 ++ pending (st_caller x.2) ++ omap call_entry x.1 = omap call_entry all;
  pi_info : Forall (fun c => match c with Log _ level _ => level = Info | _ => True end) x.1;
  pi_refused : st_refused x.2 = 0 /\ st_caller x.2 <> Counting false;
  pi_flushed : match st_caller x.2 with
    | Flushing true _ | Stopping | Joining | Destroyed => x.1 = []
    | _ => calls_ordered (synced_after x.2) x.1 = true
    end
}.

(** The queue never takes more than it has slots for. *)
Lemma accepted_fit x : program_inv x -> (N.of_nat (length (accepted x.2)) + (if st_caller x.2 is Pushing _ then 1 else 0) <= capacity k)%N.
Proof.
  intros Hi. pose proof all_fit as Hf. rewrite <- (pi_history _ Hi), !omap_app, !length_app in Hf. unfold accepted.
  destruct (st_caller x.2); simpl in *; lia.
Qed.

Lemma capacity_bound : (capacity k < two64)%N.
Proof.
  unfold capacity, ring_capacity. assert (2 ^ k <= 2 ^ 63)%N by (apply N.pow_le_mono_r; lia). change (2 ^ 63)%N with 9223372036854775808%N in *. unfold two64. lia.
Qed.

Lemma accepted_bound x : program_inv x -> (N.of_nat (length (accepted x.2)) < two64)%N.
Proof. intros Hi. pose proof (accepted_fit x Hi). pose proof capacity_bound. destruct (st_caller x.2); lia. Qed.

Lemma init_program_inv : calls_ordered true all = true -> program_inv (all, init_log k Info).
Proof. intros Hf. split; simpl; try done. by apply init_log_inv. Qed.

(** A turn in [flush] refuses nothing. *)
Lemma flush_refuses_none d target j s s' : st_caller s = Flushing d target -> caller_next k Flush j s = Some s' -> st_refused s' = st_refused s.
Proof.
  intros Hc. unfold caller_next, load_processed. rewrite Hc. destruct (_ !! _) as [[v view]|]; [|done]. cbn [mbind option_bind fst snd].
  intros [= <-]. by destruct (v <? target)%N.
Qed.

(** ** Its steps *)

(** The caller begins its next call. *)
Lemma begin_call_inv c cs j s s' : program_inv (c :: cs, s) -> st_caller s = Idle -> caller_next k c j s = Some s' -> log_inv k Info s' -> program_inv (cs, s').
Proof.
  intros [H1 H2 H3 [H4 _] H5] Hc E Hi'. simpl in *. unfold synced_after in H5. rewrite Hc in H2, H5. simpl in H2, H5. apply Forall_cons in H3 as [Hl H3].
  unfold caller_next in E. rewrite Hc in E. destruct c as [now level msg| |t|].
  - subst level. rewrite (proj1 (li_level _ _ _ H1)) in E. injection E as <-. split; done.
  - injection E as <-. split; done.
  - unfold print in E. simpl in H5. destruct (st_synced s); [|done]. injection E as <-.
    rewrite Hc in *. split; simpl; try done. by rewrite <- app_assoc.
  - injection E as <-. split; try done. simpl in H5. by destruct cs.
Qed.

(** It goes on with a [log] call: the queue has room. *)
Lemma push_call_inv cs e j s s' : program_inv (cs, s) -> st_caller s = Pushing e -> caller_next k Flush j s = Some s' -> log_inv k Info s' -> program_inv (cs, s').
Proof.
  intros Hi Hc E Hi'. pose proof (accepted_fit _ Hi) as Hfit. destruct Hi as [H1 H2 H3 [H4 _] H5]. simpl in *. unfold synced_after in H5. rewrite Hc in H2, H5, Hfit. simpl in H2, H5.
  assert (Hroom : forall q, push_access k (call_record e) j (queue_ (st_logger s)) <> Some (Some false, q)).
  { intros q. apply push_not_full; [lia|apply H1|]. destruct (counts k k_range _ _ H1) as (-> & _). lia. }
  unfold caller_next in E. rewrite Hc in E. destruct (push_access _ _ _ _) as [[[[]|] q]|]; [|by destruct (Hroom q)| |done]; cbn [mbind option_bind] in E; injection E as <-.
  - split; simpl; try done. by rewrite <- app_assoc.
  - split; simpl; unfold synced_after; simpl; rewrite ?Hc; done.
Qed.

Lemma flush_call_inv cs d target j s s' : program_inv (cs, s) -> st_caller s = Flushing d target -> caller_next k Flush j s = Some s' -> program_inv (cs, s').
Proof.
  intros Hi Hc E. pose proof (accepted_bound _ Hi) as Hb. destruct Hi as [H1 H2 H3 [H4 _] H5]. simpl in *. unfold synced_after in H5. rewrite Hc in H2, H5. simpl in H2.
  destruct (flush_next_inv k k_range _ _ _ _ _ _ H1 Hb Hc E) as (Hi' & Hd & Eh & _). pose proof (flush_refuses_none _ _ _ _ _ Hc E) as Er.
  destruct Hd as [Ec|(Ec & _ & Es)]; (split; simpl; unfold synced_after; rewrite ?Ec, ?Eh, ?Er; try done); destruct d; try done. by rewrite Es.
Qed.

Lemma program_next_inv t j x x' : program_inv x -> program_next t j x = Some x' -> program_inv x'.
Proof.
  intros Hi E. assert (Hl : log_inv k Info x'.2).
  { destruct (program_log_step x x') as [t' c' j' En]; [by exists t j|]. by eapply log_next_inv; [exact k_range|apply Hi|apply accepted_bound|exact En]. }
  destruct x as [cs s], t; simpl in E.
  - destruct (st_caller s) eqn:Hc; [destruct cs as [|c cs]; [done|]|..]; (destruct (caller_next _ _ _ _) as [s'|] eqn:En; [|done]; injection E as <-; simpl in Hl).
    + by eapply begin_call_inv.
    + by eapply push_call_inv.
    + destruct Hi as [H1 H2 H3 [H4 H4'] H5]. simpl in *. unfold synced_after in H5. rewrite Hc in H2, H5. unfold caller_next in En. rewrite Hc in En. injection En as <-.
      split; done.
    + by eapply flush_call_inv.
    + destruct Hi as [H1 H2 H3 [H4 H4'] H5]. simpl in *. rewrite Hc in H2, H5. unfold caller_next in En. rewrite Hc in En. injection En as <-. split; done.
    + destruct Hi as [H1 H2 H3 [H4 H4'] H5]. simpl in *. rewrite Hc in H2, H5. unfold caller_next in En. rewrite Hc in En. injection En as <-.
      destruct (st_worker s); split; simpl; rewrite ?Hc; done.
    + unfold caller_next in En. by rewrite Hc in En.
  - destruct (worker_next k j s) as [s'|] eqn:En; [|done]. injection E as <-. simpl in Hl. destruct (worker_keeps _ _ _ _ En) as (Ec & Eh & _ & _ & Es & Er & _).
    destruct Hi as [H1 H2 H3 H4 H5]. simpl in *.
    split; simpl; unfold synced_after; rewrite ?Ec, ?Eh, ?Es, ?Er; done.
Qed.

Lemma program_reachable_inv x : calls_ordered true all = true -> program_reachable all x -> program_inv x.
Proof.
  intros Hf Hr. apply (rtc_ind_r program_inv (all, init_log k Info)) with (3 := Hr); [by apply init_program_inv|].
  intros x1 x2 _ [t j E] IH. by eapply program_next_inv.
Qed.

Lemma program_caller_defined x j : program_inv x -> st_caller x.2 <> Destroyed -> is_Some (program_next CallerT j x).
Proof.
  intros Hi Hnd. destruct x as [cs s]. destruct Hi as [H1 _ _ _ H5]. simpl in *.
  assert (Hd : forall call, st_synced s = true \/ (forall t, call <> Print t) -> is_Some (caller_next k call j s)) by (intros call; by apply (caller_defined k k_range Info)).
  destruct (st_caller s) eqn:Hc; [destruct cs as [|c cs]; [done|]|..]; try (destruct (Hd Flush ltac:(by right)) as [s' ->]; by eexists).
  destruct (Hd c) as [s' ->]; [|by eexists]. unfold synced_after in H5. rewrite Hc in H5. destruct c as [| |t|]; try by right. left. simpl in H5. by destruct (st_synced s).
Qed.

Lemma program_worker_defined x j : program_inv x -> st_worker x.2 <> Returned -> is_Some (program_next WorkerT j x).
Proof. intros Hi Hw. destruct x as [cs s]. destruct (worker_defined k k_range Info s j (pi_log _ Hi) Hw) as [s' E]. simpl. rewrite E. by eexists. Qed.

(** ** The program ends *)

Definition program_turn (y : LogThread * nat) (x : list LogCall * LogState) : list LogCall * LogState := default x (program_next y.1 y.2 x).

Definition program_over (x : list LogCall * LogState) : Prop := st_caller x.2 = Destroyed.

#[local] Instance program_over_dec x : Decision (program_over x).
Proof. unfold program_over. destruct (st_caller x.2); (by left) || (by right). Defined.

(** A position after all that will be stored. *)
Definition program_late : nat := S (length (omap line_call (omap call_entry all))).

Definition late_program_turn (t : LogThread) : list LogCall * LogState -> list LogCall * LogState := program_turn (t, program_late).

(** The accesses that a [log] call still needs, or the rank of [flush] and the
    destructor; a call is worth more than any of these. *)
Definition call_todo (s : LogState) : nat :=
  match st_caller s with Pushing _ => 1 + push_todo (s_producer (queue_ (st_logger s))) | Counting _ => 1 | _ => log_rank s end.

Definition program_rank (x : list LogCall * LogState) : nat := length x.1 * (60 + 8 * program_late) + call_todo x.2.

Definition program_helpful (x : list LogCall * LogState) : LogThread := log_helpful x.2.

Lemma accepted_late x : program_inv x -> length (accepted x.2) < program_late.
Proof. intros Hi. unfold accepted, program_late. rewrite <- (pi_history _ Hi), omap_app, length_app. lia. Qed.

Lemma program_turn_keeps y x : program_inv x -> program_inv (program_turn y x).
Proof. intros Hi. unfold program_turn. destruct (program_next y.1 y.2 x) as [x'|] eqn:E; [by eapply program_next_inv|done]. Qed.

Lemma late_program_same t j x : program_inv x -> program_late <= j -> program_turn (t, j) x = late_program_turn t x.
Proof.
  intros Hi Hj. unfold late_program_turn, program_turn. f_equal. pose proof (accepted_late x Hi) as Ha. destruct x as [cs s]. simpl in *.
  assert (E : forall call, log_next k t call j s = log_next k t call program_late s) by (intros call; by apply (log_next_late k Info); [done|apply Hi|lia|]).
  destruct t; simpl in E |- *; [|by rewrite (E Flush)]. destruct (st_caller s); [destruct cs as [|c cs]; [done|]|..]; by rewrite E.
Qed.

Lemma call_todo_bound s : length (accepted s) < program_late -> call_todo s < 60 + 8 * program_late.
Proof.
  intros Hlt. unfold call_todo, log_rank, record_todo, unprocessed. pose proof (drain_bound s). pose proof (pop_todo_bound (s_consumer (queue_ (st_logger s)))).
  destruct (st_caller s); try lia; [destruct (s_producer _); simpl; lia| |]; destruct (worker_awaited s); try lia. destruct (st_worker s); lia.
Qed.

(** In [flush] and in the destructor. *)
Definition waiting_call (c : Caller) : bool := match c with Flushing _ _ | Stopping | Joining => true | _ => false end.

Lemma waiting_under_way cs s : program_inv (cs, s) -> waiting_call (st_caller s) = true ->
  exists d, under_way k Info (st_history s) d s /\ ~ over s /\ (N.of_nat (length (omap line_call (st_history s))) < two64)%N.
Proof.
  intros Hi Hw. pose proof (accepted_bound _ Hi) as Hb. exists (match st_caller s with Flushing d _ => d | _ => true end).
  split; [split_and!; [apply Hi|done|]|split; [|exact Hb]]; unfold over; destruct (st_caller s); done || by intros [].
Qed.

Lemma late_log_next t s : log_inv k Info s -> length (accepted s) < program_late ->
  log_next k t Flush program_late s = log_next k t Flush (log_late (st_history s)) s.
Proof. intros Hi Ha. apply (log_next_late k Info); try done. unfold log_late, accepted. lia. Qed.

(** The turns of [flush] and of the destructor are those of LoggerFair.v. *)
Lemma waiting_turn t cs s : program_inv (cs, s) -> waiting_call (st_caller s) = true ->
  late_program_turn t (cs, s) = (cs, late_flush_turn k (st_history s) t s).
Proof.
  intros Hi Hw. destruct (waiting_under_way cs s Hi Hw) as (d & _ & Ho & _). pose proof (late_log_next t s (pi_log _ Hi) (accepted_late _ Hi)) as E.
  unfold late_program_turn, program_turn, late_flush_turn, flush_turn, until. rewrite decide_False by done. unfold log_turn. cbn [fst snd]. rewrite <- E.
  destruct t; simpl; [|by destruct (worker_next k program_late s)].
  destruct (st_caller s); try done; by destruct (caller_next k Flush program_late s).
Qed.

Lemma waiting_rank t cs s : program_inv (cs, s) -> waiting_call (st_caller s) = true ->
  let x' := late_program_turn t (cs, s) in
  (t = log_helpful s -> program_rank x' < program_rank (cs, s)) /\
  (program_rank x' < program_rank (cs, s) \/ (program_rank x' = program_rank (cs, s) /\ program_helpful x' = log_helpful s)).
Proof.
  intros Hi Hw. destruct (waiting_under_way cs s Hi Hw) as (d & Hu & Ho & Hb). cbn zeta. rewrite (waiting_turn t cs s Hi Hw). set (s' := late_flush_turn k (st_history s) t s).
  assert (E : call_todo s = log_rank s) by (unfold call_todo; by destruct (st_caller s)).
  assert (E' : call_todo s' = log_rank s').
  { destruct (flush_turn_keeps k k_range Info (st_history s) d Hb (t, Flush, log_late (st_history s)) s Hu) as (_ & _ & Hc). fold (late_flush_turn k (st_history s) t s) in Hc.
    change (late_flush_turn k (st_history s) t s) with s' in Hc. unfold call_todo. by destruct (st_caller s'). }
  unfold program_rank, program_helpful. cbn [fst snd]. rewrite E, E'.
  pose proof (worker_rank k k_range Info (st_history s) d Hb s Hu Ho) as [Hw1 Hw2]. pose proof (caller_rank k k_range Info (st_history s) d Hb s Hu Ho) as [Hc1 Hc2].
  unfold log_helpful at 1. destruct (worker_awaited s) eqn:Ha, t; (split; [intros Et; try done|]); subst s';
    try (specialize (Hw1 ltac:(done))); try (specialize (Hw2 ltac:(done))); try (specialize (Hc1 ltac:(done))); try (specialize (Hc2 ltac:(done))); lia || (right; intuition lia).
Qed.

(** Between and in [log] calls, the caller needs no one. *)
Lemma quiet_caller_turn cs s : program_inv (cs, s) -> waiting_call (st_caller s) = false -> st_caller s <> Destroyed ->
  program_rank (late_program_turn CallerT (cs, s)) < program_rank (cs, s).
Proof.
  intros Hi Hq Hnd. unfold late_program_turn, program_turn. destruct (program_caller_defined _ program_late Hi Hnd) as [x' E]. cbn [fst snd]. rewrite E. simpl default.
  pose proof (accepted_late _ (program_next_inv _ _ _ _ Hi E)) as Ha. pose proof (call_todo_bound x'.2 Ha) as Hb. simpl in E.
  unfold program_rank. cbn [fst snd]. destruct (st_caller s) as [|e|ok| | | |] eqn:Hc; try done; [destruct cs as [|c cs]; [done|]|..];
    (destruct (caller_next _ _ _ _) as [s'|] eqn:En; [|done]; injection E as <-; simpl in *).
  - lia.
  - unfold caller_next in En. rewrite Hc in En. unfold call_todo. rewrite Hc. destruct (push_access _ _ _ _) as [[[ok|] q]|] eqn:Ep; [| |done];
      cbn [mbind option_bind] in En; injection En as <-; simpl; rewrite ?Hc; [destruct (s_producer _); simpl; lia|]. apply (push_todo_access k ltac:(lia)) in Ep. lia.
  - unfold caller_next in En. rewrite Hc in En. injection En as <-. unfold call_todo. rewrite Hc. unfold log_rank. simpl. lia.
Qed.

(** The worker leaves the producer's side of the queue alone. *)
Lemma worker_keeps_producer j s s' : log_inv k Info s -> worker_next k j s = Some s' -> s_producer (queue_ (st_logger s')) = s_producer (queue_ (st_logger s)).
Proof.
  intros Hi. unfold worker_next. destruct (st_worker s) as [|d|d r|d|]; intros E.
  - destruct (stop_requested j s); injection E as <-; done.
  - destruct (pop_access _ _ _) as [[r q]|] eqn:Ep; [|done]. destruct (pop_access_effect k ltac:(lia) _ _ _ _ (li_queue _ _ _ Hi) Ep) as (_ & _ & Epr & _).
    cbn [mbind option_bind] in E. injection E as <-. by destruct r as [[]|].
  - injection E as <-. done.
  - unfold count_processed in E. destruct (last _); [|done]. injection E as <-. done.
  - done.
Qed.

Lemma quiet_worker_turn cs s : program_inv (cs, s) -> waiting_call (st_caller s) = false ->
  program_rank (late_program_turn WorkerT (cs, s)) = program_rank (cs, s) /\ program_helpful (late_program_turn WorkerT (cs, s)) = CallerT.
Proof.
  intros Hi Hq. assert (Hh : forall s', waiting_call (st_caller s') = false -> log_helpful s' = CallerT) by (intros s' H'; unfold log_helpful, worker_awaited; by destruct (st_caller s')).
  unfold late_program_turn, program_turn. simpl. destruct (worker_next k program_late s) as [s'|] eqn:E; simpl; [|split; [done|by apply Hh]].
  destruct (worker_keeps _ _ _ _ E) as (Ec & _). split; [|apply Hh; simpl; by rewrite Ec].
  unfold program_rank, call_todo, log_rank. simpl. rewrite Ec, (worker_keeps_producer _ _ _ (pi_log _ Hi) E). by destruct (st_caller s).
Qed.

#[local] Instance program_ranked : Ranked late_program_turn (fun _ => True) program_inv program_over program_rank program_helpful.
Proof.
  split.
  - intros t x. apply program_turn_keeps.
  - done.
  - intros [cs s] Hi Ho. destruct (waiting_call (st_caller s)) eqn:Hw; [by apply waiting_rank|].
    replace (program_helpful (cs, s)) with CallerT; [by apply quiet_caller_turn|]. unfold program_helpful, log_helpful, worker_awaited. simpl. by destruct (st_caller s).
  - intros t [cs s] Hi Ho. destruct (waiting_call (st_caller s)) eqn:Hw; [by apply waiting_rank|].
    destruct t; [left; by apply quiet_caller_turn|right]. destruct (quiet_worker_turn cs s Hi Hw) as [-> ->]. split; [done|].
    unfold program_helpful, log_helpful, worker_awaited. simpl. by destruct (st_caller s).
Qed.

Lemma program_ends sched x : program_inv x -> fair (fun _ => True) (fun i => (sched i).1) -> visible sched -> exists i, program_over (exec program_turn sched x i).
Proof.
  intros Hi Hf Hv. apply (labelled_termination (fun y : LogThread * nat => y.1) program_turn late_program_turn (fun _ => True) program_inv program_over program_rank program_helpful program_turn_keeps sched x program_ranked Hi Hf).
  destruct (Hv program_late) as [m Hm]. exists m. intros i x' Hle Hx. rewrite <- (late_program_same _ (sched i).2) by auto. by destruct (sched i).
Qed.

Lemma program_exec_inv sched x i : program_inv x -> program_inv (exec program_turn sched x i).
Proof. intros Hi. induction i; simpl; [done|by apply program_turn_keeps]. Qed.

(** ** What is on the stream *)

Lemma stream_prefix x : program_inv x -> out_ (st_logger x.2) `prefix_of` mjoin (render <$> omap call_entry all).
Proof.
  intros Hi. destruct (li_flow _ _ _ (pi_log _ Hi)) as (done & waiting & Fh & Fo & _). rewrite <- (pi_history _ Hi), Fh, Fo, !fmap_app, !join_app, <- app_assoc.
  by apply prefix_app_r.
Qed.

Lemma stream_complete x : program_inv x -> program_over x ->
  out_ (st_logger x.2) = mjoin (render <$> omap call_entry all) /\ st_visible x.2 = length (out_ (st_logger x.2)) /\ dropped_count (st_logger x.2) = 0%N.
Proof.
  intros Hi Ho. unfold program_over in Ho. pose proof (pi_history _ Hi) as Hh. pose proof (pi_flushed _ Hi) as Hf. rewrite Ho in Hh, Hf. rewrite Hf in Hh. simpl in Hh. rewrite app_nil_r in Hh.
  pose proof (pi_log _ Hi) as Hl. pose proof (li_ending _ _ _ Hl) as He. rewrite Ho in He. destruct (li_synced _ _ _ Hl (proj1 He)) as [Hall Hv].
  destruct (counted_idle k k_range _ _ Hl Hall) as (_ & _ & _ & Hout). rewrite Hout, Hh. split_and!; [done|by rewrite Hv, Hout, Hh|].
  unfold dropped_count. rewrite (proj1 (li_dropped _ _ _ Hl)), Ho, (proj1 (pi_refused _ Hi)). done.
Qed.
End run.

(** * The modes *)

Lemma program_ordered b nows evs : length nows = length evs -> calls_ordered b (program nows evs) = flushed_first b evs.
Proof.
  unfold program. revert b nows. induction evs as [|ev evs IH]; intros b [|now nows]; try done. intros [= Hl].
  destruct ev; simpl; rewrite ?IH by done; done.
Qed.

Lemma program_info nows evs : Forall (fun c => match c with Log _ level _ => level = Info | _ => True end) (program nows evs).
Proof.
  unfold program. apply Forall_app. split; [|by repeat constructor]. revert nows. induction evs as [|ev evs IH]; intros [|now nows]; simpl; try done. constructor; [by destruct ev|apply IH].
Qed.

Lemma program_messages nows evs : length nows = length evs -> length (omap line_call (omap call_entry (program nows evs))) = length (omap message evs).
Proof.
  unfold program. rewrite !omap_app. simpl. rewrite app_nil_r. revert nows. induction evs as [|ev evs IH]; intros [|now nows]; try done. intros [= Hl].
  destruct ev; simpl; [f_equal|..]; by apply IH.
Qed.

Lemma program_text nows evs : mjoin (render <$> omap call_entry (program nows evs)) = mjoin (zip_with event_text nows evs).
Proof.
  unfold program. rewrite omap_app, fmap_app, join_app. simpl. rewrite app_nil_r. revert nows. induction evs as [|ev evs IH]; intros [|now nows]; try done.
  change (mjoin (zip_with event_text (now :: nows) (ev :: evs))) with (event_text now ev ++ mjoin (zip_with event_text nows evs)). rewrite <- IH. by destruct ev.
Qed.

(** The events of a mode that logs: a replay, which may end with the exception
    of a file that does not load, or the walkthrough. *)
Definition mode_events (now_ns : nat -> Timestamp) (evs : list Event) : Prop :=
  (exists path file e w, run_replay_mode now_ns path file = ret (evs, e, w)) \/
  (exists path file err, run_replay_mode now_ns path file = throw err /\ evs = [Logged (lit "loading replay data from " ++ path)]) \/
  (exists s, run_scripted_demo now_ns = Some s /\ sc_events s = evs).

(** Messages may follow anything, and output of its own a flush. *)
Definition is_message (ev : Event) : Prop := match ev with Logged _ => True | _ => False end.
Definition is_output (ev : Event) : Prop := match ev with Console _ => True | _ => False end.

Lemma outputs_first evs : Forall is_output evs -> flushed_first true evs = true.
Proof. induction 1 as [|[] evs]; done. Qed.

Lemma flushed_app b evs evs' : (forall b', flushed_first b' evs' = true) -> flushed_first b evs = true -> flushed_first b (evs ++ evs') = true.
Proof. intros H'. revert b. induction evs as [|[] evs IH]; intros b; simpl; auto. destruct b; simpl; auto. Qed.

Lemma flushed_messages evs msgs : Forall is_message msgs -> flushed_first true evs = true -> flushed_first true (evs ++ msgs) = true.
Proof. intros Hm. apply flushed_app. induction Hm as [|[] msgs]; simpl; auto || done. Qed.

Lemma flushed_outputs evs outs : Forall is_output outs -> flushed_first true evs = true -> flushed_first true (evs ++ Flushed :: outs) = true.
Proof. intros Ho%outputs_first. by apply flushed_app. Qed.

Lemma outputs_silent outs : Forall is_output outs -> omap message outs = [].
Proof. induction 1 as [|[] outs]; done. Qed.

Lemma messages_count msgs : Forall is_message msgs -> length (omap message msgs) = length msgs.
Proof. induction 1 as [|[] msgs ? ? IH]; try done. simpl. by f_equal. Qed.

(** The script so far: its own output comes after a flush, and it has logged
    every trade given to its callback and [c] messages more. *)
Definition script_ok (c : nat) (s : Script) : Prop :=
  flushed_first true (sc_events s) = true /\ length (omap message (sc_events s)) = c + length (ew_user (sc_world s)).

Lemma script_logs c s msgs : Forall is_message msgs -> script_ok c s -> script_ok (length msgs + c) (emit msgs s).
Proof.
  intros Hm [Hf Hc]. split; [by apply flushed_messages|]. simpl. rewrite omap_app, length_app, Hc, messages_count by done. lia.
Qed.

Lemma script_prints c s outs : Forall is_output outs -> script_ok c s -> script_ok c (emit (Flushed :: outs) s).
Proof.
  intros Ho [Hf Hc]. split; [by apply flushed_outputs|]. cbn [emit sc_events sc_world]. rewrite omap_app, length_app, Hc.
  change (omap message (Flushed :: outs)) with (omap message outs). rewrite outputs_silent by done. simpl. lia.
Qed.

Lemma log_call_ok c report e w s : length (ew_user (sc_world s)) <= length (ew_user w) -> script_ok c s -> script_ok (S c) (log_call report e w s).
Proof.
  intros Hle [Hf Hc]. assert (Hm : Forall is_message ((Logged ∘ trade_line <$> drop (length (ew_user (sc_world s))) (ew_user w)) ++ [Logged (report_line report)])).
  { apply Forall_app. split; [apply Forall_fmap, Forall_forall|]; by repeat constructor. }
  split; [by apply flushed_messages|]. simpl. rewrite omap_app, length_app, Hc, messages_count, length_app, length_fmap, length_drop by done. simpl. lia.
Qed.

(** The callback is given more trades, never less. *)
Lemma on_trades_user (e : DemoEngine) ts user e' user' : on_trades e ts user = Some (e', user') -> length user <= length user'.
Proof. intros (r & _ & _ & ->)%on_trades_inv. destruct (user_trade_callback_ e); rewrite ?length_app; lia. Qed.

Lemma submit_user now_ns (e : DemoEngine) rq w r e' w' : submit_order now_ns e rq w = Some (r, e', w') -> length (ew_user w) <= length (ew_user w').
Proof.
  unfold submit_order. destruct (books_ e !! _) as [b|]; [|by intros [= _ _ <-]]. destruct (if negb _ then _ else _) as [id next].
  intros ([reason r1] & _ & E)%bind_Some. destruct (negb _); [by injection E as _ _ <-|].
  apply bind_Some in E as ([[report b1] w2] & _ & ([e2 user] & Ht & [= _ _ <-])%bind_Some). by eapply on_trades_user.
Qed.

Lemma amend_user now_ns (e : DemoEngine) s id q p w r e' w' : amend_order now_ns e s id q p w = Some (r, e', w') -> length (ew_user w) <= length (ew_user w').
Proof.
  unfold amend_order. destruct (books_ e !! _) as [b|]; [|by intros [= _ _ <-]].
  intros ([[report b1] w2] & _ & ([e2 user] & Ht & [= _ _ <-])%bind_Some)%bind_Some. by eapply on_trades_user.
Qed.

Lemma submit_ok now_ns side type price qty tif s id s' c : script_submit now_ns side type price qty tif s = Some (id, s') -> script_ok c s -> script_ok (S c) s'.
Proof. unfold script_submit. intros ([[r e] w] & E & [= _ <-])%bind_Some. apply log_call_ok. by eapply submit_user. Qed.

Lemma scripted_ok now_ns s : run_scripted_demo now_ns = Some s -> script_ok 14 s.
Proof.
  intros E. unfold run_scripted_demo in E. destruct (add_symbol _ _ _ _ _ _) as [[r e0]|]; [|done]. cbn [mbind option_bind] in E. revert E.
  match goal with |- context [mkScript ?e eworld0 ?ev] => set (s0 := mkScript e eworld0 ev) end. assert (H0 : script_ok 2 s0) by done. clearbody s0. clear e0 r.
  intros ([i1 s1] & E1 & ([i2 s2] & E2 & ([i3 s3] & E3 & ([i4 s4] & E4 & (t1 & _ & ([i6 s6] & E6 & ([i8 s8] & E8 & ([[r9 e9] w9] & E9 & ([r10 e10] & _ &
    ([i11 s11] & E11 & (t2 & _ & [= <-])%bind_Some)%bind_Some)%bind_Some)%bind_Some)%bind_Some)%bind_Some)%bind_Some)%bind_Some)%bind_Some)%bind_Some)%bind_Some.
  apply script_prints; [by repeat constructor|]. apply (submit_ok _ _ _ _ _ _ _ _ _ _ E11).
  eapply (script_logs 11 (log_call r9 e9 w9 s8)); [by repeat constructor|]. apply log_call_ok; [by eapply amend_user|].
  apply (submit_ok _ _ _ _ _ _ _ _ _ _ E8), (script_logs 8); [by repeat constructor|]. apply (submit_ok _ _ _ _ _ _ _ _ _ _ E6).
  assert (H4 : script_ok 6 s4) by (by eapply submit_ok, submit_ok, submit_ok, submit_ok).
  apply (script_prints 6 s4 [Console [newline]; Console t1]) in H4; [|by repeat constructor].
  apply (script_logs 6 _ [Logged (lit "--- an order that crosses the spread ---")]) in H4; [|by repeat constructor]. unfold emit in H4. cbn [sc_engine sc_world sc_events] in H4. by rewrite <- app_assoc in H4.
Qed.

(** In both modes, output of its own comes after a flush, whatever the clock
    says and whatever is traded, and the messages fit into the queue. *)
Lemma mode_flushed_first now_ns evs : mode_events now_ns evs -> flushed_first true evs = true /\ length (omap message evs) <= 414.
Proof.
  intros [(path & file & e & w & E)|[(path & file & err & _ & ->)|(s & E & <-)]].
  - unfold run_replay_mode in E. destruct (load_csv file) as [[err|orders]|]; [done| |done]. simpl in E. destruct (add_symbol _ _ _ _ _ _) as [[r e1]|]; [|done]. simpl in E.
    destruct (replay _ _ _ _) as [[[stats e2] w2]|]; [|done]. simpl in E. destruct (print_symbol _ _); [|done]. simpl in E. injection E as <- _ _. split; [done|]. simpl. lia.
  - split; [done|]. simpl. lia.
  - destruct (scripted_ok _ _ E) as [Hf Hc]. split; [done|]. destruct (scripted_demo_defined now_ns) as (s' & E' & Hu). rewrite E in E'. injection E' as <-. lia.
Qed.

(** The queue of 8192 slots. *)
Definition log_queue_log2 : N := 13.

(** The logger's threads in a mode. *)
Section mode.
Context (now_ns : nat -> Timestamp) (evs : list Event) (nows : list Timestamp) (is_mode : mode_events now_ns evs) (clocks : length nows = length evs).

Lemma log_queue_range : (1 <= log_queue_log2 <= 63)%N.
Proof. unfold log_queue_log2. lia. Qed.

Lemma mode_fits : (N.of_nat (length (omap line_call (omap call_entry (program nows evs)))) <= capacity log_queue_log2)%N.
Proof.
  rewrite program_messages by done. destruct (mode_flushed_first now_ns evs is_mode) as [_ Hfit].
  assert (N.of_nat (length (omap message evs)) <= 414)%N by lia. etrans; [done|]. by vm_compute.
Qed.

Lemma mode_inv x : program_reachable log_queue_log2 (program nows evs) x -> program_inv log_queue_log2 (program nows evs) x.
Proof.
  intros Hr. apply program_reachable_inv; [apply log_queue_range|apply program_info|apply mode_fits| |done].
  rewrite program_ordered by done. by destruct (mode_flushed_first now_ns evs is_mode).
Qed.

Lemma mode_caller_defined x j : program_reachable log_queue_log2 (program nows evs) x -> st_caller x.2 <> Destroyed -> is_Some (program_next log_queue_log2 CallerT j x).
Proof. intros Hr. apply (program_caller_defined _ log_queue_range _ x j (mode_inv x Hr)). Qed.

Lemma mode_worker_defined x j : program_reachable log_queue_log2 (program nows evs) x -> st_worker x.2 <> Returned -> is_Some (program_next log_queue_log2 WorkerT j x).
Proof. intros Hr. apply (program_worker_defined _ log_queue_range _ x j (mode_inv x Hr)). Qed.

(** The mode is over: its text is on the console, visible and complete. *)
Definition finished (x : list LogCall * LogState) : Prop :=
  let shown := mjoin (zip_with event_text nows evs) in
  st_caller x.2 = Destroyed /\ out_ (st_logger x.2) = shown /\ st_visible x.2 = length shown /\ dropped_count (st_logger x.2) = 0%N.

Lemma inv_finished x : program_inv log_queue_log2 (program nows evs) x -> st_caller x.2 = Destroyed -> finished x.
Proof.
  intros Hi Ho. destruct (stream_complete _ log_queue_range _ x Hi Ho) as (Hout & Hv & Hd). rewrite program_text in Hout. unfold finished. by rewrite Hv, Hout.
Qed.

Lemma mode_ends x sched : program_reachable log_queue_log2 (program nows evs) x -> fair (fun _ => True) (fun i => (sched i).1) -> visible sched ->
  exists i, finished (exec (program_turn log_queue_log2) sched x i).
Proof.
  intros Hr Hf Hv. pose proof (mode_inv x Hr) as Hi. destruct (program_ends _ log_queue_range _ mode_fits sched x Hi Hf Hv) as [i Ho]. exists i.
  apply inv_finished; [|done]. by apply program_exec_inv; [apply log_queue_range|apply mode_fits|].
Qed.
End mode.

(** C10. The console shows what a mode writes, in the order in which it writes
    it, although two threads write.  Take the replay mode, of a file that loads
    or not, or the walkthrough, with any clock; its thread makes the calls of
    the mode on the logger and destroys it, and the logger's worker runs at the
    same time.  In every interleaving of their memory accesses and with whatever
    older values their loads return, what is on the console is a beginning of
    the mode's text, each message a line with its time and level; no thread gets
    stuck, none of the mode's own output is written while a message may still be
    on its way, and at the end the text is complete and visible and nothing was
    dropped.  If both threads run again and again and stores become visible
    after a finite time, the end is reached. *)
Theorem console_output now_ns evs nows x :
  mode_events now_ns evs -> length nows = length evs ->
  program_reachable log_queue_log2 (program nows evs) x ->
  let shown := mjoin (zip_with event_text nows evs) in
  out_ (st_logger x.2) `prefix_of` shown /\
  (st_caller x.2 <> Destroyed -> forall j, is_Some (program_next log_queue_log2 CallerT j x)) /\
  (st_worker x.2 <> Returned -> forall j, is_Some (program_next log_queue_log2 WorkerT j x)) /\
  (st_caller x.2 = Destroyed -> finished evs nows x) /\
  (forall sched, fair (fun _ => True) (fun i => (sched i).1) -> visible sched -> exists i, finished evs nows (exec (program_turn log_queue_log2) sched x i)).
Proof.
  intros Hm Hlen Hr shown. pose proof (mode_inv now_ns evs nows Hm Hlen x Hr) as Hi. split_and!.
  - unfold shown. rewrite <- program_text. by apply (stream_prefix log_queue_log2).
  - intros Hc j. by eapply mode_caller_defined.
  - intros Hw j. by eapply mode_worker_defined.
  - by apply inv_finished.
  - intros sched. by eapply mode_ends.
Qed.

(** The walkthrough, from the start, and its whole execution with the two
    threads in turns. *)
Definition walkthrough : list Event := default [] (sc_events <$> run_scripted_demo ticks).
Definition walkthrough_nows : list Timestamp := (fun i => N.of_nat (100 * i)) <$> seq 0 (length walkthrough).
Definition walkthrough_start : list LogCall * LogState := (program walkthrough_nows walkthrough, init_log log_queue_log2 Info).
Definition turns (i : nat) : LogThread * nat := ((log_turns i).1.1, (log_turns i).2).

Lemma turns_fair : fair (fun _ => True) (fun i => (turns i).1).
Proof. exact log_turns_fair. Qed.

Lemma turns_visible : visible turns.
Proof. intros v. destruct (log_turns_visible v) as [m Hm]. exists m. exact Hm. Qed.

Lemma console_output_witness :
  length (omap message walkthrough) = 17 /\
  exists i, let x := exec (program_turn log_queue_log2) turns walkthrough_start i in
    st_caller x.2 = Destroyed /\ out_ (st_logger x.2) = mjoin (zip_with event_text walkthrough_nows walkthrough).
Proof.
  assert (Hm : mode_events ticks walkthrough) by (right; right; destruct (scripted_demo_defined ticks) as (s & E & _); exists s; split; [exact E|]; unfold walkthrough; by rewrite E).
  assert (Hl : (length (omap message walkthrough)) = 17) by (vm_compute; reflexivity). split; [exact Hl|].
  assert (Hn : length walkthrough_nows = length walkthrough) by (unfold walkthrough_nows; rewrite length_fmap; apply length_seq).
  destruct (console_output ticks walkthrough walkthrough_nows walkthrough_start Hm Hn (rtc_refl _ _)) as (_ & _ & _ & _ & Hend).
  destruct (Hend turns turns_fair turns_visible) as (i & H1 & H2 & _). exists i. split; [exact H1|exact H2].
Defined.
