(* ===== verification/MtDemo.v ===== *)
(** src/main.cpp, the [mt-demo] mode: producer threads that send their orders
    through the lanes of a gateway, and one matching thread that polls the
    lanes into the engine until every producer is done and every lane empty.

    The threads take one memory access at a time, in any interleaving: the
    accesses of a lane's ring are those of LockfreeAccess.v, and
    [producers_remaining] is its modification order too, a list of messages.
    A load returns a value at or after the position that its thread has seen,
    so what a thread sees of the others may be old; the position is an argument
    of the step.  The [fetch_sub] is a release operation: its message carries
    how far the producer has written its lane, with what the messages before it
    carry (a release sequence); the matching thread's load of the counter is an
    acquire operation, which makes that part of the lanes visible to it.  (The
    views that the threads get from the lanes' own indices tell them nothing
    about other lanes that the matching thread did not know.)

    The orders of each producer and the handler (the engine's [submit_order],
    which touches nothing that the producers do) are parameters. *)

From S2P Require Import Prelude Types OrderPool LockfreeQueue LockfreeAccess OrderGateway.
From S2P Require Import BookCore BookSpec BookSpecFacts BookTrades BookInterface.
From S2P Require Import OrderBookVector VectorRefinement OrderBookMap MapRefinement OrderBookArray ArrayRefinement.
From S2P Require Import Books RiskManager MatchingEngine EngineFacts EngineTheorems ReplayRun.

(** Where the matching thread is: at the load of [producers_remaining]; in
    [all_lanes_empty] before lane [i], or with lane [i]'s read index loaded; in
    [poll_once] at its [i]-th lane; out of the loop. *)
Inductive Matcher := MTest | MCheck (i : N) | MCheckLoaded (i read : N) | MSweep (i drained : N) | MDone.

(** A value of [producers_remaining] and the positions of the lanes' write
    indices that were released with it. *)
Record Message := mkMessage {
  msg_value : Z;
  msg_view : list nat
}.

(** [mt_seen] is the matching thread's position in the order of the counter;
    [mt_handled] records the requests handed to the handler with their lanes,
    for the statements only. *)
Record Mt (H : Type) := mkMt {
  mt_lanes : list (State OrderRequest);
  mt_next_lane : N;
  mt_unsent : list (list OrderRequest);
  mt_finished : list bool;
  mt_remaining : list Message;
  mt_seen : nat;
  mt_matcher : Matcher;
  mt_processed : N;
  mt_h : H;
  mt_handled : list (nat * OrderRequest)
}.

Arguments mkMt {H}.
Arguments mt_lanes {H}.
Arguments mt_next_lane {H}.
Arguments mt_unsent {H}.
Arguments mt_finished {H}.
Arguments mt_remaining {H}.
Arguments mt_seen {H}.
Arguments mt_matcher {H}.
Arguments mt_processed {H}.
Arguments mt_h {H}.
Arguments mt_handled {H}.

Section mt.
Context (k : N) {H : Type} (handler : H -> OrderRequest -> option H).
Context (orders : list (list OrderRequest)).

Definition init_mt (h0 : H) : Mt H :=
  mkMt (replicate (length orders) (init_state k default_request)) 0 orders (replicate (length orders) false)
    [mkMessage (Z.of_nat (length orders)) (replicate (length orders) 0)] 0 MTest 0 h0 [].

Definition set_lane (p : nat) (l : State OrderRequest) (s : Mt H) : Mt H :=
  mkMt (<[p := l]> (mt_lanes s)) (mt_next_lane s) (mt_unsent s) (mt_finished s) (mt_remaining s) (mt_seen s) (mt_matcher s) (mt_processed s)
    (mt_h s) (mt_handled s).

(** The matching thread's step to [m] with nothing else changed. *)
Definition move (m : Matcher) (s : Mt H) : Mt H :=
  mkMt (mt_lanes s) (mt_next_lane s) (mt_unsent s) (mt_finished s) (mt_remaining s) (mt_seen s) m (mt_processed s) (mt_h s) (mt_handled s).

(** ** The producers *)

(** [gateway.submit(p, req)] has returned [true]: on to the next order. *)
Definition sent (p : nat) (rest : list OrderRequest) (s : Mt H) : Mt H :=
  mkMt (mt_lanes s) (mt_next_lane s) (<[p := rest]> (mt_unsent s)) (mt_finished s) (mt_remaining s) (mt_seen s) (mt_matcher s) (mt_processed s)
    (mt_h s) (mt_handled s).

(** [fetch_sub(1, release)] by producer [p], whose lane is written up to
    [written]: an update of the last value. *)
Definition fetch_sub (p written : nat) (m : Message) : Message := mkMessage (msg_value m - 1) (<[p := written]> (msg_view m)).

Definition finish (p : nat) (m : Message) (s : Mt H) : Mt H :=
  mkMt (mt_lanes s) (mt_next_lane s) (mt_unsent s) (<[p := true]> (mt_finished s)) (mt_remaining s ++ [m]) (mt_seen s) (mt_matcher s)
    (mt_processed s) (mt_h s) (mt_handled s).

(** Producer [p]'s next access; a load of the lane's read index asks for
    position [j]. *)
Definition producer_next (p j : nat) (s : Mt H) : option (Mt H) :=
  match mt_unsent s !! p with
  | Some (rq :: rest) =>
      l ← mt_lanes s !! p;
      '(r, l') ← push_access k rq j l;
      Some (match r with Some true => sent p rest (set_lane p l' s) | _ => set_lane p l' s end)
  | Some [] =>
      match mt_finished s !! p with
      | Some false =>
          l ← mt_lanes s !! p;
          m ← last (mt_remaining s);
          Some (finish p (fetch_sub p (length (s_writes l) - 1) m) s)
      | _ => None
      end
  | None => None
  end.

(** ** The matching thread *)

(** [producers_remaining.load(acquire)] from position [j]. *)
Definition load_remaining (j : nat) (s : Mt H) : option (Z * Mt H) :=
  let j' := load_at (mt_seen s) j (mt_remaining s) in
  m ← mt_remaining s !! j';
  Some (msg_value m, mkMt (zip_with see_writes (msg_view m) (mt_lanes s)) (mt_next_lane s) (mt_unsent s) (mt_finished s) (mt_remaining s) j'
    (mt_matcher s) (mt_processed s) (mt_h s) (mt_handled s)).

(** The handler's call for a request popped from [lane]. *)
Definition hand_over (lane : nat) (rq : OrderRequest) (h' : H) (s : Mt H) : Mt H :=
  mkMt (mt_lanes s) (mt_next_lane s) (mt_unsent s) (mt_finished s) (mt_remaining s) (mt_seen s) (mt_matcher s) (mt_processed s) h'
    (mt_handled s ++ [(lane, rq)]).

(** The end of a sweep of [n] lanes. *)
Definition end_sweep (n drained : N) (s : Mt H) : Mt H :=
  mkMt (mt_lanes s) (if (0 <? n)%N then ((mt_next_lane s + 1) mod n)%N else mt_next_lane s) (mt_unsent s) (mt_finished s) (mt_remaining s)
    (mt_seen s) MTest (wrap64 (mt_processed s + drained)) (mt_h s) (mt_handled s).

(** The matching thread's next access; a load of the other threads' data asks
    for position [j]. *)
Definition matcher_next (j : nat) (s : Mt H) : option (Mt H) :=
  let n := vsize (mt_lanes s) in
  match mt_matcher s with
  | MTest =>
      '(remaining, s1) ← load_remaining j s;
      Some (move (if decide (0 < remaining)%Z then MSweep 0 0 else MCheck 0) s1)
  | MCheck i =>
      if decide (i = n) then Some (move MDone s)
      else l ← vget (mt_lanes s) i; read ← last (s_reads l); Some (move (MCheckLoaded i read) s)
  | MCheckLoaded i read =>
      l ← vget (mt_lanes s) i;
      '(write, l') ← load_writes j l;
      Some (move (if decide (read = write) then MCheck (i + 1) else MSweep 0 0) (set_lane (N.to_nat i) l' s))
  | MSweep i drained =>
      if decide (i = n) then Some (end_sweep i drained s)
      else if decide (i < n)%N then
        let lane := ((mt_next_lane s + i) mod n)%N in
        l ← vget (mt_lanes s) lane;
        '(r, l') ← pop_access k j l;
        let s1 := set_lane (N.to_nat lane) l' s in
        match r with
        | None => Some s1
        | Some None => Some (move (MSweep (i + 1) drained) s1)
        | Some (Some rq) => h' ← handler (mt_h s) rq; Some (hand_over (N.to_nat lane) rq h' (move (MSweep (i + 1) (drained + 1)) s1))
        end
      else None
  | MDone => None
  end.

(** ** Executions *)

(** [Some p] is producer [p], [None] the matching thread. *)
Definition thread_next (t : option nat) (j : nat) (s : Mt H) : option (Mt H) :=
  match t with Some p => producer_next p j s | None => matcher_next j s end.

Inductive mt_step (s s' : Mt H) : Prop :=
| thread_step t j : thread_next t j s = Some s' -> mt_step s s'.

Definition mt_reachable (h0 : H) (s : Mt H) : Prop := rtc mt_step (init_mt h0) s.

(** A schedule gives the thread and the position of the load, if it is one. *)
Fixpoint run_schedule (sched : list (option nat * nat)) (s : Mt H) : option (Mt H) :=
  match sched with
  | [] => Some s
  | (t, j) :: sched' => s1 ← thread_next t j s; run_schedule sched' s1
  end.

Lemma schedule_reaches sched h0 s s' : mt_reachable h0 s -> run_schedule sched s = Some s' -> mt_reachable h0 s'.
Proof.
  revert s. induction sched as [|[t j] sched IH]; intros s Hr; simpl; [by intros [= <-]|].
  destruct (thread_next t j s) as [s1|] eqn:E; [|done]. apply IH. eapply rtc_r; [exact Hr|]. by exists t j.
Qed.

(** * The invariant *)

(** What was handed over from lane [p]. *)
Definition handled_from (p : nat) (l : list (nat * OrderRequest)) : list OrderRequest := snd <$> filter (fun x => x.1 = p) l.

Definition in_sweep (m : Matcher) : N := match m with MSweep _ drained => drained | _ => 0 end.

(** The number of lanes that the loop under way has passed. *)
Definition at_lane (m : Matcher) : N := match m with MCheck i | MCheckLoaded i _ | MSweep i _ => i | _ => 0 end.

(** The lanes that the scan under way has found empty. *)
Definition seen_empty (m : Matcher) (n : nat) : nat := match m with MCheck i | MCheckLoaded i _ => N.to_nat i | MDone => n | _ => 0 end.
Definition after_remaining (m : Matcher) : bool := match m with MCheck _ | MCheckLoaded _ _ | MDone => true | _ => false end.

(** Producer [p] has finished, and [view] has all that it wrote. *)
Definition covered (s : Mt H) (view : list nat) (p : nat) : Prop :=
  mt_finished s !! p = Some true /\ exists l, mt_lanes s !! p = Some l /\ view !! p = Some (length (s_pushed l)).

(** The [j]-th message of the counter covers [j] producers. *)
Record message_ok (s : Mt H) (j : nat) (m : Message) : Prop := {
  mo_value : msg_value m = (Z.of_nat (length orders) - Z.of_nat j)%Z;
  mo_view : Forall2 (fun v l => v <= length (s_pushed l)) (msg_view m) (mt_lanes s);
  mo_covers : exists ps, NoDup ps /\ length ps = j /\ Forall (covered s (msg_view m)) ps
}.

Record mt_inv (h0 : H) (s : Mt H) : Prop := {
  mi_lanes : Forall (ring_inv k) (mt_lanes s);
  mi_count : length (mt_lanes s) = length orders /\ length (mt_unsent s) = length orders /\ length (mt_finished s) = length orders;
  mi_next : (mt_next_lane s < vsize orders)%N;
  mi_sent : forall p os l u, orders !! p = Some os -> mt_lanes s !! p = Some l -> mt_unsent s !! p = Some u ->
    os = s_pushed l ++ u /\ s_popped l = handled_from p (mt_handled s);
  mi_flight : forall p l u rq, mt_lanes s !! p = Some l -> mt_unsent s !! p = Some u -> in_flight (s_producer l) = Some rq -> head u = Some rq;
  mi_handled : Forall (fun x => x.1 < length orders) (mt_handled s);
  mi_finished : forall p, mt_finished s !! p = Some true -> mt_unsent s !! p = Some [];
  mi_messages : forall j m, mt_remaining s !! j = Some m -> message_ok s j m;
  mi_remaining : length (mt_remaining s) + length (filter (fun b => b = false) (mt_finished s)) = S (length orders);
  mi_seen : mt_seen s < length (mt_remaining s);
  mi_check : after_remaining (mt_matcher s) = true -> Forall (fun b => b = true) (mt_finished s) /\
    Forall (fun l => s_cview l = length (s_pushed l)) (mt_lanes s) /\
    forall j l, j < seen_empty (mt_matcher s) (length orders) -> mt_lanes s !! j = Some l -> held l = [];
  mi_loaded : forall i read, mt_matcher s = MCheckLoaded i read -> exists l, vget (mt_lanes s) i = Some l /\ read = slot k (length (s_popped l));
  mi_processed : (in_sweep (mt_matcher s) <= N.of_nat (length (mt_handled s)))%N /\
    mt_processed s = wrap64 (N.of_nat (length (mt_handled s)) - in_sweep (mt_matcher s));
  mi_h : handle_all handler (snd <$> mt_handled s) h0 = Some (mt_h s);
  mi_index : (at_lane (mt_matcher s) <= vsize orders)%N
}.

Context (k_range : (1 <= k <= 63)%N) (some_producer : orders <> []).

Lemma handled_snoc p l lane rq : handled_from p (l ++ [(lane, rq)]) = handled_from p l ++ if decide (lane = p) then [rq] else [].
Proof.
  unfold handled_from. rewrite filter_app, fmap_app. f_equal. rewrite filter_cons, filter_nil. simpl. by case_decide.
Qed.

Lemma handle_all_app l1 l2 h : handle_all handler (l1 ++ l2) h = h1 ← handle_all handler l1 h; handle_all handler l2 h1.
Proof. revert h. induction l1 as [|r l1 IH]; intros h; simpl; [done|]. destruct (handler h r); [|done]. apply IH. Qed.

Lemma count_finish (l : list bool) p : l !! p = Some false ->
  S (length (filter (fun b => b = false) (<[p := true]> l))) = length (filter (fun b => b = false) l).
Proof.
  intros Hp. pose proof (lookup_lt_Some _ _ _ Hp) as Hlt. rewrite insert_take_drop by done. rewrite <- (take_drop_middle l p false Hp) at 3.
  rewrite !filter_app, !length_app, !filter_cons. rewrite decide_False, decide_True by done. simpl. lia.
Qed.

(** A view of all [n] producers covers each of them. *)
Lemma all_covered (s : Mt H) view ps : length (mt_lanes s) = length orders -> NoDup ps -> length ps = length orders -> Forall (covered s view) ps ->
  forall p, p < length orders -> covered s view p.
Proof.
  intros Hl Hnd Hlen Hall p Hp. assert (Hperm : ps ≡ₚ seq 0 (length orders)).
  { apply submseteq_length_Permutation; [|by rewrite length_seq, Hlen]. apply NoDup_submseteq; [done|]. intros q Hq.
    rewrite Forall_forall in Hall. destruct (Hall q Hq) as (_ & l & Hlk%lookup_lt_Some & _). apply elem_of_seq. lia. }
  rewrite Forall_forall in Hall. apply Hall. rewrite Hperm. apply elem_of_seq. lia.
Qed.

Lemma init_mt_inv h0 : mt_inv h0 (init_mt h0).
Proof.
  split; simpl; try done.
  - apply Forall_replicate, init_inv. lia.
  - by rewrite !length_replicate.
  - unfold vsize. destruct orders; [done|simpl; lia].
  - intros p os l u Ho [-> _]%lookup_replicate Hu. simplify_eq. done.
  - by intros p l u rq [-> _]%lookup_replicate.
  - by intros p [? _]%lookup_replicate.
  - intros [|j] m; [|done]. intros [= <-]. split; simpl; [lia| |exists []; split_and!; try done; constructor].
    apply Forall2_replicate. done.
  - f_equal. clear. induction (length orders) as [|n IH]; simpl; [done|]. by rewrite IH.
  - lia.
  - lia.
Qed.

Lemma inv_size h0 s : mt_inv h0 s -> vsize (mt_lanes s) = vsize orders.
Proof. intros Hi. destruct (mi_count _ _ Hi) as [Hl _]. unfold vsize. lia. Qed.

Lemma lane_inv h0 s p l : mt_inv h0 s -> mt_lanes s !! p = Some l -> ring_inv k l.
Proof. intros Hi Hl. by eapply Forall_lookup_1; [apply Hi|]. Qed.

(** The tables of the producers have an entry for every lane. *)
Lemma inv_lookups h0 s p : mt_inv h0 s -> p < length orders ->
  exists os l u b, orders !! p = Some os /\ mt_lanes s !! p = Some l /\ mt_unsent s !! p = Some u /\ mt_finished s !! p = Some b.
Proof.
  intros Hi Hp. destruct (mi_count _ _ Hi) as (H1 & H2 & H3).
  destruct (lookup_lt_is_Some_2 orders p) as [os ?]; [lia|]. destruct (lookup_lt_is_Some_2 (mt_lanes s) p) as [l ?]; [lia|].
  destruct (lookup_lt_is_Some_2 (mt_unsent s) p) as [u ?]; [lia|]. destruct (lookup_lt_is_Some_2 (mt_finished s) p) as [b ?]; [lia|].
  by exists os, l, u, b.
Qed.

(** Messages stay right when lanes are written further by producers that have
    not finished. *)
Definition grows (s s' : Mt H) : Prop :=
  Forall2 (fun l l' => length (s_pushed l) <= length (s_pushed l')) (mt_lanes s) (mt_lanes s') /\
  forall p, mt_finished s !! p = Some true -> mt_finished s' !! p = Some true /\
    forall l l', mt_lanes s !! p = Some l -> mt_lanes s' !! p = Some l' -> s_pushed l' = s_pushed l.

Lemma message_stable s s' j m : grows s s' -> message_ok s j m -> message_ok s' j m.
Proof.
  intros [Hl Hf] [H1 H2 (ps & Hnd & Hlen & Hc)]. split; [done| |].
  - eapply Forall2_trans; [|exact H2|exact Hl]. simpl. lia.
  - exists ps. split_and!; [done..|]. eapply Forall_impl; [exact Hc|]. intros p (Hp & l & El & Ev). destruct (Hf p Hp) as [Hp' Hpush].
    split; [done|]. destruct (Forall2_lookup_l _ _ _ _ _ Hl El) as (l' & El' & _). exists l'. split; [done|]. by rewrite (Hpush l l' El El').
Qed.

Lemma grows_set (s s' : Mt H) p l l' : mt_lanes s !! p = Some l -> mt_lanes s' = <[p := l']> (mt_lanes s) -> mt_finished s' = mt_finished s ->
  length (s_pushed l) <= length (s_pushed l') -> (mt_finished s !! p = Some true -> s_pushed l' = s_pushed l) -> grows s s'.
Proof.
  intros Hl El Ef Hle Hf. split; rewrite El.
  - rewrite <- (list_insert_id _ _ _ Hl) at 1. apply Forall2_insert; [|done]. by apply Forall_Forall2_diag, Forall_true.
  - intros q Hq. rewrite Ef. split; [done|]. intros l1 l2 H1 [(-> & -> & _)|[_ H2]]%list_lookup_insert_Some; simplify_eq; [by apply Hf|done].
Qed.

(** An access to a lane that neither pushes nor pops. *)
Lemma set_lane_inv h0 s p l l' : mt_inv h0 s -> mt_lanes s !! p = Some l -> ring_inv k l' ->
  s_pushed l' = s_pushed l -> s_popped l' = s_popped l -> s_cview l <= s_cview l' ->
  (forall u rq, mt_unsent s !! p = Some u -> in_flight (s_producer l') = Some rq -> head u = Some rq) -> mt_inv h0 (set_lane p l' s).
Proof.
  intros Hi Hl Hr Epu Epo Hv Hfl. pose proof Hi as [H1 (Hc1 & Hc2 & Hc3) H3 H4 H5 H6 H7 H8 H9 H10 H11 H12 H13 H14 H15].
  assert (Hat : forall q lq, (<[p := l']> (mt_lanes s)) !! q = Some lq -> exists l0, mt_lanes s !! q = Some l0 /\ s_pushed lq = s_pushed l0 /\ s_popped lq = s_popped l0).
  { intros q lq [(<- & <- & _)|[_ Hq]]%list_lookup_insert_Some; eauto. }
  split; simpl; try done.
  - by apply Forall_insert.
  - by rewrite length_insert.
  - intros q os lq u Ho (l0 & E0 & -> & ->)%Hat Hu. by apply H4.
  - intros q lq u rq [(<- & <- & _)|[_ Hq]]%list_lookup_insert_Some Hu Hf; [by apply Hfl|by eapply H5].
  - intros j m Hm. eapply message_stable; [|by apply H8]. eapply grows_set; [exact Hl|done|done|by rewrite Epu|done].
  - intros Ha. destruct (H11 Ha) as (Hall & Hcv & Hem). split; [done|]. split.
    + apply Forall_insert; [done|]. pose proof (inv_cview _ _ Hr). pose proof (Forall_lookup_1 _ _ _ _ Hcv Hl) as E. simpl in E. rewrite Epu in *. lia.
    + intros j lj Hj (l0 & E0 & Ep & Eq)%Hat. unfold held. rewrite Ep, Eq. by apply (Hem j).
  - intros i read Hm. destruct (H12 i read Hm) as (l0 & E0 & ->). unfold vget in *.
    destruct (decide (p = N.to_nat i)) as [->|Hne]; [|exists l0; by rewrite list_lookup_insert_ne]. simplify_eq. exists l'.
    rewrite list_lookup_insert_eq by (by eapply lookup_lt_Some). by rewrite Epo.
Qed.

(** The matching thread is somewhere else. *)
Lemma move_inv h0 s m : mt_inv h0 s ->
  (after_remaining m = true -> Forall (fun b => b = true) (mt_finished s) /\ Forall (fun l => s_cview l = length (s_pushed l)) (mt_lanes s) /\
    forall j l, j < seen_empty m (length orders) -> mt_lanes s !! j = Some l -> held l = []) ->
  (forall i read, m = MCheckLoaded i read -> exists l, vget (mt_lanes s) i = Some l /\ read = slot k (length (s_popped l))) ->
  in_sweep m = in_sweep (mt_matcher s) -> (at_lane m <= vsize orders)%N -> mt_inv h0 (move m s).
Proof.
  intros [H1 H2 H3 H4 H5 H6 H7 H8 H9 H10 H11 H12 H13 H14 H15] Hc Hl Hs Ha. split; simpl; try done; [|by rewrite Hs].
  intros j mg Hm. eapply message_stable; [|by apply H8]. split; [by apply Forall_Forall2_diag, Forall_true|]. intros p Hp. split; [done|]. simpl. intros. by simplify_eq.
Qed.

(** ** The producers *)

Lemma unsent_not_done h0 s p rq rest : mt_inv h0 s -> mt_unsent s !! p = Some (rq :: rest) ->
  mt_finished s !! p <> Some true /\ after_remaining (mt_matcher s) = false.
Proof.
  intros Hi Hu. assert (Hf : mt_finished s !! p <> Some true) by (intros Hf%(mi_finished _ _ Hi); congruence). split; [done|].
  destruct (after_remaining (mt_matcher s)) eqn:E; [|done]. destruct (mi_check _ _ Hi E) as [Hall _]. destruct (mi_count _ _ Hi) as (_ & Hl & _).
  destruct (inv_lookups h0 s p Hi) as (_ & _ & _ & b & _ & _ & _ & Hb); [apply lookup_lt_Some in Hu; lia|].
  by pose proof (Forall_lookup_1 _ _ _ _ Hall Hb) as ->.
Qed.

Lemma push_inv h0 s p rq rest l l' : mt_inv h0 s -> mt_unsent s !! p = Some (rq :: rest) -> mt_lanes s !! p = Some l -> ring_inv k l' ->
  s_pushed l' = s_pushed l ++ [rq] -> s_popped l' = s_popped l -> s_producer l' = PIdle -> mt_inv h0 (sent p rest (set_lane p l' s)).
Proof.
  intros Hi Hu Hl Hr Epu Epo Epr. destruct (unsent_not_done _ _ _ _ _ Hi Hu) as [Hnf Hna].
  pose proof Hi as [H1 (Hc1 & Hc2 & Hc3) H3 H4 H5 H6 H7 H8 H9 H10 H11 H12 H13 H14 H15]. split; simpl; try done.
  - by apply Forall_insert.
  - by rewrite !length_insert.
  - intros q os lq u Ho [(<- & <- & _)|[Hne Hq]]%list_lookup_insert_Some.
    + rewrite list_lookup_insert_eq by (by eapply lookup_lt_Some). intros [= <-]. destruct (H4 p os l _ Ho Hl Hu) as [-> E]. rewrite Epu, Epo, <- app_assoc. done.
    + rewrite list_lookup_insert_ne by done. by apply H4.
  - intros q lq u r [(<- & <- & _)|[Hne Hq]]%list_lookup_insert_Some; [by rewrite Epr|]. rewrite list_lookup_insert_ne by done. by eapply H5.
  - intros q Hq. destruct (decide (p = q)) as [<-|Hne]; [done|]. rewrite list_lookup_insert_ne by done. by apply H7.
  - intros j m Hm. eapply message_stable; [|by apply H8]. eapply grows_set; [exact Hl|done|done|rewrite Epu, length_app; lia|done].
  - by rewrite Hna.
  - intros i read Hm. by rewrite Hm in Hna.
Qed.

Lemma finish_inv h0 s p l m : mt_inv h0 s -> mt_unsent s !! p = Some [] -> mt_finished s !! p = Some false -> mt_lanes s !! p = Some l ->
  last (mt_remaining s) = Some m -> mt_inv h0 (finish p (fetch_sub p (length (s_writes l) - 1) m) s).
Proof.
  intros Hi Hu Hf Hl Hm. pose proof Hi as [H1 (Hc1 & Hc2 & Hc3) H3 H4 H5 H6 H7 H8 H9 H10 H11 H12 H13 H14 H15].
  assert (Hg : forall s', mt_lanes s' = mt_lanes s -> mt_finished s' = <[p := true]> (mt_finished s) -> grows s s').
  { intros s' E1 E2. unfold grows. rewrite E1, E2. split; [by apply Forall_Forall2_diag, Forall_true|]. intros q Hq. split; [|intros; by simplify_eq].
    destruct (decide (p = q)) as [<-|Hne]; [congruence|by rewrite list_lookup_insert_ne]. }
  split; simpl; try done.
  - by rewrite length_insert.
  - intros q Hq. destruct (decide (p = q)) as [<-|Hne]; [done|]. rewrite list_lookup_insert_ne in Hq by done. by apply H7.
  - intros j mj [[Hj Hmj]|[Ej <-]]%lookup_snoc_Some; [eapply message_stable; [|by apply H8]; by apply Hg|]. subst j.
    rewrite last_lookup in Hm. destruct (mt_remaining s) as [|m0 ms] eqn:Er; [done|]. rewrite <- Er in *. assert (Hlen : length (mt_remaining s) = S (pred (length (mt_remaining s)))) by (rewrite Er; done).
    destruct (H8 _ _ Hm) as [Hv Hw (ps & Hnd & Hps & Hc)]. rewrite (inv_writes _ _ (lane_inv _ _ _ _ Hi Hl)), history_length. simpl. rewrite Nat.sub_0_r. split; simpl.
    + rewrite Hv. lia.
    + rewrite <- (list_insert_id _ _ _ Hl). by apply Forall2_insert.
    + exists (p :: ps). rewrite NoDup_cons, Forall_cons. split_and!; [|done|simpl; lia| |].
      * intros Hin. rewrite Forall_forall in Hc. destruct (Hc p Hin) as [Hft _]. congruence.
      * split; simpl; [apply list_lookup_insert_eq; by eapply lookup_lt_Some|]. exists l. split; [done|]. apply list_lookup_insert_eq.
        rewrite (Forall2_length _ _ _ Hw). by eapply lookup_lt_Some.
      * eapply Forall_impl; [exact Hc|]. intros q (Hq & lq & Elq & Ev). assert (p <> q) by congruence.
        split; simpl; [by rewrite list_lookup_insert_ne|]. exists lq. by rewrite list_lookup_insert_ne.
  - rewrite length_app. simpl. pose proof (count_finish _ _ Hf). lia.
  - rewrite length_app. lia.
  - intros Ha. destruct (H11 Ha) as [Hall _]. by pose proof (Forall_lookup_1 _ _ _ _ Hall Hf).
Qed.

Lemma producer_next_inv h0 s s' p j : mt_inv h0 s -> producer_next p j s = Some s' -> mt_inv h0 s'.
Proof.
  intros Hi. unfold producer_next. destruct (mt_unsent s !! p) as [[|rq rest]|] eqn:Hu; [| |done].
  - destruct (mt_finished s !! p) as [[]|] eqn:Hf; [done| |done]. destruct (mt_lanes s !! p) as [l|] eqn:Hl; [|done]. cbn [mbind option_bind].
    destruct (last (mt_remaining s)) as [m|] eqn:Hm; [|done]. intros [= <-]. by apply finish_inv.
  - destruct (mt_lanes s !! p) as [l|] eqn:Hl; [|done]. cbn [mbind option_bind]. pose proof (lane_inv _ _ _ _ Hi Hl) as Hr.
    destruct (push_access k rq j l) as [[r l']|] eqn:Ep; [|done]. cbn [mbind option_bind]. pose proof (push_access_inv k ltac:(lia) _ _ _ _ _ Hr Ep) as Hr'.
    destruct (push_access_effect k _ _ _ _ _ Ep) as (Epo & _ & _ & Ecv & He).
    assert (Hfl : forall it, in_flight (s_producer l) = Some it -> it = rq) by (intros it Hit; pose proof (mi_flight _ _ Hi _ _ _ _ Hl Hu Hit); simpl in *; congruence).
    destruct r as [[]|]; intros [= <-].
    + destruct He as (HP & it & <-%Hfl & Epu). by eapply push_inv.
    + destruct He as (HP & _ & _ & Epu). eapply set_lane_inv; [done|exact Hl|done|done|done|lia|]. by rewrite HP.
    + destruct He as (Epu & HP). eapply set_lane_inv; [done|exact Hl|done|done|done|lia|]. rewrite HP. intros u it Hu' [= <-]. simplify_eq. simpl.
      destruct (in_flight (s_producer l)) as [it|] eqn:E; simpl; [by rewrite (Hfl it)|done].
Qed.

(** ** The matching thread *)

(** Only the matching thread's views differ. *)
Definition sees_more (l l' : State OrderRequest) : Prop :=
  ring_inv k l' /\ s_pushed l' = s_pushed l /\ s_popped l' = s_popped l /\ s_producer l' = s_producer l /\ s_cview l <= s_cview l'.

Lemma sees_inv h0 s lanes seen : mt_inv h0 s -> Forall2 sees_more (mt_lanes s) lanes -> seen < length (mt_remaining s) ->
  mt_inv h0 (mkMt lanes (mt_next_lane s) (mt_unsent s) (mt_finished s) (mt_remaining s) seen (mt_matcher s) (mt_processed s) (mt_h s) (mt_handled s)).
Proof.
  intros [H1 (Hc1 & Hc2 & Hc3) H3 H4 H5 H6 H7 H8 H9 H10 H11 H12 H13 H14 H15] Hl Hs.
  pose proof (Forall2_length _ _ _ Hl) as Hlen. assert (Hat : forall p l', lanes !! p = Some l' -> exists l, mt_lanes s !! p = Some l /\ sees_more l l').
  { intros p l' Hp. by eapply Forall2_lookup_r. }
  split; simpl; try done.
  - apply Forall_lookup. intros p l' (l & _ & Hm)%Hat. apply Hm.
  - lia.
  - intros p os l' u Ho (l & E & _ & -> & -> & _)%Hat Hu. by apply H4.
  - intros p l' u rq (l & E & _ & _ & _ & -> & _)%Hat. by eapply H5.
  - intros j m Hm. eapply message_stable; [|by apply H8]. split; simpl.
    + eapply Forall2_impl; [exact Hl|]. intros l l' (_ & -> & _). done.
    + intros p Hp. split; [done|]. intros l l' El (l0 & E0 & _ & -> & _)%Hat. by simplify_eq.
  - intros Ha. destruct (H11 Ha) as (Hall & Hcv & Hem). split; [done|]. split.
    + apply Forall_lookup. intros p l' (l & E & Hr & Ep & _ & _ & Hv)%Hat. pose proof (Forall_lookup_1 _ _ _ _ Hcv E) as Ec. simpl in Ec.
      pose proof (inv_cview _ _ Hr). rewrite Ep in *. lia.
    + intros j l' Hj (l & E & _ & Ep & Eq & _)%Hat. unfold held. rewrite Ep, Eq. by apply (Hem j).
  - intros i read Hm. destruct (H12 i read Hm) as (l & El & ->). destruct (Forall2_lookup_l _ _ _ _ _ Hl El) as (l' & El' & _ & _ & Epo & _).
    exists l'. by rewrite Epo.
Qed.

(** The load of the counter returns a number of producers that may be out of
    date; but when it is zero, every producer has finished and all that it
    wrote is visible. *)
Lemma load_remaining_ok h0 s j : mt_inv h0 s -> exists v s1, load_remaining j s = Some (v, s1) /\ mt_inv h0 s1 /\ mt_matcher s1 = mt_matcher s /\
  (~ (0 < v)%Z -> Forall (fun b => b = true) (mt_finished s1) /\ Forall (fun l => s_cview l = length (s_pushed l)) (mt_lanes s1)) /\
  (length (mt_remaining s) <= S j -> v = Z.of_nat (length (filter (fun b => b = false) (mt_finished s)))).
Proof.
  intros Hi. pose proof (load_at_bounds (mt_seen s) j (mt_remaining s) (mi_seen _ _ Hi)) as Hb. pose proof (mi_remaining _ _ Hi) as Hrem. destruct (mi_count _ _ Hi) as (Hc1 & _ & Hc3).
  unfold load_remaining. set (j' := load_at (mt_seen s) j (mt_remaining s)) in *. destruct (lookup_lt_is_Some_2 (mt_remaining s) j') as [m Hm]; [lia|].
  rewrite Hm. destruct (mi_messages _ _ Hi _ _ Hm) as [Hv Hw (ps & Hnd & Hps & Hc)]. do 2 eexists. split; [reflexivity|]. split_and!.
  - apply sees_inv; [done| |lia]. apply Forall2_same_length_lookup. split; [rewrite length_zip_with, (Forall2_length _ _ _ Hw); lia|].
    intros p l l' El (v & l0 & -> & Ev & E0)%lookup_zip_with_Some. simplify_eq. pose proof (Forall2_lookup_lr _ _ _ _ _ _ Hw Ev El) as Hle.
    split_and!; [apply see_writes_inv; [lia|by eapply lane_inv|done]|done..|]. simpl. lia.
  - done.
  - simpl. intros Hz. assert (Hall : forall p, p < length orders -> covered s (msg_view m) p) by (eapply all_covered; [lia|exact Hnd|lia|done]). split.
    + apply Forall_lookup. intros p b Hp. destruct (Hall p) as [Hf _]; [apply lookup_lt_Some in Hp; lia|]. congruence.
    + apply Forall_lookup. intros p l' (v & l & -> & Ev & El)%lookup_zip_with_Some. destruct (Hall p) as (_ & l1 & El1 & Ev1); [apply lookup_lt_Some in El; lia|].
      simplify_eq. simpl. pose proof (inv_cview _ _ (lane_inv _ _ _ _ Hi El)). lia.
  - intros Hlate. rewrite Hv. unfold j'. rewrite load_at_last by done. lia.
Qed.

Lemma sweep_end_inv h0 s i d : mt_inv h0 s -> mt_matcher s = MSweep i d -> i = vsize (mt_lanes s) -> mt_inv h0 (end_sweep i d s).
Proof.
  intros Hi Hm ->. rewrite (inv_size h0 s Hi). pose proof Hi as [H1 H2 H3 H4 H5 H6 H7 H8 H9 H10 H11 H12 [H13 H13'] H14 H15]. rewrite Hm in H13, H13'. simpl in H13, H13'.
  split; simpl; try done.
  - destruct (N.ltb_spec 0 (vsize orders)); [apply N.mod_lt; lia|done].
  - intros j m Hj. eapply message_stable; [|by apply H8]. split; [by apply Forall_Forall2_diag, Forall_true|]. simpl. intros p Hp. split; [done|]. intros. by simplify_eq.
  - split; [lia|]. rewrite H13'. unfold wrap64. rewrite N.Div0.add_mod_idemp_l. f_equal. lia.
  - lia.
Qed.

(** A request popped and handed over. *)
Lemma take_inv h0 s p l l' i d rq h' : mt_inv h0 s -> mt_matcher s = MSweep i d -> (i < vsize orders)%N -> mt_lanes s !! p = Some l -> ring_inv k l' ->
  s_pushed l' = s_pushed l -> s_popped l' = s_popped l ++ [rq] -> s_producer l' = s_producer l -> handler (mt_h s) rq = Some h' ->
  mt_inv h0 (hand_over p rq h' (move (MSweep (i + 1) (d + 1)) (set_lane p l' s))).
Proof.
  intros Hi Hm Hlt Hl Hr Epu Epo Epr Hh. pose proof Hi as [H1 (Hc1 & Hc2 & Hc3) H3 H4 H5 H6 H7 H8 H9 H10 H11 H12 [H13 H13'] H14 H15]. rewrite Hm in H13, H13'. simpl in H13, H13'.
  pose proof (lookup_lt_Some _ _ _ Hl) as Hp. split; simpl; try done.
  - by apply Forall_insert.
  - by rewrite length_insert.
  - intros q os lq u Ho [(<- & <- & _)|[Hne Hq]]%list_lookup_insert_Some Hu; rewrite handled_snoc.
    + destruct (H4 p os l u Ho Hl Hu) as [-> E]. rewrite Epu, Epo, E, decide_True by done. done.
    + rewrite decide_False, app_nil_r by done. by apply H4.
  - intros q lq u r [(<- & <- & _)|[Hne Hq]]%list_lookup_insert_Some; [rewrite Epr; by eapply H5|by eapply H5].
  - apply Forall_app. split; [done|]. constructor; [simpl; lia|done].
  - intros j m Hj. eapply message_stable; [|by apply H8]. eapply grows_set; [exact Hl|done|done|by rewrite Epu|done].
  - rewrite length_app. simpl. split; [lia|]. rewrite H13'. f_equal. lia.
  - rewrite fmap_app, handle_all_app, H14. simpl. by rewrite Hh.
  - lia.
Qed.

(** A lane that the scan finds empty is empty: all writes are visible to it. *)
Lemma check_loaded_inv h0 s i read j l write l' : mt_inv h0 s -> mt_matcher s = MCheckLoaded i read ->
  vget (mt_lanes s) i = Some l -> load_writes j l = Some (write, l') ->
  mt_inv h0 (move (if decide (read = write) then MCheck (i + 1) else MSweep 0 0) (set_lane (N.to_nat i) l' s)).
Proof.
  intros Hi Hm El Ew. destruct (mi_check _ _ Hi) as (_ & Hcv & _); [by rewrite Hm|]. destruct (mi_loaded _ _ Hi _ _ Hm) as (l0 & El0 & ->). simplify_eq.
  pose proof (lane_inv _ _ _ _ Hi El) as Hr. destruct (load_writes_ok k ltac:(lia) j l Hr) as (j' & Hj' & Ew' & _). rewrite Ew in Ew'. injection Ew' as -> ->.
  pose proof (Forall_lookup_1 _ _ _ _ Hcv El) as Ecv. simpl in Ecv. replace j' with (length (s_pushed l)) by lia.
  assert (Hi1 : mt_inv h0 (set_lane (N.to_nat i) (with_consumer (s_consumer l) (length (s_pushed l)) l) s)).
  { eapply set_lane_inv; [done|exact El|apply view_inv; [lia|done|lia]|done|done|simpl; lia|]. intros u rq. exact (mi_flight _ _ Hi _ _ u rq El). }
  destruct (mi_check _ _ Hi1) as (Hall1 & Hcv1 & Hem1); [by simpl; rewrite Hm|]. simpl in Hem1. rewrite Hm in Hem1. simpl in Hem1.
  case_decide as Hd; apply move_inv; try done; simpl; try (by rewrite Hm); [|apply vget_lt in El; rewrite (inv_size _ _ Hi) in El; lia|lia].
  intros _. split_and!; [done..|]. intros q lq Hq Elq. destruct (decide (q = N.to_nat i)) as [->|Hne]; [|apply (Hem1 q); [lia|done]].
  rewrite list_lookup_insert_eq in Elq by (by eapply lookup_lt_Some). injection Elq as <-. by apply (slots_empty k ltac:(lia) l Hr).
Qed.

(** One access to the lane that the sweep has reached. *)
Lemma sweep_access_inv h0 s s' i d p j l r l' : mt_inv h0 s -> mt_matcher s = MSweep i d -> (i < vsize orders)%N ->
  mt_lanes s !! p = Some l -> pop_access k j l = Some (r, l') ->
  match r with
  | None => Some (set_lane p l' s)
  | Some None => Some (move (MSweep (i + 1) d) (set_lane p l' s))
  | Some (Some rq) => h' ← handler (mt_h s) rq; Some (hand_over p rq h' (move (MSweep (i + 1) (d + 1)) (set_lane p l' s)))
  end = Some s' -> mt_inv h0 s'.
Proof.
  intros Hi Hm Hlt El Ep. pose proof (lane_inv _ _ _ _ Hi El) as Hr. pose proof (pop_access_inv k ltac:(lia) _ _ _ _ Hr Ep) as Hr'.
  destruct (pop_access_effect k ltac:(lia) _ _ _ _ Hr Ep) as (Epu & _ & Epr & _ & Hcv & He).
  assert (Hset : s_popped l' = s_popped l -> mt_inv h0 (set_lane p l' s)).
  { intros Epo. eapply set_lane_inv; try done. rewrite Epr. intros u rq. exact (mi_flight _ _ Hi _ _ u rq El). }
  destruct r as [[rq|]|].
  - destruct (handler (mt_h s) rq) as [h'|] eqn:Hh; [|done]. intros [= <-]. destruct He as [Epo _]. by eapply take_inv.
  - intros [= <-]. apply move_inv; try done; [by apply Hset|by simpl; rewrite Hm|simpl; lia].
  - intros [= <-]. by apply Hset.
Qed.

Lemma matcher_next_inv h0 s s' j : mt_inv h0 s -> matcher_next j s = Some s' -> mt_inv h0 s'.
Proof.
  intros Hi. pose proof (inv_size _ _ Hi) as Hn. pose proof (mi_index _ _ Hi) as Hx. unfold matcher_next. rewrite Hn.
  destruct (mt_matcher s) as [|i|i read|i d|] eqn:Hm; [| | | |done]; simpl in Hx.
  - destruct (load_remaining_ok h0 s j Hi) as (v & s1 & -> & Hi1 & Em & Hz & _). cbn [mbind option_bind]. intros [= <-]. rewrite Hm in Em.
    case_decide as Hd; apply move_inv; try done; try (by rewrite Em); simpl; try lia. intros _. destruct (Hz Hd). split_and!; [done..|lia].
  - destruct (mi_check _ _ Hi) as (Hall & Hcv & Hem); [by rewrite Hm|]. rewrite Hm in Hem. simpl in Hem. case_decide as Hd.
    + intros [= <-]. apply move_inv; try done; [|by rewrite Hm|simpl; lia]. intros _. split_and!; [done..|]. intros p l Hp. apply Hem. subst i. unfold vsize. simpl in Hp. lia.
    + destruct (vget (mt_lanes s) i) as [l|] eqn:El; [|done]. cbn [mbind option_bind]. rewrite (inv_reads _ _ (lane_inv _ _ _ _ Hi El)), history_last. cbn [mbind option_bind].
      intros [= <-]. apply move_inv; try done; [|by rewrite Hm]. intros i' read [= <- <-]. by exists l.
  - destruct (vget (mt_lanes s) i) as [l|] eqn:El; [|done]. cbn [mbind option_bind]. destruct (load_writes j l) as [[write l']|] eqn:Ew; [|done].
    cbn [mbind option_bind]. intros [= <-]. by eapply check_loaded_inv.
  - case_decide as Hd; [intros [= <-]; apply sweep_end_inv; [done|done|by rewrite Hn]|]. case_decide as Hlt; [|done].
    destruct (vget (mt_lanes s) _) as [l|] eqn:El; [|done]. cbn [mbind option_bind]. destruct (pop_access k j l) as [[r l']|] eqn:Ep; [|done].
    cbn [mbind option_bind]. by eapply sweep_access_inv.
Qed.

Lemma thread_next_inv h0 s s' t j : mt_inv h0 s -> thread_next t j s = Some s' -> mt_inv h0 s'.
Proof. intros Hi. destruct t as [p|]; [by apply producer_next_inv|by apply matcher_next_inv]. Qed.

Lemma mt_reachable_inv h0 s : mt_reachable h0 s -> mt_inv h0 s.
Proof.
  intros Hr. apply (rtc_ind_r (fun s => mt_inv h0 s) (init_mt h0)) with (3 := Hr); [apply init_mt_inv|].
  intros s1 s2 _ [t j E] Hi. by eapply thread_next_inv.
Qed.

(** * No thread gets stuck *)

Lemma producer_defined h0 s p j : mt_inv h0 s -> mt_finished s !! p = Some false -> is_Some (producer_next p j s).
Proof.
  intros Hi Hf. destruct (mi_count _ _ Hi) as (_ & _ & Hc). destruct (inv_lookups h0 s p Hi) as (_ & l & u & _ & _ & El & Eu & _); [apply lookup_lt_Some in Hf; lia|].
  unfold producer_next. rewrite Eu, El, Hf. cbn [mbind option_bind]. destruct u as [|rq rest].
  - pose proof (mi_seen _ _ Hi). destruct (last_is_Some (mt_remaining s)) as [_ Hl]. destruct Hl as [m ->]; [by intros E; rewrite E in *; simpl in *; lia|]. by eexists.
  - destruct (push_access_step k ltac:(lia) rq j l) as (r & l' & -> & _); [by eapply lane_inv|]. by eexists.
Qed.

Lemma sweep_lane h0 s i : mt_inv h0 s -> exists l, vget (mt_lanes s) ((mt_next_lane s + i) mod vsize orders) = Some l.
Proof.
  intros Hi. pose proof (mi_next _ _ Hi). destruct (vget_is_Some (mt_lanes s) ((mt_next_lane s + i) mod vsize orders)) as [l Hl]; [|by exists l].
  rewrite (inv_size _ _ Hi). apply N.mod_lt. lia.
Qed.

Lemma matcher_defined h0 s j : mt_inv h0 s ->
  (forall p l rq, mt_lanes s !! p = Some l -> s_pushed l !! length (s_popped l) = Some rq -> exists h', handler (mt_h s) rq = Some h') ->
  mt_matcher s <> MDone -> is_Some (matcher_next j s).
Proof.
  intros Hi Hh Hnd. pose proof (mi_index _ _ Hi) as Hx. unfold matcher_next. rewrite (inv_size _ _ Hi). destruct (mt_matcher s) as [|i|i read|i d|] eqn:Hm; [| | | |done]; simpl in Hx.
  - destruct (load_remaining_ok h0 s j Hi) as (v & s1 & -> & _). by eexists.
  - case_decide as Hd; [by eexists|]. destruct (vget_is_Some (mt_lanes s) i) as [l El]; [rewrite (inv_size _ _ Hi); lia|]. rewrite El. cbn [mbind option_bind].
    rewrite (inv_reads _ _ (lane_inv _ _ _ _ Hi El)), history_last. by eexists.
  - destruct (mi_loaded _ _ Hi _ _ Hm) as (l & El & _). rewrite El. cbn [mbind option_bind].
    destruct (load_writes_ok k ltac:(lia) j l (lane_inv _ _ _ _ Hi El)) as (j' & _ & -> & _). by eexists.
  - case_decide as Hd; [by eexists|]. rewrite decide_True by lia. destruct (sweep_lane _ _ i Hi) as [l El]. rewrite El. cbn [mbind option_bind].
    pose proof (lane_inv _ _ _ _ Hi El) as Hr. destruct (pop_access_step k ltac:(lia) j l Hr) as (r & l' & Ep & _). rewrite Ep. cbn [mbind option_bind].
    destruct r as [[rq|]|]; [|by eexists..]. destruct (pop_access_effect k ltac:(lia) _ _ _ _ Hr Ep) as (_ & _ & _ & _ & _ & _ & Hx').
    destruct (Hh _ l rq El Hx') as [h' ->]. by eexists.
Qed.
End mt.
(** * What the matching thread has handed over *)

Lemma eq_perm (l l' : list OrderRequest) : l = l' -> l ≡ₚ l'.
Proof. by intros ->. Qed.

Lemma insert_at (f : nat -> list OrderRequest) a v ps : NoDup ps -> a ∈ ps ->
  mjoin ((fun p => if decide (a = p) then v :: f p else f p) <$> ps) ≡ₚ v :: mjoin (f <$> ps).
Proof.
  induction ps as [|p ps IH]; intros Hnd Hin; [by apply not_elem_of_nil in Hin|]. apply NoDup_cons in Hnd as [Hni Hnd].
  cbn [fmap list_fmap mjoin list_join]. apply elem_of_cons in Hin as [->|Hin].
  - rewrite decide_True by done. cbn [app]. apply Permutation_skip, eq_perm.
    do 2 f_equal. apply list_fmap_ext. intros i p' Hp'. rewrite decide_False; [done|]. intros ->. apply Hni. by eapply list_elem_of_lookup_2.
  - rewrite decide_False by (by intros ->). rewrite (IH Hnd Hin). by rewrite Permutation_middle.
Qed.

Lemma handled_cons p lane rq l : handled_from p ((lane, rq) :: l) = if decide (lane = p) then rq :: handled_from p l else handled_from p l.
Proof. unfold handled_from. rewrite filter_cons. simpl. by case_decide. Qed.

Lemma handled_perm n l : Forall (fun x => x.1 < n) l -> snd <$> l ≡ₚ mjoin ((fun p => handled_from p l) <$> seq 0 n).
Proof.
  induction 1 as [|[lane rq] l Hlt _ IH].
  - cbn. induction (seq 0 n) as [|p ps IHp]; [done|]. by cbn.
  - cbn [fmap list_fmap snd]. rewrite IH. symmetry. rewrite <- (insert_at (fun p => handled_from p l) lane rq (seq 0 n));
      [|apply NoDup_seq|apply elem_of_seq; simpl in *; lia].
    apply eq_perm. f_equal. apply list_fmap_ext. intros _ p _. apply handled_cons.
Qed.

Lemma mjoin_submseteq (ls ms : list (list OrderRequest)) : Forall2 (fun l m => l `prefix_of` m) ls ms -> mjoin ls ⊆+ mjoin ms.
Proof. induction 1 as [|l m ls ms [r ->] _ IH]; [done|]. cbn [mjoin list_join]. apply submseteq_app; [by apply submseteq_inserts_r|done]. Qed.

(** Prefixes of the producers' orders, merged, are among the orders. *)
Lemma handled_submseteq (orders : list (list OrderRequest)) l : Forall (fun x => x.1 < length orders) l ->
  (forall p os, orders !! p = Some os -> handled_from p l `prefix_of` os) -> snd <$> l ⊆+ mjoin orders.
Proof.
  intros Hl Hp. rewrite (handled_perm (length orders) l Hl). apply mjoin_submseteq. apply Forall2_same_length_lookup. split; [by rewrite length_fmap, length_seq|].
  intros p a os Ha Hos. apply list_lookup_fmap_Some in Ha as (p' & -> & [-> _]%lookup_seq). by apply Hp.
Qed.

Lemma submits_submseteq rqs rqs' : rqs ⊆+ rqs' ->
  (engine_total (XSubmit <$> rqs) <= engine_total (XSubmit <$> rqs'))%Z /\ length rqs <= length rqs' /\
  (forallb engine_call_ok (XSubmit <$> rqs') = true -> forallb engine_call_ok (XSubmit <$> rqs) = true).
Proof.
  intros Hs. induction Hs as [|x l l' _ (I1 & I2 & I3)|x y l|x l l' _ (I1 & I2 & I3)|l1 l2 l3 _ (I1 & I2 & I3) _ (J1 & J2 & J3)]; cbn [fmap list_fmap engine_total forallb length].
  - done.
  - split_and!; [lia|lia|]. intros [? ?]%andb_true_iff. apply andb_true_iff. auto.
  - split_and!; [lia|lia|]. intros [? [? ?]%andb_true_iff]%andb_true_iff. rewrite !andb_true_iff. auto.
  - pose proof (engine_cost_nonneg (XSubmit x)). split_and!; [lia|lia|]. intros [_ ?]%andb_true_iff. auto.
  - split_and!; [lia|lia|auto].
Qed.

Lemma workload_submseteq cs rqs rqs' : rqs ⊆+ rqs' -> engine_workload_ok (cs ++ (XSubmit <$> rqs')) = true -> engine_workload_ok (cs ++ (XSubmit <$> rqs)) = true.
Proof.
  intros Hs. destruct (submits_submseteq _ _ Hs) as (Ht & Hl & Hok). unfold engine_workload_ok. rewrite !forallb_app, !length_app, !length_fmap, !engine_total_app.
  intros [[[H1 H2]%andb_true_iff H3%Z.leb_le]%andb_true_iff H4%N.ltb_lt]%andb_true_iff. rewrite H1, (Hok H2). simpl.
  rewrite (proj2 (Z.leb_le _ _)), (proj2 (N.ltb_lt _ _)) by lia. done.
Qed.

(** * The engine as the handler *)

Section engine.
Context {B : Type} `{BookCtorLaws B} (now_ns : nat -> Timestamp).

Definition engine_handler (h : Engine B * EngineWorld) (rq : OrderRequest) : option (Engine B * EngineWorld) :=
  '(_, e, w) ← submit_order now_ns h.1 rq h.2; Some (e, w).

Lemma handle_all_run rqs e w : handle_all engine_handler rqs (e, w) = '(_, e', w') ← engine_run now_ns e (XSubmit <$> rqs) w; Some (e', w').
Proof.
  revert e w. induction rqs as [|rq rqs IH]; intros e w; [done|]. cbn [handle_all fmap list_fmap engine_run engine_step]. change (engine_handler (e, w) rq) with ('(_, e, w) ← submit_order now_ns e rq w; Some (e, w)).
  destruct (submit_order now_ns e rq w) as [[[r e1] w1]|]; [|done]. simpl. rewrite IH.
  by destruct (engine_run now_ns e1 (XSubmit <$> rqs) w1) as [[[rs e2] w2]|].
Qed.

Section session.
Context (k : N) (k_range : (1 <= k <= 63)%N) (orders : list (list OrderRequest)) (some_producer : orders <> []).
Context (setup : list EngineCall) (rs0 : list EngineAnswer) (e0 : Engine B) (w0 : EngineWorld).
Context (budget : engine_workload_ok (setup ++ (XSubmit <$> mjoin orders)) = true).
Context (set_up : engine_run now_ns (new_engine ∅) setup eworld0 = Some (rs0, e0, w0)).

(** The matching thread reads the clock before its loop. *)
Abbreviation reached s := (mt_reachable k engine_handler orders (e0, tick w0) s).

Lemma reached_prefix s : mt_inv k engine_handler orders (e0, tick w0) s ->
  forall p os, orders !! p = Some os -> handled_from p (mt_handled s) `prefix_of` os.
Proof.
  intros Hi p os Ho. destruct (inv_lookups k engine_handler orders k_range _ s p Hi (lookup_lt_Some _ _ _ Ho)) as (os' & l & u & _ & Ho' & El & Eu & _). simplify_eq.
  destruct (mi_sent _ _ _ _ _ Hi p os l u Ho El Eu) as [-> <-]. apply prefix_app_r, (inv_fifo k). by eapply lane_inv.
Qed.

(** Any orders among the producers' run through the engine. *)
Lemma handles rqs : rqs ⊆+ mjoin orders ->
  exists es rs e' es' w' ts, spec_engine_run now_ns bk_refuses bk_band (new_engine ∅) setup eworld0 = (rs0, es, w0) /\
    handle_all engine_handler rqs (e0, tick w0) = Some (e', w') /\
    spec_engine_run now_ns bk_refuses bk_band es (XSubmit <$> rqs) (tick w0) = (rs, es', w') /\ engine_sim e' es' /\ engine_effect es (tick w0) es' w' ts.
Proof.
  intros Hsub. destruct (engine_resumes now_ns false setup (XSubmit <$> rqs) eworld0 rs0 e0 w0 (tick w0)) as (es & rs & e' & es' & w' & ts & Hs & Hr & Hs' & Hsim & Heff & _);
    [by eapply workload_submseteq|done|].
  exists es, rs, e', es', w', ts. split_and!; try done. by rewrite handle_all_run, Hr.
Qed.

(** The handler takes the next request of any lane. *)
Lemma next_handled s p l rq : mt_inv k engine_handler orders (e0, tick w0) s -> mt_lanes s !! p = Some l -> s_pushed l !! length (s_popped l) = Some rq ->
  exists h', engine_handler (mt_h s) rq = Some h'.
Proof.
  intros Hi Hl Hq. destruct (mi_count _ _ _ _ _ Hi) as (Hc & _). pose proof (lookup_lt_Some _ _ _ Hl) as Hlt. rewrite Hc in Hlt.
  destruct (inv_lookups k engine_handler orders k_range _ s p Hi Hlt) as (os & l' & u & _ & Ho & El & Eu & _). simplify_eq.
  assert (Hsub : snd <$> (mt_handled s ++ [(p, rq)]) ⊆+ mjoin orders).
  { apply handled_submseteq; [apply Forall_app; split; [apply Hi|by repeat constructor]|]. intros p' os' Ho'. rewrite handled_snoc.
    destruct (decide (p = p')) as [<-|Hne]; [|rewrite app_nil_r; by eapply reached_prefix]. simplify_eq.
    destruct (mi_sent _ _ _ _ _ Hi p os l u Ho Hl Eu) as [-> <-]. apply prefix_app_r. rewrite (pushed_held k l) in Hq |- * by (by eapply lane_inv).
    rewrite lookup_app_r, Nat.sub_diag in Hq by done. destruct (held l) as [|x q]; [done|]. injection Hq as ->. apply prefix_app, (prefix_app_r [rq] [rq]); reflexivity. }
  destruct (handles _ Hsub) as (es & rs & e' & es' & w' & ts & _ & Hh & _). rewrite fmap_app, handle_all_app, (mi_h _ _ _ _ _ Hi) in Hh. simpl in Hh.
  destruct (engine_handler (mt_h s) rq) as [h'|]; [by exists h'|done].
Qed.

(** Out of the loop, nothing is left in the lanes or with the producers. *)
Lemma done_all s : mt_inv k engine_handler orders (e0, tick w0) s -> mt_matcher s = MDone ->
  forall p os, orders !! p = Some os -> handled_from p (mt_handled s) = os.
Proof.
  intros Hi Hd p os Ho. pose proof (lookup_lt_Some _ _ _ Ho) as Hlt. destruct (mi_check _ _ _ _ _ Hi) as (Hf & _ & Hseen); [by rewrite Hd|].
  destruct (inv_lookups k engine_handler orders k_range _ s p Hi Hlt) as (os' & l & u & b & Ho' & El & Eu & Eb). simplify_eq.
  pose proof (Forall_lookup_1 _ _ _ _ Hf Eb) as ->. apply (mi_finished _ _ _ _ _ Hi) in Eb. simplify_eq. rewrite Hd in Hseen.
  destruct (mi_sent _ _ _ _ _ Hi p os l [] Ho El Eu) as [-> <-]. rewrite app_nil_r, (pushed_held k l), (Hseen p l Hlt El) by (by eapply lane_inv). by rewrite app_nil_r.
Qed.

(** What the engine holds once the matching thread is out of its loop. *)
Lemma mt_done_outcome s : reached s -> mt_matcher s = MDone ->
  (forall p os, orders !! p = Some os -> handled_from p (mt_handled s) = os) /\
  mt_processed s = vsize (mjoin orders) /\
  exists es rs es', spec_engine_run now_ns bk_refuses bk_band (new_engine ∅) setup eworld0 = (rs0, es, w0) /\
    spec_engine_run now_ns bk_refuses bk_band es (XSubmit <$> (snd <$> mt_handled s)) (tick w0) = (rs, es', (mt_h s).2) /\
    forall symbol, option_Forall2 (fun b sb => shows b (sb_book sb)) (books_ (mt_h s).1 !! symbol) (books_ es' !! symbol).
Proof.
  intros Hs Hd. pose proof (mt_reachable_inv k engine_handler orders k_range some_producer _ s Hs) as Hi. pose proof (done_all s Hi Hd) as Hall. split; [done|].
  assert (Hperm : snd <$> mt_handled s ≡ₚ mjoin orders).
  { rewrite (handled_perm (length orders)) by apply Hi. apply eq_perm. f_equal. apply list_eq. intros p. rewrite list_lookup_fmap.
    destruct (decide (p < length orders)) as [Hp|Hp]; [rewrite lookup_seq_lt by done|rewrite lookup_seq_ge, lookup_ge_None_2 by lia; done].
    destruct (lookup_lt_is_Some_2 orders p Hp) as [os Ho]. simpl. by rewrite Ho, (Hall p os Ho). }
  split.
  - destruct (mi_processed _ _ _ _ _ Hi) as [_ Hp]. rewrite Hd in Hp. simpl in Hp. rewrite N.sub_0_r in Hp. rewrite Hp.
    apply Permutation_length in Hperm. rewrite length_fmap in Hperm. rewrite Hperm. apply wrap64_small.
    pose proof budget as [_ Hb%N.ltb_lt]%andb_true_iff. rewrite length_app, length_fmap in Hb.
    unfold kNullIndex, two64, vsize in *. lia.
  - destruct (handles (snd <$> mt_handled s)) as (es & rs & e' & es' & w' & ts & H3 & H4 & H5 & Hsim & _); [by rewrite Hperm|].
    rewrite (mi_h _ _ _ _ _ Hi) in H4. injection H4 as ->. exists es, rs, es'. split_and!; [done|done|]. intros symbol.
    destruct Hsim as [Hb _ _ _]. specialize (Hb symbol). simpl. inversion Hb as [b sb (Hrep & _)|]; constructor. by apply rep_shows.
Qed.

(** C7. The multi-threaded demo loses, repeats and reorders nothing: in every
    interleaving of the threads' memory accesses, and whatever older values
    their loads return, no thread gets stuck (the ring's accesses and the
    engine's call are always defined); and when the matching thread leaves its
    loop, every producer's orders have been handed to the engine, each exactly
    once and in the producer's order, the count printed is their number, and
    the engine's books are those of the specification run on the orders in the
    order of arrival. *)
Theorem mt_demo_correct s : reached s ->
  (forall p j, mt_finished s !! p = Some false -> is_Some (producer_next k p j s)) /\
  (forall j, mt_matcher s <> MDone -> is_Some (matcher_next k engine_handler j s)) /\
  (mt_matcher s = MDone ->
    (forall p os, orders !! p = Some os -> handled_from p (mt_handled s) = os) /\
    mt_processed s = vsize (mjoin orders) /\
    exists es rs es', spec_engine_run now_ns bk_refuses bk_band (new_engine ∅) setup eworld0 = (rs0, es, w0) /\
      spec_engine_run now_ns bk_refuses bk_band es (XSubmit <$> (snd <$> mt_handled s)) (tick w0) = (rs, es', (mt_h s).2) /\
      forall symbol, option_Forall2 (fun b sb => shows b (sb_book sb)) (books_ (mt_h s).1 !! symbol) (books_ es' !! symbol)).
Proof.
  intros Hs. pose proof (mt_reachable_inv k engine_handler orders k_range some_producer _ s Hs) as Hi. split; [|split; [|by apply mt_done_outcome]].
  - intros p j. by eapply producer_defined.
  - intros j. apply (matcher_defined k engine_handler orders k_range (e0, tick w0)); [done|]. intros p l rq. by apply next_handled.
Qed.
End session.
End engine.

(** * The program's parameters *)

Definition kProducers : nat := 4.
Definition kOrdersPerProducer : nat := Z.to_nat 250000.

(** The [i]-th order of a producer whose generator gives [offset] and [qty]. *)
Definition mt_request (i : nat) (offset qty : Z) : OrderRequest :=
  mkRequest kInvalidOrderId 1 kNoParticipant (if Nat.even i then Buy else Sell) Limit (10000 + offset) qty GTC.

(** The orders of all producers, for the values that [price_offset] and [qty_dist] give. *)
Definition mt_orders (producers per_producer : nat) (price_offset qty_dist : nat -> nat -> Z) : list (list OrderRequest) :=
  (fun p => (fun i => mt_request i (price_offset p i) (qty_dist p i)) <$> seq 0 per_producer) <$> seq 0 producers.

Definition mt_setup : list EngineCall := [XSymbol 1 1 200000 4096 STPNone].

Lemma mt_orders_length producers per f g : length (mjoin (mt_orders producers per f g)) = producers * per.
Proof.
  unfold mt_orders. replace (producers * per) with (length (seq 0 producers) * per) by by rewrite length_seq.
  induction (seq 0 producers) as [|p ps IH]; [done|]. cbn [fmap list_fmap mjoin list_join length] in *.
  rewrite length_app, length_fmap, length_seq. simpl. f_equal. exact IH.
Qed.

Lemma mt_orders_cost producers per f g : (forall p i, (1 <= g p i <= 50)%Z) ->
  (engine_total (XSubmit <$> mjoin (mt_orders producers per f g)) <= 50 * Z.of_nat (producers * per))%Z /\
  forallb engine_call_ok (XSubmit <$> mjoin (mt_orders producers per f g)) = true.
Proof.
  intros Hg. rewrite <- (mt_orders_length producers per f g).
  assert (Hall : Forall (fun rq => (Z.abs (rq_quantity rq) <= 50)%Z /\ engine_call_ok (XSubmit rq) = true) (mjoin (mt_orders producers per f g))).
  { apply Forall_join, Forall_fmap, Forall_true. intros p. apply Forall_fmap, Forall_true. intros i. pose proof (Hg p i). split; [simpl; lia|done]. }
  induction Hall as [|rq rqs [Hq Hok] _ [IH1 IH2]]; [done|]. cbn [fmap list_fmap engine_total forallb length]. split; [simpl engine_cost; lia|]. by rewrite Hok, IH2.
Qed.

(** The million orders of the demo fit the engine's budget, for any values of
    the generators within their ranges. *)
Lemma mt_demo_budget f g : (forall p i, (1 <= g p i <= 50)%Z) ->
  engine_workload_ok (mt_setup ++ (XSubmit <$> mjoin (mt_orders kProducers kOrdersPerProducer f g))) = true.
Proof.
  intros Hg. destruct (mt_orders_cost kProducers kOrdersPerProducer f g Hg) as [Ht Hok]. pose proof (mt_orders_length kProducers kOrdersPerProducer f g) as Hl.
  unfold engine_workload_ok. rewrite forallb_app, engine_total_app, length_app, length_fmap, Hok, Hl.
  assert (Hn : Z.of_nat (kProducers * kOrdersPerProducer) = 1000000%Z) by (unfold kProducers, kOrdersPerProducer; lia).
  rewrite Hn in Ht. clear Hl Hok. revert Hn Ht. generalize (engine_total (XSubmit <$> mjoin (mt_orders kProducers kOrdersPerProducer f g))) as t.
  generalize (kProducers * kOrdersPerProducer) as m. intros m t Hn Ht. change (engine_total mt_setup) with 0%Z. change (length mt_setup) with 1.
  rewrite (proj2 (Z.leb_le _ _)), (proj2 (N.ltb_lt _ _)) by (unfold kNullIndex, int64_max; lia). done.
Qed.

(** * A concrete run *)

(** Two producers with lanes of one request.  The matching thread's first sweep
    does not see the order that is there; the first producer then takes its
    lane for full after it has been emptied; and the matching thread does not
    see its second order until it has read a zero from the counter. *)
Definition two_producers : list (list OrderRequest) := [[sell 0 101 5 0; buy 0 99 2 0]; [buy 0 101 3 0]].
Definition small_setup : list EngineCall := [XSymbol 1 95 105 16 STPNone].

Definition a_schedule : list (option nat * nat) :=
  replicate 6 (Some 0, 0) ++ replicate 6 (None, 0) ++ replicate 5 (Some 1, 0) ++ [(None, 0)] ++ replicate 9 (None, 1) ++
  replicate 2 (Some 0, 0) ++ replicate 5 (Some 0, 1) ++ [(None, 1)] ++ replicate 5 (None, 0) ++ [(None, 2)] ++ replicate 15 (None, 0).

Lemma mt_demo_correct_witness :
  exists rs0 (e0 : Engine Arr.OrderBookArray) w0 s,
    engine_workload_ok (small_setup ++ (XSubmit <$> mjoin two_producers)) = true /\
    engine_run ticks (new_engine ∅) small_setup eworld0 = Some (rs0, e0, w0) /\
    mt_reachable 1 (engine_handler ticks) two_producers (e0, tick w0) s /\ mt_matcher s = MDone /\
    (forall p j, mt_finished s !! p = Some false -> is_Some (producer_next 1 p j s)) /\
    (forall j, mt_matcher s <> MDone -> is_Some (matcher_next 1 (engine_handler ticks) j s)) /\
    (mt_matcher s = MDone ->
      (forall p os, two_producers !! p = Some os -> handled_from p (mt_handled s) = os) /\
      mt_processed s = vsize (mjoin two_producers) /\
      exists es rs es', spec_engine_run ticks bk_refuses bk_band (new_engine ∅) small_setup eworld0 = (rs0, es, w0) /\
        spec_engine_run ticks bk_refuses bk_band es (XSubmit <$> (snd <$> mt_handled s)) (tick w0) = (rs, es', (mt_h s).2) /\
        forall symbol, option_Forall2 (fun b sb => shows b (sb_book sb)) (books_ (mt_h s).1 !! symbol) (books_ es' !! symbol)).
Proof.
  destruct (engine_run ticks (new_engine ∅ : Engine Arr.OrderBookArray) small_setup eworld0) as [[[rs0 e0] w0]|] eqn:Hrun;
    [|vm_compute in Hrun; discriminate].
  destruct (run_schedule 1 (engine_handler ticks) a_schedule (init_mt 1 two_producers (e0, tick w0))) as [s|] eqn:Hs.
  - exists rs0, e0, w0, s. split; [vm_compute; reflexivity|]. split; [reflexivity|].
    assert (Hr : mt_reachable 1 (engine_handler ticks) two_producers (e0, tick w0) s) by (eapply schedule_reaches; [apply rtc_refl|exact Hs]).
    split; [exact Hr|]. split.
    + vm_compute in Hrun. injection Hrun as _ <- <-. vm_compute in Hs. injection Hs as <-. reflexivity.
    + refine (mt_demo_correct ticks 1 _ two_producers _ small_setup rs0 e0 w0 _ Hrun s Hr); [lia|discriminate|vm_compute; reflexivity].
  - exfalso. vm_compute in Hrun. injection Hrun as _ <- <-. vm_compute in Hs. discriminate.
Defined.
