(* ===== verification/MtFair.v ===== *)
(** src/main.cpp, the [mt-demo] mode: the threads of MtDemo.v come to an end.

    A producer whose lane is full yields and tries again, and the matching
    thread polls as long as a producer is left, so both may run for ever if the
    other one never does.  They do not under two assumptions, one on the
    scheduler, that every thread runs again and again, and one on the memory,
    that every store becomes visible to all loads after a finite time (what the
    C++ standard asks of an implementation).  From the moment at which all
    stores that the program can make are visible, loads return the latest
    values, and the rank below goes down: it counts what is left to send, to
    hand over and to finish, then a producer's way through its [submit] or the
    matching thread's way to the next lane that holds something. *)

From S2P Require Import Prelude Types OrderPool LockfreeQueue LockfreeAccess OrderGateway.
From S2P Require Import BookCore BookSpec BookSpecFacts BookTrades BookInterface.
From S2P Require Import OrderBookVector VectorRefinement OrderBookMap MapRefinement OrderBookArray ArrayRefinement.
From S2P Require Import Books RiskManager MatchingEngine EngineFacts EngineTheorems ReplayRun Fairness MtDemo.

Section rank.
Context (k : N) {H : Type} (handler : H -> OrderRequest -> option H) (orders : list (list OrderRequest)).
Context (k_range : (1 <= k <= 63)%N) (some_producer : orders <> []) (h0 : H).
Context (next_defined : forall s p l rq, mt_inv k handler orders h0 s -> mt_lanes s !! p = Some l -> s_pushed l !! length (s_popped l) = Some rq ->
  exists h', handler (mt_h s) rq = Some h').

Abbreviation n := (length orders).
Abbreviation Inv := (mt_inv k handler orders h0).

(** [Some p] is producer [p], [None] the matching thread; the number is the
    position of the load.  A thread that has ended does nothing in its turn. *)
Definition mt_turn (x : option nat * nat) (s : Mt H) : Mt H := default s (thread_next k handler x.1 x.2 s).

Definition mt_thread (t : option nat) : Prop := match t with Some p => p < n | None => True end.

(** A position after all that is ever stored. *)
Definition late : nat := length (mjoin orders) + n.

Definition late_turn (t : option nat) (s : Mt H) : Mt H := mt_turn (t, late) s.

(** ** The rank *)

(** What the rank looks at in a lane, the consumer apart. *)
Definition lane_key (l : State OrderRequest) : Producer OrderRequest * nat := (s_producer l, length (held l)).

(** The number of requests in lane [p]. *)
Definition queued (s : Mt H) (p : nat) : nat := default 0 (snd <$> (lane_key <$> mt_lanes s) !! p).

Definition producer_at (s : Mt H) (p : nat) : Producer OrderRequest := default PIdle (fst <$> (lane_key <$> mt_lanes s) !! p).

(** Producer [p] can send or finish. *)
Definition ready (s : Mt H) (p : nat) : Prop :=
  match mt_unsent s !! p with
  | Some [] => mt_finished s !! p = Some false
  | Some (_ :: _) => match producer_at s p with PRoom _ _ _ | PWritten _ _ => True | _ => (N.of_nat (queued s p) < capacity k)%N end
  | None => False
  end.

#[local] Instance ready_dec s p : Decision (ready s p).
Proof. unfold ready. destruct (mt_unsent s !! p) as [[|? ?]|]; [apply _| |apply _]. destruct (producer_at s p); apply _. Defined.

Definition helpful (s : Mt H) : option nat := head (filter (ready s) (seq 0 n)).

Definition work (s : Mt H) : nat :=
  length (mjoin (mt_unsent s)) + (length (mjoin orders) - length (mt_handled s)) + length (filter (fun b => b = false) (mt_finished s)).

(** The accesses up to the next order sent. *)
Definition producer_rank (s : Mt H) (p : nat) : nat := push_todo (producer_at s p).

(** The lane of the sweep's [i]-th turn, and the accesses of its [try_pop]. *)
Definition lane_of (s : Mt H) (i : nat) : nat := N.to_nat ((mt_next_lane s + N.of_nat i) mod vsize orders).

Definition popping (s : Mt H) (i : nat) : nat := if mt_lanes s !! lane_of s i is Some l then pop_todo (s_consumer l) else 0.

(** A lane still to come in the sweep holds something. *)
Definition ahead (s : Mt H) (i : nat) : Prop := Exists (fun j => 0 < queued s (lane_of s j)) (seq i (n - i)).

#[local] Instance ahead_dec s i : Decision (ahead s i).
Proof. unfold ahead. apply _. Defined.

(** The sweep finds nothing more, and another round has to begin. *)
Definition detour (s : Mt H) (i : nat) : nat := if decide (ahead s i) then 0 else 6 * n + 8.

Lemma detour_ext s s' i i' : (ahead s' i' <-> ahead s i) -> detour s' i' = detour s i.
Proof. intros Ha. by apply decide_ext. Qed.

Lemma popping_bound s i : popping s i <= 4.
Proof. unfold popping. destruct (mt_lanes s !! _) as [l|]; [|lia]. destruct (s_consumer l); simpl; lia. Qed.

(** A sweep's rank against a bound. *)
Ltac popping_lia := match goal with |- popping ?s ?i + _ + _ < _ => pose proof (popping_bound s i) end; lia.

Definition matcher_rank (s : Mt H) : nat :=
  match mt_matcher s with
  | MDone => 0
  | MCheck i => 2 * (n - N.to_nat i) + 4 * n + 6
  | MCheckLoaded i _ => 2 * (n - N.to_nat i) + 4 * n + 5
  | MTest => 6 * n + 7
  | MSweep i _ => popping s (N.to_nat i) + 4 * (n - N.to_nat i) + detour s (N.to_nat i)
  end.

Definition mt_rank (s : Mt H) : nat :=
  work s * (10 * n + 20) + match helpful s with Some p => producer_rank s p | None => matcher_rank s end.

Lemma work_rank s s' : work s' < work s -> mt_rank s' < mt_rank s.
Proof.
  intros Hw. assert (Hm : matcher_rank s' < 10 * n + 20) by (unfold matcher_rank, detour; destruct (mt_matcher s') as [| | |i d|]; try pose proof (popping_bound s' (N.to_nat i)); try case_decide; lia).
  assert (Hp : forall p, producer_rank s' p < 10 * n + 20) by (intros p; unfold producer_rank; destruct (producer_at s' p); simpl; lia).
  unfold mt_rank. destruct (helpful s') as [p|]; [specialize (Hp p)|]; destruct (helpful s); nia.
Qed.

(** ** What the rank depends on *)

Lemma lane_queued s p l : mt_lanes s !! p = Some l -> queued s p = length (held l) /\ producer_at s p = s_producer l.
Proof. intros Hl. unfold queued, producer_at. by rewrite list_lookup_fmap, Hl. Qed.

(** Nothing that the producers look at has changed. *)
Definition same_counts (s s' : Mt H) : Prop :=
  mt_unsent s' = mt_unsent s /\ mt_finished s' = mt_finished s /\ mt_handled s' = mt_handled s /\ lane_key <$> mt_lanes s' = lane_key <$> mt_lanes s.

Lemma same_work s s' : mt_unsent s' = mt_unsent s -> mt_finished s' = mt_finished s -> mt_handled s' = mt_handled s -> work s' = work s.
Proof. intros E1 E2 E3. unfold work. by rewrite E1, E2, E3. Qed.

Lemma helpful_ext s s' : (forall p, ready s' p <-> ready s p) -> helpful s' = helpful s.
Proof. intros Hr. unfold helpful. f_equal. by apply list_filter_iff. Qed.

Lemma same_helpful s s' : same_counts s s' -> helpful s' = helpful s /\ work s' = work s /\ forall p, producer_rank s' p = producer_rank s p.
Proof.
  intros (E1 & E2 & E3 & E4). split_and!; [|by apply same_work|].
  - apply helpful_ext. intros p. unfold ready, producer_at, queued. by rewrite E1, E2, E4.
  - intros p. unfold producer_rank, producer_at. by rewrite E4.
Qed.

(** A producer's access to its own lane. *)
Lemma set_lane_others s p l l' : mt_lanes s !! p = Some l -> s_pushed l' = s_pushed l -> s_popped l' = s_popped l -> s_consumer l' = s_consumer l ->
  (forall q, q <> p -> ready (set_lane p l' s) q <-> ready s q) /\ (forall q, q <> p -> producer_rank (set_lane p l' s) q = producer_rank s q) /\
  work (set_lane p l' s) = work s /\ matcher_rank (set_lane p l' s) = matcher_rank s.
Proof.
  intros Hl Epu Epo Ec. set (s' := set_lane p l' s). assert (Hp : p < length (mt_lanes s)) by (by eapply lookup_lt_Some).
  assert (Hq : forall q, queued s' q = queued s q).
  { intros q. unfold queued, s'. simpl. rewrite !list_lookup_fmap. destruct (decide (p = q)) as [<-|Hne]; [|by rewrite list_lookup_insert_ne].
    rewrite list_lookup_insert_eq, Hl by done. simpl. unfold held. by rewrite Epu, Epo. }
  assert (Hpa : forall q, q <> p -> producer_at s' q = producer_at s q).
  { intros q Hne. unfold producer_at, s'. simpl. by rewrite !list_lookup_fmap, list_lookup_insert_ne. }
  split_and!.
  - intros q Hne. unfold ready. rewrite (Hpa q Hne), (Hq q). done.
  - intros q Hne. unfold producer_rank. by rewrite (Hpa q Hne).
  - by apply same_work.
  - unfold matcher_rank. change (mt_matcher s') with (mt_matcher s). destruct (mt_matcher s) as [| | |i d|]; try done. f_equal; [f_equal|].
    + unfold popping, s'. simpl. unfold lane_of. simpl. set (q := N.to_nat _). destruct (decide (p = q)) as [<-|Hne]; [|by rewrite list_lookup_insert_ne].
      rewrite list_lookup_insert_eq, Hl by done. simpl. by rewrite Ec.
    + apply detour_ext. unfold ahead. rewrite !Exists_exists. by setoid_rewrite Hq.
Qed.

(** ** The turns *)

Lemma turn_inv x s : Inv s -> Inv (mt_turn x s).
Proof.
  intros Hi. unfold mt_turn. destruct (thread_next k handler x.1 x.2 s) as [s'|] eqn:E; [|done]. by eapply thread_next_inv.
Qed.

Lemma join_bound {A} (ls : list (list A)) p l : ls !! p = Some l -> length l <= length (mjoin ls).
Proof.
  revert p. induction ls as [|m ls IH]; intros [|p]; simpl; [done..| |]; cbn [mjoin list_join]; rewrite length_app.
  - intros [= ->]. lia.
  - intros Hp%IH. lia.
Qed.

(** Nothing is ever stored after [late]. *)
Lemma lane_late s p l : Inv s -> mt_lanes s !! p = Some l ->
  length (s_pushed l) <= late /\ length (s_popped l) <= late /\ length (s_writes l) <= S late /\ length (s_reads l) <= S late.
Proof.
  intros Hi Hl. destruct (mi_count _ _ _ _ _ Hi) as [Hc _]. pose proof (lookup_lt_Some _ _ _ Hl) as Hp. rewrite Hc in Hp.
  destruct (inv_lookups k handler orders k_range _ s p Hi Hp) as (os & l' & u & _ & Ho & El & Eu & _). simplify_eq.
  destruct (mi_sent _ _ _ _ _ Hi p os l u Ho Hl Eu) as [-> _]. apply join_bound in Ho. rewrite length_app in Ho.
  pose proof (lane_inv _ _ _ _ _ _ _ Hi Hl) as Hr. rewrite (inv_writes _ _ Hr), (inv_reads _ _ Hr), !history_length by lia.
  pose proof (inv_cview _ _ Hr). unfold late. lia.
Qed.

Lemma remaining_late s : Inv s -> length (mt_remaining s) <= S late.
Proof. intros Hi. pose proof (mi_remaining _ _ _ _ _ Hi). unfold late. lia. Qed.

(** So from [late] on all positions are the same. *)
Lemma late_same t j s : Inv s -> late <= j -> mt_turn (t, j) s = late_turn t s.
Proof.
  intros Hi Hj. unfold late_turn, mt_turn. f_equal. destruct t as [p|]; simpl.
  - unfold producer_next. destruct (mt_unsent s !! p) as [[|rq rest]|]; try done. destruct (mt_lanes s !! p) as [l|] eqn:Hl; [|done]. cbn [mbind option_bind].
    destruct (lane_late s p l Hi Hl) as (_ & _ & _ & Hr). rewrite (push_access_late k rq j late) by lia. done.
  - unfold matcher_next. pose proof (remaining_late s Hi). destruct (mt_matcher s) as [|i|i read|i d|]; try done.
    + unfold load_remaining. by rewrite !load_at_last by lia.
    + destruct (vget (mt_lanes s) i) as [l|] eqn:Hl; [|done]. cbn [mbind option_bind]. destruct (lane_late s _ l Hi Hl) as (_ & _ & Hw & _).
      by rewrite (load_writes_late j late) by lia.
    + repeat case_decide; try done. set (lane := (_ mod _)%N). destruct (vget (mt_lanes s) lane) as [l|] eqn:Hl; [|done]. cbn [mbind option_bind].
      destruct (lane_late s _ l Hi Hl) as (_ & _ & Hw & _). by rewrite (pop_access_late k j late) by lia.
Qed.

Lemma join_insert_length {A} (ls : list (list A)) p x l : ls !! p = Some (x :: l) -> length (mjoin (<[p := l]> ls)) < length (mjoin ls).
Proof.
  revert p. induction ls as [|m ls IH]; intros [|p]; simpl; [done..| |].
  - intros [= ->]. cbn [mjoin list_join]. rewrite !length_app. simpl. lia.
  - intros Hp. cbn [mjoin list_join]. rewrite !length_app. specialize (IH p Hp). lia.
Qed.

Lemma handled_le s : Inv s -> length (mt_handled s) <= length (mjoin orders).
Proof.
  intros Hi. rewrite <- (length_fmap snd (mt_handled s)). apply submseteq_length, handled_submseteq; [apply Hi|]. intros p os Ho.
  destruct (inv_lookups k handler orders k_range _ s p Hi (lookup_lt_Some _ _ _ Ho)) as (os' & l & u & _ & Ho' & El & Eu & _). simplify_eq.
  destruct (mi_sent _ _ _ _ _ Hi p os l u Ho El Eu) as [-> <-]. apply prefix_app_r, (inv_fifo k). by eapply lane_inv.
Qed.

(** A producer's turn gets work done; or it changes nothing; or it is one
    access to its lane, by which the producer comes nearer to its end if it is
    ready and stays blocked if it is not. *)
Lemma producer_turn s p : Inv s ->
  work (late_turn (Some p) s) < work s \/ (late_turn (Some p) s = s /\ ~ ready s p) \/
  exists l l', mt_lanes s !! p = Some l /\ late_turn (Some p) s = set_lane p l' s /\ s_pushed l' = s_pushed l /\ s_popped l' = s_popped l /\ s_consumer l' = s_consumer l /\
    (ready (set_lane p l' s) p <-> ready s p) /\ (ready s p -> producer_rank (set_lane p l' s) p < producer_rank s p).
Proof.
  intros Hi. unfold late_turn, mt_turn. simpl. unfold producer_next. destruct (mt_unsent s !! p) as [[|rq rest]|] eqn:Hu; [| |right; left; unfold ready; rewrite Hu; split; [done|by intros []]].
  - destruct (mt_finished s !! p) as [[]|] eqn:Hf; [right; left; unfold ready; rewrite Hu, Hf; split; [done|congruence]| |right; left; unfold ready; rewrite Hu, Hf; split; [done|congruence]].
    left. destruct (producer_defined k handler orders k_range h0 s p late Hi Hf) as [s' E]. unfold producer_next in E. rewrite Hu, Hf in E.
    destruct (mt_lanes s !! p) as [l|]; [|done]. cbn [mbind option_bind] in *. destruct (last (mt_remaining s)) as [m|]; [|done]. cbn [mbind option_bind] in *.
    unfold work. simpl. pose proof (count_finish k k_range _ _ Hf). lia.
  - destruct (mi_count _ _ _ _ _ Hi) as (_ & Hc & _). destruct (inv_lookups k handler orders k_range _ s p Hi) as (_ & l & _ & _ & _ & Hl & _ & _); [apply lookup_lt_Some in Hu; lia|].
    rewrite Hl. cbn [mbind option_bind]. pose proof (lane_inv _ _ _ _ _ _ _ Hi Hl) as Hr. destruct (push_access_step k ltac:(lia) rq late l Hr) as (r & l' & Ep & _).
    pose proof (push_access_effect k _ _ _ _ _ Ep) as (Epo & _ & Ec & _ & He). rewrite Ep. cbn [mbind option_bind default].
    destruct (lane_queued s p l Hl) as [Eq Epr]. destruct (lane_queued (set_lane p l' s) p l') as [Eq' Epr']; [simpl; apply list_lookup_insert_eq; by eapply lookup_lt_Some|].
    destruct (decide (r = Some true)) as [->|Hnt]; [left; unfold work; simpl; pose proof (join_insert_length _ _ _ _ Hu); lia|]. right. right.
    assert (Epu : s_pushed l' = s_pushed l) by (destruct r as [[]|]; [done| |]; [by destruct He as (_ & ? & _ & ?)|by destruct He]).
    exists l, l'. split; [done|]. split; [by destruct r as [[]|]|]. split_and!; try done.
    all: unfold ready, producer_rank; simpl; rewrite Hu, Epr, Epr', Eq, ?Eq'; unfold held in *; rewrite ?Epu, ?Epo.
    all: pose proof (lane_late s p l Hi Hl) as (_ & Hpo & _); destruct (s_producer l) as [|it w nx|it w nx|it nx] eqn:HP.
    all: try (rewrite (push_latest k ltac:(lia) rq late l it w nx Hr HP Hpo) in Ep; unfold held in Ep; case_decide; injection Ep as <- <-; simpl; done || lia || (split; intros; done || lia)).
    all: unfold push_access in Ep; rewrite HP in Ep; repeat (match type of Ep with context [mbind _ ?x] => destruct x eqn:?; [|done] end; cbn [mbind option_bind] in Ep);
      injection Ep as <- <-; simpl; done || lia.
Qed.

Lemma helpful_ready s p : helpful s = Some p -> ready s p /\ p < n.
Proof. intros Hh%head_Some_elem_of%list_elem_of_filter. destruct Hh as [Hr Hp%elem_of_seq]. split; [done|lia]. Qed.

Lemma helpful_none s p : helpful s = None -> p < n -> ~ ready s p.
Proof.
  unfold helpful. intros Hh Hp Hr. apply (not_elem_of_nil p). apply head_None in Hh. rewrite <- Hh. apply list_elem_of_filter. split; [done|]. apply elem_of_seq. lia.
Qed.

(** With no producer ready, one that is left has a full lane. *)
Lemma blocked_lane s : Inv s -> helpful s = None -> 0 < length (filter (fun b => b = false) (mt_finished s)) -> exists p, p < n /\ 0 < queued s p.
Proof.
  intros Hi Hh Hr. destruct (filter (fun b => b = false) (mt_finished s)) as [|b bs] eqn:E; [simpl in Hr; lia|]. destruct (mi_count _ _ _ _ _ Hi) as (_ & _ & Hc).
  assert (Hb : b ∈ filter (fun b => b = false) (mt_finished s)) by (rewrite E; left). apply list_elem_of_filter in Hb as [-> [p Hp]%list_elem_of_lookup].
  assert (Hlt : p < n) by (apply lookup_lt_Some in Hp; lia). exists p. split; [done|]. destruct (inv_lookups k handler orders k_range _ s p Hi Hlt) as (_ & l & u & _ & _ & _ & Eu & _).
  pose proof (helpful_none s p Hh Hlt) as Hnr. unfold ready in Hnr. rewrite Eu in Hnr. destruct u as [|rq u]; [done|].
  assert (2 <= ring_capacity k)%N by (unfold ring_capacity; apply (N.pow_le_mono_r 2 1); lia). unfold capacity in Hnr.
  destruct (producer_at s p); (by destruct Hnr) || lia.
Qed.

(** A sweep that starts visits every lane. *)
Lemma all_ahead s p : p < n -> 0 < queued s p -> ahead s 0.
Proof.
  intros Hp Hq. unfold ahead, lane_of. apply Exists_exists. set (nx := (mt_next_lane s mod vsize orders)%N).
  assert (Hn : (vsize orders <> 0)%N) by (unfold vsize; lia). pose proof (N.mod_lt (mt_next_lane s) (vsize orders) Hn) as Hnx. fold nx in Hnx.
  exists (N.to_nat ((N.of_nat p + (vsize orders - nx)) mod vsize orders)). split.
  { apply elem_of_seq. pose proof (N.mod_lt (N.of_nat p + (vsize orders - nx)) (vsize orders) Hn) as Hm.
    revert Hm. generalize ((N.of_nat p + (vsize orders - nx)) mod vsize orders)%N. intros m Hm. clearbody nx. unfold vsize in Hm. lia. }
  rewrite N2Nat.id, N.Div0.add_mod_idemp_r, <- N.Div0.add_mod_idemp_l. fold nx.
  replace (nx + (N.of_nat p + (vsize orders - nx)))%N with (N.of_nat p + 1 * vsize orders)%N by lia.
  rewrite N.Div0.mod_add, N.mod_small by (unfold vsize; lia). by rewrite Nat2N.id.
Qed.

Lemma ahead_step s i : i < n -> queued s (lane_of s i) = 0 -> ahead s (S i) <-> ahead s i.
Proof.
  intros Hi Hq. unfold ahead. replace (n - i) with (S (n - S i)) by lia. cbn [seq]. rewrite Exists_cons. split; [by right|]. intros [Hx|Hx]; [lia|done].
Qed.

Lemma not_ahead_end s i : n <= i -> ~ ahead s i.
Proof. intros Hi. unfold ahead. replace (n - i) with 0 by lia. intros Hx. inversion Hx. Qed.

Lemma same_ahead s s' i : lane_key <$> mt_lanes s' = lane_key <$> mt_lanes s -> mt_next_lane s' = mt_next_lane s -> ahead s' i <-> ahead s i.
Proof. intros Hs En. unfold ahead, queued, lane_of. by rewrite En, Hs. Qed.

(** The consumer's accesses that pop nothing leave the key alone. *)
Lemma set_lane_key (lanes : list (State OrderRequest)) p l l' : lanes !! p = Some l -> s_pushed l' = s_pushed l -> s_popped l' = s_popped l -> s_producer l' = s_producer l ->
  lane_key <$> <[p := l']> lanes = lane_key <$> lanes.
Proof.
  intros Hl E1 E2 E3. rewrite list_fmap_insert. apply list_insert_id. rewrite list_lookup_fmap, Hl. simpl. unfold lane_key, held. by rewrite E1, E2, E3.
Qed.

(** The matching thread's turn gets work done; or it changes nothing that the
    producers look at, and then brings the thread closer to the next lane that
    holds something unless a producer is ready. *)
Definition moves_on (s s' : Mt H) : Prop := same_counts s s' /\ (helpful s = None -> matcher_rank s' < matcher_rank s).

Lemma test_turn s : Inv s -> mt_matcher s = MTest -> moves_on s (late_turn None s).
Proof.
  intros Hi Hm. unfold late_turn, mt_turn. simpl. unfold matcher_next. rewrite Hm.
  destruct (load_remaining_ok k handler orders k_range h0 s late Hi) as (v & s1 & E & Hi1 & _ & _ & Hv). specialize (Hv (remaining_late s Hi)). rewrite E. cbn [mbind option_bind default].
  assert (Hs : same_counts s s1 /\ mt_next_lane s1 = mt_next_lane s).
  { unfold load_remaining in E. destruct (mt_remaining s !! _) as [m|] eqn:Hmm; [|done]. injection E as _ <-. split; [|done]. split_and!; try done. simpl.
    destruct (mi_messages _ _ _ _ _ Hi _ _ Hmm) as [_ Hw _]. revert Hw. generalize (msg_view m) (mt_lanes s). clear. induction 1 as [|v l vs ls _ _ IH]; [done|]. simpl. f_equal. exact IH. }
  destruct Hs as [Hs Hnx]. split; [exact Hs|]. intros Hh. destruct (same_helpful _ _ Hs) as [Eh _]. destruct Hs as (_ & Ef & _). unfold matcher_rank. rewrite Hm. simpl.
  case_decide as Hd; [|lia]. destruct (blocked_lane s1 Hi1) as (p & Hp & Hq); [congruence|rewrite Ef; lia|].
  unfold detour. rewrite decide_True by (by apply (all_ahead _ p)). popping_lia.
Qed.

Lemma check_turn s : Inv s -> (exists i, mt_matcher s = MCheck i) \/ (exists i read, mt_matcher s = MCheckLoaded i read) -> moves_on s (late_turn None s).
Proof.
  intros Hi Hm. pose proof (inv_size k handler orders k_range _ _ Hi) as En. pose proof (mi_index _ _ _ _ _ Hi) as Hx. unfold late_turn, mt_turn. simpl. unfold matcher_next. rewrite En.
  destruct Hm as [(i & Hm)|(i & read & Hm)]; rewrite Hm in *; simpl in Hx.
  - case_decide as Hd; [split; [done|]; intros _; unfold matcher_rank; rewrite Hm; simpl; lia|].
    destruct (vget_is_Some (mt_lanes s) i) as [l El]; [rewrite En; lia|]. rewrite El. cbn [mbind option_bind].
    rewrite (inv_reads _ _ (lane_inv _ _ _ _ _ _ _ Hi El)), history_last. simpl. split; [done|]. intros _. unfold matcher_rank. rewrite Hm. simpl. lia.
  - destruct (mi_loaded _ _ _ _ _ Hi _ _ Hm) as (l & El & ->). rewrite El. cbn [mbind option_bind]. pose proof (lane_inv _ _ _ _ _ _ _ Hi El) as Hr. pose proof (vget_lt _ _ _ El) as Hlt.
    destruct (lane_late s _ l Hi El) as (Hlate & _). destruct (load_writes_ok k ltac:(lia) late l Hr) as (j' & _ & -> & Hj). rewrite (Hj Hlate). cbn [mbind option_bind default].
    assert (Hk : lane_key <$> <[N.to_nat i := with_consumer (s_consumer l) (length (s_pushed l)) l]> (mt_lanes s) = lane_key <$> mt_lanes s) by (by eapply set_lane_key).
    split; [by split_and!|]. intros _. unfold matcher_rank. rewrite Hm. unfold vsize in *. case_decide as Hd; simpl; [lia|]. unfold detour. rewrite decide_True;
      [popping_lia|].
    eapply same_ahead; [exact Hk|done|]. apply (all_ahead _ (N.to_nat i)); [lia|]. destruct (lane_queued s _ l El) as [-> _].
    destruct (held l) eqn:Eh; [|simpl; lia]. exfalso. apply Hd. by apply (slots_empty k ltac:(lia) l Hr).
Qed.

(** One access of a [try_pop] that does not end it, or ends it with nothing. *)
Lemma pop_advances s i d l r l' : Inv s -> mt_matcher s = MSweep i d -> (i < vsize orders)%N -> mt_lanes s !! lane_of s (N.to_nat i) = Some l ->
  pop_access k late l = Some (r, l') -> (forall x, r <> Some (Some x)) ->
  moves_on s (if r then move (MSweep (i + 1) d) (set_lane (lane_of s (N.to_nat i)) l' s) else set_lane (lane_of s (N.to_nat i)) l' s).
Proof.
  intros Hi Hm Hlt El Ep Hnx. pose proof (lane_inv _ _ _ _ _ _ _ Hi El) as Hr. destruct (lane_late s _ l Hi El) as (Hlate & _).
  destruct (pop_access_effect k ltac:(lia) _ _ _ _ Hr Ep) as (Epu & _ & Epr & _ & _ & He).
  assert (Epo : s_popped l' = s_popped l) by (destruct r as [[x|]|]; [by destruct (Hnx x)|done|done]).
  assert (Hk : lane_key <$> <[lane_of s (N.to_nat i) := l']> (mt_lanes s) = lane_key <$> mt_lanes s) by (by eapply set_lane_key).
  assert (Hsame : forall s' j, lane_key <$> mt_lanes s' = lane_key <$> mt_lanes s -> mt_next_lane s' = mt_next_lane s -> detour s' j = detour s j)
    by (intros s' j H1 H2; by apply detour_ext, same_ahead).
  split; [by destruct r; split_and!|]. intros _. unfold matcher_rank. unfold vsize in Hlt.
  assert (Hpop : popping s (N.to_nat i) = pop_todo (s_consumer l)) by (unfold popping; by rewrite El).
  destruct r as [[x|]|]; [by destruct (Hnx x)| |]; simpl; rewrite Hm.
  - replace (N.to_nat (i + 1)) with (S (N.to_nat i)) by lia. rewrite (Hsame _ (S (N.to_nat i))) by done.
    rewrite (detour_ext s s (N.to_nat i)). 2: { apply ahead_step; [lia|]. destruct (lane_queued s _ l El) as [-> _]. by rewrite (pop_latest_none k ltac:(lia) late l l' Hr Hlate Ep). }
    destruct (s_consumer l); simpl in Hpop; rewrite Hpop; popping_lia.
  - rewrite (Hsame _ (N.to_nat i)) by done. apply (pop_todo_access k ltac:(lia)) in Ep. unfold popping at 1. simpl. change (lane_of (set_lane _ l' s)) with (lane_of s).
    rewrite list_lookup_insert_eq by (by eapply lookup_lt_Some). lia.
Qed.

Lemma matcher_turn s : Inv s -> mt_matcher s <> MDone -> work (late_turn None s) < work s \/ moves_on s (late_turn None s).
Proof.
  intros Hi Hnd. pose proof (inv_size k handler orders k_range _ _ Hi) as En. pose proof (mi_index _ _ _ _ _ Hi) as Hx. pose proof (turn_inv (None, late) s Hi) as Hi'.
  destruct (mt_matcher s) as [|i|i read|i d|] eqn:Hm; [right; by apply test_turn|right; apply check_turn; eauto|right; apply check_turn; eauto| |done]. simpl in Hx.
  unfold late_turn, mt_turn in *. simpl in *. unfold matcher_next in *. rewrite Hm, En in *. destruct (decide (i = vsize orders)) as [->|Hne].
  { right. split; [done|]. intros _. unfold matcher_rank. rewrite Hm. simpl. unfold detour. rewrite decide_False by (apply not_ahead_end; unfold vsize; lia). lia. }
  rewrite decide_True in * by (unfold vsize in *; lia). destruct (sweep_lane k handler orders k_range _ _ i Hi) as [l El]. rewrite El in *. cbn [mbind option_bind] in *.
  destruct (pop_access_step k ltac:(lia) late l (lane_inv _ _ _ _ _ _ _ Hi El)) as (r & l' & Ep & _). rewrite Ep in *. cbn [mbind option_bind] in *.
  assert (Hlane : N.to_nat ((mt_next_lane s + i) mod vsize orders) = lane_of s (N.to_nat i)) by (unfold lane_of; by rewrite N2Nat.id).
  destruct r as [[rq|]|].
  - destruct (pop_access_effect k ltac:(lia) _ _ _ _ (lane_inv _ _ _ _ _ _ _ Hi El) Ep) as (_ & _ & _ & _ & _ & _ & Hq).
    destruct (next_defined s _ l rq Hi El Hq) as [h' Hh]. rewrite Hh in *. left. cbn [mbind option_bind default] in *.
    apply handled_le in Hi'. unfold work. simpl in *. rewrite length_app in *. simpl in *. lia.
  - right. unfold vget in El. rewrite Hlane in *. apply (pop_advances s i d l (Some None) l' Hi Hm); [unfold vsize in *; lia|done..].
  - right. unfold vget in El. rewrite Hlane in *. apply (pop_advances s i d l None l' Hi Hm); [unfold vsize in *; lia|done..].
Qed.

Lemma helpful_turn s p : Inv s -> helpful s = Some p -> mt_rank (late_turn (Some p) s) < mt_rank s.
Proof.
  intros Hi Hh. destruct (helpful_ready s p Hh) as [Hr _]. destruct (producer_turn s p Hi) as [Hw|[[_ Hnr]|(l & l' & El & -> & E1 & E2 & E3 & Hiff & Hlt)]];
    [by apply work_rank|done|]. destruct (set_lane_others s p l l' El E1 E2 E3) as (Hro & _ & Hw & _).
  unfold mt_rank. rewrite (helpful_ext s), Hh, Hw; [specialize (Hlt Hr); lia|]. intros q. destruct (decide (q = p)) as [->|Hne]; auto.
Qed.

(** A producer that is not the helpful one. *)
Lemma other_turn s p : Inv s -> helpful s <> Some p ->
  mt_rank (late_turn (Some p) s) < mt_rank s \/ (mt_rank (late_turn (Some p) s) = mt_rank s /\ helpful (late_turn (Some p) s) = helpful s).
Proof.
  intros Hi Hh. destruct (producer_turn s p Hi) as [Hw|[[-> _]|(l & l' & El & -> & E1 & E2 & E3 & Hiff & _)]]; [left; by apply work_rank|by right|].
  right. destruct (set_lane_others s p l l' El E1 E2 E3) as (Hro & Hpr & Hw & Hm).
  assert (Eh : helpful (set_lane p l' s) = helpful s) by (apply helpful_ext; intros q; destruct (decide (q = p)) as [->|Hne]; auto).
  split; [|done]. unfold mt_rank. rewrite Eh, Hw, Hm. f_equal. destruct (helpful s) as [q|]; [|done]. apply Hpr. congruence.
Qed.

#[local] Instance mt_ranked : Ranked late_turn mt_thread Inv (fun s => mt_matcher s = MDone) mt_rank helpful.
Proof.
  split.
  - intros t s. apply turn_inv.
  - intros s _ _. destruct (helpful s) as [p|] eqn:Hh; [|done]. by apply helpful_ready in Hh as [_ ?].
  - intros s Hi Hnd. destruct (helpful s) as [p|] eqn:Hh; [by apply helpful_turn|].
    destruct (matcher_turn s Hi Hnd) as [Hw|[Hs Hr]]; [by apply work_rank|]. destruct (same_helpful _ _ Hs) as (Eh & Ew & _).
    unfold mt_rank. rewrite Eh, Ew, Hh. specialize (Hr Hh). lia.
  - intros t s Hi Hnd. destruct t as [p|].
    + destruct (decide (helpful s = Some p)) as [Hh|Hh]; [left; by apply helpful_turn|by apply other_turn].
    + destruct (matcher_turn s Hi Hnd) as [Hw|[Hs Hr]]; [left; by apply work_rank|]. destruct (same_helpful _ _ Hs) as (Eh & Ew & Ep).
      unfold mt_rank. rewrite Eh, Ew. destruct (helpful s) as [p|]; [right; by rewrite Ep|]. left. specialize (Hr eq_refl). lia.
Qed.

(** ** Executions *)

Lemma turn_reachable x s : mt_reachable k handler orders h0 s -> mt_reachable k handler orders h0 (mt_turn x s).
Proof.
  intros Hr. unfold mt_turn. destruct (thread_next k handler x.1 x.2 s) as [s'|] eqn:E; [|done]. eapply rtc_r; [exact Hr|]. by exists x.1 x.2.
Qed.

Lemma exec_reachable sched i : mt_reachable k handler orders h0 (exec mt_turn sched (init_mt k orders h0) i).
Proof. induction i; simpl; [apply rtc_refl|by apply turn_reachable]. Qed.

Lemma mt_fair_done sched : fair mt_thread (fun i => (sched i).1) -> visible sched -> exists i, mt_matcher (exec mt_turn sched (init_mt k orders h0) i) = MDone.
Proof.
  intros Hf Hv. assert (forall s : Mt H, Decision (mt_matcher s = MDone)) by (intros s; destruct (mt_matcher s); solve_decision).
  apply (labelled_termination fst mt_turn late_turn mt_thread Inv (fun s => mt_matcher s = MDone) mt_rank helpful); try done; [apply turn_inv|apply mt_ranked|by apply init_mt_inv|].
  destruct (Hv late) as [m Hm]. exists m. intros i s Hi Hs. rewrite <- (late_same _ (sched i).2) by auto. by destruct (sched i).
Qed.
End rank.

Section session.
Context {B : Type} `{BookCtorLaws B} (now_ns : nat -> Timestamp) (k : N) (k_range : (1 <= k <= 63)%N).
Context (orders : list (list OrderRequest)) (some_producer : orders <> []).
Context (setup : list EngineCall) (rs0 : list EngineAnswer) (e0 : Engine B) (w0 : EngineWorld).
Context (budget : engine_workload_ok (setup ++ (XSubmit <$> mjoin orders)) = true).
Context (set_up : engine_run now_ns (new_engine ∅) setup eworld0 = Some (rs0, e0, w0)).

(** C8. The multi-threaded demo comes to an end: whatever the order in which
    the producers and the matching thread make their memory accesses and
    whatever older values their loads return, if each of them gets the
    processor again and again and every store becomes visible after a finite
    time, the matching thread leaves its loop after finitely many turns; at
    that moment every producer has finished and every order has been handed to
    the engine. *)
Theorem mt_demo_terminates sched : fair (mt_thread orders) (fun i => (sched i).1) -> visible sched ->
  exists i, let s := exec (mt_turn k (engine_handler now_ns)) sched (init_mt k orders (e0, tick w0)) i in
    mt_reachable k (engine_handler now_ns) orders (e0, tick w0) s /\ mt_matcher s = MDone /\ Forall (fun b => b = true) (mt_finished s) /\
    forall p os, orders !! p = Some os -> handled_from p (mt_handled s) = os.
Proof.
  intros Hf Hv. destruct (mt_fair_done k (engine_handler now_ns) orders k_range some_producer (e0, tick w0)) with (sched := sched) as [i Hd];
    [intros s p l rq; by apply (next_handled now_ns k k_range orders setup rs0 e0 w0 budget set_up)|done|done|].
  exists i. cbn zeta. pose proof (exec_reachable k (engine_handler now_ns) orders (e0, tick w0) sched i) as Hr.
  pose proof (mt_reachable_inv k (engine_handler now_ns) orders k_range some_producer _ _ Hr) as Hi.
  split_and!; [done|done|apply Hi; by rewrite Hd|]. by eapply done_all.
Qed.
End session.

(** The threads of [n] producers and the matching thread one after the other,
    again and again; the loads ask for a later position every hundred turns. *)
Definition round_robin (n i : nat) : option nat * nat := (if decide (i mod S n < n) then Some (i mod S n) else None, i / 100).

Lemma round_robin_fair orders : fair (mt_thread orders) (fun i => (round_robin (length orders) i).1).
Proof.
  intros t Ht m. set (n := length orders) in *. assert (Hr : forall j, j < S n -> (m * S n + j) mod S n = j).
  { intros j Hj. rewrite Nat.add_comm, Nat.Div0.mod_add. by apply Nat.mod_small. }
  unfold round_robin. destruct t as [p|].
  - simpl in Ht. fold n in Ht. exists (m * S n + p). cbn [fst]. rewrite Hr by lia. rewrite decide_True by done. split; [lia|done].
  - exists (m * S n + n). cbn [fst]. rewrite Hr by lia. rewrite decide_False by lia. split; [lia|done].
Qed.

Lemma round_robin_visible n : visible (round_robin n).
Proof. intros v. exists (v * 100). intros i Hi. unfold round_robin. cbn [snd]. apply Nat.div_le_lower_bound; lia. Qed.

Lemma mt_demo_terminates_witness :
  exists rs0 (e0 : Engine Arr.OrderBookArray) w0,
    engine_workload_ok (small_setup ++ (XSubmit <$> mjoin two_producers)) = true /\
    engine_run ticks (new_engine ∅) small_setup eworld0 = Some (rs0, e0, w0) /\
    fair (mt_thread two_producers) (fun i => (round_robin 2 i).1) /\ visible (round_robin 2) /\
    exists i, let s := exec (mt_turn 1 (engine_handler ticks)) (round_robin 2) (init_mt 1 two_producers (e0, tick w0)) i in
      mt_reachable 1 (engine_handler ticks) two_producers (e0, tick w0) s /\ mt_matcher s = MDone /\ Forall (fun b => b = true) (mt_finished s) /\
      forall p os, two_producers !! p = Some os -> handled_from p (mt_handled s) = os.
Proof.
  destruct (engine_run ticks (new_engine ∅ : Engine Arr.OrderBookArray) small_setup eworld0) as [[[rs0 e0] w0]|] eqn:Hrun;
    [|vm_compute in Hrun; discriminate].
  exists rs0, e0, w0. split; [vm_compute; reflexivity|]. split; [reflexivity|]. split; [apply (round_robin_fair two_producers)|]. split; [apply round_robin_visible|].
  refine (mt_demo_terminates ticks 1 _ two_producers _ small_setup rs0 e0 w0 _ Hrun (round_robin 2) (round_robin_fair two_producers) (round_robin_visible 2)); [lia|discriminate|vm_compute; reflexivity].
Defined.
