(* ===== verification/ThreadAffinity.v ===== *)
(** include/lightninglob/thread_affinity.hpp: pinning the calling thread to a
    core and asking for real-time scheduling.

    The C library and the kernel are parameters ([Os]): the set of processors
    and its macros [CPU_ZERO] and [CPU_SET], and the two calls on the calling
    thread, each with its return code and its effect on the kernel's state.
    [on_linux] is the platform test of the preprocessor.  What POSIX and the
    manual pages promise of the calls is [OsLaws]. *)

From S2P Require Import Prelude.

Record Os (K CpuSet : Type) := mkOs {
  on_linux : bool;
  CPU_ZERO : CpuSet;
  CPU_SET : N -> CpuSet -> CpuSet;
  pthread_setaffinity_np : CpuSet -> K -> Z * K;
  pthread_setschedparam_fifo : Z -> K -> Z * K
}.

Arguments mkOs {K CpuSet}.
Arguments on_linux {K CpuSet}.
Arguments CPU_ZERO {K CpuSet}.
Arguments CPU_SET {K CpuSet}.
Arguments pthread_setaffinity_np {K CpuSet}.
Arguments pthread_setschedparam_fifo {K CpuSet}.

Section affinity.
Context {K CpuSet : Type} (os : Os K CpuSet).

Definition pin_current_thread_to_core (core_id : N) (kernel : K) : bool * K :=
  if on_linux os then
    let cpu_set := CPU_SET os core_id (CPU_ZERO os) in
    let '(rc, kernel1) := pthread_setaffinity_np os cpu_set kernel in
    ((rc =? 0)%Z, kernel1)
  else (false, kernel).

Definition set_current_thread_realtime_priority (priority : Z) (kernel : K) : bool * K :=
  if on_linux os then
    let '(rc, kernel1) := pthread_setschedparam_fifo os priority kernel in
    ((rc =? 0)%Z, kernel1)
  else (false, kernel).
End affinity.

(** The thread's affinity and policy in a kernel state, and the documented
    effect of the calls: a code other than zero is a failure that changes
    nothing. *)
Class OsLaws {K CpuSet : Type} (os : Os K CpuSet) (runs_on : K -> CpuSet) (fifo_priority : K -> option Z) := {
  setaffinity_law cpus kernel : let '(rc, kernel1) := pthread_setaffinity_np os cpus kernel in
    fifo_priority kernel1 = fifo_priority kernel /\ runs_on kernel1 = if decide (rc = 0%Z) then cpus else runs_on kernel;
  setschedparam_law priority kernel : let '(rc, kernel1) := pthread_setschedparam_fifo os priority kernel in
    runs_on kernel1 = runs_on kernel /\ fifo_priority kernel1 = if decide (rc = 0%Z) then Some priority else fifo_priority kernel
}.

Section laws.
Context {K CpuSet : Type} (os : Os K CpuSet) (runs_on : K -> CpuSet) (fifo_priority : K -> option Z) `{!OsLaws os runs_on fifo_priority}.

(** Both calls degrade gracefully: they say whether they worked, and a thread
    for which they did not runs as before. *)
Lemma affinity_best_effort core priority kernel :
  let '(pinned, kernel1) := pin_current_thread_to_core os core kernel in
  let '(realtime, kernel2) := set_current_thread_realtime_priority os priority kernel1 in
  runs_on kernel2 = (if pinned then CPU_SET os core (CPU_ZERO os) else runs_on kernel) /\
  fifo_priority kernel2 = if realtime then Some priority else fifo_priority kernel.
Proof.
  unfold pin_current_thread_to_core, set_current_thread_realtime_priority. destruct (on_linux os); [|done].
  pose proof (setaffinity_law (CPU_SET os core (CPU_ZERO os)) kernel) as Ha. destruct (pthread_setaffinity_np _ _ _) as [rc1 k1].
  pose proof (setschedparam_law priority k1) as Hs. destruct (pthread_setschedparam_fifo _ _ _) as [rc2 k2].
  destruct Ha as [A1 A2], Hs as [S1 S2]. rewrite S1, A2, S2, A1.
  clear A2 S2. destruct (Z.eqb_spec rc1 0), (Z.eqb_spec rc2 0); repeat case_decide; done.
Qed.
End laws.
