(* ===== verification/Main.v ===== *)
(** src/main.cpp: the multi-threaded mode as a whole and [main].

    What the program meets from outside is the record [Env]: its name, the
    files, the clock, the values that the random distributions of the producers
    give, the number of cores and the operating system.  [main] is a relation
    between the command line and what the program has done when it ends (exit
    status, console output and error output), because the threads of the
    multi-threaded mode may run in any order.  That it ends, whatever the order,
    is said by [mt_mode_ends] and [log_mode_ends], over the executions of the
    threads that Logger.v and MtDemo.v define. *)

From Stdlib Require Import Ascii String.
From S2P Require Import Prelude Types Text Double OrderPool LockfreeQueue LockfreeAccess OrderGateway.
From S2P Require Import BookCore BookSpec BookSpecFacts BookTrades BookInterface.
From S2P Require Import OrderBookVector VectorRefinement OrderBookMap MapRefinement OrderBookArray ArrayRefinement.
From S2P Require Import Books RiskManager MatchingEngine EngineFacts EngineTheorems BookPrint Replay ReplayRun Demo.
From S2P Require Import Logger LoggerFair ConsoleStream ThreadAffinity Fairness MtDemo MtFair.

Record Env (K CpuSet : Type) := mkEnv {
  env_argv0 : text;
  env_file : text -> option text;
  env_now_ns : nat -> Timestamp;
  env_price_offset : nat -> nat -> Z;
  env_qty_dist : nat -> nat -> Z;
  env_cores : N;
  env_os : Os K CpuSet;
  env_kernel : K
}.

Arguments mkEnv {K CpuSet}.
Arguments env_argv0 {K CpuSet}.
Arguments env_file {K CpuSet}.
Arguments env_now_ns {K CpuSet}.
Arguments env_price_offset {K CpuSet}.
Arguments env_qty_dist {K CpuSet}.
Arguments env_cores {K CpuSet}.
Arguments env_os {K CpuSet}.
Arguments env_kernel {K CpuSet}.

Definition print_usage (argv0 : text) : text :=
  row "Usage: " (argv0 ++ lit " [mode]") ++
  row "  (no args)          run the scripted walkthrough demo" [] ++
  row "  replay <csv path>  replay a historical order CSV through the engine" [] ++
  row "  mt-demo            run the multi-threaded lock-free gateway demo" [] ++
  row "  --help             show this message" [].

(** [e.what()] of the loader's exceptions; the path is in one of them. *)
Definition what (path : text) (e : LoadError) : text :=
  let quoted s := lit "'" ++ s ++ lit "'" in
  match e with
  | could_not_open => lit "OrderReplay: could not open file: " ++ path
  | bad_number field => lit "OrderReplay: failed to parse numeric field: " ++ quoted field
  | bad_side field => lit "OrderReplay: invalid side field: " ++ quoted field
  | bad_type field => lit "OrderReplay: invalid type field: " ++ quoted field
  | bad_tif field => lit "OrderReplay: invalid time_in_force field: " ++ quoted field
  | malformed_line line => lit "OrderReplay: malformed CSV line (need >= 7 fields): " ++ line
  end.

(** * The multi-threaded mode *)

(** [OrderGateway<8192>]: the lanes have [2 ^ 13] slots. *)
Definition demo_lane_log2 : N := 13.

Definition print_bool (b : bool) : text := if b then lit "true" else lit "false".

Definition mt_banner : text :=
  row "Multi-threaded demo: " (print_N 4 ++ lit " producer threads x " ++ print_N 250000 ++ lit " orders each, 1 matching thread").

Section main.
Context {K CpuSet : Type} (env : Env K CpuSet).

(** Pinning and real-time priority, only where another core is left for the
    producers. *)
Definition mt_affinity : text :=
  if (1 <? env_cores env)%N then
    let '(pinned, kernel1) := pin_current_thread_to_core (env_os env) 0 (env_kernel env) in
    let '(realtime, _) := set_current_thread_realtime_priority (env_os env) 10 kernel1 in
    row "Matching thread: pinned to core 0 = " (print_bool pinned ++ lit ", SCHED_FIFO priority = " ++ print_bool realtime)
  else
    row "Matching thread: skipping pinning/real-time priority (" (print_N (env_cores env) ++
      lit " core detected - would starve the producer threads competing for it; see docs/DESIGN.md)").

Definition mt_summary (processed : N) (elapsed_ns : Z) (order_count : N) : text :=
  row "Processed " (print_N processed ++ lit " orders in " ++ print_fixed 3 (milliseconds elapsed_ns) ++ lit " ms (" ++
    print_fixed 0 (rate processed elapsed_ns) ++ lit " orders/sec end-to-end through the lock-free gateway)") ++
  row "Final resting order count: " (print_N order_count).

Definition demo_orders : list (list OrderRequest) :=
  mt_orders kProducers kOrdersPerProducer (env_price_offset env) (env_qty_dist env).

(** What is printed when the matching thread has left its loop and the producers
    are joined; [w0] is the state of the clock before the loop. *)
Definition mt_report (w0 : EngineWorld) (s : Mt (DemoEngine * EngineWorld)) : option (list Event) :=
  b ← book (mt_h s).1 1;
  Some [Console mt_banner; Console mt_affinity;
        Console (mt_summary (mt_processed s) (elapsed_between (env_now_ns env) w0 (mt_h s).2) (Arr.order_count b))].

(** The output of an execution whose matching thread has left its loop. *)
Definition run_multithreaded_demo (out : list Event) : Prop :=
  exists rs0 (e0 : DemoEngine) w0 s,
    engine_run (env_now_ns env) (new_engine ∅) mt_setup eworld0 = Some (rs0, e0, w0) /\
    mt_reachable demo_lane_log2 (engine_handler (B := Arr.OrderBookArray) (env_now_ns env)) demo_orders (e0, tick w0) s /\ mt_matcher s = MDone /\
    Forall (fun b => b = true) (mt_finished s) /\ mt_report w0 s = Some out.

Definition main_run (args : list text) (status : N) (out : list Event) (err : text) : Prop :=
  match choose_mode args with
  | Help => status = 0%N /\ out = [Console (print_usage (env_argv0 env))] /\ err = []
  | ReplayUsage => status = 1%N /\ out = [Console (print_usage (env_argv0 env))] /\ err = row "replay mode requires a CSV path" []
  | ReplayFile path =>
      match run_replay_mode (env_now_ns env) path (env_file env path) with
      | Some (inr (events, _, _)) => status = 0%N /\ out = events /\ err = []
      | Some (inl e) => status = 1%N /\ out = [Logged (lit "loading replay data from " ++ path)] /\ err = row "Replay failed: " (what path e)
      | None => False
      end
  | MtMode => status = 0%N /\ run_multithreaded_demo out /\ err = []
  | Scripted =>
      match run_scripted_demo (env_now_ns env) with
      | Some s => status = 0%N /\ out = sc_events s /\ err = []
      | None => False
      end
  end.

(** The multi-threaded mode comes to an end: after its defined start, no thread
    gets stuck in any state that its threads can reach, and on every fair
    schedule in which stores become visible the matching thread leaves its loop,
    with the producers finished, and [main] ends with what is printed then. *)
Definition mt_mode_ends (args : list text) : Prop :=
  exists rs0 (e0 : DemoEngine) w0,
    let handler := engine_handler (B := Arr.OrderBookArray) (env_now_ns env) in
    engine_run (env_now_ns env) (new_engine ∅) mt_setup eworld0 = Some (rs0, e0, w0) /\
    (forall s, mt_reachable demo_lane_log2 handler demo_orders (e0, tick w0) s ->
      (forall p j, mt_finished s !! p = Some false -> is_Some (producer_next demo_lane_log2 p j s)) /\
      (forall j, mt_matcher s <> MDone -> is_Some (matcher_next demo_lane_log2 handler j s)) /\
      (mt_matcher s = MDone -> exists out, mt_report w0 s = Some out /\ main_run args 0 out [])) /\
    (forall sched, fair (mt_thread demo_orders) (fun i => (sched i).1) -> visible sched ->
      exists i, mt_matcher (exec (mt_turn demo_lane_log2 handler) sched (init_mt demo_lane_log2 demo_orders (e0, tick w0)) i) = MDone).

End main.

(** A mode that logs comes to an end: with the events [out] as the calls on its
    logger, neither its thread nor the logger's worker gets stuck, and on every
    fair schedule in which stores become visible the logger is destroyed, with
    the text of the events on the console. *)
Definition log_mode_ends (out : list Event) : Prop :=
  forall nows, length nows = length out ->
    (forall x, program_reachable log_queue_log2 (program nows out) x ->
      (st_caller x.2 <> Destroyed -> forall j, is_Some (program_next log_queue_log2 CallerT j x)) /\
      (st_worker x.2 <> Returned -> forall j, is_Some (program_next log_queue_log2 WorkerT j x))) /\
    (forall sched, fair (fun _ => True) (fun i => (sched i).1) -> visible sched ->
      exists i, finished out nows (exec (program_turn log_queue_log2) sched (program nows out, init_log log_queue_log2 Info) i)).

(** * What the program does *)

(** The status is 1 for a replay without a path or of a file that does not
    load, and 0 otherwise. *)
Definition exit_status {K CpuSet} (env : Env K CpuSet) (args : list text) : N :=
  match choose_mode args with
  | ReplayUsage => 1
  | ReplayFile path => match load_csv (env_file env path) with Some (inl _) => 1 | _ => 0 end
  | _ => 0
  end.

Lemma load_csv_total file : (exists err, load_csv file = throw err) \/ (exists orders, load_csv file = ret orders).
Proof.
  destruct file as [content|]; [|left; by exists could_not_open]. rewrite load_csv_rows.
  destruct (spec_rows (data_lines content)) as [err|orders]; [left; by exists err|right; by exists orders].
Qed.

Lemma replay_mode_throws now_ns path file err : load_csv file = throw err -> run_replay_mode now_ns path file = throw err.
Proof. intros E. unfold run_replay_mode. by rewrite E. Qed.

Section outcomes.
Context {K CpuSet : Type} (env : Env K CpuSet).
Context (qty_range : forall p i, (1 <= env_qty_dist env p i <= 50)%Z).

Lemma demo_orders_some : demo_orders env <> [].
Proof. done. Qed.

Lemma demo_orders_count : vsize (mjoin (demo_orders env)) = 1000000%N.
Proof. unfold vsize, demo_orders. rewrite mt_orders_length. unfold kProducers, kOrdersPerProducer. lia. Qed.

Lemma demo_budget : engine_workload_ok (mt_setup ++ (XSubmit <$> mjoin (demo_orders env))) = true.
Proof. by apply mt_demo_budget. Qed.

Lemma demo_set_up : exists rs0 (e0 : DemoEngine) w0, engine_run (env_now_ns env) (new_engine ∅) mt_setup eworld0 = Some (rs0, e0, w0).
Proof.
  destruct (engine_reached (B := Arr.OrderBookArray) (env_now_ns env) false mt_setup eworld0) as (rs0 & e0 & _ & w0 & _ & Hr & _); [vm_compute; reflexivity|]. eauto.
Qed.

(** What every execution of the multi-threaded mode prints. *)
Lemma mt_mode_output out : run_multithreaded_demo env out ->
  exists rs0 es w0 merged rs es' w' sb, 
    spec_engine_run (env_now_ns env) bk_refuses bk_band (new_engine ∅) mt_setup eworld0 = (rs0, es, w0) /\
    (forall p os, demo_orders env !! p = Some os -> handled_from p merged = os) /\
    spec_engine_run (env_now_ns env) bk_refuses bk_band es (XSubmit <$> (snd <$> merged)) (tick w0) = (rs, es', w') /\
    books_ es' !! 1%N = Some sb /\
    out = [Console mt_banner; Console (mt_affinity env);
           Console (mt_summary 1000000 (elapsed_between (env_now_ns env) w0 w') (N.of_nat (length (orders (sb_book sb)))))].
Proof.
  intros (rs0 & e0 & w0 & s & Hset & Hr & Hd & _ & (b & Hb & [= <-])%bind_Some).
  destruct (mt_done_outcome (env_now_ns env) demo_lane_log2 ltac:(done) (demo_orders env) demo_orders_some mt_setup rs0 e0 w0 demo_budget Hset s Hr Hd)
    as (Hall & Hp & es & rs & es' & Hs0 & Hs1 & Hshow).
  specialize (Hshow 1%N). unfold book in Hb. rewrite Hb in Hshow. inversion Hshow as [b' sb Hsh E1 E2|]. simplify_eq.
  destruct Hsh as (_ & _ & Hcount). exists rs0, es, w0, (mt_handled s), rs, es', (mt_h s).2, sb. split_and!; try done.
  rewrite Hp, demo_orders_count. by rewrite <- Hcount.
Qed.

(** The end of an execution is one of [main]. *)
Lemma mt_mode_over rs0 e0 w0 s : engine_run (env_now_ns env) (new_engine ∅) mt_setup eworld0 = Some (rs0, e0, w0) ->
  mt_reachable demo_lane_log2 (engine_handler (B := Arr.OrderBookArray) (env_now_ns env)) (demo_orders env) (e0, tick w0) s -> mt_matcher s = MDone ->
  exists out, mt_report env w0 s = Some out /\ run_multithreaded_demo env out.
Proof.
  intros Hset Hr Hd. destruct (mt_done_outcome (env_now_ns env) demo_lane_log2 ltac:(done) (demo_orders env) demo_orders_some mt_setup rs0 e0 w0 demo_budget Hset s Hr Hd)
    as (_ & _ & es & rs & es' & Hs0 & Hs1 & Hshow).
  assert (Hbook : is_Some (books_ es !! 1%N)) by (cbn in Hs0; injection Hs0 as _ <-; by eexists).
  apply (spec_submits_keep (env_now_ns env) bk_refuses bk_band (snd <$> mt_handled s) es (tick w0)) in Hbook. rewrite Hs1 in Hbook. destruct Hbook as [sb Hsb]. simpl in Hsb.
  specialize (Hshow 1%N). rewrite Hsb in Hshow. inversion Hshow as [b sb' _ E1 E2|]. symmetry in E1.
  assert (Hrep : is_Some (mt_report env w0 s)) by (unfold mt_report, book; rewrite E1; by eexists). destruct Hrep as [out Hout]. exists out. split; [done|].
  exists rs0, e0, w0, s. split_and!; try done. pose proof (mt_reachable_inv demo_lane_log2 (engine_handler (B := Arr.OrderBookArray) (env_now_ns env)) (demo_orders env) ltac:(done) demo_orders_some _ _ Hr) as Hi.
  apply Hi. by rewrite Hd.
Qed.

(** Every fair execution gets there. *)
Lemma mt_mode_fair rs0 e0 w0 sched : engine_run (env_now_ns env) (new_engine ∅) mt_setup eworld0 = Some (rs0, e0, w0) ->
  fair (mt_thread (demo_orders env)) (fun i => (sched i).1) -> visible sched ->
  exists i, mt_matcher (exec (mt_turn demo_lane_log2 (engine_handler (B := Arr.OrderBookArray) (env_now_ns env))) sched (init_mt demo_lane_log2 (demo_orders env) (e0, tick w0)) i) = MDone.
Proof.
  intros Hset. apply (mt_fair_done demo_lane_log2 (engine_handler (B := Arr.OrderBookArray) (env_now_ns env)) (demo_orders env) ltac:(done) demo_orders_some (e0, tick w0)).
  intros s p l rq. by apply (next_handled (env_now_ns env) demo_lane_log2 ltac:(done) (demo_orders env) mt_setup rs0 e0 w0 demo_budget Hset).
Qed.

Lemma mt_mode_ended args : choose_mode args = MtMode -> mt_mode_ends env args.
Proof.
  intros Hm. destruct demo_set_up as (rs0 & e0 & w0 & Hset). exists rs0, e0, w0. cbn zeta. split; [done|]. split.
  - intros s Hr. pose proof (mt_reachable_inv demo_lane_log2 (engine_handler (B := Arr.OrderBookArray) (env_now_ns env)) (demo_orders env) ltac:(done) demo_orders_some _ _ Hr) as Hi. split_and!.
    + intros p j. by eapply producer_defined.
    + intros j. apply (matcher_defined demo_lane_log2 (engine_handler (B := Arr.OrderBookArray) (env_now_ns env)) (demo_orders env) ltac:(done) (e0, tick w0)); [done|].
      intros p l rq. by apply (next_handled (env_now_ns env) demo_lane_log2 ltac:(done) (demo_orders env) mt_setup rs0 e0 w0 demo_budget Hset).
    + intros Hd. destruct (mt_mode_over _ _ _ _ Hset Hr Hd) as (out & Hout & Hrun). exists out. split; [done|]. unfold main_run. by rewrite Hm.
  - intros sched. by eapply mt_mode_fair.
Qed.

(** So there is one. *)
Lemma mt_mode_defined : exists out, run_multithreaded_demo env out.
Proof.
  destruct demo_set_up as (rs0 & e0 & w0 & Hset).
  destruct (mt_mode_fair rs0 e0 w0 (round_robin (length (demo_orders env))) Hset (round_robin_fair _) (round_robin_visible _)) as [i Hd].
  destruct (mt_mode_over rs0 e0 w0 _ Hset (exec_reachable _ _ _ _ _ _) Hd) as (out & _ & Hrun). by exists out.
Qed.

Lemma log_mode_ended out : mode_events (env_now_ns env) out -> log_mode_ends out.
Proof.
  intros Hm nows Hl. split.
  - intros x Hr. split; [intros Hc j; by eapply mode_caller_defined|intros Hw j; by eapply mode_worker_defined].
  - intros sched. eapply mode_ends; [done|done|apply rtc_refl].
Qed.

(** C9. The program does what its usage message says.  For every command line
    it comes to an end in a defined way: there is an outcome; in the
    multi-threaded mode no thread gets stuck in any state that the threads can
    reach, and on every fair schedule in which stores become visible the
    matching thread leaves its loop, which is always an end of the program; in
    the replay and in the walkthrough the same is true of the mode's thread and
    the logger's worker.  The program ends with status 1 exactly for a replay
    without a path or of a file that cannot be read, then with a message on the
    error output and otherwise with none; the scripted walkthrough runs whatever
    the clock says; and the multi-threaded mode, however its threads are
    scheduled, reports the million orders as processed and as many resting
    orders as the specification has after some interleaving of the producers'
    orders.  The quantities that the random distribution gives are within its
    bounds, and the orders of a replayed file within the engine's budget. *)
Theorem main_outcomes args :
  (forall path rqs, choose_mode args = ReplayFile path -> load_csv (env_file env path) = ret rqs -> engine_workload_ok (replay_setup ++ (XSubmit <$> rqs)) = true) ->
  (exists status out err, main_run env args status out err) /\
  (choose_mode args = MtMode -> mt_mode_ends env args) /\
  forall status out err, main_run env args status out err ->
    status = exit_status env args /\ (status = 0%N <-> err = []) /\
    (choose_mode args = Scripted \/ (exists path, choose_mode args = ReplayFile path) -> log_mode_ends out) /\
    (choose_mode args = MtMode -> exists rs0 es w0 merged rs es' w' sb,
      spec_engine_run (env_now_ns env) bk_refuses bk_band (new_engine ∅) mt_setup eworld0 = (rs0, es, w0) /\
      (forall p os, demo_orders env !! p = Some os -> handled_from p merged = os) /\
      spec_engine_run (env_now_ns env) bk_refuses bk_band es (XSubmit <$> (snd <$> merged)) (tick w0) = (rs, es', w') /\
      books_ es' !! 1%N = Some sb /\
      out = [Console mt_banner; Console (mt_affinity env);
             Console (mt_summary 1000000 (elapsed_between (env_now_ns env) w0 w') (N.of_nat (length (orders (sb_book sb)))))]).
Proof.
  intros Hok. destruct (choose_mode args) as [| |path| |] eqn:Hm; unfold main_run, exit_status; rewrite Hm.
  - split; [eauto 10|]. split; [done|]. intros status out err (-> & -> & ->). split_and!; try done. by intros [?|[? ?]].
  - split; [eauto 10|]. split; [done|]. intros status out err (-> & -> & ->). split_and!; try done. by intros [?|[? ?]].
  - destruct (load_csv_total (env_file env path)) as [[err E]|[rqs E]].
    + pose proof (replay_mode_throws (env_now_ns env) path _ _ E) as Hr. rewrite Hr, E. split; [by do 3 eexists|]. split; [done|]. intros status out er (-> & -> & ->). split_and!; try done.
      intros _. apply log_mode_ended. right. left. eauto.
    + destruct (replay_mode_loaded (env_now_ns env) path _ rqs E (Hok path rqs eq_refl E)) as (? & ? & ? & ? & ? & ? & ? & ? & ? & _ & _ & Hr & _).
      pose proof Hr as Hev. rewrite Hr, E. split; [by do 3 eexists|]. split; [done|]. intros status out er (-> & -> & ->). split_and!; try done.
      intros _. apply log_mode_ended. left. eauto.
  - split; [destruct mt_mode_defined as [out Ho]; by exists 0%N, out, []|]. split; [intros _; by apply mt_mode_ended|].
    intros status out err (-> & Ho & ->). split_and!; try done; [by intros [?|[? ?]]|]. intros _. by apply mt_mode_output.
  - destruct (scripted_demo_defined (env_now_ns env)) as (s & E & _). rewrite E. split; [by do 3 eexists|]. split; [done|]. intros status out err (-> & -> & ->).
    split_and!; try done. intros _. apply log_mode_ended. right. right. eauto.
Qed.
End outcomes.

(** A machine with two cores that grants the pinning and not the priority, and
    one file. *)
Definition sample_os : Os (list N) (list N) :=
  mkOs true [] (fun core cpus => core :: cpus) (fun cpus _ => (0%Z, cpus)) (fun _ kernel => (1%Z, kernel)).

#[export] Instance sample_os_laws : OsLaws sample_os id (fun _ => None).
Proof. split; done. Qed.

Definition sample_env : Env (list N) (list N) :=
  mkEnv (lit "lightninglob") (fun path => if decide (path = lit "orders.csv") then Some (csv_text true false demo_rows) else None) ticks
    (fun _ _ => 0%Z) (fun _ _ => 7%Z) 2 sample_os [].

Lemma main_outcomes_witness :
  (forall p i, (1 <= env_qty_dist sample_env p i <= 50)%Z) /\ mt_mode_ends sample_env [lit "mt-demo"] /\
  (exists status out err, main_run sample_env [lit "replay"; lit "orders.csv"] status out err) /\
  (choose_mode [lit "replay"; lit "orders.csv"] = MtMode -> mt_mode_ends sample_env [lit "replay"; lit "orders.csv"]) /\
  forall status out err, main_run sample_env [lit "replay"; lit "orders.csv"] status out err ->
    status = exit_status sample_env [lit "replay"; lit "orders.csv"] /\ (status = 0%N <-> err = []) /\
    (choose_mode [lit "replay"; lit "orders.csv"] = Scripted \/ (exists path, choose_mode [lit "replay"; lit "orders.csv"] = ReplayFile path) -> log_mode_ends out) /\
    (choose_mode [lit "replay"; lit "orders.csv"] = MtMode -> exists rs0 es w0 merged rs es' w' sb,
      spec_engine_run ticks bk_refuses bk_band (new_engine ∅) mt_setup eworld0 = (rs0, es, w0) /\
      (forall p os, demo_orders sample_env !! p = Some os -> handled_from p merged = os) /\
      spec_engine_run ticks bk_refuses bk_band es (XSubmit <$> (snd <$> merged)) (tick w0) = (rs, es', w') /\
      books_ es' !! 1%N = Some sb /\
      out = [Console mt_banner; Console (mt_affinity sample_env);
             Console (mt_summary 1000000 (elapsed_between ticks w0 w') (N.of_nat (length (orders (sb_book sb)))))]).
Proof.
  split; [intros p i; simpl; lia|]. split.
  { destruct (main_outcomes sample_env ltac:(intros p i; simpl; lia) [lit "mt-demo"]) as (_ & Hmt & _); [intros path rqs Hm; discriminate Hm|]. exact (Hmt eq_refl). }
  apply (main_outcomes sample_env); [intros p i; simpl; lia|].
  intros path rqs Hm E. assert (L : load_csv (env_file sample_env (lit "orders.csv")) = ret (row_request <$> demo_rows)) by (vm_compute; reflexivity).
  change (ReplayFile (lit "orders.csv") = ReplayFile path) in Hm. assert (Hp : path = lit "orders.csv") by congruence. rewrite Hp, L in E. injection E as <-. vm_compute. reflexivity.
Defined.

(** The command lines of the usage message, and a file that is not there. *)
Example statuses : exit_status sample_env <$> [[]; [lit "--help"]; [lit "replay"]; [lit "replay"; lit "orders.csv"]; [lit "replay"; lit "none.csv"]; [lit "mt-demo"]] =
  [0; 0; 1; 0; 1; 0]%N.
Proof. vm_compute. reflexivity. Qed.

Example affinity_lines : string_of_list_ascii (mt_affinity sample_env) =
  ("Matching thread: pinned to core 0 = true, SCHED_FIFO priority = false" ++ String newline EmptyString)%string.
Proof. vm_compute. reflexivity. Qed.

Example summary_lines : string_of_list_ascii (mt_summary 1000000 1250000000 12) =
  ("Processed 1000000 orders in 1250.000 ms (800000 orders/sec end-to-end through the lock-free gateway)" ++ String newline
   ("Final resting order count: 12" ++ String newline EmptyString))%string.
Proof. vm_compute. reflexivity. Qed.
